(* ===== verification/_CoqProject ===== *)
-Q . S2P
Prelude.v
Utils.v
Hex.v
Strings.v
SafeHash.v
Merkle.v
RandomGen.v
Ecdsa.v
Tx.v
Block.v
DB.v
Storage.v
RdPoS.v
State.v
SafeVars.v
SafeUints.v
SafeMapOps.v
SafeString.v
ABI.v
Contract.v
ERC20.v
ContractManager.v
Host.v
Wrapping.v
Backing.v
P2PEncoding.v
P2PManager.v
P2PNode.v
Syncer.v
RdPoSWorker.v
Network.v
Json.v
ByteStrings.v
RpcDecoding.v
Options.v
P2PSession.v
Discovery.v
RpcEncoding.v
Rpc.v
RpcProperties.v
HttpServer.v
Blockchain.v
Locks.v
LockOrder.v
SnowmanVM.v
