(* ===== verification/Prelude.v ===== *)
(** * Verification of the OrbiterSDK node

    The program (src/src/) is a blockchain node: hashes, addresses and
    transactions with their RLP and signatures (utils/); blocks, their storage
    and the random proof of stake that chooses who makes the next one (core/);
    contracts written in C++ that a transaction calls by ABI-encoded data
    (contract/); the P2P protocol by which nodes exchange blocks and
    transactions (net/p2p/); and the JSON-RPC server by which wallets ask for
    accounts and send transactions (net/http/).

    ** How the parts interact

    A block arrives as bytes in a P2P message.  [P2P::ManagerNormal] decodes it
    ([Block] parses its [TxBlock]s and [TxValidator]s, each recovers its sender
    through [Secp256k1]), asks [State] to validate it, which asks [rdPoS] for
    the round of Validators and checks every transaction against the accounts,
    and then to execute it: every transaction moves balances or calls the
    [ContractManager], which calls contracts whose variables are committed or
    reverted as a whole; [rdPoS] shuffles the Validators by the block's
    randomness; [Storage] appends the block and indexes it.  The manager then
    passes the message on.  The [Syncer] of the first Validator of the shuffled
    list makes the next block from the two mempools and broadcasts it.  A wallet
    sends its transaction as a hex string in a JSON-RPC request over HTTP; the
    server decodes it, offers it to [State] and broadcasts it to the peers.

    ** Files

    - Prelude.v: results of C++ code ([outcome]: a value, an exception,
      undefined behaviour), code that changes objects ([ST], with what was
      changed before a throw), machine integers, byte strings, hash maps, the
      invariant-keeping rules [keeps] with their tactic [keep_tac].
    - Utils.v, Hex.v, Strings.v, SafeHash.v, Merkle.v, RandomGen.v, Ecdsa.v,
      Tx.v, Block.v, DB.v, Storage.v, RdPoS.v, State.v: one per file of
      src/src/utils and src/src/core of that name (Strings.v also holds sha3 and
      checksums, Ecdsa.v the wrappers over libsecp256k1).
    - ByteStrings.v: what is left of Hex, the fixed-size strings and Utils: the
      comparisons, views, logs, random strings and the configuration file.
    - SafeVars.v: the Safe variables of contracts (contract/variables/).
      SafeUints.v: the five integer classes as records of operators and the
      functions of a contract that call them, against the class [UintLaws].
      SafeMapOps.v: the iterators, ranges, hints and node handles of
      SafeUnorderedMap.  SafeString.v: SafeString over a model of std::string.
    - ABI.v, Contract.v (contract.h, dynamiccontract.h), ERC20.v,
      ContractManager.v (the manager, ERC20Wrapper, NativeWrapper).
    - Host.v: the contract manager implements the interface [ContractHost] that
      State.v is proved against.  Wrapping.v: the specification of the native
      wrapper and its refinement, and the depth of calls between contracts.
      Backing.v: the wrapper together with the accounts of the State.
    - P2PEncoding.v (p2pencoding), P2PManager.v (p2pmanagerbase, -normal,
      -discovery; against the interface [ChainNode]), P2PNode.v (the State,
      rdPoS and Storage of a node implement it), Syncer.v (core/blockchain),
      RdPoSWorker.v (the thread of a Validator), Network.v (two nodes),
      P2PSession.v (the handlers of connections: handshake, reads, writes, and
      the server), Discovery.v (the thread that looks for peers).  The two
      threads are step relations over the manager: a place for every point where
      other threads can run, and any manager operation in between.
    - Json.v (JSON values, regular expressions and the operations of them the
      code calls), RpcDecoding.v and RpcEncoding.v (net/http/jsonrpc), Rpc.v
      (parseJsonRpcRequest and the answer queue of an HTTP session),
      RpcProperties.v (what a request does to the node), Options.v
      (utils/options: the options file over a restart), HttpServer.v (the
      listener and the server thread).
    - Blockchain.v: the whole node: construction, start, the syncer's thread and
      stop, as a step relation.
    - Locks.v: threads that take mutexes and access data, their interleavings,
      and a typing by rank and guard that excludes deadlocks and races.
      LockOrder.v: the mutexes and accesses of every function of the core and of
      the P2P managers as such threads.
    - SnowmanVM.v: the interface to AvalancheGo (core/snowmanVM), which the build
      leaves out, over the functions of blocks and storage that it uses.

    A definition has the name of the function it translates, prefixed by the
    class where that is ambiguous; a member [x_] or [_x] is a record field; an
    object passed by reference is passed and returned.  PROJECT.json maps every
    definition to its lines.

    ** What is shown

    - Data formats read back what they write: fixed-width integers, hex,
      RLP transactions, blocks (on any number of threads), ABI arguments, P2P
      messages, the database entries of accounts, chain and contracts over a
      restart; and what a parser accepts is authentic: the sender is the address
      the signature recovers, a broadcast id is the hash of its data, which
      changes with every byte.
    - The ledger: executing transfers is the ledger specification and burns
      exactly the fees; the mempools and the chain keep their invariants under
      every operation; validation of a round decides the specification
      [valid_round].
    - Threads: a Validator commits before it reveals, peers are not asked twice
      within a minute, both threads end when they are told to; a message handed
      to a session is one frame, however writers interleave.
    - A node starts, synchronizes and stops in order, and stopping ends the
      syncer from every place it can be in.
    - Locks: any number of threads that run the functions of the core never
      deadlock, and those that keep to the guards never race; the P2P manager
      has three interleavings that deadlock.
    - Contracts: programs over safe integers, strings and maps compute what they
      compute over plain ones, with exact results or exceptions, and are
      committed or reverted as a whole; a call does what its specification says
      or nothing; the supply of a token is conserved; the tokens of a native
      wrapper are covered by its native balance over every sequence of
      transactions.
    - The network: the sessions, requests and counters of a manager keep their
      types in every reachable state, a broadcast is written at most once to a
      session, a ready Validator gets its block out, and every node on the same
      chain takes it in with the same accounts and passes it on.
    - JSON-RPC: quantities read back, queries change nothing, a transaction
      sent by a wallet is in the mempool and written to every peer or is
      answered with an error, pipelined HTTP answers leave in the order of
      their requests; the options file gives the options back.
    - Loops end, or are shown not to: counting and decoding loops, calls between
      contracts, and the ordering loop of the block creator, which can run for
      ever.
    - Behaviour that looks unintended is a theorem too, and a finding of
      PROJECT.json: refunds that mint, replays within a block, leaking gas
      estimates, messages and headers that end the process, counters that
      drift, seeds revealed before all commitments are in, a discovery that
      forgets the discovery nodes.

    ** Fuel

    A [while] loop is a function on fuel: [count_txs], [nodes_loop] and
    [validatorTxs_loop] get one more than the size of the data, and the index
    grows in every round; [bytesRequired_loop] and [uintToBytes_loop] get the
    bits of the number; [iface_callContract] recurses on a depth that
    [nested_calls_end] shows does not matter from two on.  Running out is
    [Undef] and excluded by a theorem, except in [order_txs] (Syncer.v), where
    it is [None] and both outcomes are theorems, and in [ancestors_loop]
    (SnowmanVM.v), where one round per block is shown to be enough.

    ** Parameters

    Code outside the repository is a class of operations with the documented
    facts the proofs use, each with an executable instance for the witnesses:
    [Keccak] (digests of 32 bytes), [Secp256k1Lib] (formats of keys and
    signatures), [RocksDB] (an ordered map with iterators), [CheckedLeft] (the
    value a checked 256-bit integer keeps when an assignment throws),
    [HashMapOrder] (a loop over a hash map visits every entry once, in any
    order), [BoostIp] and [BoostIpText] (the address parser and printer),
    [LexicalCast] (boost's reading of numbers), [JsonText] (the JSON parser and
    printer), [Selectors] (the selectors of the native wrapper differ),
    [SnowChain] (the blocks that SnowmanVM was written for).  Random bytes,
    clocks, options and the number of hardware threads are arguments.  A char is a byte of 0 to 255; sizes are
    exact integers reduced where the code computes with 64 bits.

    ** Not modelled

    Sockets, timers and the wire format of HTTP and JSON, which are libraries.
    Outside LockOrder.v a function that runs under a lock is one step; the
    threads of blocks, the syncer, discovery, the Validator and the writes of a
    session are modelled with the points where others run.  The capacity of
    strings.  The gRPC server and client, of which the tree has declarations and
    generated types only, and blockchainRPC.cpp, an older JSON-RPC parser that
    is not built and calls functions that no longer exist.  The vendored
    libraries (nlohmann/json, Catch2, the thread pool) but for the operations of
    JSON values that the program calls.  The two main programs construct a node,
    start it and sleep. *)

From stdpp Require Export base tactics numbers list gmap strings option sorting.
From Stdlib Require Export ZArith Lia.

#[export] Set Default Proof Using "Type".
#[export] Set Default Goal Selector "!".
#[global] Open Scope string_scope.
#[global] Open Scope list_scope.
#[global] Open Scope Z_scope.

(** ** Results of C++ code

    A call returns a value, throws a [std::exception] that a caller may catch,
    or runs into undefined behaviour (an access outside a buffer, a read of an
    uninitialised member), after which nothing is promised. *)

Inductive exn : Type :=
  | runtime_error (what : string)
  | invalid_argument (what : string)
  | out_of_range
  | overflow_error
  | underflow_error
  | range_error
  | domain_error
  | bad_cast
  | future_error
  | json_exception (what : string)
  | length_error
  | system_error.

(** [e.what()]; the texts of the library's own exceptions are their names. *)
Definition what (e : exn) : string :=
  match e with
  | runtime_error s | invalid_argument s | json_exception s => s
  | out_of_range => "out_of_range"
  | overflow_error => "overflow_error"
  | underflow_error => "underflow_error"
  | range_error => "range_error"
  | domain_error => "domain_error"
  | bad_cast => "bad_cast"
  | future_error => "future_error"
  | length_error => "length_error"
  | system_error => "system_error"
  end.

Inductive outcome (A : Type) : Type :=
  | Ok (a : A)
  | Throw (e : exn)
  | Undef.
Arguments Ok {_} _.
Arguments Throw {_} _.
Arguments Undef {_}.

#[export] Instance exn_eq_dec : EqDecision exn.
Proof. solve_decision. Defined.

#[export] Instance outcome_eq_dec `{EqDecision A} : EqDecision (outcome A).
Proof. solve_decision. Defined.

#[export] Instance outcome_ret : MRet outcome := @Ok.
#[export] Instance outcome_bind : MBind outcome := λ A B f m,
  match m with Ok a => f a | Throw e => Throw e | Undef => Undef end.
#[export] Instance outcome_fmap : FMap outcome := λ A B f m,
  match m with Ok a => Ok (f a) | Throw e => Throw e | Undef => Undef end.

(** [if (c) throw e;] *)
Definition throw_if (c : bool) (e : exn) : outcome unit :=
  if c then Throw e else Ok tt.

(** [try { m } catch (std::exception& e) { h e }]: undefined behaviour is not
    an exception and is not caught. *)
Definition try_catch {A} (m : outcome A) (h : exn → outcome A) : outcome A :=
  match m with Throw e => h e | _ => m end.

(** A [for] loop over a container whose body may throw. *)
Fixpoint foldM {A B} (f : B → A → outcome B) (b : B) (l : list A) : outcome B :=
  match l with
  | [] => Ok b
  | a :: l => b' ← f b a; foldM f b' l
  end.

Definition of_option {A} (e : exn) (o : option A) : outcome A :=
  match o with Some a => Ok a | None => Throw e end.

(** ** Code that changes objects

    A function that changes objects and may throw: the objects are returned
    with the result, so that what was changed before a throw stays changed. *)
Definition ST (S A : Type) : Type := S → outcome A * S.

#[export] Instance ST_ret {S} : MRet (ST S) := λ A a s, (Ok a, s).
#[export] Instance ST_bind {S} : MBind (ST S) := λ A B f m s,
  match m s with
  | (Ok a, s') => f a s'
  | (Throw e, s') => (Throw e, s')
  | (Undef, s') => (Undef, s')
  end.

Definition lift {S A} (o : outcome A) : ST S A := λ s, (o, s).
Definition gets {S A} (f : S → A) : ST S A := λ s, (Ok (f s), s).
Definition modify {S} (f : S → S) : ST S unit := λ s, (Ok tt, f s).

(** [try { m } catch (std::exception& e) { h e }]: the handler runs on what
    [m] left behind. *)
Definition catching {S A} (m : ST S A) (h : exn → ST S A) : ST S A := λ s,
  match m s with (Throw e, s') => h e s' | r => r end.

(** [for (auto& x : l) f(x);] *)
Fixpoint each {S A} (f : A → ST S unit) (l : list A) : ST S unit :=
  match l with [] => mret tt | a :: l => _ ← f a; each f l end.

(** [op] keeps the invariant [P], whether it returns or throws, and what it
    returns satisfies [Q]. *)
Definition keeps {S A} (P : S → Prop) (op : ST S A) (Q : A → Prop) : Prop :=
  ∀ s, P s → P (op s).2 ∧ ∀ a, (op s).1 = Ok a → Q a.

Abbreviation any := (λ _, True).

(** ** Machine integers *)

(** An unsigned integer of [w] bits is a [Z] with [0 <= x < 2^w]; arithmetic
    on it is reduced by [wrap w]. *)
Definition is_uint (w x : Z) : Prop := 0 ≤ x < 2 ^ w.
Definition wrap (w x : Z) : Z := x mod 2 ^ w.

#[export] Instance is_uint_dec w x : Decision (is_uint w x).
Proof. unfold is_uint. apply _. Defined.

Abbreviation u8 := (wrap 8).
Abbreviation u16 := (wrap 16).
Abbreviation u32 := (wrap 32).
Abbreviation u64 := (wrap 64).

(** [uint256_t] is Boost's checked 256-bit [cpp_int]: arithmetic is exact, a
    result that does not fit throws [std::overflow_error] and a negative one
    [std::range_error]. *)
Definition checked (w x : Z) : outcome Z :=
  if x <? 0 then Throw range_error
  else if x <? 2 ^ w then Ok x else Throw overflow_error.

Definition add256 (a b : Z) : outcome Z := checked 256 (a + b).
Definition sub256 (a b : Z) : outcome Z := checked 256 (a - b).
Definition mul256 (a b : Z) : outcome Z := checked 256 (a * b).

(** A compound assignment that throws leaves its variable in a state that
    Boost does not document; these functions name it. *)
Class CheckedLeft := {
  left_by_add : Z → Z → Z;
  left_by_sub : Z → Z → Z;
}.

Definition toy_left : CheckedLeft := {| left_by_add _ _ := 0; left_by_sub _ _ := 0 |}.

(** [x += b] and [x -= b]: the result, and what [x] holds afterwards. *)
Definition add_assign `{CheckedLeft} (x b : Z) : outcome unit * Z :=
  match add256 x b with Ok v => (Ok tt, v) | Throw e => (Throw e, left_by_add x b) | Undef => (Undef, x) end.
Definition sub_assign `{CheckedLeft} (x b : Z) : outcome unit * Z :=
  match sub256 x b with Ok v => (Ok tt, v) | Throw e => (Throw e, left_by_sub x b) | Undef => (Undef, x) end.

(** ** Byte strings

    [std::string], [std::string_view] and fixed-size buffers are lists of
    bytes; a byte is a [Z] below 256. *)
Abbreviation bytes := (list Z).

Definition is_byte (b : Z) : Prop := 0 ≤ b < 256.
#[export] Instance is_byte_dec b : Decision (is_byte b).
Proof. unfold is_byte. apply _. Defined.
Abbreviation bytes_ok := (Forall is_byte).

Definition zlen {A} (s : list A) : Z := Z.of_nat (length s).

(** A literal of the source. *)
Definition str (s : string) : bytes :=
  (λ a, Z.of_N (Ascii.N_of_ascii a)) <$> String.list_ascii_of_string s.

(** [s[i]] on a [std::string]: position [size()] holds the terminating NUL,
    anything beyond is undefined. *)
Definition at_str (s : bytes) (i : Z) : outcome Z :=
  if bool_decide (0 ≤ i < zlen s) then Ok (default 0 (s !! Z.to_nat i))
  else if i =? zlen s then Ok 0 else Undef.

(** [s[i]] on a [std::string_view] or a [std::vector]: defined below [size()]
    only. *)
Definition at_view {A} (s : list A) (i : Z) : outcome A :=
  if bool_decide (0 ≤ i) then
    match s !! Z.to_nat i with Some b => Ok b | None => Undef end
  else Undef.

(** [s.substr(pos, n)]. *)
Definition substr (s : bytes) (pos n : Z) : outcome bytes :=
  if pos <=? zlen s then Ok (take (Z.to_nat n) (drop (Z.to_nat pos) s))
  else Throw out_of_range.

(** [std::string_view(&s[pos], n)]. *)
Definition view (s : bytes) (pos n : Z) : outcome bytes :=
  if bool_decide (0 ≤ pos < zlen s ∧ 0 ≤ n ∧ pos + n ≤ zlen s)
  then Ok (take (Z.to_nat n) (drop (Z.to_nat pos) s)) else Undef.

(** [operator<] of [std::string]: lexicographic, bytes compared unsigned. *)
Fixpoint bytes_ltb (a b : bytes) : bool :=
  match a, b with
  | _, [] => false
  | [], _ :: _ => true
  | x :: a, y :: b => (x <? y) || ((x =? y) && bytes_ltb a b)
  end.

Definition std_min (a b : bytes) : bytes := if bytes_ltb b a then b else a.
Definition std_max (a b : bytes) : bytes := if bytes_ltb a b then b else a.

(** [s.resize(n)]: cut, or filled with NULs. *)
Definition resize_str (n : nat) (s : bytes) : bytes :=
  take n s ++ replicate (n - length s) 0.

(** ** Hash maps

    A [std::unordered_map] keyed by an address or a hash is a [gmap]; a loop
    over it visits every entry once, in an order the library chooses. *)
Class HashMapOrder := {
  iter_map {A : Type} : gmap bytes A → list (bytes * A);
  iter_map_perm {A : Type} (m : gmap bytes A) : iter_map m ≡ₚ map_to_list m;
}.

(** One such order. *)
Definition toy_order : HashMapOrder := {|
  iter_map A m := map_to_list m;
  iter_map_perm A m := Permutation_refl _;
|}.

(** ** Positional notation in base 256 *)

Definition be_val (l : bytes) : Z := foldl (λ acc b, acc * 256 + b) 0 l.

Fixpoint be_split (n : nat) (v : Z) : bytes :=
  match n with
  | O => []
  | S n => be_split n (v / 256) ++ [v mod 256]
  end.

Fixpoint le_split (n : nat) (v : Z) : bytes :=
  match n with
  | O => []
  | S n => v mod 256 :: le_split n (v / 256)
  end.

Fixpoint le_val (l : bytes) : Z :=
  match l with [] => 0 | b :: l => b + 256 * le_val l end.

(** ** Automation *)

Create HintDb orbiter discriminated.
Create Rewrite HintDb orbiter.

Lemma Ok_inj {A} (x y : A) : Ok x = Ok y → x = y.
Proof. by injection 1. Qed.

Lemma Ok_bind {A B} (a : A) (f : A → outcome B) : (Ok a ≫= f) = f a.
Proof. done. Qed.

Lemma bind_Ok {A B} (m : outcome A) (f : A → outcome B) b :
  (m ≫= f) = Ok b ↔ ∃ a, m = Ok a ∧ f a = Ok b.
Proof. destruct m; simpl; naive_solver. Qed.

Lemma throw_if_Ok c e u : throw_if c e = Ok u ↔ c = false.
Proof. destruct c, u; simpl; naive_solver. Qed.

Lemma try_catch_Ok {A} (m : outcome A) h a :
  try_catch m h = Ok a ↔ m = Ok a ∨ ∃ e, m = Throw e ∧ h e = Ok a.
Proof. destruct m; simpl; naive_solver. Qed.

(** Inverts a hypothesis that a chain of guarded steps returned. *)
Ltac inv_ok_step :=
  match goal with
  | H : Ok _ = Ok _ |- _ => injection H as H; try subst
  | H : Throw _ = Ok _ |- _ => discriminate H
  | H : Undef = Ok _ |- _ => discriminate H
  | H : mret _ = Ok _ |- _ => unfold mret, outcome_ret in H
  | H : throw_if _ _ = Ok _ |- _ => apply throw_if_Ok in H
  | H : (_ ≫= _) = Ok _ |- _ => apply bind_Ok in H as (? & ? & H)
  | H : (if ?b then _ else Throw _) = Ok _ |- _ => destruct b eqn:?
  | H : (if ?b then _ else Undef) = Ok _ |- _ => destruct b eqn:?
  | H : (if ?b then Throw _ else _) = Ok _ |- _ => destruct b eqn:?
  | x : (_ * _)%type |- _ => destruct x
  | x : unit |- _ => destruct x
  end.
Ltac inv_ok := repeat (inv_ok_step; cbn beta iota zeta in *).

(** Turns boolean comparisons of [Z] into propositions. *)
Ltac zify_bool :=
  repeat match goal with
  | H : (_ && _)%bool = true |- _ => apply andb_true_iff in H as [? ?]
  | H : (_ || _)%bool = false |- _ => apply orb_false_iff in H as [? ?]
  | H : negb _ = true |- _ => apply negb_true_iff in H
  | H : negb _ = false |- _ => apply negb_false_iff in H
  | H : (_ =? _) = true |- _ => apply Z.eqb_eq in H
  | H : (_ =? _) = false |- _ => apply Z.eqb_neq in H
  | H : (_ <? _) = true |- _ => apply Z.ltb_lt in H
  | H : (_ <? _) = false |- _ => apply Z.ltb_ge in H
  | H : (_ <=? _) = true |- _ => apply Z.leb_le in H
  | H : (_ <=? _) = false |- _ => apply Z.leb_gt in H
  | H : bool_decide _ = true |- _ => apply bool_decide_eq_true in H
  | H : bool_decide _ = false |- _ => apply bool_decide_eq_false in H
  end.

(** Case analysis on the integer comparison at the head of the goal. *)
Ltac zcase :=
  match goal with
  | |- context [?a =? ?b] => destruct (Z.eqb_spec a b)
  | |- context [?a <? ?b] => destruct (Z.ltb_spec a b)
  | |- context [?a <=? ?b] => destruct (Z.leb_spec a b)
  | |- context [bool_decide ?P] => destruct (bool_decide_reflect P)
  end.

(** ** Lemmas on code that changes objects *)

Lemma lift_bind {S A B} (o : outcome A) (f : A → ST S B) s :
  (lift o ≫= f) s = match o with Ok a => f a s | Throw e => (Throw e, s) | Undef => (Undef, s) end.
Proof. by destruct o. Qed.

Lemma gets_bind {S A B} (g : S → A) (f : A → ST S B) s : (gets g ≫= f) s = f (g s) s.
Proof. done. Qed.

Lemma modify_bind {S B} (g : S → S) (f : unit → ST S B) s : (modify g ≫= f) s = f tt (g s).
Proof. done. Qed.

Section Keeps.
Context {S : Type} (P : S → Prop).

Lemma keeps_bind {A B} (op : ST S A) (f : A → ST S B) Q R :
  keeps P op Q → (∀ a, Q a → keeps P (f a) R) → keeps P (op ≫= f) R.
Proof.
  intros Hop Hf s Hs. destruct (Hop s Hs) as [Hp Hq]. unfold mbind, ST_bind.
  destruct (op s) as [[a|e|] s'] eqn:E; cbn in *; [|done..]. by apply Hf; [apply Hq|].
Qed.

Lemma keeps_lift {A} (o : outcome A) : keeps P (lift o) any.
Proof. by intros s Hs. Qed.

Lemma keeps_lift_eq {A} (o : outcome A) : keeps P (lift o) (λ a, o = Ok a).
Proof. by intros s Hs. Qed.

Lemma keeps_ret {A} (a : A) : keeps P (mret a) any.
Proof. by intros s Hs. Qed.

Lemma keeps_gets {A} (f : S → A) : keeps P (gets f) any.
Proof. by intros s Hs. Qed.

Lemma keeps_modify (f : S → S) : (∀ s, P s → P (f s)) → keeps P (modify f) any.
Proof. intros Hf s Hs. split; [by apply Hf|done]. Qed.

Lemma keeps_catching {A} (op : ST S A) h Q : keeps P op Q → (∀ e, keeps P (h e) Q) → keeps P (catching op h) Q.
Proof.
  intros Hop Hh s Hs. unfold catching. pose proof (Hop s Hs) as Hp.
  destruct (op s) as [[a|e|] s'] eqn:E; [done| |done]. apply Hh, Hp.
Qed.

Lemma keeps_each {A} (f : A → ST S unit) l : (∀ a, a ∈ l → keeps P (f a) any) → keeps P (each f l) any.
Proof.
  induction l as [|a l IH]; intros Hf; [by intros s Hs|]. cbn [each].
  eapply keeps_bind; [apply Hf; left|]. intros _ _. apply IH. intros a' Ha'. apply Hf. by right.
Qed.

Lemma keeps_any {A} (op : ST S A) Q : keeps P op Q → keeps P op any.
Proof. intros Hop s Hs. split; [by apply Hop|done]. Qed.

End Keeps.

Create HintDb keep.
#[export] Hint Resolve keeps_lift keeps_ret keeps_gets : keep.

(** Walks through the code. *)
Ltac keep_tac :=
  repeat first
    [ solve [eauto with keep]
    | eapply keeps_bind; [|intros ? _]
    | apply keeps_catching; [|intros ?]
    | case_match ].

(** ** Lemmas on machine integers and maps *)

Lemma checked_Ok w x v : checked w x = Ok v → v = x ∧ 0 ≤ x < 2 ^ w.
Proof. unfold checked. repeat zcase; try done. intros [= ->]. lia. Qed.

Lemma add256_Ok x y : 0 ≤ x + y < 2 ^ 256 → add256 x y = Ok (x + y).
Proof. intros. unfold add256, checked. repeat zcase; [lia|done|lia]. Qed.

Lemma sub256_Ok x y : 0 ≤ x - y < 2 ^ 256 → sub256 x y = Ok (x - y).
Proof. intros. unfold sub256, checked. repeat zcase; [lia|done|lia]. Qed.

Lemma iter_map_elem `{HashMapOrder} {A} (m : gmap bytes A) k v : (k, v) ∈ iter_map m ↔ m !! k = Some v.
Proof. rewrite iter_map_perm. apply elem_of_map_to_list. Qed.

Lemma iter_map_NoDup `{HashMapOrder} {A} (m : gmap bytes A) : NoDup (iter_map m).*1.
Proof. rewrite iter_map_perm. apply NoDup_fst_map_to_list. Qed.

(** Inserting the entries of a list one by one. *)
Lemma foldl_insert {A} (l : list (bytes * A)) (m : gmap bytes A) :
  foldl (λ m e, <[e.1 := e.2]> m) m l = list_to_map (reverse l) ∪ m.
Proof.
  revert m. induction l as [|[k v] l IH]; intros m; cbn [foldl fst snd].
  - by rewrite reverse_nil, list_to_map_nil, (left_id_L ∅ (∪)).
  - rewrite IH, reverse_cons, list_to_map_app, <-(assoc_L (∪)). f_equal.
    by rewrite list_to_map_cons, list_to_map_nil, insert_empty, <-insert_union_singleton_l.
Qed.

(** Rebuilding a map from a loop over it. *)
Lemma foldl_insert_iter `{HashMapOrder} {A} (m : gmap bytes A) :
  foldl (λ m e, <[e.1 := e.2]> m) ∅ (iter_map m) = m.
Proof.
  rewrite foldl_insert, (right_id_L ∅ (∪)).
  rewrite <-(list_to_map_to_list m) at 2. apply list_to_map_proper.
  - rewrite fmap_reverse, reverse_Permutation. apply iter_map_NoDup.
  - by rewrite reverse_Permutation, iter_map_perm.
Qed.

(** ** Lemmas on byte strings *)

Lemma zlen_nonneg {A} (l : list A) : 0 ≤ zlen l.
Proof. unfold zlen. lia. Qed.

Lemma zlen_app {A} (l k : list A) : zlen (l ++ k) = zlen l + zlen k.
Proof. unfold zlen. rewrite length_app. lia. Qed.

Lemma zlen_cons {A} (x : A) l : zlen (x :: l) = 1 + zlen l.
Proof. unfold zlen. simpl. lia. Qed.

Lemma zlen_nil {A} : zlen (@nil A) = 0.
Proof. reflexivity. Qed.

Lemma zlen_of_length {A} (l : list A) n : length l = n → zlen l = Z.of_nat n.
Proof. by intros <-. Qed.

#[export] Hint Rewrite @zlen_app @zlen_cons @zlen_nil : orbiter.
#[export] Hint Resolve zlen_nonneg : orbiter.

(** Solves goals about lengths. *)
Ltac zlen_solve :=
  autorewrite with orbiter in *; unfold zlen in *;
  rewrite ?length_app, ?length_take, ?length_drop, ?length_replicate in *;
  simpl in *; lia.

(** A read at the boundary between a known prefix and the rest. *)
Lemma at_view_mid {A} (pre : list A) b post :
  at_view (pre ++ b :: post) (zlen pre) = Ok b.
Proof.
  unfold at_view, zlen. rewrite bool_decide_true by lia.
  rewrite Nat2Z.id, list_lookup_middle by done. done.
Qed.

Lemma take_drop_mid {A} (pre mid post : list A) :
  take (length mid) (drop (length pre) (pre ++ mid ++ post)) = mid.
Proof. by rewrite drop_app_length, take_app_length. Qed.

Lemma substr_mid (pre mid post : bytes) :
  substr (pre ++ mid ++ post) (zlen pre) (zlen mid) = Ok mid.
Proof.
  unfold substr. destruct (Z.leb_spec (zlen pre) (zlen (pre ++ mid ++ post))); [|zlen_solve].
  unfold zlen. rewrite !Nat2Z.id. by rewrite take_drop_mid.
Qed.

(** The same with the positions given by equations. *)
Lemma substr_at (s pre mid post : bytes) i n :
  s = pre ++ mid ++ post → i = zlen pre → n = zlen mid → substr s i n = Ok mid.
Proof. intros -> -> ->. apply substr_mid. Qed.

Lemma view_mid (pre mid post : bytes) :
  0 < zlen (mid ++ post) →
  view (pre ++ mid ++ post) (zlen pre) (zlen mid) = Ok mid.
Proof.
  intros H. unfold view. rewrite bool_decide_true.
  - unfold zlen. rewrite !Nat2Z.id. by rewrite take_drop_mid.
  - rewrite !zlen_app in *. pose proof (zlen_nonneg pre). pose proof (zlen_nonneg mid).
    pose proof (zlen_nonneg post). lia.
Qed.

Lemma view_at (s pre mid post : bytes) i n :
  s = pre ++ mid ++ post → i = zlen pre → n = zlen mid →
  0 < zlen (mid ++ post) → view s i n = Ok mid.
Proof. intros -> -> ->. apply view_mid. Qed.

Lemma at_view_at {A} (s pre : list A) b post i :
  s = pre ++ b :: post → i = zlen pre → at_view s i = Ok b.
Proof. intros -> ->. apply at_view_mid. Qed.

(** A cursor: [i] is the position in [d] from which [rest] remains. *)
Definition at_pos {A} (d : list A) (i : Z) (rest : list A) : Prop :=
  ∃ pre, d = pre ++ rest ∧ i = zlen pre.

Lemma at_pos_0 {A} (d : list A) : at_pos d 0 d.
Proof. by exists []. Qed.

Lemma at_pos_app {A} (d mid post : list A) i j :
  at_pos d i (mid ++ post) → j = i + zlen mid → at_pos d j post.
Proof.
  intros (pre & -> & ->) ->. exists (pre ++ mid). by rewrite <-app_assoc, zlen_app.
Qed.

Lemma at_pos_bounds {A} (d rest : list A) i :
  at_pos d i rest → 0 ≤ i ∧ i + zlen rest = zlen d.
Proof. intros (pre & -> & ->). rewrite zlen_app. pose proof (zlen_nonneg pre). lia. Qed.

Lemma at_view_pos {A} (d : list A) i b post :
  at_pos d i (b :: post) → at_view d i = Ok b ∧ at_pos d (i + 1) post.
Proof.
  intros Hp. split; [|by apply (at_pos_app d [b] post i)].
  destruct Hp as (pre & -> & ->). apply at_view_mid.
Qed.

Lemma view_pos (d : bytes) i n mid post :
  at_pos d i (mid ++ post) → n = zlen mid → 0 < zlen (mid ++ post) →
  view d i n = Ok mid ∧ at_pos d (i + n) post.
Proof.
  intros Hp -> Hn. split; [|by eapply at_pos_app].
  destruct Hp as (pre & -> & ->). by apply view_mid.
Qed.

Lemma substr_pos (d : bytes) i n mid post :
  at_pos d i (mid ++ post) → n = zlen mid → substr d i n = Ok mid ∧ at_pos d (i + n) post.
Proof.
  intros Hp ->. split; [|by eapply at_pos_app].
  destruct Hp as (pre & -> & ->). apply substr_mid.
Qed.

Lemma substr_Ok_le (s : bytes) i n r :
  substr s i n = Ok r → i ≤ zlen s.
Proof. unfold substr. intros ?. inv_ok. zify_bool. lia. Qed.

Lemma substr_length_le (s : bytes) i n r :
  substr s i n = Ok r → 0 ≤ n → zlen r ≤ n ∧ zlen r ≤ zlen s.
Proof. unfold substr. intros ? ?. inv_ok. zify_bool. zlen_solve. Qed.

Lemma resize_str_length n s : length (resize_str n s) = n.
Proof. unfold resize_str. rewrite length_app, length_take, length_replicate. lia. Qed.

Lemma resize_str_id n s : length s = n → resize_str n s = s.
Proof. intros <-. unfold resize_str. by rewrite Nat.sub_diag, firstn_all, app_nil_r. Qed.

Lemma resize_str_ok n s : bytes_ok s → bytes_ok (resize_str n s).
Proof.
  intros H. unfold resize_str. apply Forall_app. split.
  - by apply Forall_take.
  - apply Forall_replicate. unfold is_byte. lia.
Qed.

Lemma bytes_ltb_irrefl a : bytes_ltb a a = false.
Proof. induction a as [|x a IH]; [done|]. simpl. rewrite Z.ltb_irrefl, Z.eqb_refl. done. Qed.

Lemma bytes_ltb_asym a b : bytes_ltb a b = true → bytes_ltb b a = false.
Proof.
  revert b. induction a as [|x a IH]; intros [|y b]; simpl; try done.
  repeat zcase; simpl; try lia; try done; auto.
Qed.

Lemma bytes_ltb_total a b : bytes_ltb a b = false → bytes_ltb b a = false → a = b.
Proof.
  revert b. induction a as [|x a IH]; intros [|y b]; simpl; try done.
  repeat zcase; simpl; try lia; try done. intros. f_equal; [lia|auto].
Qed.

(** [std::min]/[std::max] of a pair do not depend on its order. *)
Lemma std_min_comm a b : std_min a b = std_min b a.
Proof.
  unfold std_min. destruct (bytes_ltb b a) eqn:E1, (bytes_ltb a b) eqn:E2; try done.
  - apply bytes_ltb_asym in E1. congruence.
  - by apply bytes_ltb_total.
Qed.

Lemma std_max_comm a b : std_max a b = std_max b a.
Proof.
  unfold std_max. destruct (bytes_ltb b a) eqn:E1, (bytes_ltb a b) eqn:E2; try done.
  - apply bytes_ltb_asym in E1. congruence.
  - symmetry. by apply bytes_ltb_total.
Qed.

(** ** Lemmas on positional notation *)

Lemma be_val_snoc l b : be_val (l ++ [b]) = be_val l * 256 + b.
Proof. unfold be_val. by rewrite foldl_app. Qed.

Lemma be_split_length n v : length (be_split n v) = n.
Proof. revert v. induction n; intros; simpl; [done|]. rewrite length_app, IHn. simpl. lia. Qed.

Lemma be_split_zlen n v : zlen (be_split n v) = Z.of_nat n.
Proof. unfold zlen. by rewrite be_split_length. Qed.

Lemma be_split_ok n v : bytes_ok (be_split n v).
Proof.
  revert v. induction n; intros; simpl; [done|].
  apply Forall_app. split; [auto|]. constructor; [|done].
  unfold is_byte. pose proof (Z.mod_pos_bound v 256). lia.
Qed.

Lemma pow256_succ n : 2 ^ (8 * Z.of_nat (S n)) = 256 * 2 ^ (8 * Z.of_nat n).
Proof. rewrite Nat2Z.inj_succ. replace (8 * Z.succ (Z.of_nat n)) with (8 + 8 * Z.of_nat n) by lia.
  rewrite Z.pow_add_r by lia. done. Qed.

Lemma be_val_split n v : be_val (be_split n v) = v mod 2 ^ (8 * Z.of_nat n).
Proof.
  revert v. induction n as [|n IH]; intros v.
  - simpl. by rewrite Z.mod_1_r.
  - rewrite pow256_succ. cbn [be_split]. rewrite be_val_snoc, IH.
    rewrite Z.rem_mul_r by lia. lia.
Qed.

Lemma be_val_split_small n v :
  0 ≤ v < 2 ^ (8 * Z.of_nat n) → be_val (be_split n v) = v.
Proof. intros. rewrite be_val_split. by apply Z.mod_small. Qed.

Lemma be_val_bound l : bytes_ok l → 0 ≤ be_val l < 2 ^ (8 * zlen l).
Proof.
  induction l as [|b l IH] using rev_ind; intros H.
  - unfold zlen. simpl. unfold be_val. simpl. lia.
  - apply Forall_app in H as [Hl Hb]. rewrite Forall_singleton in Hb. specialize (IH Hl).
    rewrite be_val_snoc. unfold zlen in *. rewrite length_app. cbn [length].
    replace (length l + 1)%nat with (S (length l)) by lia. rewrite pow256_succ.
    unfold is_byte in Hb. lia.
Qed.

Lemma be_split_val l n : bytes_ok l → length l = n → be_split n (be_val l) = l.
Proof.
  revert n. induction l as [|b l IH] using rev_ind; intros n H <-; [done|].
  apply Forall_app in H as [Hl Hb]. rewrite Forall_singleton in Hb. unfold is_byte in Hb.
  rewrite be_val_snoc, length_app. cbn [length].
  replace (length l + 1)%nat with (S (length l)) by lia. cbn [be_split].
  rewrite Z.div_add_l by lia. rewrite Z.div_small, Z.add_0_r by lia.
  rewrite (IH (length l)) by done.
  rewrite Z.add_comm, Z.mod_add, Z.mod_small by lia. done.
Qed.

Lemma le_split_be n v : reverse (le_split n v) = be_split n v.
Proof.
  revert v. induction n as [|n IH]; intros v; [done|].
  cbn [le_split be_split]. by rewrite reverse_cons, IH.
Qed.

Lemma le_val_be l : le_val l = be_val (reverse l).
Proof.
  induction l as [|b l IH]; [done|]. cbn [le_val]. rewrite reverse_cons, be_val_snoc, IH. lia.
Qed.

#[export] Hint Resolve be_split_ok resize_str_ok : orbiter.
#[export] Hint Rewrite be_split_length resize_str_length : orbiter.
