(* ===== verification/Utils.v ===== *)
(** * Utils: integer/byte conversions, padding and accounts (src/utils/utils.{h,cpp})

    The conversions of namespace [Utils] on a little-endian host ([memcpy] of
    an integer yields its bytes least significant first), the padding helpers,
    the big-endian folds used by every deserialiser, and [struct Account].
    Logging, [readConfigFile] and [randBytes] are in ByteStrings.v. *)

From S2P Require Import Prelude.

(** ** Conversions *)

(** Boost's [export_bits(v, out, 8)]: the bytes of the magnitude, most
    significant first, at least one. *)
Definition export_bits (v : Z) : bytes :=
  if v =? 0 then [0] else be_split (Z.to_nat (Z.log2 v / 8 + 1)) v.

(** [for (i = 0; i < tmp.size(); i++) ret[n - 1 - i] = tmp[tmp.size() - i - 1];] *)
Definition copy_right (n : nat) (ret tmp : bytes) : bytes :=
  foldl (λ r i, <[(n - 1 - i)%nat := default 0 (tmp !! (length tmp - i - 1)%nat)]> r)
    ret (seq 0 (length tmp)).

Definition uint256ToBytes (i : Z) : bytes :=
  copy_right 32 (replicate 32 0) (export_bits i).

Definition bytesToUint256 (b : bytes) : outcome Z :=
  _ ← throw_if (negb (zlen b =? 32))
        (runtime_error "bytesToUint256: Invalid bytes size - expected 32");
  Ok (be_val b).

Definition uint160ToBytes (i : Z) : bytes :=
  copy_right 20 (replicate 20 0) (export_bits i).

Definition bytesToUint160 (b : bytes) : outcome Z :=
  _ ← throw_if (negb (zlen b =? 20))
        (runtime_error "bytesToUint160: Invalid bytes size - expected 20");
  Ok (be_val b).

(** [__builtin_bswapN] on an integer of [n] bytes. *)
Definition bswap (n : nat) (v : Z) : Z := le_val (reverse (le_split n v)).

Definition uint64ToBytes (i : Z) : bytes := reverse (le_split 8 i).

Definition bytesToUint64 (b : bytes) : outcome Z :=
  _ ← throw_if (negb (zlen b =? 8))
        (runtime_error "bytesToUint64: Invalid bytes size - expected 8");
  Ok (bswap 8 (le_val b)).

Definition uint32ToBytes (i : Z) : bytes := reverse (le_split 4 i).

Definition bytesToUint32 (b : bytes) : outcome Z :=
  _ ← throw_if (negb (zlen b =? 4))
        (runtime_error "bytesToUint32: Invalid bytes size - expected 4");
  Ok (bswap 4 (le_val b)).

Definition uint16ToBytes (i : Z) : bytes := reverse (le_split 2 i).

Definition bytesToUint16 (b : bytes) : outcome Z :=
  _ ← throw_if (negb (zlen b =? 2))
        (runtime_error "bytesToUint16: Invalid bytes size - expected 2");
  Ok (bswap 2 (le_val b)).

Definition uint8ToBytes (i : Z) : bytes := le_split 1 i.

Definition bytesToUint8 (b : bytes) : outcome Z :=
  _ ← throw_if (negb (zlen b =? 1))
        (runtime_error "bytesToUint8: Invalid bytes size - expected 1");
  at_view b 0.

(** ** Padding *)

Definition hasPrefix (s : bytes) : bool :=
  bool_decide (take 2 s = str "0x") || bool_decide (take 2 s = str "0X").

(** [padding] and [padded] of the four functions below. *)
Definition padding (s : bytes) (charAmount sign : Z) : bytes :=
  replicate (if zlen s <? charAmount then Z.to_nat (charAmount - zlen s) else 0) sign.

Definition padLeft (s : bytes) (charAmount sign : Z) : bytes :=
  let hp := hasPrefix s in
  let s := if hp then drop 2 s else s in
  (if hp then str "0x" else []) ++ padding s charAmount sign ++ s.

Definition padRight (s : bytes) (charAmount sign : Z) : bytes :=
  let hp := hasPrefix s in
  let s := if hp then drop 2 s else s in
  (if hp then str "0x" else []) ++ s ++ padding s charAmount sign.

Definition padLeftBytes (s : bytes) (charAmount sign : Z) : bytes :=
  padding s charAmount sign ++ s.

Definition padRightBytes (s : bytes) (charAmount sign : Z) : bytes :=
  s ++ padding s charAmount sign.

(** ** Big-endian folds *)

(** [fromBigEndian<T>] for a built-in [T] of [w] bits: the shift drops the
    high bits. *)
Definition fromBigEndian (w : Z) (b : bytes) : Z :=
  foldl (λ ret i, wrap w (Z.lor (Z.shiftl ret 8) i)) 0 b.

(** [fromBigEndian<uint256_t>]: the checked shift throws when it would drop
    bits. *)
Definition fromBigEndian256 (b : bytes) : outcome Z :=
  foldM (λ ret i, r ← checked 256 (Z.shiftl ret 8); Ok (Z.lor r i)) 0 b.

(** [for (; i != 0; ++ic, i >>= 8) {}]: the fuel bounds the number of bits. *)
Fixpoint bytesRequired_loop (fuel : nat) (i ic : Z) : Z :=
  match fuel with
  | O => ic
  | S fuel => if i =? 0 then ic else bytesRequired_loop fuel (Z.shiftr i 8) (ic + 1)
  end.

Definition bytesRequired (i : Z) : Z :=
  bytesRequired_loop (S (Z.to_nat (Z.log2 i))) i 0.

(** [for (; i; i >>= 8) *(b--) = (uint8_t)(i & 0xff);] with [b] the position
    of the byte to write next. *)
Fixpoint uintToBytes_loop (fuel : nat) (b i : Z) (ret : bytes) : bytes :=
  match fuel with
  | O => ret
  | S fuel =>
      if i =? 0 then ret
      else uintToBytes_loop fuel (b - 1) (Z.shiftr i 8)
             (<[Z.to_nat b := Z.land i 255]> ret)
  end.

Definition uintToBytes (i : Z) : bytes :=
  let n := bytesRequired i in
  uintToBytes_loop (S (Z.to_nat (Z.log2 i))) (n - 1) i (replicate (Z.to_nat n) 0).

(** ** Case conversion *)

Definition tolower (c : Z) : Z := if bool_decide (65 ≤ c ≤ 90) then c + 32 else c.
Definition toupper (c : Z) : Z := if bool_decide (97 ≤ c ≤ 122) then c - 32 else c.

Definition toLower (s : bytes) : bytes := tolower <$> s.
Definition toUpper (s : bytes) : bytes := toupper <$> s.

(** ** Accounts *)

Record Account := mkAccount { balance : Z; nonce : Z }.

(** The default constructor. *)
Definition emptyAccount : Account := mkAccount 0 0.

#[export] Instance Account_eq_dec : EqDecision Account.
Proof. solve_decision. Defined.

(** * Lemmas *)

Lemma copy_right_prefix n ret tmp k :
  (n ≤ length ret)%nat → (length tmp ≤ n)%nat → (k ≤ length tmp)%nat →
  foldl (λ r i, <[(n - 1 - i)%nat := default 0 (tmp !! (length tmp - i - 1)%nat)]> r)
    ret (seq 0 k)
  = take (n - k) ret ++ drop (length tmp - k) tmp ++ drop n ret.
Proof.
  intros Hr Ht. induction k as [|k IH]; intros Hk.
  - simpl. rewrite Nat.sub_0_r, Nat.sub_0_r, drop_all. cbn [app]. by rewrite take_drop.
  - rewrite seq_S, foldl_app, IH by lia. cbn [foldl plus].
    destruct (lookup_lt_is_Some_2 tmp (length tmp - k - 1)) as [x Hx]; [lia|].
    rewrite Hx. cbn [default from_option id].
    replace (n - k)%nat with (S (n - 1 - k)) by lia.
    destruct (lookup_lt_is_Some_2 ret (n - 1 - k)) as [y Hy]; [lia|].
    rewrite (take_S_r _ _ y) by done.
    rewrite <-app_assoc. rewrite insert_app_r_alt by (rewrite length_take; lia).
    rewrite length_take, Nat.min_l by lia. rewrite Nat.sub_diag. cbn [insert list_insert app].
    replace (n - S k)%nat with (n - 1 - k)%nat by lia. f_equal.
    replace (length tmp - S k)%nat with (length tmp - k - 1)%nat by lia.
    rewrite (drop_S tmp x (length tmp - k - 1)) by done.
    replace (S (length tmp - k - 1)) with (length tmp - k)%nat by lia. done.
Qed.

Lemma copy_right_spec n ret tmp :
  (n ≤ length ret)%nat → (length tmp ≤ n)%nat →
  copy_right n ret tmp = take (n - length tmp) ret ++ tmp ++ drop n ret.
Proof.
  intros. unfold copy_right. rewrite copy_right_prefix by lia.
  by rewrite Nat.sub_diag, drop_0.
Qed.

Lemma be_split_zero k : be_split k 0 = replicate k 0.
Proof.
  induction k as [|k IH]; [done|]. cbn [be_split]. change (0 / 256) with 0.
  rewrite IH. change (0 mod 256) with 0.
  replace (S k) with (k + 1)%nat by lia. by rewrite replicate_add.
Qed.

(** Widening a big-endian numeral adds zeros in front. *)
Lemma be_split_widen k n v :
  0 ≤ v < 2 ^ (8 * Z.of_nat n) → be_split (k + n) v = replicate k 0 ++ be_split n v.
Proof.
  revert v. induction n as [|n IH]; intros v Hv.
  - assert (v = 0) as -> by (simpl in Hv; lia). rewrite Nat.add_0_r, app_nil_r. apply be_split_zero.
  - rewrite Nat.add_succ_r. cbn [be_split]. rewrite pow256_succ in Hv.
    rewrite IH, app_assoc; [done|]. split; [apply Z.div_pos; lia|].
    apply Z.div_lt_upper_bound; lia.
Qed.

(** The number of base-256 digits of a positive number. *)
Lemma digits_bound v :
  0 < v → 0 ≤ v < 2 ^ (8 * Z.of_nat (Z.to_nat (Z.log2 v / 8 + 1))).
Proof.
  intros Hv. pose proof (Z.log2_nonneg v). pose proof (Z.log2_spec v Hv) as [_ H2].
  rewrite Z2Nat.id by (pose proof (Z.div_pos (Z.log2 v) 8); lia).
  split; [lia|]. eapply Z.lt_le_trans; [exact H2|]. apply Z.pow_le_mono_r; [lia|].
  pose proof (Z.mod_pos_bound (Z.log2 v) 8). pose proof (Z.div_mod (Z.log2 v) 8). lia.
Qed.

Lemma digits_le n v :
  0 < v < 2 ^ (8 * Z.of_nat n) → (Z.to_nat (Z.log2 v / 8 + 1) ≤ n)%nat.
Proof.
  intros [Hv Hlt]. assert (Z.log2 v < 8 * Z.of_nat n) by (apply Z.log2_lt_pow2; lia).
  pose proof (Z.log2_nonneg v).
  assert (Z.log2 v / 8 < Z.of_nat n) by (apply Z.div_lt_upper_bound; lia).
  pose proof (Z.div_pos (Z.log2 v) 8). lia.
Qed.

(** A number copied to the end of a zeroed field of [n] bytes. *)
Lemma copy_right_export n pre post v :
  (0 < n)%nat → 0 ≤ v < 2 ^ (8 * Z.of_nat n) →
  copy_right (length pre + n) (pre ++ replicate n 0 ++ post) (export_bits v)
  = pre ++ be_split n v ++ post.
Proof.
  intros Hn Hv.
  assert (∃ d, (d ≤ n)%nat ∧ length (export_bits v) = d ∧
    replicate (n - d) 0 ++ export_bits v = be_split n v) as (d & Hd & Hl & He).
  { unfold export_bits. destruct (Z.eqb_spec v 0) as [->|Hne].
    - exists 1%nat. split_and!; [lia|done|]. rewrite be_split_zero.
      replace n with ((n - 1) + 1)%nat at 2 by lia. by rewrite replicate_add.
    - pose proof (digits_le n v ltac:(lia)) as Hle. pose proof (digits_bound v ltac:(lia)).
      eexists. split; [exact Hle|]. rewrite be_split_length. split; [done|].
      rewrite <-be_split_widen by done. f_equal. lia. }
  rewrite copy_right_spec by (rewrite ?length_app, ?length_replicate; lia). rewrite Hl.
  rewrite drop_app_ge by lia. replace (length pre + n - length pre)%nat with n by lia.
  rewrite drop_app_length' by (by rewrite length_replicate).
  rewrite take_app_ge by lia. replace (length pre + n - d - length pre)%nat with (n - d)%nat by lia.
  rewrite take_app_le by (rewrite length_replicate; lia).
  rewrite take_replicate, Nat.min_l by lia. rewrite <-!app_assoc. f_equal.
  rewrite app_assoc. by rewrite He.
Qed.

(** ** bytesRequired and uintToBytes *)

(** The specification of [bytesRequired]: the number of base-256 digits. *)
Definition digits (i : Z) : Z := if i =? 0 then 0 else Z.log2 i / 8 + 1.

Lemma digits_shiftr i : 0 < i → digits i = 1 + digits (Z.shiftr i 8).
Proof.
  intros Hi. unfold digits. rewrite (proj2 (Z.eqb_neq i 0)) by lia.
  destruct (Z.eqb_spec (Z.shiftr i 8) 0) as [H|H].
  - rewrite Z.shiftr_div_pow2 in H by lia.
    assert (i < 256) by (pose proof (Z.div_mod i (2^8)); pose proof (Z.mod_pos_bound i (2^8)); lia).
    assert (Z.log2 i < 8) by (apply Z.log2_lt_pow2; lia).
    rewrite Z.div_small by (pose proof (Z.log2_nonneg i); lia). lia.
  - rewrite Z.log2_shiftr by lia. rewrite Z.shiftr_div_pow2 in H by lia.
    assert (256 ≤ i). { destruct (Z.le_gt_cases 256 i); [done|]. rewrite Z.div_small in H; lia. }
    assert (8 ≤ Z.log2 i) by (apply Z.log2_le_pow2; lia).
    rewrite Z.max_r by lia. replace (Z.log2 i) with (Z.log2 i - 8 + 1 * 8) at 1 by lia.
    rewrite Z.div_add by lia. lia.
Qed.

Lemma digits_nonneg i : 0 ≤ digits i.
Proof.
  unfold digits. destruct (i =? 0); [lia|].
  pose proof (Z.div_pos (Z.log2 i) 8 (Z.log2_nonneg i)). lia.
Qed.

Lemma shiftr8_bits i : 0 < i → 0 ≤ Z.shiftr i 8 ∧ (0 < Z.shiftr i 8 → Z.log2 (Z.shiftr i 8) < Z.log2 i).
Proof.
  intros Hi. split; [apply Z.shiftr_nonneg; lia|]. intros Hp.
  rewrite Z.log2_shiftr by lia.
  rewrite Z.shiftr_div_pow2 in Hp by lia.
  assert (256 ≤ i). { destruct (Z.le_gt_cases 256 i); [done|]. rewrite Z.div_small in Hp; lia. }
  assert (8 ≤ Z.log2 i) by (apply Z.log2_le_pow2; lia). lia.
Qed.

Lemma bytesRequired_loop_spec fuel i ic :
  0 ≤ i → (0 < i → Z.log2 i < Z.of_nat fuel) →
  bytesRequired_loop fuel i ic = ic + digits i.
Proof.
  revert i ic. induction fuel as [|fuel IH]; intros i ic Hi Hf.
  - assert (i = 0) as -> by (pose proof (Z.log2_nonneg i); lia). simpl. unfold digits. simpl. lia.
  - cbn [bytesRequired_loop]. destruct (Z.eqb_spec i 0) as [->|]; [unfold digits; simpl; lia|].
    destruct (shiftr8_bits i) as [? ?]; [lia|].
    rewrite IH; [rewrite (digits_shiftr i); lia|lia|]. intros. specialize (Hf ltac:(lia)). lia.
Qed.

Lemma bytesRequired_spec i : 0 ≤ i → bytesRequired i = digits i.
Proof.
  intros. unfold bytesRequired. rewrite bytesRequired_loop_spec; [lia|lia|].
  intros. pose proof (Z.log2_nonneg i). lia.
Qed.

Lemma uintToBytes_loop_spec fuel i ret :
  0 ≤ i → (0 < i → Z.log2 i < Z.of_nat fuel) → digits i ≤ zlen ret →
  uintToBytes_loop fuel (digits i - 1) i ret
  = be_split (Z.to_nat (digits i)) i ++ drop (Z.to_nat (digits i)) ret.
Proof.
  revert i ret. induction fuel as [|fuel IH]; intros i ret Hi Hf Hr.
  - assert (i = 0) as -> by (pose proof (Z.log2_nonneg i); lia). done.
  - cbn [uintToBytes_loop]. destruct (Z.eqb_spec i 0) as [->|Hne]; [done|].
    destruct (shiftr8_bits i) as [? ?]; [lia|].
    pose proof (digits_shiftr i ltac:(lia)) as Hd. pose proof (digits_nonneg (Z.shiftr i 8)).
    replace (digits i - 1) with (digits (Z.shiftr i 8)) by lia.
    rewrite IH; [|lia|specialize (Hf ltac:(lia)); lia|].
    2: { unfold zlen in *. rewrite length_insert. lia. }
    set (n := Z.to_nat (digits (Z.shiftr i 8))).
    replace (Z.to_nat (digits i)) with (S n) by lia. cbn [be_split].
    rewrite Z.shiftr_div_pow2 by lia. change (2 ^ 8) with 256.
    change 255 with (Z.ones 8). rewrite Z.land_ones by lia. change (2 ^ 8) with 256.
    rewrite <-app_assoc. f_equal. rewrite drop_insert_ge by lia. rewrite Nat.sub_diag.
    unfold zlen in Hr.
    destruct (lookup_lt_is_Some_2 ret n) as [x Hx]; [lia|].
    by rewrite (drop_S ret x n Hx).
Qed.

Lemma uintToBytes_spec i : 0 ≤ i → uintToBytes i = be_split (Z.to_nat (digits i)) i.
Proof.
  intros Hi. unfold uintToBytes. rewrite bytesRequired_spec by done.
  pose proof (digits_nonneg i).
  rewrite uintToBytes_loop_spec; [|done| |].
  - rewrite drop_ge, app_nil_r; [done|]. rewrite length_replicate. lia.
  - intros. pose proof (Z.log2_nonneg i). lia.
  - unfold zlen. rewrite length_replicate. lia.
Qed.

Lemma digits_upper i : 0 ≤ i → i < 2 ^ (8 * digits i).
Proof.
  intros Hi. unfold digits. destruct (Z.eqb_spec i 0) as [->|]; [done|].
  pose proof (digits_bound i ltac:(lia)) as H.
  rewrite Z2Nat.id in H; [lia|]. pose proof (Z.div_pos (Z.log2 i) 8 (Z.log2_nonneg i)). lia.
Qed.

Lemma digits_lower i : 0 < i → 2 ^ (8 * (digits i - 1)) ≤ i.
Proof.
  intros Hi. unfold digits. rewrite (proj2 (Z.eqb_neq i 0)) by lia.
  pose proof (Z.log2_spec i Hi) as [Hl _]. etransitivity; [|exact Hl].
  apply Z.pow_le_mono_r; [lia|]. pose proof (Z.mul_div_le (Z.log2 i) 8). lia.
Qed.

Lemma digits_le_width i n : 0 ≤ n → 0 ≤ i < 2 ^ (8 * n) → digits i ≤ n.
Proof.
  intros Hn Hi. destruct (Z.eq_dec i 0) as [->|]; [done|].
  pose proof (digits_lower i ltac:(lia)). destruct (Z.le_gt_cases (digits i) n); [done|].
  assert (2 ^ (8 * n) ≤ 2 ^ (8 * (digits i - 1))) by (apply Z.pow_le_mono_r; lia). lia.
Qed.

Lemma digits_pos i : 0 < i → 1 ≤ digits i.
Proof. intros. rewrite digits_shiftr by done. pose proof (digits_nonneg (Z.shiftr i 8)). lia. Qed.

Lemma uintToBytes_zlen i : 0 ≤ i → zlen (uintToBytes i) = digits i.
Proof. intros. rewrite uintToBytes_spec, be_split_zlen by done. pose proof (digits_nonneg i). lia. Qed.

Lemma uintToBytes_ok i : 0 ≤ i → bytes_ok (uintToBytes i).
Proof. intros. rewrite uintToBytes_spec by done. apply be_split_ok. Qed.

Lemma be_val_uintToBytes i : 0 ≤ i → be_val (uintToBytes i) = i.
Proof.
  intros. rewrite uintToBytes_spec by done. apply be_val_split_small.
  rewrite Z2Nat.id by apply digits_nonneg. split; [done|]. by apply digits_upper.
Qed.

(** ** Big-endian folds *)

Lemma lor_shiftl8 r b : is_byte b → Z.lor (Z.shiftl r 8) b = r * 256 + b.
Proof.
  intros Hb. unfold is_byte in Hb.
  assert (Z.land (Z.shiftl r 8) b = 0) as Hl.
  { apply Z.bits_inj'. intros n Hn. rewrite Z.land_spec, Z.bits_0.
    destruct (Z.lt_ge_cases n 8).
    - rewrite Z.shiftl_spec_low by done. done.
    - destruct (Z.eq_dec b 0) as [->|]; [by rewrite Z.bits_0, andb_false_r|].
      rewrite (Z.bits_above_log2 b n), andb_false_r; [done|lia|].
      assert (Z.log2 b < 8) by (apply Z.log2_lt_pow2; lia). lia. }
  rewrite <-Z.lxor_lor by done. rewrite <-Z.add_nocarry_lxor by done.
  rewrite Z.shiftl_mul_pow2 by lia. done.
Qed.

Lemma fromBigEndian_spec w b :
  0 ≤ w → bytes_ok b → fromBigEndian w b = be_val b mod 2 ^ w.
Proof.
  intros Hw. induction b as [|x b IH] using rev_ind; intros Hb.
  - unfold fromBigEndian, be_val. simpl. rewrite Z.mod_0_l; [done|]. apply Z.pow_nonzero; lia.
  - apply Forall_app in Hb as [Hb Hx]. rewrite Forall_singleton in Hx.
    unfold fromBigEndian in *. rewrite foldl_app, IH by done. cbn [foldl].
    rewrite lor_shiftl8 by done. rewrite be_val_snoc. unfold wrap.
    rewrite <-(Z.add_mod_idemp_l _ x), Z.mul_mod_idemp_l, Z.add_mod_idemp_l; try done;
      apply Z.pow_nonzero; lia.
Qed.

Lemma foldM_app {A B} (f : B → A → outcome B) b l k :
  foldM f b (l ++ k) = (b' ← foldM f b l; foldM f b' k).
Proof.
  revert b. induction l as [|a l IH]; intros b; [done|]. simpl.
  destruct (f b a); simpl; [apply IH|done..].
Qed.

Lemma fromBigEndian256_spec b :
  bytes_ok b → be_val b < 2 ^ 256 → fromBigEndian256 b = Ok (be_val b).
Proof.
  induction b as [|x b IH] using rev_ind; intros Hb Hv; [done|].
  apply Forall_app in Hb as [Hb Hx]. rewrite Forall_singleton in Hx.
  pose proof (be_val_bound b Hb) as [? _]. rewrite be_val_snoc in *.
  unfold is_byte in Hx. unfold fromBigEndian256 in *. rewrite foldM_app, IH by (done || lia).
  simpl. unfold checked. rewrite Z.shiftl_mul_pow2 by lia. change (2 ^ 8) with 256.
  rewrite (proj2 (Z.ltb_ge _ 0)) by lia. rewrite (proj2 (Z.ltb_lt _ (2 ^ 256))) by lia.
  simpl. change 256 with (2 ^ 8) at 1. rewrite <-Z.shiftl_mul_pow2 by lia.
  by rewrite lor_shiftl8.
Qed.

(** ** Fixed-width conversions *)

Lemma uint256ToBytes_spec i : is_uint 256 i → uint256ToBytes i = be_split 32 i.
Proof.
  intros. rewrite <-(app_nil_r (be_split 32 i)). apply (copy_right_export 32 [] []); [lia|done].
Qed.

Lemma uint160ToBytes_spec i : is_uint 160 i → uint160ToBytes i = be_split 20 i.
Proof.
  intros. rewrite <-(app_nil_r (be_split 20 i)). apply (copy_right_export 20 [] []); [lia|done].
Qed.

Lemma uint64ToBytes_spec i : uint64ToBytes i = be_split 8 i.
Proof. apply le_split_be. Qed.
Lemma uint32ToBytes_spec i : uint32ToBytes i = be_split 4 i.
Proof. apply le_split_be. Qed.
Lemma uint16ToBytes_spec i : uint16ToBytes i = be_split 2 i.
Proof. apply le_split_be. Qed.

Lemma le_val_split_inv n l : bytes_ok l → length l = n → le_split n (le_val l) = l.
Proof.
  intros Hl Hn. apply (inj reverse). rewrite le_split_be, le_val_be.
  apply be_split_val; [by apply Forall_reverse|]. by rewrite length_reverse.
Qed.

Lemma bswap_spec n l : bytes_ok l → length l = n → bswap n (le_val l) = be_val l.
Proof.
  intros. unfold bswap. rewrite le_val_split_inv, le_val_be, reverse_involutive by done. done.
Qed.

Lemma zlen_eqb {A} (l : list A) n z :
  length l = n → Z.of_nat n = z → (zlen l =? z) = true.
Proof. intros <- <-. apply Z.eqb_refl. Qed.

Lemma bytesToUint256_spec b : length b = 32%nat → bytesToUint256 b = Ok (be_val b).
Proof. intros H. unfold bytesToUint256. by rewrite (zlen_eqb b 32). Qed.
Lemma bytesToUint160_spec b : length b = 20%nat → bytesToUint160 b = Ok (be_val b).
Proof. intros H. unfold bytesToUint160. by rewrite (zlen_eqb b 20). Qed.
Lemma bytesToUint64_spec b :
  bytes_ok b → length b = 8%nat → bytesToUint64 b = Ok (be_val b).
Proof. intros ? H. unfold bytesToUint64. rewrite (zlen_eqb b 8) by done. simpl. by rewrite bswap_spec. Qed.
Lemma bytesToUint32_spec b :
  bytes_ok b → length b = 4%nat → bytesToUint32 b = Ok (be_val b).
Proof. intros ? H. unfold bytesToUint32. rewrite (zlen_eqb b 4) by done. simpl. by rewrite bswap_spec. Qed.
Lemma bytesToUint16_spec b :
  bytes_ok b → length b = 2%nat → bytesToUint16 b = Ok (be_val b).
Proof. intros ? H. unfold bytesToUint16. rewrite (zlen_eqb b 2) by done. simpl. by rewrite bswap_spec. Qed.

Lemma bytesToUint32_Ok b n : bytesToUint32 b = Ok n → length b = 4%nat.
Proof. unfold bytesToUint32. intros. inv_ok. zify_bool. unfold zlen in *. lia. Qed.

Lemma bytesToUint64_roundtrip i : is_uint 64 i → bytesToUint64 (uint64ToBytes i) = Ok i.
Proof.
  intros. rewrite uint64ToBytes_spec, bytesToUint64_spec by auto using be_split_ok, be_split_length.
  f_equal. by apply be_val_split_small.
Qed.

Lemma bytesToUint32_roundtrip i : is_uint 32 i → bytesToUint32 (uint32ToBytes i) = Ok i.
Proof.
  intros. rewrite uint32ToBytes_spec, bytesToUint32_spec by auto using be_split_ok, be_split_length.
  f_equal. by apply be_val_split_small.
Qed.

Lemma bytesToUint256_roundtrip i : is_uint 256 i → bytesToUint256 (uint256ToBytes i) = Ok i.
Proof.
  intros. rewrite uint256ToBytes_spec, bytesToUint256_spec by auto using be_split_length.
  f_equal. by apply be_val_split_small.
Qed.

Lemma uint256ToBytes_length i : is_uint 256 i → length (uint256ToBytes i) = 32%nat.
Proof. intros. by rewrite uint256ToBytes_spec, be_split_length. Qed.

#[export] Hint Resolve uintToBytes_ok digits_nonneg : orbiter.

Lemma uint_bytes_inverse n b :
  bytes_ok b → length b = n →
  is_uint (8 * Z.of_nat n) (be_val b) ∧ be_split n (be_val b) = b.
Proof.
  intros Hb Hn. split; [|by apply be_split_val].
  pose proof (be_val_bound b Hb) as H. by rewrite (zlen_of_length b n Hn) in H.
Qed.

(** * Properties *)

(** The fixed-width conversions of [Utils] are inverse to each other: for
    each of the widths 256, 160, 64, 32 and 16, decoding the encoding of an
    integer of that width gives the integer back, every byte string of the
    right size decodes, and encoding the result gives the string back. *)
Theorem fixed_width_roundtrip :
  (∀ i, is_uint 256 i → bytesToUint256 (uint256ToBytes i) = Ok i) ∧
  (∀ i, is_uint 160 i → bytesToUint160 (uint160ToBytes i) = Ok i) ∧
  (∀ i, is_uint 64 i → bytesToUint64 (uint64ToBytes i) = Ok i) ∧
  (∀ i, is_uint 32 i → bytesToUint32 (uint32ToBytes i) = Ok i) ∧
  (∀ i, is_uint 16 i → bytesToUint16 (uint16ToBytes i) = Ok i) ∧
  (∀ b, bytes_ok b → length b = 32%nat →
     ∃ i, bytesToUint256 b = Ok i ∧ is_uint 256 i ∧ uint256ToBytes i = b) ∧
  (∀ b, bytes_ok b → length b = 8%nat →
     ∃ i, bytesToUint64 b = Ok i ∧ is_uint 64 i ∧ uint64ToBytes i = b) ∧
  (∀ b, bytes_ok b → length b = 4%nat →
     ∃ i, bytesToUint32 b = Ok i ∧ is_uint 32 i ∧ uint32ToBytes i = b).
Proof.
  split_and!; intros.
  - by apply bytesToUint256_roundtrip.
  - rewrite uint160ToBytes_spec, bytesToUint160_spec by auto using be_split_length.
    f_equal. by apply be_val_split_small.
  - by apply bytesToUint64_roundtrip.
  - by apply bytesToUint32_roundtrip.
  - rewrite uint16ToBytes_spec, bytesToUint16_spec by auto using be_split_ok, be_split_length.
    f_equal. by apply be_val_split_small.
  - destruct (uint_bytes_inverse 32 b) as [? ?]; [done..|]. eexists.
    rewrite bytesToUint256_spec, uint256ToBytes_spec by done. done.
  - destruct (uint_bytes_inverse 8 b) as [? ?]; [done..|]. eexists.
    rewrite bytesToUint64_spec, uint64ToBytes_spec by done. done.
  - destruct (uint_bytes_inverse 4 b) as [? ?]; [done..|]. eexists.
    rewrite bytesToUint32_spec, uint32ToBytes_spec by done. done.
Qed.

(** [uintToBytes] writes the shortest big-endian numeral: it has
    [bytesRequired] bytes, the first of which is not zero, and reading it back
    with [fromBigEndian], at 256 or at 64 bits, gives the number. *)
Theorem uintToBytes_canonical (v : Z) :
  is_uint 256 v →
  zlen (uintToBytes v) = bytesRequired v ∧ bytesRequired v ≤ 32 ∧
  head (uintToBytes v) ≠ Some 0 ∧
  fromBigEndian256 (uintToBytes v) = Ok v ∧
  (is_uint 64 v → fromBigEndian 64 (uintToBytes v) = v).
Proof.
  intros [Hv Hlt]. pose proof (be_val_uintToBytes v Hv) as Hval.
  rewrite bytesRequired_spec, uintToBytes_zlen by done. split_and!; [done|..].
  - apply digits_le_width; [lia|]. change (8 * 32) with 256. lia.
  - intros Hh. destruct (uintToBytes v) as [|b l] eqn:E; [done|]. injection Hh as ->.
    assert (bytes_ok l) as Hl by (pose proof (uintToBytes_ok v Hv) as H; rewrite E in H; by inversion H).
    pose proof (be_val_bound l Hl) as [_ Hb]. pose proof (uintToBytes_zlen v Hv) as Hz.
    rewrite E, zlen_cons in Hz. change (be_val (0 :: l)) with (be_val l) in Hval.
    rewrite Hval in Hb. replace (zlen l) with (digits v - 1) in Hb by lia.
    destruct (Z.eq_dec v 0) as [->|]; [by vm_compute in E|].
    pose proof (digits_lower v ltac:(lia)). lia.
  - rewrite fromBigEndian256_spec, Hval; [done|by apply uintToBytes_ok|lia].
  - intros [_ ?]. rewrite fromBigEndian_spec, Hval by auto using uintToBytes_ok with lia.
    by apply Z.mod_small.
Qed.

Lemma uintToBytes_canonical_witness :
  is_uint 256 1000 ∧ zlen (uintToBytes 1000) = bytesRequired 1000 ∧
  uintToBytes 1000 = [3; 232].
Proof.
  split; [split; [lia|reflexivity]|].
  split; [apply (uintToBytes_canonical 1000); split; [lia|reflexivity]|reflexivity].
Defined.
