(* ===== verification/Hex.v ===== *)
(** * Hex: hex-formatted strings (src/utils/hex.{h,cpp})

    The class [Hex] with its constructors, validity test, conversions from and
    to raw bytes, concatenation and the JSON-RPC rendering.  A character is
    its code.  Reads of [std::string] positions past the terminator and of
    [std::string_view] positions past the end are undefined ([Undef]). *)

From S2P Require Import Prelude Utils.

(** [class Hex]. *)
Record Hex := mkHex { hex : bytes; strict : bool }.

#[export] Instance Hex_eq_dec : EqDecision Hex.
Proof. solve_decision. Defined.

(** Characters of the source: ['0'], ['x'], ['X']. *)
Definition ch0 : Z := 48.
Definition chx : Z := 120.
Definition chX : Z := 88.

Definition filter_chars : bytes := str "0123456789abcdefABCDEF".
Definition is_hex_char (c : Z) : bool := bool_decide (c ∈ filter_chars).

(** [s.find_first_not_of(filter, off) == npos] *)
Definition all_hex (s : bytes) (off : nat) : bool := forallb is_hex_char (drop off s).

Definition isValid (s : bytes) (strict : bool) : bool :=
  if strict then
    if negb (bool_decide (take 2 s = str "0x")) && negb (bool_decide (take 2 s = str "0X"))
    then false else all_hex s 2
  else all_hex s 0.

(** [Hex(bool strict)], the empty constructor. *)
Definition Hex_empty (strict : bool) : Hex := mkHex (if strict then str "0x" else []) strict.

(** [Hex(std::string_view, bool)] and [Hex(std::string&&, bool)]. *)
Definition Hex_ctor (v : bytes) (strict : bool) : outcome Hex :=
  c0 ← at_str v 0;
  ret ← (if strict then
           if negb (c0 =? ch0) then
             c1 ← at_str v 1;
             Ok (if negb (c1 =? chx) || negb (c1 =? chX) then str "0x" ++ v else v)
           else Ok v
         else
           if c0 =? ch0 then
             c1 ← at_str v 1;
             Ok (if (c1 =? chx) || (c1 =? chX) then drop 2 v else v)
           else Ok v);
  _ ← throw_if (negb (isValid ret strict)) (runtime_error "Invalid Hex string at constructor");
  Ok (mkHex ret strict).

(** ["0123456789abcdef"[n]] *)
Definition hex_digit (n : Z) : Z := default 0 (str "0123456789abcdef" !! Z.to_nat n).

(** The write loop of [fromBytes]: [hex[off++] = hi; hex[off++] = lo;]. *)
Definition fromBytes_loop (h : bytes) (off : nat) (b : bytes) : bytes :=
  snd (foldl (λ '(off, h) c,
         (off + 2,
          <[off + 1 := hex_digit (Z.land c 15)]>
          (<[off := hex_digit (Z.land (Z.shiftr c 4) 15)]> h)))%nat (off, h) b).

Definition fromBytes (b : bytes) (strict : bool) : outcome Hex :=
  let off := if strict then 2%nat else 0%nat in
  let h := replicate (length b * 2 + off) ch0 in
  let h := str "0x" ++ drop 2 h in
  Hex_ctor (fromBytes_loop h off b) strict.

(** Two digits per byte, [std::setw(2)] with fill ['0']. *)
Definition fromUTF8 (s : bytes) (strict : bool) : outcome Hex :=
  Hex_ctor ((if strict then str "0x" else []) ++
            flat_map (λ c, [hex_digit (c / 16); hex_digit (c mod 16)]) s) strict.

(** [ss << std::hex << value]: the base-16 digits, at least one. *)
Fixpoint hex_digits (fuel : nat) (v : Z) : bytes :=
  match fuel with
  | O => []
  | S fuel =>
      (if v / 16 =? 0 then [] else hex_digits fuel (v / 16)) ++ [hex_digit (v mod 16)]
  end.

Definition fromUint (v : Z) (strict : bool) : outcome Hex :=
  Hex_ctor (hex_digits (S (Z.to_nat (Z.log2 v))) v) strict.

Definition toInt (c : Z) : Z :=
  if bool_decide (48 ≤ c ≤ 57) then c - 48
  else if bool_decide (97 ≤ c ≤ 102) then c - 97 + 10
  else if bool_decide (65 ≤ c ≤ 70) then c - 65 + 10
  else -1.

(** [while (retHex[i] == '0') retHex.erase(i, 1);] with [i = 2]. *)
Fixpoint forRPC_loop (fuel : nat) (s : bytes) : outcome bytes :=
  match fuel with
  | O => Ok s
  | S fuel =>
      c ← at_str s 2;
      if c =? ch0 then forRPC_loop fuel (delete 2%nat s) else Ok s
  end.

Definition forRPC (h : Hex) : outcome bytes :=
  let retHex := hex h in
  c0 ← at_str retHex 0;
  retHex ← (if negb (c0 =? ch0) then
              c1 ← at_str retHex 1;
              Ok (if negb (c1 =? chx) then str "0x" ++ retHex else retHex)
            else Ok retHex);
  if bool_decide (retHex = str "0x") then Ok (str "0x0")
  else forRPC_loop (S (length retHex)) retHex.

(** [for (; i < hex.size(); i += 2)] of [toBytes] and [bytes]; [rd] is the
    indexing operator of the string at hand. *)
Fixpoint pairs_loop (rd : Z → outcome Z) (fuel : nat) (n i : Z) (ret : bytes) : outcome bytes :=
  match fuel with
  | O => Ok ret
  | S fuel =>
      if i <? n then
        c1 ← rd i; c2 ← rd (i + 1);
        pairs_loop rd fuel n (i + 2) (ret ++ [u8 (toInt c1 * 16 + toInt c2)])
      else Ok ret
  end.

(** [static std::string Hex::toBytes(std::string_view)]. *)
Definition toBytes (s : bytes) : outcome bytes :=
  c0 ← at_view s 0;
  i ← (if c0 =? ch0 then
         c1 ← at_view s 1; Ok (if (c1 =? chx) || (c1 =? chX) then 2 else 0)
       else Ok 0);
  _ ← throw_if (negb (all_hex s (Z.to_nat i))) (runtime_error "toBytes: Invalid hex string");
  '(i, ret) ← (if negb (zlen s mod 2 =? 0) then
                 c ← at_view s i; Ok (i + 1, [u8 (toInt c)])
               else Ok (i, []));
  pairs_loop (at_view s) (S (length s)) (zlen s) i ret.

(** [std::string Hex::bytes() const]. *)
Definition Hex_bytes (h : Hex) : outcome bytes :=
  let i := if strict h then 2 else 0 in
  '(i, ret) ← (if negb (zlen (hex h) mod 2 =? 0) then
                 c ← at_str (hex h) i; Ok (i + 1, [u8 (toInt c)])
               else Ok (i, []));
  pairs_loop (at_str (hex h)) (S (length (hex h))) (zlen (hex h)) i ret.

(** [Hex& operator+=(const std::string&)]. *)
Definition Hex_append_str (h : Hex) (s : bytes) : outcome Hex :=
  c0 ← at_str s 0;
  pfx ← (if c0 =? ch0 then c1 ← at_str s 1; Ok ((c1 =? chx) || (c1 =? chX)) else Ok false);
  if isValid s pfx then Ok (mkHex (hex h ++ (if pfx then drop 2 s else s)) (strict h))
  else Throw (runtime_error "Invalid Hex concat operation").

(** [Hex& operator+=(const Hex&)]. *)
Definition Hex_append (h other : Hex) : outcome Hex :=
  tail ← (if strict other then substr (hex other) 2 (zlen (hex other)) else Ok (hex other));
  Ok (mkHex (hex h ++ tail) (strict h)).

(** * Lemmas *)

(** The two digits of a byte. *)
Definition byte_hex (c : Z) : bytes := [hex_digit (c / 16); hex_digit (c mod 16)].

(** Checks a property of all bytes by computation. *)
Lemma byte_forall_dec (P : Z → Prop) `{!∀ c, Decision (P c)} :
  forallb (λ c, bool_decide (P c)) (Z.of_nat <$> seq 0 256) = true → ∀ c, is_byte c → P c.
Proof.
  rewrite forallb_forall. intros Hall c [? ?]. apply (bool_decide_eq_true (P c)), Hall.
  apply list_elem_of_In. rewrite <-(Z2Nat.id c) by lia. apply list_elem_of_fmap_2.
  apply elem_of_seq. lia.
Qed.

Lemma byte_hex_facts c :
  is_byte c →
  is_hex_char (hex_digit (c / 16)) = true ∧ is_hex_char (hex_digit (c mod 16)) = true ∧
  u8 (toInt (hex_digit (c / 16)) * 16 + toInt (hex_digit (c mod 16))) = c ∧
  hex_digit (Z.land (Z.shiftr c 4) 15) = hex_digit (c / 16) ∧
  hex_digit (Z.land c 15) = hex_digit (c mod 16) ∧
  hex_digit (c / 16) ≠ chx ∧ hex_digit (c / 16) ≠ chX ∧
  hex_digit (c mod 16) ≠ chx ∧ hex_digit (c mod 16) ≠ chX.
Proof.
  revert c. apply (byte_forall_dec (λ c,
    is_hex_char (hex_digit (c / 16)) = true ∧ is_hex_char (hex_digit (c mod 16)) = true ∧
    u8 (toInt (hex_digit (c / 16)) * 16 + toInt (hex_digit (c mod 16))) = c ∧
    hex_digit (Z.land (Z.shiftr c 4) 15) = hex_digit (c / 16) ∧
    hex_digit (Z.land c 15) = hex_digit (c mod 16) ∧
    hex_digit (c / 16) ≠ chx ∧ hex_digit (c / 16) ≠ chX ∧
    hex_digit (c mod 16) ≠ chx ∧ hex_digit (c mod 16) ≠ chX)).
  vm_compute. reflexivity.
Qed.

Lemma flat_byte_hex_length b : length (flat_map byte_hex b) = (length b * 2)%nat.
Proof. induction b; simpl; lia. Qed.

Lemma flat_byte_hex_all b : bytes_ok b → forallb is_hex_char (flat_map byte_hex b) = true.
Proof.
  induction 1 as [|c b Hc Hb IH]; [done|]. cbn [flat_map byte_hex app forallb].
  destruct (byte_hex_facts c Hc) as (-> & -> & _). exact IH.
Qed.

(** The write loop fills the buffer from [off] on. *)
Lemma fromBytes_loop_spec pre buf b :
  bytes_ok b → (length b * 2 ≤ length buf)%nat →
  fromBytes_loop (pre ++ buf) (length pre) b
  = pre ++ flat_map byte_hex b ++ drop (length b * 2) buf.
Proof.
  intros Hb. unfold fromBytes_loop. revert pre buf.
  induction Hb as [|c b Hc Hb IH]; intros pre buf Hl; [done|].
  destruct buf as [|x [|y buf]]; simpl in Hl; [lia..|].
  cbn [foldl]. rewrite insert_app_r_alt, Nat.sub_diag by lia. cbn [insert list_insert].
  rewrite insert_app_r_alt by lia. replace (length pre + 1 - length pre)%nat with 1%nat by lia.
  cbn [insert list_insert].
  destruct (byte_hex_facts c Hc) as (_ & _ & _ & -> & -> & _).
  specialize (IH (pre ++ byte_hex c) buf ltac:(lia)).
  rewrite length_app in IH. cbn [byte_hex length plus] in IH.
  rewrite <-!app_assoc in IH.
  change (byte_hex c ++ buf) with (hex_digit (c / 16) :: hex_digit (c mod 16) :: buf) in IH.
  rewrite IH. cbn [flat_map byte_hex app length Nat.mul plus drop]. done.
Qed.

Lemma fromBytes_buffer b (strict : bool) :
  bytes_ok b → (strict = true ∨ b ≠ []) →
  let off := if strict then 2%nat else 0%nat in
  fromBytes_loop (str "0x" ++ drop 2 (replicate (length b * 2 + off) ch0)) off b
  = (if strict then str "0x" else []) ++ flat_map byte_hex b.
Proof.
  intros Hb Hne off. subst off. destruct strict.
  - replace (length b * 2 + 2)%nat with (2 + length b * 2)%nat by lia.
    rewrite replicate_add, drop_app_length' by done.
    etransitivity; [apply (fromBytes_loop_spec (str "0x")); [done|rewrite length_replicate; lia]|].
    rewrite drop_ge, app_nil_r; [done|]. rewrite length_replicate. lia.
  - destruct b as [|c b]; [naive_solver|]. cbn [length Nat.mul plus replicate drop].
    etransitivity; [apply (fromBytes_loop_spec [] (str "0x" ++ replicate (length b * 2 + 0) ch0));
      [done|rewrite length_app, length_replicate; simpl; lia]|].
    rewrite drop_ge, app_nil_r; [done|]. rewrite length_app, length_replicate. simpl. lia.
Qed.

Lemma at_str_in s i : 0 ≤ i < zlen s → at_str s i = Ok (default 0 (s !! Z.to_nat i)).
Proof. intros. unfold at_str. by rewrite bool_decide_true. Qed.

Lemma at_str_0 (a : Z) s l : s = a :: l → at_str s 0 = Ok a.
Proof. intros ->. rewrite at_str_in; [done|]. zlen_solve. Qed.

Lemma at_str_1 (a b : Z) s l : s = a :: b :: l → at_str s 1 = Ok b.
Proof. intros ->. rewrite at_str_in; [done|]. zlen_solve. Qed.

Lemma isValid_strict_prefixed d : forallb is_hex_char d = true → isValid (str "0x" ++ d) true = true.
Proof. intros H. unfold isValid, all_hex. cbn. exact H. Qed.

(** The constructor applied to the text of a byte string. *)
Lemma Hex_ctor_strict_digits d :
  forallb is_hex_char d = true → Hex_ctor (str "0x" ++ d) true = Ok (mkHex (str "0x" ++ d) true).
Proof.
  intros Hd. unfold Hex_ctor. rewrite (at_str_0 48 _ (120 :: d)) by done. cbn [mbind outcome_bind].
  change (negb (48 =? ch0)) with false. cbn [mbind outcome_bind].
  by rewrite isValid_strict_prefixed.
Qed.

Lemma Hex_ctor_plain_digits a b d :
  forallb is_hex_char (a :: b :: d) = true → b ≠ chx → b ≠ chX →
  Hex_ctor (a :: b :: d) false = Ok (mkHex (a :: b :: d) false).
Proof.
  intros Hd Hx HX. unfold Hex_ctor.
  rewrite (at_str_0 a _ (b :: d)), (at_str_1 a b _ d) by done. simpl. rewrite (proj2 (Z.eqb_neq b chx)), (proj2 (Z.eqb_neq b chX)) by done.
  destruct (a =? ch0); simpl; unfold isValid, all_hex; cbn [drop]; rewrite Hd; done.
Qed.

Lemma fromBytes_spec b (s : bool) :
  bytes_ok b → fromBytes b s = Ok (mkHex ((if s then str "0x" else []) ++ flat_map byte_hex b) s).
Proof.
  intros Hb. unfold fromBytes.
  destruct s.
  - pose proof (fromBytes_buffer b true Hb ltac:(by left)) as H. cbn [negb] in H. cbv zeta in *.
    rewrite H. apply Hex_ctor_strict_digits. by apply flat_byte_hex_all.
  - destruct b as [|c b]; [done|].
    pose proof (fromBytes_buffer (c :: b) false Hb ltac:(by right)) as H. cbv zeta in *. rewrite H.
    pose proof (flat_byte_hex_all (c :: b) Hb) as Ha. inversion Hb as [|? ? Hc _]; subst.
    destruct (byte_hex_facts c Hc) as (_ & _ & _ & _ & _ & _ & _ & ? & ?).
    cbn [flat_map byte_hex app] in *. by apply Hex_ctor_plain_digits.
Qed.

(** What the pair loop computes from a text of even length. *)
Fixpoint decode_pairs (t : bytes) : bytes :=
  match t with
  | c1 :: c2 :: t => u8 (toInt c1 * 16 + toInt c2) :: decode_pairs t
  | _ => []
  end.

Lemma decode_byte_hex b : bytes_ok b → decode_pairs (flat_map byte_hex b) = b.
Proof.
  induction 1 as [|c b Hc Hb IH]; [done|]. cbn [flat_map byte_hex app decode_pairs].
  destruct (byte_hex_facts c Hc) as (_ & _ & -> & _). by rewrite IH.
Qed.

Lemma decode_pairs_ext t t' :
  Forall2 (λ c c', toInt c = toInt c') t t' → decode_pairs t = decode_pairs t'.
Proof.
  revert t'. remember (length t) as n eqn:Hn. revert t Hn.
  induction (lt_wf n) as [n _ IH]. intros t -> t' H.
  destruct H as [|c c' t t' H1 H]; [done|]. destruct H as [|d d' t t' H2 H]; [done|].
  cbn [decode_pairs]. rewrite H1, H2. f_equal. eapply IH; [|done..]. simpl. lia.
Qed.

(** The pair loop decodes the text that starts at its index. *)
Lemma pairs_loop_decode rd fuel n pre t ret :
  length t = (2 * n)%nat → (n < fuel)%nat →
  (∀ i, zlen pre ≤ i < zlen pre + zlen t → rd i = Ok (default 0 ((pre ++ t) !! Z.to_nat i))) →
  pairs_loop rd fuel (zlen pre + zlen t) (zlen pre) ret = Ok (ret ++ decode_pairs t).
Proof.
  revert fuel pre t ret. induction n as [|n IH]; intros fuel pre t ret Hn Hf Hrd;
    (destruct fuel as [|fuel]; [lia|]); cbn [pairs_loop].
  - destruct t; [|done]. rewrite (@zlen_nil Z), Z.add_0_r, Z.ltb_irrefl.
    by rewrite app_nil_r.
  - destruct t as [|c1 [|c2 t]]; [simpl in Hn; lia..|]. rewrite !zlen_cons in *.
    pose proof (zlen_nonneg t). pose proof (zlen_nonneg pre).
    rewrite (proj2 (Z.ltb_lt _ _)) by lia.
    rewrite !Hrd by lia. cbn [mbind outcome_bind].
    replace (Z.to_nat (zlen pre)) with (length pre) by (unfold zlen; lia).
    replace (Z.to_nat (zlen pre + 1)) with (length pre + 1)%nat by (unfold zlen; lia).
    rewrite list_lookup_middle by done. rewrite lookup_app_r by lia.
    replace (length pre + 1 - length pre)%nat with 1%nat by lia.
    cbn [lookup list_lookup default from_option id].
    replace (zlen pre + 2) with (zlen (pre ++ [c1; c2])) by (rewrite zlen_app; done).
    replace (zlen pre + (1 + (1 + zlen t))) with (zlen (pre ++ [c1; c2]) + zlen t)
      by (rewrite zlen_app, !zlen_cons, (@zlen_nil Z); lia).
    rewrite IH; [by rewrite <-app_assoc|simpl in Hn; lia|lia|].
    intros i Hi. rewrite <-app_assoc. apply Hrd.
    rewrite zlen_app, !zlen_cons, (@zlen_nil Z) in Hi. lia.
Qed.

Lemma at_view_in (s : bytes) i : 0 ≤ i < zlen s → at_view s i = Ok (default 0 (s !! Z.to_nat i)).
Proof.
  intros. unfold at_view. rewrite bool_decide_true by lia.
  destruct (lookup_lt_is_Some_2 s (Z.to_nat i)) as [x ->]; [unfold zlen in *; lia|done].
Qed.

Lemma zlen_flat_byte_hex b : zlen (flat_map byte_hex b) = 2 * zlen b.
Proof. unfold zlen. rewrite flat_byte_hex_length. lia. Qed.

Lemma even_text_size (pre b : bytes) :
  (length pre = 0 ∨ length pre = 2)%nat →
  negb (zlen (pre ++ flat_map byte_hex b) mod 2 =? 0) = false.
Proof.
  intros Hp. rewrite zlen_app, zlen_flat_byte_hex.
  destruct (Z.eqb_spec ((zlen pre + 2 * zlen b) mod 2) 0) as [|H]; [done|].
  exfalso. apply H. rewrite Z.add_comm, Z.mul_comm, Z.add_comm, Z.mod_add by lia.
  unfold zlen. destruct Hp as [-> | ->]; reflexivity.
Qed.

Lemma Hex_bytes_spec b (s : bool) :
  bytes_ok b →
  Hex_bytes (mkHex ((if s then str "0x" else []) ++ flat_map byte_hex b) s) = Ok b.
Proof.
  intros Hb. unfold Hex_bytes. cbn [hex strict].
  rewrite even_text_size by (destruct s; [by right|by left]).
  cbn [mbind outcome_bind]. set (pre := if s then str "0x" else [] : bytes).
  replace (if s then 2 else 0) with (zlen pre) by (destruct s; done).
  rewrite zlen_app. rewrite (pairs_loop_decode _ _ (length b) pre _ []).
  - by rewrite decode_byte_hex.
  - rewrite flat_byte_hex_length. lia.
  - rewrite length_app, flat_byte_hex_length. lia.
  - intros i Hi. pose proof (zlen_nonneg pre). apply at_str_in. rewrite zlen_app. lia.
Qed.

(** [toBytes] after its prefix test has found [zlen pre]. *)
Lemma toBytes_text pre t n :
  (pre = str "0x" ∨ pre = [] ∧ ∃ c1 c2 t', t = c1 :: c2 :: t' ∧ c2 ≠ chx ∧ c2 ≠ chX) →
  length t = (2 * n)%nat → forallb is_hex_char t = true →
  toBytes (pre ++ t) = Ok (decode_pairs t).
Proof.
  intros Hpre Hn Ht. unfold toBytes.
  assert (0 < zlen (pre ++ t)) as Hpos.
  { rewrite zlen_app. pose proof (zlen_nonneg t).
    destruct Hpre as [-> | [-> (? & ? & ? & -> & _)]]; [unfold str; zlen_solve|zlen_solve]. }
  rewrite (at_view_in _ 0) by lia. cbn [mbind outcome_bind].
  set (c0 := default 0 _). set (sel := if c0 =? ch0 then _ else Ok 0).
  assert (sel = Ok (zlen pre)) as ->.
  { subst sel c0. destruct Hpre as [-> | [-> (c1 & c2 & t' & -> & Hx & HX)]]; [by cbn|].
    cbn [app]. rewrite (at_view_at _ [c1] c2 t') by done. cbn [mbind outcome_bind].
    rewrite (proj2 (Z.eqb_neq _ chx)), (proj2 (Z.eqb_neq _ chX)) by done.
    by destruct (_ =? ch0). }
  cbn [mbind outcome_bind].
  assert (all_hex (pre ++ t) (Z.to_nat (zlen pre)) = true) as ->.
  { unfold all_hex. rewrite drop_app_length' by (unfold zlen; lia). done. }
  assert (zlen (pre ++ t) mod 2 = 0) as ->.
  { rewrite zlen_app. replace (zlen t) with (Z.of_nat n * 2) by (unfold zlen; lia).
    rewrite Z.mod_add by lia. by destruct Hpre as [-> | [-> _]]. }
  cbn [negb throw_if mbind outcome_bind Z.eqb].
  rewrite zlen_app. rewrite (pairs_loop_decode _ _ n pre t []); [done|done|rewrite length_app; lia|].
  intros i Hi. pose proof (zlen_nonneg pre). apply at_view_in. rewrite zlen_app. lia.
Qed.

Lemma toBytes_spec b (s : bool) :
  bytes_ok b → (s = true ∨ b ≠ []) →
  toBytes ((if s then str "0x" else []) ++ flat_map byte_hex b) = Ok b.
Proof.
  intros Hb Hne.
  rewrite (toBytes_text _ _ (length b)), decode_byte_hex; [done|done| | |].
  - destruct s; [by left|]. right. split; [done|]. destruct Hb as [|c b Hc Hb]; [naive_solver|].
    destruct (byte_hex_facts c Hc) as (_ & _ & _ & _ & _ & _ & _ & ? & ?).
    cbn [flat_map byte_hex app]. by eauto 10.
  - rewrite flat_byte_hex_length. lia.
  - by apply flat_byte_hex_all.
Qed.

(** The invariant of the class. *)
Definition hex_wf (h : Hex) : Prop := isValid (hex h) (strict h) = true.

Lemma isValid_app s1 s2 b :
  isValid s1 b = true → forallb is_hex_char s2 = true → isValid (s1 ++ s2) b = true.
Proof.
  unfold isValid, all_hex. destruct b; intros H1 H2.
  - destruct (_ && _) eqn:E in H1; [done|].
    assert (length (take 2 s1) = 2%nat) as Hl.
    { apply andb_false_iff in E as [E|E]; apply negb_false_iff, bool_decide_eq_true in E;
        rewrite E; done. }
    rewrite length_take in Hl. rewrite take_app_le, E, drop_app_le by lia.
    rewrite List.forallb_app, H1, H2. done.
  - rewrite !drop_0 in *. by rewrite List.forallb_app, H1, H2.
Qed.

Lemma isValid_tail s b :
  isValid s b = true → forallb is_hex_char (if b then drop 2 s else s) = true.
Proof.
  unfold isValid, all_hex. destruct b; simpl; [|done]. by destruct (_ && _).
Qed.

(** [forRPC] removes the zeros that follow the prefix. *)
Lemma forRPC_loop_zeros k fuel r :
  (k < fuel)%nat → head r ≠ Some ch0 →
  forRPC_loop fuel (str "0x" ++ replicate k ch0 ++ r) = Ok (str "0x" ++ r).
Proof.
  revert fuel. induction k as [|k IH]; intros fuel Hf Hr; (destruct fuel as [|fuel]; [lia|]); cbn [forRPC_loop].
  - cbn [replicate app]. destruct r as [|c r].
    + done.
    + rewrite at_str_in by (rewrite zlen_app; pose proof (zlen_nonneg (c :: r));
        rewrite !zlen_cons in *; unfold zlen, str in *; simpl in *; lia).
      change (default 0 ((str "0x" ++ c :: r) !! Z.to_nat 2)) with c.
      cbn [mbind outcome_bind]. rewrite (proj2 (Z.eqb_neq c ch0)); [done|]. intros ->. done.
  - rewrite at_str_in by (rewrite !zlen_app; pose proof (zlen_nonneg r);
      unfold zlen, str in *; simpl in *; lia).
    cbn [replicate app lookup list_lookup mbind outcome_bind].
    change (default 0 ((str "0x" ++ ch0 :: replicate k ch0 ++ r) !! Z.to_nat 2)) with ch0.
    rewrite Z.eqb_refl. apply (IH fuel); [lia|done].
Qed.

Lemma split_zeros d : ∃ k r, d = replicate k ch0 ++ r ∧ head r ≠ Some ch0.
Proof.
  induction d as [|c d (k & r & -> & Hr)].
  - by exists 0%nat, [].
  - destruct (Z.eq_dec c ch0) as [->|].
    + by exists (S k), r.
    + exists 0%nat, (c :: replicate k ch0 ++ r). split; [done|]. simpl. congruence.
Qed.

Lemma forRPC_prefixed d :
  d ≠ [] →
  forRPC (mkHex (str "0x" ++ d) true) = forRPC_loop (S (length (str "0x" ++ d))) (str "0x" ++ d).
Proof.
  intros Hd. unfold forRPC. cbn [hex]. rewrite (at_str_0 48 _ (120 :: d)) by done.
  cbn [mbind outcome_bind]. change (negb (48 =? ch0)) with false. cbn [mbind outcome_bind].
  rewrite bool_decide_false; [done|]. cbn. intros H. injection H as H. done.
Qed.

(** * Properties *)

(** Converting any byte string to hex, with or without the prefix, and
    back with either [bytes()] or the static [toBytes] (which needs a
    non-empty text) returns the bytes. *)
Theorem hex_bytes_roundtrip (b : bytes) (s : bool) :
  bytes_ok b →
  ∃ h, fromBytes b s = Ok h ∧ strict h = s ∧ hex_wf h ∧ Hex_bytes h = Ok b ∧
    (s = true ∨ b ≠ [] → toBytes (hex h) = Ok b).
Proof.
  intros Hb. eexists. rewrite fromBytes_spec by done. split; [done|]. cbn [hex strict].
  split_and!; [done| |by apply Hex_bytes_spec|intros; by apply toBytes_spec].
  unfold hex_wf. cbn [hex strict]. pose proof (flat_byte_hex_all b Hb).
  destruct s; [by apply isValid_strict_prefixed|done].
Qed.

Lemma hex_bytes_roundtrip_witness :
  bytes_ok [0; 18; 255] ∧ ∃ h, fromBytes [0; 18; 255] true = Ok h ∧ Hex_bytes h = Ok [0; 18; 255].
Proof.
  assert (bytes_ok [0; 18; 255]) as H by (repeat constructor; lia).
  split; [exact H|]. destruct (hex_bytes_roundtrip [0; 18; 255] true H) as (h & H1 & _ & _ & H2 & _).
  exists h. split; [exact H1|exact H2].
Defined.

(** Every [Hex] object that the constructors and the two concatenation
    operators produce satisfies the class invariant: its text passes
    [isValid] at its own strictness. *)
Theorem hex_invariant :
  (∀ v s h, Hex_ctor v s = Ok h → hex_wf h ∧ strict h = s) ∧
  (∀ s, hex_wf (Hex_empty s)) ∧
  (∀ h t h', hex_wf h → Hex_append_str h t = Ok h' → hex_wf h') ∧
  (∀ h o h', hex_wf h → hex_wf o → Hex_append h o = Ok h' → hex_wf h').
Proof.
  split_and!.
  - intros v s h H. unfold Hex_ctor in H. inv_ok. zify_bool. done.
  - by intros [].
  - intros h t h' Hh H. unfold Hex_append_str in H. inv_ok. unfold hex_wf in *. cbn [hex strict].
    apply isValid_app; [done|]. by apply isValid_tail.
  - intros h o h' Hh Ho H. unfold Hex_append in H. inv_ok. unfold hex_wf in *. cbn [hex strict].
    apply isValid_app; [done|]. apply isValid_tail in Ho. destruct (strict o).
    + unfold substr in *. inv_ok. rewrite firstn_all2; [done|]. rewrite length_drop. unfold zlen. lia.
    + by inv_ok.
Qed.

(** On a prefixed hex text [forRPC] keeps the prefix and removes exactly
    the leading zeros, so no digit string starts with '0'; the empty text
    becomes "0x0". *)
Theorem forRPC_strips_zeros (d : bytes) :
  ∃ r, forRPC (mkHex (str "0x" ++ d) true) = Ok (str "0x" ++ r) ∧
    (d = [] → r = str "0") ∧
    (d ≠ [] → head r ≠ Some ch0 ∧ ∃ k, d = replicate k ch0 ++ r).
Proof.
  destruct (decide (d = [])) as [->|Hd]; [by exists (str "0")|].
  destruct (split_zeros d) as (k & r & -> & Hr). exists r.
  rewrite forRPC_prefixed by done. split; [|split; [done|eauto]].
  apply forRPC_loop_zeros; [|done]. rewrite !length_app, length_replicate. lia.
Qed.

(** A text of one or more zeros is rendered by [forRPC] as the bare
    prefix "0x", although zero must be "0x0" in JSON-RPC. *)
Theorem forRPC_zero_is_bare (k : nat) :
  forRPC (mkHex (str "0x" ++ replicate (S k) ch0) true) = Ok (str "0x").
Proof.
  rewrite forRPC_prefixed by done.
  rewrite <-(app_nil_r (replicate (S k) ch0)). rewrite forRPC_loop_zeros; [done| |done].
  rewrite !length_app, length_replicate. lia.
Qed.

(** The strict constructor prefixes a text only when it does not start
    with '0', so it throws on every unprefixed text with a leading zero, and
    [fromUint] throws on zero. *)
Theorem Hex_ctor_strict_leading_zero (c : Z) (l : bytes) :
  c ≠ chx → c ≠ chX →
  Hex_ctor (ch0 :: c :: l) true = Throw (runtime_error "Invalid Hex string at constructor") ∧
  fromUint 0 true = Throw (runtime_error "Invalid Hex string at constructor").
Proof.
  intros Hx HX. split; [|done]. unfold Hex_ctor. rewrite (at_str_0 ch0 _ (c :: l)) by done.
  cbn [mbind outcome_bind]. change (negb (ch0 =? ch0)) with false. cbn [mbind outcome_bind].
  unfold isValid. rewrite !bool_decide_false; [done| |]; cbn; intros H; by injection H.
Qed.

Lemma Hex_ctor_strict_leading_zero_witness :
  Hex_ctor (str "0123") true = Throw (runtime_error "Invalid Hex string at constructor").
Proof. apply (Hex_ctor_strict_leading_zero 49 (str "23")); discriminate. Defined.
