(* ===== verification/Strings.v ===== *)
(** * Strings: fixed-size strings, hashes, signatures and addresses
      (src/utils/strings.{h,cpp}, sha3 of src/utils/utils.cpp)

    An object of a class derived from [FixedStr<N>] is its byte string.
    Keccak-256 comes from the ethash library: it is a parameter, the class
    [Keccak], of which only the shape of the digest is relied on. *)

From S2P Require Import Prelude Utils Hex.

(** [ethash_keccak256]: a digest of 32 bytes. *)
Class Keccak := {
  keccak256 : bytes → bytes;
  keccak256_length : ∀ m, length (keccak256 m) = 32%nat;
  keccak256_ok : ∀ m, bytes_ok (keccak256 m);
}.

(** ** FixedStr *)

(** [FixedStr<N>()], [FixedStr<N>(data)]. *)
Definition FixedStr_empty (n : nat) : bytes := replicate n 0.
Definition FixedStr_ctor (n : nat) (data : bytes) : bytes := resize_str n data.

(** [explicit operator bool]: some byte is not zero. *)
Definition FixedStr_bool (s : bytes) : bool := existsb (λ b, negb (b =? 0)) s.

(** [hex(strict)]. *)
Definition FixedStr_hex (s : bytes) (strict : bool) : outcome Hex := fromBytes s strict.

(** ** Hash *)

Definition Hash_zero : bytes := FixedStr_empty 32.

(** [Hash(uint256_t)]. *)
Definition Hash_of_uint256 (v : Z) : bytes := FixedStr_ctor 32 (uint256ToBytes v).

(** [Hash(std::string_view)]: copies into the 32-byte buffer, past its end
    when the view is longer. *)
Definition Hash_of_view (sv : bytes) : outcome bytes :=
  if zlen sv <=? 32 then Ok (sv ++ drop (length sv) (FixedStr_empty 32)) else Undef.

Definition toUint256 (h : bytes) : outcome Z := bytesToUint256 h.

(** ** Signature *)

Definition Signature_r (sig : bytes) : outcome Z := x ← substr sig 0 32; bytesToUint256 x.
Definition Signature_s (sig : bytes) : outcome Z := x ← substr sig 32 32; bytesToUint256 x.
Definition Signature_v (sig : bytes) : outcome Z := x ← substr sig 64 1; bytesToUint8 x.

(** ** Address *)

Definition Address_empty : bytes := FixedStr_empty 20.

Definition Address_isValid (add : bytes) (inBytes : bool) : outcome bool :=
  if inBytes then Ok (zlen add =? 20)
  else
    c0 ← at_view add 0;
    pfx ← (if c0 =? ch0 then c1 ← at_view add 1; Ok ((c1 =? chx) || (c1 =? chX)) else Ok false);
    Ok (if pfx : bool then (zlen add =? 42) && all_hex add 2
        else (zlen add =? 40) && all_hex add 0).

Definition Address_ctor (add : bytes) (inBytes : bool) : outcome bytes :=
  if inBytes then
    _ ← throw_if (negb (zlen add =? 20)) (invalid_argument "Address must be 20 bytes long.");
    Ok add
  else
    v ← Address_isValid add false;
    _ ← throw_if (negb v) (invalid_argument "Invalid Hex address.");
    toBytes add.

(** [std::isdigit]. *)
Definition isdigit (c : Z) : bool := bool_decide (48 ≤ c ≤ 57).

Section Sha3.
Context `{Keccak}.

(** [Utils::sha3]. *)
Definition sha3 (input : bytes) : bytes := keccak256 input.

(** The loop of [toChksum]: each letter takes the case that the digit of the
    digest at its position asks for. *)
Definition toChksum_loop (hash : Hex) (text : bytes) : outcome bytes :=
  foldM (λ text i,
    c ← at_str text i;
    if isdigit c then Ok text
    else
      d ← substr (hex hash) i 1;
      nibble ← of_option (invalid_argument "stoi") (toInt <$> head d);
      Ok (<[Z.to_nat i := if 8 <=? nibble then toupper c else tolower c]> text))
    text (Z.of_nat <$> seq 0 (length text)).

Definition toChksum (data : bytes) : outcome Hex :=
  h ← fromBytes data false;
  hash ← FixedStr_hex (sha3 (hex h)) false;
  text ← toChksum_loop hash (hex h);
  Hex_ctor (str "0x" ++ text) true.

Definition isChksum (add : bytes) : outcome bool :=
  myAdd ← Address_ctor add false;
  c ← toChksum myAdd;
  Ok (bool_decide (add = hex c)).

(** * Lemmas *)

Lemma sha3_length m : length (sha3 m) = 32%nat.
Proof. apply keccak256_length. Qed.

Lemma sha3_ok m : bytes_ok (sha3 m).
Proof. apply keccak256_ok. Qed.

Lemma Hash_of_view_id h : length h = 32%nat → Hash_of_view h = Ok h.
Proof.
  intros Hl. unfold Hash_of_view. rewrite (proj2 (Z.leb_le _ _)) by (unfold zlen; lia).
  rewrite drop_ge, app_nil_r; [done|]. unfold FixedStr_empty. rewrite length_replicate. lia.
Qed.

Lemma toUint256_Ok h : length h = 32%nat → toUint256 h = Ok (be_val h).
Proof. apply bytesToUint256_spec. Qed.

(** The character that the checksum loop writes at position [i]. *)
Definition chksum_char (hash : bytes) (i : nat) (c : Z) : Z :=
  if isdigit c then c
  else if 8 <=? toInt (default 0 (hash !! i)) then toupper c else tolower c.

Lemma toChksum_loop_prefix (hash : Hex) text k :
  (length text ≤ length (hex hash))%nat → (k ≤ length text)%nat →
  foldM (λ text i,
    c ← at_str text i;
    if isdigit c then Ok text
    else
      d ← substr (hex hash) i 1;
      nibble ← of_option (invalid_argument "stoi") (toInt <$> head d);
      Ok (<[Z.to_nat i := if 8 <=? nibble then toupper c else tolower c]> text))
    text (Z.of_nat <$> seq 0 k)
  = Ok (imap (chksum_char (hex hash)) (take k text) ++ drop k text).
Proof.
  intros Hh. induction k as [|k IH]; intros Hk; [done|].
  rewrite seq_S, fmap_app, foldM_app, IH by lia. cbn [mbind outcome_bind plus].
  destruct (lookup_lt_is_Some_2 text k) as [c Hc]; [lia|].
  destruct (lookup_lt_is_Some_2 (hex hash) k) as [d Hd]; [lia|].
  rewrite (take_S_r _ _ c Hc), imap_app. cbn [imap]. rewrite length_take, Nat.min_l by lia.
  rewrite (drop_S text c k Hc).
  assert (length (imap (chksum_char (hex hash)) (take k text)) = k) as Hl
    by (rewrite length_imap, length_take; lia).
  cbn [fmap list_fmap foldM].
  rewrite at_str_in by (rewrite zlen_app, zlen_cons; pose proof (zlen_nonneg (drop (S k) text)); unfold zlen; lia).
  rewrite Nat2Z.id, list_lookup_middle by done. cbn [default from_option id mbind outcome_bind].
  rewrite Nat.add_0_r, <-app_assoc. cbn [app].
  assert (chksum_char (hex hash) k c =
    if isdigit c then c else if 8 <=? toInt d then toupper c else tolower c) as ->
    by (unfold chksum_char; by rewrite Hd).
  destruct (isdigit c); [done|].
  assert (substr (hex hash) (Z.of_nat k) 1 = Ok [d]) as ->.
  { unfold substr. rewrite (proj2 (Z.leb_le _ _)) by (unfold zlen; lia).
    rewrite Nat2Z.id, (drop_S _ d k Hd). done. }
  cbn [mbind outcome_bind head fmap option_fmap option_map of_option].
  rewrite insert_app_r_alt, Hl, Nat.sub_diag by lia. done.
Qed.

Lemma toChksum_loop_spec (hash : Hex) text :
  (length text ≤ length (hex hash))%nat →
  toChksum_loop hash text = Ok (imap (chksum_char (hex hash)) text).
Proof.
  intros. unfold toChksum_loop. rewrite toChksum_loop_prefix by lia.
  by rewrite firstn_all, drop_all, app_nil_r.
Qed.

Definition lower_digits : bytes := str "0123456789abcdef".

Lemma lower_digit_case c :
  c ∈ lower_digits →
  is_hex_char c = true ∧ is_hex_char (toupper c) = true ∧ is_hex_char (tolower c) = true ∧
  toInt (toupper c) = toInt c ∧ toInt (tolower c) = toInt c.
Proof.
  intros Hc. revert c Hc. apply Forall_forall. unfold lower_digits.
  repeat constructor.
Qed.

Lemma hex_digit_lower d : 0 ≤ d < 16 → hex_digit d ∈ lower_digits.
Proof.
  intros. unfold hex_digit.
  destruct (lookup_lt_is_Some_2 (str "0123456789abcdef") (Z.to_nat d)) as [x Hx]; [simpl; lia|].
  rewrite Hx. by eapply list_elem_of_lookup_2.
Qed.

Lemma flat_byte_hex_lower b : bytes_ok b → Forall (.∈ lower_digits) (flat_map byte_hex b).
Proof.
  induction 1 as [|c b Hc Hb IH]; [done|]. unfold is_byte in Hc. cbn [flat_map byte_hex app].
  apply Forall_cons. split; [apply hex_digit_lower|apply Forall_cons; split; [apply hex_digit_lower|done]].
  - split; [apply Z.div_pos; lia|apply Z.div_lt_upper_bound; lia].
  - apply Z.mod_pos_bound. lia.
Qed.

Lemma chksum_text_facts hash t :
  Forall (.∈ lower_digits) t →
  forallb is_hex_char (imap (chksum_char hash) t) = true ∧
  Forall2 (λ c c', toInt c = toInt c') (imap (chksum_char hash) t) t.
Proof.
  intros Ht. assert (∀ i c, c ∈ lower_digits → is_hex_char (chksum_char hash i c) = true ∧
    toInt (chksum_char hash i c) = toInt c) as Hf.
  { intros i c Hc. destruct (lower_digit_case c Hc) as (? & ? & ? & ? & ?).
    unfold chksum_char. destruct (isdigit c); [done|]. by destruct (8 <=? toInt _). }
  revert Hf. generalize (chksum_char hash) as f. induction Ht as [|c t Hc Ht IH]; intros f Hf.
  - by split; [|constructor].
  - cbn [imap forallb]. destruct (Hf 0%nat c Hc) as [-> ?].
    destruct (IH (f ∘ S)) as [-> ?]; [intros; by apply Hf|]. split; [done|]. by constructor.
Qed.

(** The text that [toChksum] produces parses back to the address. *)
Lemma toChksum_parses a :
  bytes_ok a → length a = 20%nat →
  ∃ c, toChksum a = Ok c ∧ Address_ctor (hex c) false = Ok a.
Proof.
  intros Ha Hl. unfold toChksum, FixedStr_hex.
  rewrite !fromBytes_spec by auto using sha3_ok. cbn [mbind outcome_bind app hex].
  rewrite fromBytes_spec by apply sha3_ok. cbn [mbind outcome_bind app].
  rewrite toChksum_loop_spec
    by (cbn [hex]; rewrite !flat_byte_hex_length, sha3_length, Hl; lia).
  cbn [mbind outcome_bind hex]. set (hash := flat_map byte_hex (sha3 _)).
  destruct (chksum_text_facts hash (flat_map byte_hex a)) as [Hx HF];
    [by apply flat_byte_hex_lower|].
  set (t := imap (chksum_char hash) (flat_map byte_hex a)) in *.
  assert (length t = 40%nat) as Ht.
  { subst t. rewrite length_imap, flat_byte_hex_length. lia. }
  rewrite Hex_ctor_strict_digits by done. eexists. split; [done|]. cbn [hex].
  unfold Address_ctor, Address_isValid.
  rewrite (at_view_at _ [] 48 (120 :: t) 0), (at_view_at _ [48] 120 t 1) by reflexivity.
  cbn [mbind outcome_bind]. change (48 =? ch0) with true.
  change ((120 =? chx) || (120 =? chX)) with true. cbn [mbind outcome_bind].
  rewrite (zlen_eqb _ 42 42) by (rewrite ?length_app, ?Ht; done).
  unfold all_hex. change (drop 2 (str "0x" ++ t)) with t. rewrite Hx.
  cbn [andb negb throw_if mbind outcome_bind].
  rewrite (toBytes_text (str "0x") t 20) by (auto; lia).
  f_equal. rewrite (decode_pairs_ext _ _ HF). by apply decode_byte_hex.
Qed.

(** * Properties *)

(** The EIP-55 text of a 20-byte address is a valid address text that the
    constructor turns back into the address, and it passes [isChksum]. *)
Theorem checksum_roundtrip (a : bytes) :
  bytes_ok a → length a = 20%nat →
  ∃ c, toChksum a = Ok c ∧ hex_wf c ∧ Address_ctor (hex c) false = Ok a ∧
    isChksum (hex c) = Ok true.
Proof.
  intros Ha Hl. destruct (toChksum_parses a Ha Hl) as (c & Hc & Hp).
  exists c. split_and!; [done| |done|].
  - unfold toChksum in Hc. inv_ok. unfold Hex_ctor in Hc. inv_ok. by zify_bool.
  - unfold isChksum. rewrite Hp. cbn [mbind outcome_bind]. rewrite Hc. cbn [mbind outcome_bind].
    by rewrite bool_decide_true.
Qed.

End Sha3.

(** An executable stand-in for the digest, for concrete runs. *)
Definition toy_digest (m : bytes) : bytes :=
  be_split 32 (foldl (λ acc b, Z.land (acc * 1000003 + b + 12345) (2 ^ 48 - 1)) 7 m * 0x9e3779b97f4a7c15f39cc0605cedc835).

Definition toy_keccak : Keccak :=
  {| keccak256 := toy_digest;
     keccak256_length := λ m, be_split_length 32 _;
     keccak256_ok := λ m, be_split_ok 32 _ |}.

Lemma checksum_roundtrip_witness :
  ∃ c, @toChksum toy_keccak (replicate 20 171) = Ok c ∧
       Address_ctor (hex c) false = Ok (replicate 20 171).
Proof.
  destruct (@checksum_roundtrip toy_keccak (replicate 20 171)) as (c & H1 & _ & H2 & _).
  - apply Forall_replicate. split; [lia|reflexivity].
  - reflexivity.
  - exists c. split; [exact H1|exact H2].
Defined.
