(* ===== verification/SafeHash.v ===== *)
(** * SafeHash: hash functions of the containers (src/utils/safehash.h)

    [SafeHash] perturbs a 64-bit key by a per-process random number and mixes
    it with splitmix64; [FNVHash] hashes broadcast messages.  The process's
    random number and [std::hash] are arguments. *)

From S2P Require Import Prelude.

(** [SafeHash::splitmix]. *)
Definition splitmix (i : Z) : Z :=
  let i := u64 (i + 0x9e3779b97f4a7c15) in
  let i := u64 (Z.lxor i (Z.shiftr i 30) * 0xbf58476d1ce4e5b9) in
  let i := u64 (Z.lxor i (Z.shiftr i 27) * 0x94d049bb133111eb) in
  Z.lxor i (Z.shiftr i 31).

(** [operator()(uint64_t)]. *)
Definition SafeHash_uint64 (FIXED_RANDOM i : Z) : Z := splitmix (u64 (i + FIXED_RANDOM)).

(** [operator()] on strings, addresses and transactions, through [std::hash]
    of their bytes. *)
Definition SafeHash_bytes (std_hash : bytes → Z) (FIXED_RANDOM : Z) (s : bytes) : Z :=
  splitmix (u64 (std_hash s + FIXED_RANDOM)).

(** [operator()] on shared pointers, through [std::hash] of the pointer. *)
Definition SafeHash_ptr (std_hash_ptr : Z → Z) (FIXED_RANDOM ptr : Z) : Z :=
  splitmix (u64 (std_hash_ptr ptr + FIXED_RANDOM)).

(** [FNVHash::operator()]. *)
Definition FNVHash (s : bytes) : Z :=
  foldl (λ result b, Z.lxor (u64 (16777619 * result)) b) 2166136261 s.

(** * Lemmas *)

Lemma u64_range x : is_uint 64 (u64 x).
Proof. unfold is_uint, wrap. apply Z.mod_pos_bound. lia. Qed.

Lemma u64_add_inj c x y : is_uint 64 x → is_uint 64 y → u64 (x + c) = u64 (y + c) → x = y.
Proof.
  unfold is_uint, wrap. intros Hx Hy H.
  assert ((x + c - c) mod 2 ^ 64 = (y + c - c) mod 2 ^ 64) as H'
    by (rewrite (Zminus_mod (x + c)), (Zminus_mod (y + c)), H; done).
  rewrite !Z.add_simpl_r, !Z.mod_small in H' by done. done.
Qed.

(** Multiplication by a unit of the ring is injective. *)
Lemma u64_mul_inj a a' x y :
  (a * a') mod 2 ^ 64 = 1 → is_uint 64 x → is_uint 64 y → u64 (x * a) = u64 (y * a) → x = y.
Proof.
  unfold is_uint, wrap. intros Ha Hx Hy H.
  assert (∀ z, 0 ≤ z < 2 ^ 64 → ((z * a) mod 2 ^ 64 * a') mod 2 ^ 64 = z) as Hz.
  { intros z Hz. rewrite Z.mul_mod_idemp_l by lia. rewrite <-Z.mul_assoc.
    rewrite <-Z.mul_mod_idemp_r, Ha, Z.mul_1_r by lia. by apply Z.mod_small. }
  rewrite <-(Hz x), <-(Hz y), H by done. done.
Qed.

Lemma lxor_range w a b : 0 ≤ w → is_uint w a → is_uint w b → is_uint w (Z.lxor a b).
Proof.
  unfold is_uint. intros Hw Ha Hb. assert (0 ≤ Z.lxor a b) by (apply Z.lxor_nonneg; lia).
  split; [done|]. destruct (Z.eq_dec (Z.lxor a b) 0) as [->|]; [lia|].
  apply Z.log2_lt_pow2; [lia|].
  pose proof (Z.log2_lxor a b ltac:(lia) ltac:(lia)).
  assert (∀ z, 0 ≤ z < 2 ^ w → 0 < w → Z.log2 z < w) as Hl.
  { intros z Hz Hw'. destruct (Z.eq_dec z 0) as [->|]; [done|]. apply Z.log2_lt_pow2; lia. }
  assert (0 < w). { destruct (Z.eq_dec w 0) as [->|]; [|lia]. exfalso.
    assert (a = 0) as -> by lia. assert (b = 0) as -> by lia. done. }
  pose proof (Hl a Ha). pose proof (Hl b Hb). lia.
Qed.

Lemma shiftr_range w a k : 0 ≤ k → is_uint w a → is_uint w (Z.shiftr a k).
Proof.
  unfold is_uint. intros Hk Ha. rewrite Z.shiftr_div_pow2 by done.
  pose proof (Z.pow_pos_nonneg 2 k). split; [apply Z.div_pos; lia|].
  eapply Z.le_lt_trans; [apply Z.div_le_upper_bound with (q := a); nia|lia].
Qed.

(** The xor-shift step loses nothing. *)
Lemma xorshift_inj k x y :
  0 < k → 0 ≤ x → 0 ≤ y →
  Z.lxor x (Z.shiftr x k) = Z.lxor y (Z.shiftr y k) → x = y.
Proof.
  intros Hk Hx Hy H. apply Z.lxor_eq. set (z := Z.lxor x y).
  assert (z = Z.shiftr z k) as Hz.
  { subst z. rewrite Z.shiftr_lxor. apply (f_equal (λ t, Z.lxor (Z.lxor t y) (Z.shiftr x k))) in H.
    rewrite (Z.lxor_assoc (Z.lxor x _) y), (Z.lxor_comm y), <-Z.lxor_assoc in H.
    rewrite (Z.lxor_assoc x), Z.lxor_nilpotent, Z.lxor_0_r in H.
    rewrite H. rewrite (Z.lxor_comm y), (Z.lxor_assoc _ y y), Z.lxor_nilpotent, Z.lxor_0_r.
    apply Z.lxor_comm. }
  assert (0 ≤ z) by (apply Z.lxor_nonneg; lia).
  rewrite Z.shiftr_div_pow2 in Hz by lia.
  assert (2 ≤ 2 ^ k) by (change 2 with (2 ^ 1) at 1; apply Z.pow_le_mono_r; lia).
  destruct (Z.eq_dec z 0) as [|]; [done|].
  pose proof (Z.div_lt z (2 ^ k)). lia.
Qed.

(** ** FNVHash: the steps are injective in the state *)

Lemma lxor_cancel_r x y b : Z.lxor x b = Z.lxor y b → x = y.
Proof.
  intros Hx. apply (f_equal (λ z, Z.lxor z b)) in Hx.
  by rewrite !Z.lxor_assoc, !Z.lxor_nilpotent, !Z.lxor_0_r in Hx.
Qed.

Lemma lxor_cancel_l x b b' : Z.lxor x b = Z.lxor x b' → b = b'.
Proof. rewrite !(Z.lxor_comm x). apply lxor_cancel_r. Qed.

Definition fnv_step (result b : Z) : Z := Z.lxor (u64 (16777619 * result)) b.

Lemma fnv_step_uint x b : is_byte b → is_uint 64 (fnv_step x b).
Proof.
  intros Hb. apply lxor_range; [done|apply u64_range|]. unfold is_byte, is_uint in *. lia.
Qed.

Lemma fnv_step_inj x y b :
  is_uint 64 x → is_uint 64 y → fnv_step x b = fnv_step y b → x = y.
Proof.
  intros Hx Hy Hs. apply lxor_cancel_r in Hs. rewrite !(Z.mul_comm 16777619) in Hs.
  by apply (u64_mul_inj _ 0x87b58b5d359c449b) in Hs.
Qed.

Lemma fnv_fold_uint s x : bytes_ok s → is_uint 64 x → is_uint 64 (foldl fnv_step x s).
Proof.
  intros Hs. revert x. induction Hs as [|b s Hb Hs IH]; intros x Hx; [done|].
  by apply IH, fnv_step_uint.
Qed.

Lemma FNVHash_uint s : bytes_ok s → is_uint 64 (FNVHash s).
Proof. intros Hs. by apply fnv_fold_uint. Qed.

Lemma fnv_fold_inj s x y :
  bytes_ok s → is_uint 64 x → is_uint 64 y → foldl fnv_step x s = foldl fnv_step y s → x = y.
Proof.
  intros Hs. revert x y. induction Hs as [|b s Hb Hs IH]; intros x y Hx Hy Hf; [done|].
  cbn [foldl] in Hf. apply (fnv_step_inj x y b); [done..|].
  apply IH; [by apply fnv_step_uint..|done].
Qed.

(** Changing one byte changes the hash. *)
Lemma FNVHash_one_byte pre b b' post :
  bytes_ok pre → bytes_ok post → is_byte b → is_byte b' →
  FNVHash (pre ++ b :: post) = FNVHash (pre ++ b' :: post) → b = b'.
Proof.
  intros Hpre Hpost Hb Hb' Hf. change (foldl fnv_step 2166136261 (pre ++ b :: post) =
    foldl fnv_step 2166136261 (pre ++ b' :: post)) in Hf.
  rewrite !foldl_app in Hf. cbn [foldl] in Hf.
  apply fnv_fold_inj in Hf; [|done|by apply fnv_step_uint..].
  by apply lxor_cancel_l in Hf.
Qed.

(** * Properties *)

(** Splitmix64 is injective on 64-bit integers, so two different
    [uint64_t] keys never get the same [SafeHash], whatever the process's
    random number, and the result is again a 64-bit integer. *)
Theorem SafeHash_uint64_injective (FIXED_RANDOM i j : Z) :
  is_uint 64 i → is_uint 64 j →
  is_uint 64 (SafeHash_uint64 FIXED_RANDOM i) ∧
  (SafeHash_uint64 FIXED_RANDOM i = SafeHash_uint64 FIXED_RANDOM j → i = j).
Proof.
  intros Hi Hj. unfold SafeHash_uint64, splitmix. cbv zeta.
  assert (∀ z k, 0 < k → is_uint 64 z → is_uint 64 (Z.lxor z (Z.shiftr z k))) as Hr.
  { intros z k Hk Hz. apply lxor_range; [lia|done|apply shiftr_range; [lia|done]]. }
  split; [apply Hr; [lia|apply u64_range]|].
  intros H. apply xorshift_inj in H; [|lia|apply u64_range..].
  apply (u64_mul_inj _ 0x319642b2d24d8ec3) in H; [|reflexivity|apply Hr; [lia|apply u64_range]..].
  apply xorshift_inj in H; [|lia|apply u64_range..].
  apply (u64_mul_inj _ 0x96de1b173f119089) in H; [|reflexivity|apply Hr; [lia|apply u64_range]..].
  apply xorshift_inj in H; [|lia|apply u64_range..].
  apply u64_add_inj in H; [|apply u64_range..].
  by apply u64_add_inj in H.
Qed.

Lemma SafeHash_uint64_injective_witness :
  is_uint 64 (SafeHash_uint64 12345 7) ∧ SafeHash_uint64 12345 7 ≠ SafeHash_uint64 12345 8.
Proof.
  destruct (SafeHash_uint64_injective 12345 7 8) as [H1 H2]; [split; [lia|reflexivity]..|].
  split; [exact H1|]. intros H. specialize (H2 H). discriminate H2.
Defined.
