(* ===== verification/Merkle.v ===== *)
(** * Merkle: the Merkle tree over transaction hashes (src/utils/merkle.{h,cpp})

    A tree is the list of its layers, leaves first.  Sibling hashes are hashed
    in sorted order ([std::min] then [std::max]) and the last node of a layer
    of odd size is carried to the next one unchanged.  The Patricia tree of
    the same header is declared but has no implementation. *)

From S2P Require Import Prelude Utils Hex Strings.

Section Merkle.
Context `{Keccak}.

(** The parent of two nodes. *)
Definition hash_pair (a b : bytes) : bytes := sha3 (std_min a b ++ std_max a b).

(** [Merkle::newLayer]. *)
Fixpoint newLayer (layer : list bytes) : list bytes :=
  match layer with
  | a :: b :: rest => hash_pair a b :: newLayer rest
  | _ => layer
  end.

(** [while (tree.back().size() > 1) tree.emplace_back(newLayer(tree.back()));]:
    the layers from [back] on. *)
Fixpoint layers_from (fuel : nat) (back : list bytes) : list (list bytes) :=
  match fuel with
  | O => [back]
  | S fuel =>
      if 1 <? zlen back then back :: layers_from fuel (newLayer back) else [back]
  end.

(** [Merkle(const std::vector<Hash>& leaves)]; the constructor from
    transactions is this one on their hashes. *)
Definition Merkle_ctor (leaves : list bytes) : list (list bytes) :=
  layers_from (length leaves) (sha3 <$> leaves).

Definition getRoot (tree : list (list bytes)) : bytes :=
  default Hash_zero (head (default [] (last tree))).

Definition getLeaves (tree : list (list bytes)) : list bytes := default [] (head tree).

(** The loop of [getProof] over the layers. *)
Fixpoint getProof_loop (tree : list (list bytes)) (pos : Z) (ret : list bytes) : outcome (list bytes) :=
  match tree with
  | [] => Ok ret
  | layer :: tree =>
      if zlen layer =? 1 then Ok ret
      else
        let pos := u64 (if pos mod 2 =? 0 then pos + 1 else pos - 1) in
        h ← at_view layer pos;
        getProof_loop tree (pos / 2) (ret ++ [h])
  end.

(** [Merkle::getProof]: [size() - 1] wraps around on an empty leaf layer. *)
Definition getProof (tree : list (list bytes)) (leafIndex : Z) : outcome (list bytes) :=
  if u64 (zlen (getLeaves tree) - 1) <? leafIndex then Ok []
  else getProof_loop tree leafIndex [].

(** [Merkle::verify]. *)
Definition verify (proof : list bytes) (leaf root : bytes) : bool :=
  bool_decide (foldl hash_pair leaf proof = root).

(** * Lemmas *)

Lemma hash_pair_comm a b : hash_pair a b = hash_pair b a.
Proof. unfold hash_pair. by rewrite std_min_comm, std_max_comm. Qed.

(** Two steps of the layer at a time. *)
Lemma pair_ind {A} (P : list A → Prop) :
  P [] → (∀ a, P [a]) → (∀ a b l, P l → P (a :: b :: l)) → ∀ l, P l.
Proof.
  intros H0 H1 H2. fix IH 1. intros [|a [|b l]]; [done|done|]. apply H2, IH.
Qed.

Lemma newLayer_length l : length (newLayer l) = ((length l + 1) / 2)%nat.
Proof.
  induction l as [| |a b l IH] using pair_ind; [done..|]. cbn [newLayer length].
  rewrite IH. replace (S (S (length l)) + 1)%nat with (1 * 2 + (length l + 1))%nat by lia.
  by rewrite Nat.div_add_l.
Qed.

Lemma newLayer_lookup l j a b :
  l !! (2 * j)%nat = Some a → l !! (2 * j + 1)%nat = Some b →
  newLayer l !! j = Some (hash_pair a b).
Proof.
  revert j. induction l as [|x|x y l IH] using pair_ind; intros j Ha Hb.
  - done.
  - apply lookup_lt_Some in Hb. simpl in Hb. lia.
  - cbn [newLayer]. destruct j as [|j]; [simpl in *; congruence|].
    replace (2 * S j)%nat with (S (S (2 * j))) in * by lia. cbn in *. by apply IH.
Qed.

Lemma layers_from_nonempty fuel l : layers_from fuel l ≠ [].
Proof. destruct fuel; simpl; [done|]. by destruct (1 <? zlen l). Qed.

Lemma last_cons_nonempty {A} (x : A) l : l ≠ [] → last (x :: l) = last l.
Proof. by destruct l. Qed.

(** The loop stops at a single node: the fuel is enough. *)
Lemma layers_from_root fuel l :
  l ≠ [] → (length l ≤ fuel)%nat → ∃ r, last (layers_from fuel l) = Some [r].
Proof.
  revert l. induction fuel as [|fuel IH]; intros l Hne Hf.
  - destruct l; [done|simpl in Hf; lia].
  - cbn [layers_from]. destruct (Z.ltb_spec 1 (zlen l)) as [Hl|Hl].
    + rewrite last_cons_nonempty by apply layers_from_nonempty.
      unfold zlen in Hl. pose proof (Nat.div_mod_eq (length l + 1) 2).
      pose proof (Nat.mod_upper_bound (length l + 1) 2).
      apply IH.
      * intros E. apply (f_equal length) in E. rewrite newLayer_length in E. cbn [length] in E. lia.
      * rewrite newLayer_length. lia.
    + destruct l as [|r [|r' l]]; [done|by exists r|]. rewrite !zlen_cons in Hl.
      pose proof (zlen_nonneg l). lia.
Qed.

(** Folding a proof of the loop from the node at [pos] reaches the root. *)
Lemma getProof_loop_verify fuel l pos ret p a :
  (length l ≤ fuel)%nat → is_uint 64 pos → zlen l < 2 ^ 64 → l !! Z.to_nat pos = Some a →
  getProof_loop (layers_from fuel l) pos ret = Ok p →
  ∃ q, p = ret ++ q ∧ last (layers_from fuel l) = Some [foldl hash_pair a q].
Proof.
  revert l pos ret a. induction fuel as [|fuel IH]; intros l pos ret a Hf Hpos Hmax Ha Hp.
  - destruct l; [done|simpl in Hf; lia].
  - cbn [layers_from] in *. pose proof (lookup_lt_Some _ _ _ Ha) as Hlt.
    destruct (Z.ltb_spec 1 (zlen l)) as [Hl|Hl].
    2: { destruct l as [|r [|r' l]]; [done| |rewrite !zlen_cons in Hl; pose proof (zlen_nonneg l); lia].
         simpl in Hlt. replace (Z.to_nat pos) with 0%nat in Ha by lia. injection Ha as ->.
         cbn in Hp. injection Hp as <-. exists []. by rewrite app_nil_r. }
    cbn [getProof_loop] in Hp. rewrite (proj2 (Z.eqb_neq (zlen l) 1)) in Hp by lia.
    set (pos' := u64 _) in Hp. apply bind_Ok in Hp as (h & Hh & Hp).
    unfold at_view in Hh. inv_ok. zify_bool.
    destruct (l !! Z.to_nat pos') as [h'|] eqn:Hh'; [|done]. injection Hh as ->.
    pose proof (lookup_lt_Some _ _ _ Hh') as Hlt'.
    assert (∃ j, newLayer l !! j = Some (hash_pair a h) ∧ Z.of_nat j = pos' / 2) as (j & Hj & Hje).
    { unfold is_uint in Hpos. unfold zlen in *.
      pose proof (Z.div_mod pos 2). pose proof (Z.mod_pos_bound pos 2).
      exists (Z.to_nat (pos / 2)). rewrite Z2Nat.id by (apply Z.div_pos; lia).
      subst pos'. destruct (Z.eqb_spec (pos mod 2) 0) as [He|He]; unfold wrap in *;
        rewrite Z.mod_small in * by lia.
      - split; [|rewrite <-(Z.div_unique (pos + 1) 2 (pos / 2) 1); lia].
        apply newLayer_lookup; [rewrite <-Ha|rewrite <-Hh']; f_equal; lia.
      - split; [|rewrite <-(Z.div_unique (pos - 1) 2 (pos / 2) 0); lia].
        rewrite hash_pair_comm.
        apply newLayer_lookup; [rewrite <-Hh'|rewrite <-Ha]; f_equal; lia. }
    rewrite last_cons_nonempty by apply layers_from_nonempty.
    pose proof (lookup_lt_Some _ _ _ Hj) as Hjl. rewrite newLayer_length in Hjl.
    pose proof (Nat.div_mod_eq (length l + 1) 2). pose proof (Nat.mod_upper_bound (length l + 1) 2).
    unfold zlen in *.
    destruct (IH (newLayer l) (pos' / 2) (ret ++ [h]) (hash_pair a h)) as (q & -> & Hq).
    + rewrite newLayer_length. lia.
    + rewrite <-Hje. unfold is_uint. lia.
    + rewrite newLayer_length. lia.
    + by rewrite <-Hje, Nat2Z.id.
    + done.
    + exists (h :: q). by rewrite <-app_assoc.
Qed.

Lemma getRoot_of_last tree r : last tree = Some [r] → getRoot tree = r.
Proof. intros Hl. unfold getRoot. by rewrite Hl. Qed.

Lemma getLeaves_ctor leaves : getLeaves (Merkle_ctor leaves) = sha3 <$> leaves.
Proof.
  unfold getLeaves, Merkle_ctor. destruct leaves as [|x leaves]; [done|].
  cbn [length layers_from]. by destruct (1 <? _).
Qed.

Lemma zlen_fmap {A B} (f : A → B) l : zlen (f <$> l) = zlen l.
Proof. unfold zlen. by rewrite length_fmap. Qed.

Lemma getProof_in_range leaves i :
  zlen leaves < 2 ^ 64 → 0 ≤ i < zlen leaves →
  getProof (Merkle_ctor leaves) i = getProof_loop (Merkle_ctor leaves) i [].
Proof.
  intros Hm Hi. unfold getProof. rewrite getLeaves_ctor, zlen_fmap.
  unfold wrap. rewrite Z.mod_small by lia. by rewrite (proj2 (Z.ltb_ge _ _)) by lia.
Qed.

(** A full layer of [2 ^ k] nodes never sends the loop out of range. *)
Lemma getProof_loop_pow2 k fuel l pos ret :
  length l = (2 ^ k)%nat → (k ≤ fuel)%nat → 0 ≤ pos < zlen l → zlen l < 2 ^ 64 →
  ∃ p, getProof_loop (layers_from fuel l) pos ret = Ok p ∧ length p = (length ret + k)%nat.
Proof.
  revert fuel l pos ret. induction k as [|k IH]; intros fuel l pos ret Hl Hf Hpos Hm.
  - assert (zlen l = 1) as H1 by (unfold zlen; simpl in Hl; lia).
    exists ret. split; [|lia].
    destruct fuel as [|fuel]; cbn [layers_from]; rewrite ?H1; cbn [Z.ltb Z.compare Pos.compare Pos.compare_cont getProof_loop]; by rewrite H1.
  - destruct fuel as [|fuel]; [lia|]. cbn [layers_from]. simpl in Hl.
    assert (0 < 2 ^ k)%nat by (pose proof (Nat.pow_nonzero 2 k); lia).
    rewrite (proj2 (Z.ltb_lt 1 (zlen l))) by (unfold zlen; lia).
    cbn [getProof_loop]. rewrite (proj2 (Z.eqb_neq (zlen l) 1)) by (unfold zlen; lia).
    set (pos' := u64 _).
    assert (0 ≤ pos' < zlen l ∧ pos' / 2 = pos / 2) as [Hr Hd].
    { subst pos'. unfold zlen in *. pose proof (Z.div_mod pos 2). pose proof (Z.mod_pos_bound pos 2).
      destruct (Z.eqb_spec (pos mod 2) 0); unfold wrap; rewrite Z.mod_small by lia.
      - split; [lia|]. rewrite <-(Z.div_unique (pos + 1) 2 (pos / 2) 1); lia.
      - split; [lia|]. rewrite <-(Z.div_unique (pos - 1) 2 (pos / 2) 0); lia. }
    destruct (lookup_lt_is_Some_2 l (Z.to_nat pos')) as [h Hh]; [unfold zlen in Hr; lia|].
    assert (at_view l pos' = Ok h) as ->.
    { unfold at_view. rewrite bool_decide_true by lia. by rewrite Hh. }
    cbn [mbind outcome_bind].
    assert (length (newLayer l) = 2 ^ k)%nat as Hn.
    { rewrite newLayer_length, Hl.
      replace (2 ^ k + (2 ^ k + 0) + 1)%nat with (2 ^ k * 2 + 1)%nat by lia.
      rewrite Nat.div_add_l by lia. simpl. lia. }
    destruct (IH fuel (newLayer l) (pos' / 2) (ret ++ [h])) as (p & Hp & Hlp); [done|lia| | |].
    + unfold zlen in *. rewrite Hn, Hd. split; [apply Z.div_pos; lia|apply Z.div_lt_upper_bound; lia].
    + unfold zlen in *. lia.
    + exists p. split; [done|]. rewrite length_app in Hlp. simpl in Hlp. lia.
Qed.

Lemma Merkle_ctor_verify leaves i leaf p :
  zlen leaves < 2 ^ 64 → 0 ≤ i < zlen leaves → leaves !! Z.to_nat i = Some leaf →
  getProof (Merkle_ctor leaves) i = Ok p →
  verify p (sha3 leaf) (getRoot (Merkle_ctor leaves)) = true.
Proof.
  intros Hm Hi Hleaf Hp. rewrite getProof_in_range in Hp by done. unfold Merkle_ctor in *.
  destruct (getProof_loop_verify (length leaves) (sha3 <$> leaves) i [] p (sha3 leaf))
    as (q & -> & Hq).
  - by rewrite length_fmap.
  - unfold is_uint. lia.
  - by rewrite zlen_fmap.
  - by rewrite list_lookup_fmap, Hleaf.
  - done.
  - unfold verify. rewrite (getRoot_of_last _ _ Hq). by apply bool_decide_true.
Qed.

(** * Properties *)

(** C37: building the tree terminates in a single root for every non-empty
    list of leaves, and whenever [getProof] returns a proof for a leaf, that
    proof verifies against the leaf's hash and the root. *)
Theorem merkle_proof_verifies (leaves : list bytes) (i : Z) (leaf : bytes) (p : list bytes) :
  zlen leaves < 2 ^ 64 → 0 ≤ i < zlen leaves → leaves !! Z.to_nat i = Some leaf →
  getProof (Merkle_ctor leaves) i = Ok p →
  (∃ r, last (Merkle_ctor leaves) = Some [r]) ∧
  verify p (sha3 leaf) (getRoot (Merkle_ctor leaves)) = true.
Proof.
  intros Hm Hi Hleaf Hp. split; [|by eapply Merkle_ctor_verify].
  apply layers_from_root; [|by rewrite length_fmap]. by destruct leaves.
Qed.

(** On a full tree of [2 ^ k] leaves [getProof] never leaves the layers:
    every leaf has a proof of [k] hashes, and it verifies. *)
Theorem merkle_proof_total_pow2 (leaves : list bytes) (k : nat) (i : Z) (leaf : bytes) :
  length leaves = (2 ^ k)%nat → zlen leaves < 2 ^ 64 → 0 ≤ i < zlen leaves →
  leaves !! Z.to_nat i = Some leaf →
  ∃ p, getProof (Merkle_ctor leaves) i = Ok p ∧ length p = k ∧
       verify p (sha3 leaf) (getRoot (Merkle_ctor leaves)) = true.
Proof.
  intros Hl Hm Hi Hleaf.
  assert (k ≤ length leaves)%nat by (rewrite Hl; pose proof (Nat.pow_gt_lin_r 2 k); lia).
  destruct (getProof_loop_pow2 k (length leaves) (sha3 <$> leaves) i []) as (p & Hp & Hlp);
    [by rewrite length_fmap|done|by rewrite zlen_fmap..|].
  exists p. assert (getProof (Merkle_ctor leaves) i = Ok p) as Hg
    by (by rewrite getProof_in_range).
  split_and!; [done|done|]. by eapply Merkle_ctor_verify.
Qed.

(** On a layer of odd size the sibling of the last leaf is looked up past
    the end of the layer: [getProof] of the last leaf of any tree with an odd
    number of leaves, three or more, is undefined. *)
Theorem merkle_odd_last_undefined (leaves : list bytes) (n : nat) :
  length leaves = (2 * n + 3)%nat → zlen leaves < 2 ^ 64 →
  getProof (Merkle_ctor leaves) (zlen leaves - 1) = Undef.
Proof.
  intros Hl Hm. assert (zlen leaves = 2 * Z.of_nat n + 3) as Hz by (unfold zlen; lia).
  rewrite getProof_in_range by lia. unfold Merkle_ctor. rewrite Hl.
  replace (2 * n + 3)%nat with (S (2 * n + 2)) by lia. cbn [layers_from].
  rewrite zlen_fmap, (proj2 (Z.ltb_lt 1 _)) by lia. cbn [getProof_loop].
  rewrite zlen_fmap, (proj2 (Z.eqb_neq _ 1)) by lia.
  replace ((zlen leaves - 1) mod 2) with 0
    by (rewrite Hz; replace (2 * Z.of_nat n + 3 - 1) with ((Z.of_nat n + 1) * 2) by lia;
        by rewrite Z.mod_mul).
  cbn [Z.eqb]. unfold wrap. rewrite Z.mod_small by lia. unfold at_view.
  rewrite bool_decide_true by lia. rewrite lookup_ge_None_2; [done|].
  rewrite length_fmap. unfold zlen in *. lia.
Qed.

End Merkle.

Definition sample_leaves (n : nat) : list bytes := (λ i, [Z.of_nat i]) <$> seq 0 n.

Lemma merkle_proof_verifies_witness :
  ∃ p, @getProof (@Merkle_ctor toy_keccak (sample_leaves 5)) 2 = Ok p ∧
       @verify toy_keccak p (@sha3 toy_keccak [2]) (@getRoot (@Merkle_ctor toy_keccak (sample_leaves 5))) = true.
Proof.
  eexists. split; [vm_compute; reflexivity|].
  apply (@merkle_proof_verifies toy_keccak (sample_leaves 5) 2 [2]);
    [reflexivity|split; [lia|reflexivity]|reflexivity|vm_compute; reflexivity].
Defined.

Lemma merkle_proof_total_pow2_witness :
  ∃ p, @getProof (@Merkle_ctor toy_keccak (sample_leaves 4)) 3 = Ok p ∧ length p = 2%nat.
Proof.
  destruct (@merkle_proof_total_pow2 toy_keccak (sample_leaves 4) 2 3 [3]) as (p & H1 & H2 & _);
    [reflexivity|reflexivity|split; [lia|reflexivity]|reflexivity|].
  exists p. split; [exact H1|exact H2].
Defined.

Lemma merkle_odd_last_undefined_witness :
  getProof (@Merkle_ctor toy_keccak (sample_leaves 3)) 2 = Undef.
Proof. apply (@merkle_odd_last_undefined toy_keccak (sample_leaves 3) 0); reflexivity. Defined.
