(* ===== verification/RandomGen.v ===== *)
(** * RandomGen: the deterministic shuffle of the validators
      (src/utils/randomgen.{h,cpp})

    The generator's state is its seed; every draw replaces the seed by its
    hash.  The mutex serialises the calls, each of which is one transition. *)

From S2P Require Import Prelude Utils Hex Strings.

Section RandomGen.
Context `{Keccak}.

(** [uint256_t RandomGen::operator()()]: the new seed and the number. *)
Definition RandomGen_next (seed : bytes) : outcome (bytes * Z) :=
  let seed := sha3 seed in
  ret ← toUint256 seed;
  Ok (seed, ret).

(** [std::swap(v[n], v[i])]. *)
Definition swap {A} (v : list A) (n i : Z) : outcome (list A) :=
  x ← at_view v n;
  y ← at_view v i;
  Ok (<[Z.to_nat i := x]> (<[Z.to_nat n := y]> v)).

(** The body of the loop of [shuffle]. *)
Definition shuffle_step {A} (st : bytes * list A) (i : Z) : outcome (bytes * list A) :=
  let '(seed, v) := st in
  let seed := sha3 seed in
  r ← toUint256 seed;
  let n := u64 (i + r mod (zlen v - i)) in
  v ← swap v n i;
  Ok (seed, v).

(** [RandomGen::shuffle]. *)
Definition shuffle {A} (seed : bytes) (v : list A) : outcome (bytes * list A) :=
  foldM shuffle_step (seed, v) (Z.of_nat <$> seq 0 (length v)).

(** * Lemmas *)

Lemma swap_perm {A} (v : list A) n i :
  0 ≤ n < zlen v → 0 ≤ i < zlen v → ∃ v', swap v n i = Ok v' ∧ v' ≡ₚ v.
Proof.
  intros Hn Hi. unfold swap, at_view, zlen in *. rewrite !bool_decide_true by lia.
  destruct (lookup_lt_is_Some_2 v (Z.to_nat n)) as [x Hx]; [lia|].
  destruct (lookup_lt_is_Some_2 v (Z.to_nat i)) as [y Hy]; [lia|].
  rewrite Hx, Hy. cbn [mbind outcome_bind]. eexists. split; [done|].
  by apply Permutation_insert_swap.
Qed.

(** The seed after [k] draws. *)
Fixpoint seed_after (k : nat) (seed : bytes) : bytes :=
  match k with O => seed | S k => seed_after k (sha3 seed) end.

Lemma shuffle_step_Ok {A} seed (v : list A) i :
  zlen v < 2 ^ 64 → 0 ≤ i < zlen v →
  ∃ v', shuffle_step (seed, v) i = Ok (sha3 seed, v') ∧ v' ≡ₚ v.
Proof.
  intros Hm Hi. unfold shuffle_step. rewrite toUint256_Ok by apply sha3_length.
  cbn [mbind outcome_bind]. pose proof (Z.mod_pos_bound (be_val (sha3 seed)) (zlen v - i)).
  unfold wrap. rewrite Z.mod_small by lia.
  destruct (swap_perm v (i + be_val (sha3 seed) mod (zlen v - i)) i) as (v' & -> & Hp); [lia..|].
  by exists v'.
Qed.

Lemma shuffle_loop_Ok {A} k j seed (v : list A) :
  zlen v < 2 ^ 64 → (j + k ≤ length v)%nat →
  ∃ v', foldM shuffle_step (seed, v) (Z.of_nat <$> seq j k) = Ok (seed_after k seed, v') ∧ v' ≡ₚ v.
Proof.
  revert j seed v. induction k as [|k IH]; intros j seed v Hm Hk; [by exists v|].
  destruct (shuffle_step_Ok seed v (Z.of_nat j)) as (v1 & H1 & P1); [done|unfold zlen; lia|].
  cbn [seq fmap list_fmap foldM]. rewrite H1. cbn [mbind outcome_bind].
  destruct (IH (S j) (sha3 seed) v1) as (v2 & H2 & P2).
  - unfold zlen in *. by rewrite P1.
  - rewrite P1. lia.
  - exists v2. split; [exact H2|]. by rewrite P2.
Qed.

Lemma shuffle_perm {A} (seed : bytes) (v : list A) :
  zlen v < 2 ^ 64 →
  ∃ v', shuffle seed v = Ok (seed_after (length v) seed, v') ∧ v' ≡ₚ v.
Proof. intros. by apply shuffle_loop_Ok. Qed.

(** * Properties *)

(** [shuffle] never leaves the vector and always returns: the result is a
    permutation of the input, the same for every node that starts from the
    same seed, and the seed advances by one hash per element. *)
Theorem shuffle_permutes {A} (seed : bytes) (v : list A) :
  zlen v < 2 ^ 64 →
  ∃ v', shuffle seed v = Ok (seed_after (length v) seed, v') ∧ v' ≡ₚ v ∧ length v' = length v.
Proof.
  intros Hm. destruct (shuffle_perm seed v Hm) as (v' & Hs & Hp).
  exists v'. split_and!; [done|done|]. by rewrite Hp.
Qed.

End RandomGen.

Lemma shuffle_permutes_witness :
  ∃ v', @shuffle toy_keccak Z Hash_zero [1; 2; 3; 4; 5] =
        Ok (@seed_after toy_keccak 5 Hash_zero, v') ∧ v' ≡ₚ [1; 2; 3; 4; 5].
Proof.
  destruct (@shuffle_permutes toy_keccak Z Hash_zero [1; 2; 3; 4; 5]) as (v' & H1 & H2 & _);
    [reflexivity|]. exists v'. split; [exact H1|exact H2].
Defined.
