(* ===== verification/Ecdsa.v ===== *)
(** * Ecdsa: keys and signatures on secp256k1 (src/utils/ecdsa.{h,cpp})

    libsecp256k1 is a parameter, the class [Secp256k1Lib]: its functions on
    opaque keys and signatures, with the shapes its header documents.  The
    wrappers of namespace [Secp256k1] are translated around it. *)

From S2P Require Import Prelude Utils Hex Strings.

Definition ecConst : Z :=
  115792089237316195423570985008687907852837564279074904382605163141518161494337.

(** The functions of libsecp256k1 that the wrappers call; a failing call
    (result 0) is [None]. *)
Class Secp256k1Lib := {
  secp_pubkey : Type;
  secp_recsig : Type;
  secp_sig : Type;
  recoverable_signature_parse_compact : bytes → Z → option secp_recsig;
  recoverable_signature_serialize_compact : secp_recsig → bytes * Z;
  ecdsa_recover : secp_recsig → bytes → option secp_pubkey;
  ecdsa_sign_recoverable : bytes → bytes → option secp_recsig;
  ec_pubkey_create : bytes → option secp_pubkey;
  ec_pubkey_parse : bytes → option secp_pubkey;
  ec_pubkey_serialize : bool → secp_pubkey → bytes;
  signature_parse_compact : bytes → option secp_sig;
  ecdsa_verify : secp_sig → bytes → secp_pubkey → bool;
  (** Documented formats: 0x04 and 64 bytes, or 0x02/0x03 and 32 bytes. *)
  serialize_uncompressed : ∀ k, ∃ xy, ec_pubkey_serialize false k = 4 :: xy ∧ length xy = 64%nat ∧ bytes_ok xy;
  serialize_compressed : ∀ k, ∃ h x, ec_pubkey_serialize true k = h :: x ∧ (h = 2 ∨ h = 3) ∧ length x = 32%nat ∧ bytes_ok x;
  serialize_compact_shape : ∀ s, length (recoverable_signature_serialize_compact s).1 = 64%nat ∧
    bytes_ok (recoverable_signature_serialize_compact s).1 ∧
    0 ≤ (recoverable_signature_serialize_compact s).2 ≤ 3;
  (** The scalars of a signature are below the order of the group. *)
  serialize_compact_scalar : ∀ s,
    be_val (drop 32 (recoverable_signature_serialize_compact s).1)
      < ecConst;
  (** Signing fails on an invalid secret key. *)
  sign_key_valid : ∀ msg key s, ecdsa_sign_recoverable msg key = Some s → is_Some (ec_pubkey_create key);
}.

(** A byte read as a (signed) [char]. *)
Definition schar (b : Z) : Z := if b <? 128 then b else b - 256.

Definition UPubKey_empty : bytes := FixedStr_empty 65.
Definition PubKey_empty : bytes := FixedStr_empty 33.
Definition Signature_empty : bytes := FixedStr_empty 65.

Section Ecdsa.
Context `{Keccak, Secp256k1Lib}.

(** The tail of the functions that return an uncompressed key; a failing
    [assert] aborts. *)
Definition serializePubkey (rawPubkey : secp_pubkey) : outcome bytes :=
  let serializedPubkey := ec_pubkey_serialize false rawPubkey in
  if (zlen serializedPubkey =? 65) && (default 0 (head serializedPubkey) =? 4)
  then Ok serializedPubkey else Undef.

(** [Secp256k1::recover].  A negative recovery id violates the library's
    precondition, whose default handler aborts. *)
Definition recover (sig msg : bytes) : outcome bytes :=
  b ← at_str sig 64;
  let v := schar b in
  if 3 <? v then Ok UPubKey_empty
  else if v <? 0 then Undef
  else match recoverable_signature_parse_compact (take 64 sig) v with
  | None => Ok UPubKey_empty
  | Some rawSig =>
      match ecdsa_recover rawSig msg with
      | None => Ok UPubKey_empty
      | Some rawPubkey => serializePubkey rawPubkey
      end
  end.

(** [Secp256k1::makeSig]. *)
Definition makeSig (r s v : Z) : bytes :=
  let sig := replicate 65 0 in
  let sig := copy_right 32 sig (export_bits r) in
  let sig := copy_right 64 sig (export_bits s) in
  FixedStr_ctor 65 (<[64%nat := v]> sig).

Definition verifySig (r s v : Z) : bool :=
  (v <=? 1) && (0 <? r) && (0 <? s) && (r <? ecConst) && (s <? ecConst).

(** [toUPub(const PrivKey&)], [toUPub(const PubKey&)], [toPub]. *)
Definition toUPub_priv (key : bytes) : outcome bytes :=
  match ec_pubkey_create key with
  | None => Ok UPubKey_empty
  | Some rawPubkey => serializePubkey rawPubkey
  end.

Definition toUPub_pub (key : bytes) : outcome bytes :=
  match ec_pubkey_parse key with
  | None => Ok UPubKey_empty
  | Some rawPubkey => serializePubkey rawPubkey
  end.

Definition toPub (key : bytes) : outcome bytes :=
  match ec_pubkey_create key with
  | None => Ok PubKey_empty
  | Some rawPubkey =>
      let serializedPubkey := ec_pubkey_serialize true rawPubkey in
      let h := default 0 (head serializedPubkey) in
      if (zlen serializedPubkey =? 33) && ((h =? 2) || (h =? 3))
      then Ok serializedPubkey else Undef
  end.

(** [toAddress(const UPubKey&)], [toAddress(const PubKey&)]. *)
Definition toAddress (key : bytes) : outcome bytes :=
  k ← view key 1 64;
  a ← substr (sha3 k) 12 20;
  Address_ctor a true.

Definition toAddress_pub (key : bytes) : outcome bytes :=
  u ← toUPub_pub key;
  toAddress u.

(** [Secp256k1::sign]. *)
Definition sign (msg key : bytes) : outcome bytes :=
  match ecdsa_sign_recoverable msg key with
  | None => Ok Signature_empty
  | Some rawSig =>
      let '(sig, v) := recoverable_signature_serialize_compact rawSig in
      let rawV := u8 v in
      r0 ← substr sig 0 32; r ← bytesToUint256 r0;
      s0 ← substr sig 32 32; s ← bytesToUint256 s0;
      '(s, rawV) ← (if ecConst / 2 <? s
                    then s' ← sub256 ecConst s; Ok (s', Z.lxor rawV 1)
                    else Ok (s, rawV));
      if s <=? ecConst / 2 then Ok (makeSig r s rawV) else Undef
  end.

(** [Secp256k1::verify]. *)
Definition Secp256k1_verify (msg key sig : bytes) : bool :=
  match signature_parse_compact (take 64 sig) with
  | None => false
  | Some rawSig =>
      match ec_pubkey_parse key with
      | None => false
      | Some rawPubkey => ecdsa_verify rawSig msg rawPubkey
      end
  end.

(** * Lemmas *)

Lemma makeSig_spec r s v :
  is_uint 256 r → is_uint 256 s → makeSig r s v = be_split 32 r ++ be_split 32 s ++ [v].
Proof.
  intros Hr Hs. unfold makeSig.
  pose proof (copy_right_export 32 [] (replicate 33 0) r ltac:(lia) Hr) as E1.
  change (copy_right 32 (replicate 65 0) (export_bits r) = be_split 32 r ++ replicate 33 0) in E1.
  rewrite E1.
  pose proof (copy_right_export 32 (be_split 32 r) [0] s ltac:(lia) Hs) as E2.
  rewrite be_split_length in E2.
  change (replicate 32 0 ++ [0]) with (replicate 33 0) in E2.
  change (32 + 32)%nat with 64%nat in E2. rewrite E2.
  rewrite (app_assoc (be_split 32 r)), insert_app_r_alt
    by (rewrite length_app, !be_split_length; lia).
  rewrite length_app, !be_split_length. cbn [Nat.sub Nat.add insert list_insert].
  rewrite <-app_assoc. unfold FixedStr_ctor. apply resize_str_id.
  rewrite !length_app, !be_split_length. done.
Qed.

Lemma makeSig_length r s v : is_uint 256 r → is_uint 256 s → length (makeSig r s v) = 65%nat.
Proof. intros. rewrite makeSig_spec, !length_app, !be_split_length by done. done. Qed.

Lemma makeSig_parts r s v :
  is_uint 256 r → is_uint 256 s →
  Signature_r (makeSig r s v) = Ok r ∧ Signature_s (makeSig r s v) = Ok s ∧
  Signature_v (makeSig r s v) = Ok v.
Proof.
  intros Hr Hs. rewrite makeSig_spec by done. unfold Signature_r, Signature_s, Signature_v.
  rewrite (substr_at _ [] (be_split 32 r) (be_split 32 s ++ [v])) by (rewrite ?be_split_zlen; done).
  rewrite (substr_at _ (be_split 32 r) (be_split 32 s) [v]) by (rewrite ?be_split_zlen; done).
  rewrite (substr_at _ (be_split 32 r ++ be_split 32 s) [v] [])
    by (rewrite ?zlen_app, ?be_split_zlen, ?app_nil_r, <-?app_assoc; done).
  cbn [mbind outcome_bind]. rewrite !bytesToUint256_spec by apply be_split_length.
  rewrite !be_val_split_small by done. done.
Qed.

(** A 65-byte signature is determined by its three parts. *)
Lemma makeSig_of_parts sig :
  bytes_ok sig → length sig = 65%nat →
  makeSig (be_val (take 32 sig)) (be_val (take 32 (drop 32 sig))) (default 0 (sig !! 64%nat)) = sig.
Proof.
  intros Hok Hl.
  assert (length (take 32 sig) = 32%nat) as L1 by (rewrite length_take; lia).
  assert (length (take 32 (drop 32 sig)) = 32%nat) as L2 by (rewrite length_take, length_drop; lia).
  destruct (uint_bytes_inverse 32 (take 32 sig)) as [U1 E1]; [by apply Forall_take|done|].
  destruct (uint_bytes_inverse 32 (take 32 (drop 32 sig))) as [U2 E2];
    [by apply Forall_take, Forall_drop|done|].
  rewrite makeSig_spec by done. rewrite E1, E2.
  destruct (lookup_lt_is_Some_2 sig 64) as [v Hv]; [lia|]. rewrite Hv. cbn [default from_option id].
  trans (take 32 sig ++ drop 32 sig); [f_equal|apply take_drop].
  trans (take 32 (drop 32 sig) ++ drop 32 (drop 32 sig)); [f_equal|apply take_drop].
  rewrite drop_drop. cbn [Nat.add]. rewrite (drop_S sig v 64 Hv). by rewrite drop_ge by lia.
Qed.

Lemma serializePubkey_Ok k :
  ∃ xy, serializePubkey k = Ok (4 :: xy) ∧ length xy = 64%nat ∧ bytes_ok xy.
Proof.
  destruct (serialize_uncompressed k) as (xy & E & Hl & Ho). exists xy. split; [|done].
  unfold serializePubkey. rewrite E. by rewrite (zlen_eqb _ 65 65) by (simpl; lia).
Qed.

Lemma toUPub_priv_Ok key :
  ∃ u, toUPub_priv key = Ok u ∧ length u = 65%nat ∧ bytes_ok u ∧
       (is_Some (ec_pubkey_create key) → FixedStr_bool u = true).
Proof.
  unfold toUPub_priv. destruct (ec_pubkey_create key) as [k|].
  - destruct (serializePubkey_Ok k) as (xy & -> & Hl & Ho). eexists. split; [done|].
    split_and!; [simpl; lia|by constructor|done].
  - eexists. split; [done|]. split_and!; [done| |by intros []].
    apply Forall_replicate. unfold is_byte. lia.
Qed.

Lemma toAddress_Ok u : length u = 65%nat → ∃ a, toAddress u = Ok a ∧ length a = 20%nat ∧ bytes_ok a.
Proof.
  intros Hl. unfold toAddress. destruct u as [|h u]; [done|].
  rewrite (view_at _ [h] u []) by (rewrite ?app_nil_r; unfold zlen in *; simpl in *; done || lia).
  cbn [mbind outcome_bind].
  rewrite (substr_at _ (take 12 (sha3 u)) (drop 12 (sha3 u)) []);
    [|by rewrite app_nil_r, take_drop
     |unfold zlen; by rewrite length_take, sha3_length
     |unfold zlen; by rewrite length_drop, sha3_length].
  cbn [mbind outcome_bind]. unfold Address_ctor.
  rewrite (zlen_eqb _ 20 20) by (rewrite ?length_drop, ?sha3_length; done). cbn.
  exists (drop 12 (sha3 u)). split_and!; [done|by rewrite length_drop, sha3_length|].
  apply Forall_drop, sha3_ok.
Qed.

Lemma ecConst_256 : ecConst < 2 ^ 256.
Proof. reflexivity. Qed.

(** What [sign] returns on a key that the library accepts. *)
Lemma sign_shape msg key rawSig :
  ecdsa_sign_recoverable msg key = Some rawSig →
  ∃ r s v, sign msg key = Ok (makeSig r s v) ∧ is_uint 256 r ∧ 0 ≤ s ≤ ecConst / 2 ∧ 0 ≤ v ≤ 3.
Proof.
  intros Hs. unfold sign. rewrite Hs.
  pose proof (serialize_compact_shape rawSig) as (Hl & Hok & Hv).
  pose proof (serialize_compact_scalar rawSig) as Hn.
  destruct (recoverable_signature_serialize_compact rawSig) as [sig v]. cbn [fst snd] in *.
  assert (length (drop 32 sig) = 32%nat) as L2 by (rewrite length_drop; lia).
  assert (length (take 32 sig) = 32%nat) as L1 by (rewrite length_take; lia).
  rewrite (substr_at sig [] (take 32 sig) (drop 32 sig) 0 32);
    [|symmetry; apply take_drop|done|unfold zlen; by rewrite L1].
  cbn [mbind outcome_bind]. rewrite bytesToUint256_spec by done. cbn [mbind outcome_bind].
  rewrite (substr_at sig (take 32 sig) (drop 32 sig) [] 32 32);
    [|by rewrite app_nil_r, take_drop|unfold zlen; by rewrite L1|unfold zlen; by rewrite L2].
  cbn [mbind outcome_bind]. rewrite bytesToUint256_spec by done. cbn [mbind outcome_bind].
  destruct (uint_bytes_inverse 32 (take 32 sig)) as [U1 _]; [by apply Forall_take|done|].
  destruct (uint_bytes_inverse 32 (drop 32 sig)) as [U2 _]; [by apply Forall_drop|done|].
  set (r := be_val (take 32 sig)) in *. set (s := be_val (drop 32 sig)) in *.
  unfold wrap. rewrite (Z.mod_small v) by lia.
  unfold is_uint in U2.
  assert (ecConst = 2 * (ecConst / 2) + 1) as Hodd by reflexivity.
  pose proof ecConst_256.
  destruct (Z.ltb_spec (ecConst / 2) s) as [Hlt|Hge].
  - unfold sub256, checked. rewrite (proj2 (Z.ltb_ge _ 0)) by lia.
    rewrite (proj2 (Z.ltb_lt _ (2 ^ 256))) by lia. cbn [mbind outcome_bind].
    rewrite (proj2 (Z.leb_le _ _)) by lia. eexists _, _, _. split; [done|].
    split; [exact U1|]. split; [lia|].
    split; (assert (v = 0 ∨ v = 1 ∨ v = 2 ∨ v = 3) as [-> | [-> | [-> | ->]]] by lia; vm_compute; discriminate).
  - cbn [mbind outcome_bind]. rewrite (proj2 (Z.leb_le _ _)) by lia.
    eexists _, _, _. split; [done|]. split; [exact U1|]. lia.
Qed.

(** * Properties *)

(** [makeSig] lays r, s and v out as 32, 32 and 1 bytes that the getters
    of [Signature] read back, and every 65-byte signature is the one its parts
    make. *)
Theorem makeSig_roundtrip :
  (∀ r s v, is_uint 256 r → is_uint 256 s →
     length (makeSig r s v) = 65%nat ∧ Signature_r (makeSig r s v) = Ok r ∧
     Signature_s (makeSig r s v) = Ok s ∧ Signature_v (makeSig r s v) = Ok v) ∧
  (∀ sig, bytes_ok sig → length sig = 65%nat →
     ∃ r s v, is_uint 256 r ∧ is_uint 256 s ∧ makeSig r s v = sig).
Proof.
  split.
  - intros r s v Hr Hs. split; [by apply makeSig_length|by apply makeSig_parts].
  - intros sig Hok Hl. eexists _, _, _. split_and!; [..|by apply makeSig_of_parts].
    + apply (uint_bytes_inverse 32); [by apply Forall_take|rewrite length_take; lia].
    + apply (uint_bytes_inverse 32); [by apply Forall_take, Forall_drop|].
      rewrite length_take, length_drop. lia.
Qed.

(** Signing never fails an assertion or a conversion: it returns either
    the empty signature or one whose s is at most half the order, whatever the
    library produced. *)
Theorem sign_low_s (msg key : bytes) :
  ∃ sig, sign msg key = Ok sig ∧ length sig = 65%nat ∧
    ∃ s, Signature_s sig = Ok s ∧ 0 ≤ s ≤ ecConst / 2.
Proof.
  destruct (ecdsa_sign_recoverable msg key) as [raw|] eqn:E.
  - destruct (sign_shape msg key raw E) as (r & s & v & -> & Hr & Hs & Hv).
    assert (is_uint 256 s) as Hs' by (pose proof ecConst_256; unfold is_uint;
      assert (ecConst / 2 ≤ ecConst) by (vm_compute; discriminate); lia).
    eexists. split; [done|]. split; [by apply makeSig_length|].
    exists s. split; [by apply makeSig_parts|done].
  - unfold sign. rewrite E. eexists. split; [done|]. split; [done|].
    exists 0. split; [reflexivity|]. split; [lia|by vm_compute].
Qed.

End Ecdsa.

(** An executable stand-in for the library: the point of a key is its number
    and the first half of a signature names the key. *)
Definition toy_key (key : bytes) : option Z :=
  let k := be_val (resize_str 32 key) in
  if (0 <? k) && (k <? ecConst) then Some k else None.

#[refine] Definition toy_secp : Secp256k1Lib := {|
  secp_pubkey := Z;
  secp_recsig := Z;
  secp_sig := Z;
  recoverable_signature_parse_compact := λ c v, Some (be_val (take 32 c));
  recoverable_signature_serialize_compact := λ r, (be_split 32 r ++ be_split 32 1, 0);
  ecdsa_recover := λ r msg, Some r;
  ecdsa_sign_recoverable := λ msg key, toy_key key;
  ec_pubkey_create := toy_key;
  ec_pubkey_parse := λ k, Some (be_val (drop 1 k));
  ec_pubkey_serialize := λ c k, if c : bool then 2 :: be_split 32 k else 4 :: be_split 64 k;
  signature_parse_compact := λ c, Some (be_val (take 32 c));
  ecdsa_verify := λ s msg k, s =? k;
|}.
Proof.
  - intros k. eexists. split; [done|]. split; [apply be_split_length|apply be_split_ok].
  - intros k. eexists _, _. split; [done|]. split_and!; [by left|apply be_split_length|apply be_split_ok].
  - intros r. split_and!; [|apply Forall_app; split; apply be_split_ok|done|done].
    cbn [fst]. by rewrite length_app, !be_split_length.
  - intros r. cbn [fst]. rewrite drop_app_length' by (by rewrite be_split_length). by vm_compute.
  - intros msg key s Hs. by exists s.
Defined.

Lemma sign_low_s_witness :
  ∃ sig, @sign toy_secp (be_split 32 77) (be_split 32 5) = Ok sig ∧ length sig = 65%nat ∧
    FixedStr_bool sig = true.
Proof.
  destruct (@sign_low_s toy_secp (be_split 32 77) (be_split 32 5)) as (sig & H1 & H2 & _).
  exists sig. split; [exact H1|]. split; [exact H2|].
  vm_compute in H1. injection H1 as <-. reflexivity.
Defined.
