(* ===== verification/Tx.v ===== *)
(** * Tx: block and Validator transactions (src/utils/tx.{h,cpp})

    Both classes serialise themselves as an RLP list and have a constructor
    that parses one, checks the signature and derives the sender.  The blocks
    of code that the two parsers and the two serialisers repeat for each field
    are one definition each; the reads are as unchecked as in the source. *)

From S2P Require Import Prelude Utils Hex Strings Ecdsa.

(** ** Reading RLP *)

(** The list header: the position of the first element. *)
Definition rlp_list_header (d : bytes) : outcome Z :=
  c0 ← at_view d 0;
  _ ← throw_if (c0 <? 247) (runtime_error "Tx is not a list");
  let listLengthSize := u8 (c0 - 247) in
  l ← view d 1 listLengthSize;
  let listLength := fromBigEndian 64 l in
  let size := u64 (zlen d - listLengthSize - 1) in
  _ ← throw_if (listLength <? size) (runtime_error "Tx RLP returns smaller size than reported");
  _ ← throw_if (size <? listLength) (runtime_error "Tx RLP returns larger size than reported");
  Ok (1 + listLengthSize).

(** A number: a short string or the byte itself; the value and the position
    after it. *)
Definition rlp_number (conv : bytes → outcome Z) (limit : option exn) (d : bytes) (index : Z)
    : outcome (Z * Z) :=
  b ← at_view d index;
  let len := if 128 <=? b then b - 128 else 0 in
  if negb (len =? 0) then
    _ ← match limit with Some e => throw_if (55 <? len) e | None => Ok tt end;
    x ← view d (index + 1) len;
    x ← conv x;
    Ok (x, index + 1 + len)
  else if b =? 128 then Ok (0, index + 1)
  else
    x ← view d index 1;
    x ← conv x;
    Ok (x, index + 1).

(** The conversions of a number's payload. *)
Definition conv64 (b : bytes) : outcome Z := Ok (fromBigEndian 64 b).
Definition conv256 (b : bytes) : outcome Z := fromBigEndian256 b.

(** The data field.  [tooLarge] is the exception that [TxBlock] throws on a
    first byte of 0xc0 or more; [TxValidator] has no such check.  The position
    after a long string is computed modulo [2^64]. *)
Definition rlp_data (tooLarge : option exn) (d : bytes) (index : Z) : outcome (bytes * Z) :=
  b ← at_view d index;
  if b <? 128 then Ok ([b], index + 1)
  else if b <? 183 then
    let dataLength := u8 (b - 128) in
    if 0 <? dataLength then
      x ← substr d (index + 1) dataLength;
      Ok (x, u64 (index + 1 + dataLength))
    else Ok ([], index + 1)
  else
    _ ← match tooLarge with Some e => throw_if (192 <=? b) e | None => Ok tt end;
    let dataLengthSize := u8 (b - 183) in
    l ← view d (index + 1) dataLengthSize;
    let dataLength := fromBigEndian 64 l in
    x ← substr d (index + 1 + dataLengthSize) dataLength;
    Ok (x, u64 (index + 1 + dataLengthSize + dataLength)).

(** The r and s fields. *)
Definition rlp_scalar (max : Z) (e : exn) (d : bytes) (index : Z) : outcome (Z * Z) :=
  b ← at_view d index;
  let len := u8 (b - 128) in
  _ ← throw_if (max <? len) e;
  x ← view d (index + 1) len;
  x ← fromBigEndian256 x;
  Ok (x, index + 1 + len).

(** The v field of a block transaction. *)
Definition rlp_sigV (d : bytes) (index : Z) : outcome Z :=
  b ← at_view d index;
  if b =? 128 then Ok 0
  else
    x ← view d index 1;
    let v := fromBigEndian 8 x in
    _ ← throw_if (1 <? v) (runtime_error "V is not 0 or 1");
    Ok v.

(** ** Writing RLP *)

Definition rlp_header (total_size : Z) : bytes :=
  if total_size <=? 55 then [u8 (total_size + 192)]
  else u8 (bytesRequired total_size + 247) :: uintToBytes total_size.

Definition rlp_uint (n : Z) : bytes :=
  if n =? 0 then [128]
  else if n <? 128 then [u8 n]
  else u8 (bytesRequired n + 128) :: uintToBytes n.

Definition rlp_uint_size (n : Z) : Z := if n <? 128 then 1 else 1 + bytesRequired n.

(** The v/chainId field of a Validator transaction: zero is the byte zero. *)
Definition rlp_v (n : Z) : bytes :=
  if n <? 128 then [u8 n] else u8 (bytesRequired n + 128) :: uintToBytes n.

Definition rlp_bytes (data : bytes) : bytes :=
  let reqBytesData := zlen data in
  if reqBytesData =? 0 then [128]
  else if reqBytesData <=? 55 then u8 (reqBytesData + 128) :: data
  else u8 (bytesRequired reqBytesData + 183) :: uintToBytes reqBytesData ++ data.

Definition rlp_bytes_size (data : bytes) : Z :=
  let reqBytesData := zlen data in
  if reqBytesData =? 0 then 1
  else if reqBytesData <=? 55 then 1 + reqBytesData
  else 1 + bytesRequired reqBytesData + reqBytesData.

Definition rlp_scalar_out (x : Z) : bytes := u8 (bytesRequired x + 128) :: uintToBytes x.

(** ** TxBlock *)

Record TxBlock := mkTxBlock {
  tb_to : bytes; tb_from : bytes; tb_data : bytes; tb_chainId : Z; tb_nonce : Z; tb_value : Z;
  tb_maxPriorityFeePerGas : Z; tb_maxFeePerGas : Z; tb_gasLimit : Z;
  tb_v : Z; tb_r : Z; tb_s : Z;
}.

#[export] Instance TxBlock_eq_dec : EqDecision TxBlock.
Proof. solve_decision. Defined.

(** [total_size] of [TxBlock::rlpSerialize]. *)
Definition TxBlock_total_size (tx : TxBlock) (includeSig : bool) : Z :=
  u64 (rlp_uint_size (tb_chainId tx) + rlp_uint_size (tb_nonce tx) +
       rlp_uint_size (tb_maxPriorityFeePerGas tx) + rlp_uint_size (tb_maxFeePerGas tx) +
       rlp_uint_size (tb_gasLimit tx) + (1 + 20) + rlp_uint_size (tb_value tx) + 1 +
       rlp_bytes_size (tb_data tx) +
       if includeSig then 1 + (1 + bytesRequired (tb_r tx)) + (1 + bytesRequired (tb_s tx)) else 0).

Definition TxBlock_rlpSerialize (tx : TxBlock) (includeSig : bool) : bytes :=
  [2] ++ rlp_header (TxBlock_total_size tx includeSig) ++
  rlp_uint (tb_chainId tx) ++ rlp_uint (tb_nonce tx) ++
  rlp_uint (tb_maxPriorityFeePerGas tx) ++ rlp_uint (tb_maxFeePerGas tx) ++
  rlp_uint (tb_gasLimit tx) ++ ([148] ++ tb_to tx) ++ rlp_uint (tb_value tx) ++
  rlp_bytes (tb_data tx) ++ [192] ++
  if includeSig then
    (if tb_v tx =? 0 then [128] else [tb_v tx]) ++ rlp_scalar_out (tb_r tx) ++ rlp_scalar_out (tb_s tx)
  else [].

(** [ethCallInfo]: (from, to, gasLimit, gasPrice, value, data). *)
Record ethCallInfo := mkCallInfo {
  ci_from : bytes; ci_to : bytes; ci_gasLimit : Z; ci_gasPrice : Z; ci_value : Z; ci_data : bytes;
}.

Definition txToCallInfo (tx : TxBlock) : ethCallInfo :=
  mkCallInfo (tb_from tx) (tb_to tx) (tb_gasLimit tx) (tb_maxFeePerGas tx) (tb_value tx) (tb_data tx).

(** ** TxValidator *)

Record TxValidator := mkTxValidator {
  tv_from : bytes; tv_data : bytes; tv_chainId : Z; tv_nHeight : Z; tv_v : Z; tv_r : Z; tv_s : Z;
}.

#[export] Instance TxValidator_eq_dec : EqDecision TxValidator.
Proof. solve_decision. Defined.

Definition TxValidator_total_size (tx : TxValidator) (includeSig : bool) : Z :=
  u64 (rlp_bytes_size (tv_data tx) + rlp_uint_size (tv_nHeight tx) +
       rlp_uint_size (if includeSig then tv_v tx else tv_chainId tx) +
       (if includeSig then 1 + bytesRequired (tv_r tx) else 1) +
       (if includeSig then 1 + bytesRequired (tv_s tx) else 1)).

Definition TxValidator_rlpSerialize (tx : TxValidator) (includeSig : bool) : bytes :=
  rlp_header (TxValidator_total_size tx includeSig) ++
  rlp_bytes (tv_data tx) ++ rlp_uint (tv_nHeight tx) ++
  rlp_v (if includeSig then tv_v tx else tv_chainId tx) ++
  (if includeSig then rlp_scalar_out (tv_r tx) else [128]) ++
  (if includeSig then rlp_scalar_out (tv_s tx) else [128]).

Section Tx.
Context `{Keccak, Secp256k1Lib}.

Definition TxBlock_hash (tx : TxBlock) (includeSig : bool) : bytes :=
  sha3 (TxBlock_rlpSerialize tx includeSig).

Definition TxValidator_hash (tx : TxValidator) (includeSig : bool) : bytes :=
  sha3 (TxValidator_rlpSerialize tx includeSig).

(** [TxBlock(bytes, requiredChainId)]; the constructor does not use its
    second argument. *)
Definition TxBlock_parse (bytes_ : bytes) (requiredChainId : Z) : outcome TxBlock :=
  let too_large s := Some (runtime_error s) in
  txData ← substr bytes_ 1 (zlen bytes_);
  ty ← at_view bytes_ 0;
  _ ← throw_if (negb (ty =? 2)) (runtime_error "Tx is not type 2");
  index ← rlp_list_header txData;
  '(chainId, index) ← rlp_number conv64 (too_large "ChainId is too large") txData index;
  '(nonce, index) ← rlp_number conv64 (too_large "Nonce is too large") txData index;
  '(maxPriorityFeePerGas, index) ←
    rlp_number conv256 (too_large "MaxPriorityFeePerGas is too large") txData index;
  '(maxFeePerGas, index) ← rlp_number conv256 (too_large "MaxFeePerGas is too large") txData index;
  '(gasLimit, index) ← rlp_number conv64 (too_large "GasLimit is too large") txData index;
  b ← at_view txData index;
  _ ← throw_if (negb (b =? 148))
        (runtime_error "Receiver address (to) is not a 20 byte string (address)");
  to ← view txData (index + 1) 20;
  to ← Address_ctor to true;
  let index := index + 1 + 20 in
  '(value, index) ← rlp_number conv256 (too_large "Value is not a small string") txData index;
  '(data, index) ← rlp_data (too_large "Data is too large") txData index;
  b ← at_view txData index;
  _ ← throw_if (negb (b =? 192)) (runtime_error "Access list is not empty");
  let index := index + 1 in
  v ← rlp_sigV txData index;
  let index := index + 1 in
  '(r, index) ← rlp_scalar 32 (runtime_error "R is bigger than 32 bytes") txData index;
  '(s, index) ← rlp_scalar 32 (runtime_error "S is bigger than 32 bytes") txData index;
  _ ← throw_if (negb (verifySig r s v))
        (runtime_error "Invalid tx signature - doesn't fit elliptic curve verification");
  let sig := makeSig r s v in
  let tx := mkTxBlock to Address_empty data chainId nonce value
              maxPriorityFeePerGas maxFeePerGas gasLimit v r s in
  let msgHash := sha3 (TxBlock_rlpSerialize tx false) in
  key ← recover sig msgHash;
  _ ← throw_if (negb (FixedStr_bool key))
        (runtime_error "Invalid tx signature - cannot recover public key");
  from ← toAddress key;
  Ok (mkTxBlock to from data chainId nonce value
        maxPriorityFeePerGas maxFeePerGas gasLimit v r s).

(** The constructor that signs: [TxBlock(to, from, data, ..., privKey)]. *)
Definition TxBlock_sign (to from data : bytes)
    (chainId nonce value maxPriorityFeePerGas maxFeePerGas gasLimit : Z) (privKey : bytes)
    : outcome TxBlock :=
  pubKey ← toUPub_priv privKey;
  add ← toAddress pubKey;
  _ ← throw_if (negb (bool_decide (add = from)))
        (runtime_error "Private key does not match sender address (from)");
  let tx v r s := mkTxBlock to from data chainId nonce value
                    maxPriorityFeePerGas maxFeePerGas gasLimit v r s in
  let hash := TxBlock_hash (tx 0 0 0) false in
  sig ← sign hash privKey;
  r ← view sig 0 32; r ← bytesToUint256 r;
  s ← view sig 32 32; s ← bytesToUint256 s;
  v ← at_str sig 64;
  key ← recover sig hash;
  _ ← throw_if (negb (bool_decide (pubKey = key)))
        (runtime_error "Invalid tx signature - derived key doesn't match public key");
  _ ← throw_if (negb (verifySig r s v))
        (runtime_error "Invalid tx signature - doesn't fit elliptic curve verification");
  Ok (tx v r s).

(** [TxValidator(bytes, requiredChainId)].  With v of 27 or 28 the member
    [chainId] is read before it is set.  The conversion of a 256-bit number to
    [uint64_t] or [uint8_t] throws when it does not fit. *)
Definition to_width (w x : Z) : outcome Z := if x <? 2 ^ w then Ok x else Throw range_error.

Definition TxValidator_parse (bytes_ : bytes) (requiredChainId : Z) : outcome TxValidator :=
  index ← rlp_list_header bytes_;
  '(data, index) ← rlp_data None bytes_ index;
  '(nHeight, index) ← rlp_number conv64 None bytes_ index;
  '(v, index) ← rlp_number conv256 (Some (runtime_error "V is not a small string")) bytes_ index;
  '(r, index) ← rlp_scalar 55 (runtime_error "R is not a small string") bytes_ index;
  '(s, index) ← rlp_scalar 55 (runtime_error "S is not a small string") bytes_ index;
  chainId ← (if 36 <? v then to_width 64 ((v - 35) / 2)
             else if negb (v =? 27) && negb (v =? 28)
             then Throw (runtime_error "Invalid tx signature - v is not 27 or 28")
             else Undef);
  recoveryId ← sub256 v (chainId * 2 + 35);
  recoveryId ← to_width 8 recoveryId;
  _ ← throw_if (negb (verifySig r s recoveryId))
        (runtime_error "Invalid tx signature - doesn't fit elliptic curve verification");
  let sig := makeSig r s recoveryId in
  let msgHash := TxValidator_hash (mkTxValidator Address_empty data chainId nHeight v r s) false in
  key ← recover sig msgHash;
  _ ← throw_if (bool_decide (key = UPubKey_empty))
        (runtime_error "Invalid tx signature - cannot recover public key");
  from ← toAddress key;
  Ok (mkTxValidator from data chainId nHeight v r s).

(** The constructor that signs: [TxValidator(from, data, chainId, nHeight,
    privKey)]. *)
Definition TxValidator_sign (from data : bytes) (chainId nHeight : Z) (privKey : bytes)
    : outcome TxValidator :=
  pubKey ← toUPub_priv privKey;
  add ← toAddress pubKey;
  let hash := TxValidator_hash (mkTxValidator from data chainId nHeight 0 0 0) false in
  _ ← throw_if (negb (bool_decide (add = from)))
        (runtime_error "Private key does not match sender address (from)");
  sig ← sign hash privKey;
  r ← view sig 0 32; r ← bytesToUint256 r;
  s ← view sig 32 32; s ← bytesToUint256 s;
  recoveryIds ← at_str sig 64;
  let v := u64 (recoveryIds + (chainId * 2 + 35)) in
  _ ← throw_if (negb (verifySig r s recoveryIds))
        (runtime_error "Invalid tx signature - doesn't fit elliptic curve verification");
  key ← recover sig hash;
  _ ← throw_if (negb (bool_decide (pubKey = key)))
        (runtime_error "Invalid transaction signature, signature derived key doens't match public key");
  Ok (mkTxValidator from data chainId nHeight v r s).

(** * Lemmas *)

Lemma u8_small x : 0 ≤ x < 256 → u8 x = x.
Proof. intros. unfold wrap. by apply Z.mod_small. Qed.

Lemma digits_256 n : is_uint 256 n → 0 ≤ digits n ≤ 32.
Proof. intros. split; [apply digits_nonneg|]. apply digits_le_width; [lia|]. done. Qed.

Lemma zlen_pos_app {A} (l k : list A) : 0 < zlen l → 0 < zlen (l ++ k).
Proof. rewrite zlen_app. pose proof (zlen_nonneg k). lia. Qed.

(** A conversion that reads back what [uintToBytes] writes. *)
Definition reads (conv : bytes → outcome Z) (n : Z) : Prop :=
  conv (uintToBytes n) = Ok n ∧ (n < 128 → conv [n] = Ok n).

Lemma conv64_reads n : is_uint 64 n → reads conv64 n.
Proof.
  intros [Hn Hlt]. unfold reads, conv64. split.
  - rewrite fromBigEndian_spec, be_val_uintToBytes by auto using uintToBytes_ok with lia.
    by rewrite Z.mod_small.
  - intros. rewrite fromBigEndian_spec; [|lia|by repeat constructor; lia].
    change (be_val [n]) with n. by rewrite Z.mod_small.
Qed.

Lemma conv256_reads n : is_uint 256 n → reads conv256 n.
Proof.
  intros [Hn Hlt]. unfold reads, conv256. split.
  - rewrite fromBigEndian256_spec; rewrite ?be_val_uintToBytes; auto using uintToBytes_ok.
  - intros. by rewrite fromBigEndian256_spec; [|by repeat constructor; lia|].
Qed.

Lemma uint64_256 n : is_uint 64 n → is_uint 256 n.
Proof. unfold is_uint. intros [? ?]. split; [done|]. assert (2 ^ 64 < 2 ^ 256) by done. lia. Qed.

(** A long number, as [rlp_uint] and [rlp_v] write it. *)
Lemma rlp_number_long conv lim d i n post :
  reads conv n → is_uint 256 n → 128 ≤ n →
  at_pos d i ((u8 (bytesRequired n + 128) :: uintToBytes n) ++ post) →
  rlp_number conv lim d i = Ok (n, i + 1 + digits n) ∧ at_pos d (i + 1 + digits n) post.
Proof.
  intros [Hc _] Hn Hb Hp. pose proof (digits_256 n Hn). pose proof (digits_pos n ltac:(lia)).
  rewrite bytesRequired_spec, u8_small in Hp by lia.
  destruct (at_view_pos d i _ _ Hp) as [Hv Hp1].
  destruct (view_pos d (i + 1) (digits n) (uintToBytes n) post) as [Hw Hp2];
    [done|by rewrite uintToBytes_zlen by lia|apply zlen_pos_app; rewrite uintToBytes_zlen; lia|].
  split; [|done]. unfold rlp_number. rewrite Hv. cbn [mbind outcome_bind].
  rewrite (proj2 (Z.leb_le 128 _)) by lia.
  replace (digits n + 128 - 128) with (digits n) by lia.
  rewrite (proj2 (Z.eqb_neq (digits n) 0)) by lia. cbn [negb].
  rewrite (proj2 (Z.ltb_ge 55 _)) by lia.
  destruct lim; cbn [throw_if mbind outcome_bind]; rewrite Hw; cbn [mbind outcome_bind];
    rewrite Hc; done.
Qed.

Lemma rlp_number_byte conv lim d i n post :
  reads conv n → 0 ≤ n < 128 → at_pos d i (n :: post) →
  rlp_number conv lim d i = Ok (n, i + 1) ∧ at_pos d (i + 1) post.
Proof.
  intros [_ Hc] Hn Hp. destruct (at_view_pos d i _ _ Hp) as [Hv Hp1].
  destruct (view_pos d i 1 [n] post) as [Hw _]; [done..|by apply zlen_pos_app|].
  split; [|done]. unfold rlp_number. rewrite Hv. cbn [mbind outcome_bind].
  rewrite (proj2 (Z.leb_gt 128 n)) by lia. cbn [Z.eqb negb].
  rewrite (proj2 (Z.eqb_neq n 128)) by lia. rewrite Hw. cbn [mbind outcome_bind].
  by rewrite Hc by lia.
Qed.

Lemma rlp_number_uint conv lim d i n post :
  reads conv n → is_uint 256 n → at_pos d i (rlp_uint n ++ post) →
  ∃ j, rlp_number conv lim d i = Ok (n, j) ∧ at_pos d j post.
Proof.
  intros Hc Hn Hp. unfold rlp_uint in Hp.
  destruct (Z.eqb_spec n 0) as [->|Hz].
  - exists (i + 1). destruct (at_view_pos d i _ _ Hp) as [Hv Hp1]. split; [|done].
    unfold rlp_number. by rewrite Hv.
  - destruct (Z.ltb_spec n 128) as [Hs|Hl].
    + unfold is_uint in Hn. rewrite u8_small in Hp by lia.
      eexists. by apply rlp_number_byte; [|lia|].
    + eexists. by apply rlp_number_long.
Qed.

Lemma rlp_number_v conv lim d i n post :
  reads conv n → is_uint 256 n → at_pos d i (rlp_v n ++ post) →
  ∃ j, rlp_number conv lim d i = Ok (n, j) ∧ at_pos d j post.
Proof.
  intros Hc Hn Hp. unfold rlp_v in Hp. unfold is_uint in Hn.
  destruct (Z.ltb_spec n 128) as [Hs|Hl].
  - rewrite u8_small in Hp by lia. eexists. by apply rlp_number_byte; [|lia|].
  - eexists. by apply rlp_number_long.
Qed.

Lemma rlp_scalar_roundtrip max e d i n post :
  32 ≤ max → 0 < n → is_uint 256 n → at_pos d i (rlp_scalar_out n ++ post) →
  ∃ j, rlp_scalar max e d i = Ok (n, j) ∧ at_pos d j post.
Proof.
  intros Hm Hpos Hn Hp. exists (i + 1 + digits n).
  pose proof (digits_256 n Hn). pose proof (digits_pos n Hpos).
  unfold rlp_scalar_out in Hp. rewrite bytesRequired_spec, u8_small in Hp by lia.
  destruct (at_view_pos d i _ _ Hp) as [Hv Hp1].
  destruct (view_pos d (i + 1) (digits n) (uintToBytes n) post) as [Hw Hp2];
    [done|by rewrite uintToBytes_zlen by lia|apply zlen_pos_app; rewrite uintToBytes_zlen; lia|].
  split; [|done]. unfold rlp_scalar. rewrite Hv. cbn [mbind outcome_bind].
  replace (digits n + 128 - 128) with (digits n) by lia. rewrite u8_small by lia.
  rewrite (proj2 (Z.ltb_ge max _)) by lia. cbn [throw_if mbind outcome_bind]. rewrite Hw.
  cbn [mbind outcome_bind]. destruct (conv256_reads n Hn) as [Hc _]. unfold conv256 in Hc.
  by rewrite Hc.
Qed.

(** A data field of any size but 55 is read back. *)
Lemma rlp_data_roundtrip lim d i data post :
  zlen d < 2 ^ 64 → zlen data ≠ 55 → at_pos d i (rlp_bytes data ++ post) →
  ∃ j, rlp_data lim d i = Ok (data, j) ∧ at_pos d j post.
Proof.
  intros Hd H55 Hp. pose proof (at_pos_bounds _ _ _ Hp) as [Hi0 Hib].
  pose proof (zlen_nonneg data) as Hdn. pose proof (zlen_nonneg post).
  unfold rlp_bytes in *. destruct (Z.eqb_spec (zlen data) 0) as [Hz|Hz].
  { assert (data = []) as -> by (destruct data; [done|rewrite zlen_cons in Hz; pose proof (zlen_nonneg data); lia]).
    exists (i + 1). destruct (at_view_pos d i _ _ Hp) as [Hv Hp1]. split; [|done].
    unfold rlp_data. by rewrite Hv. }
  destruct (Z.leb_spec (zlen data) 55) as [Hs|Hs].
  - rewrite u8_small in Hp by lia. destruct (at_view_pos d i _ _ Hp) as [Hv Hp1].
    destruct (substr_pos d (i + 1) (zlen data) data post) as [Hw Hp2]; [done..|].
    exists (i + 1 + zlen data). split; [|done]. unfold rlp_data. rewrite Hv. cbn [mbind outcome_bind].
    rewrite (proj2 (Z.ltb_ge _ 128)), (proj2 (Z.ltb_lt _ 183)) by lia.
    replace (zlen data + 128 - 128) with (zlen data) by lia. rewrite u8_small by lia.
    rewrite (proj2 (Z.ltb_lt 0 _)) by lia. rewrite Hw. cbn [mbind outcome_bind].
    pose proof (at_pos_bounds _ _ _ Hp2). unfold wrap. by rewrite Z.mod_small by lia.
  - set (n := zlen data) in *. cbn [app] in Hp.
    assert (0 ≤ n < 2 ^ 64) as Hn64.
    { split; [lia|]. cbn [app] in Hib. rewrite zlen_cons, !zlen_app in Hib.
      pose proof (zlen_nonneg (uintToBytes n)). fold n in Hib. lia. }
    assert (1 ≤ digits n ≤ 8) as Hdg
      by (split; [apply digits_pos; lia|apply digits_le_width; [lia|done]]).
    rewrite bytesRequired_spec, u8_small, <-app_assoc in Hp by lia.
    destruct (at_view_pos d i _ _ Hp) as [Hv Hp1].
    destruct (view_pos d (i + 1) (digits n) (uintToBytes n) (data ++ post)) as [Hw Hp2];
      [done|by rewrite uintToBytes_zlen by lia|apply zlen_pos_app; rewrite uintToBytes_zlen; lia|].
    destruct (substr_pos d (i + 1 + digits n) n data post) as [Hx Hp3]; [done..|].
    exists (i + 1 + digits n + n). split; [|done].
    unfold rlp_data. rewrite Hv. cbn [mbind outcome_bind].
    rewrite (proj2 (Z.ltb_ge _ 128)), (proj2 (Z.ltb_ge _ 183)) by lia.
    replace (digits n + 183 - 183) with (digits n) by lia. rewrite u8_small by lia.
    rewrite (proj2 (Z.leb_gt 192 _)) by lia.
    destruct (conv64_reads n Hn64) as [Hc _]. injection Hc as Hc.
    pose proof (at_pos_bounds _ _ _ Hp3).
    destruct lim; cbn [throw_if mbind outcome_bind]; rewrite Hw; cbn [mbind outcome_bind];
      rewrite Hc, Hx; cbn [mbind outcome_bind]; unfold wrap; by rewrite Z.mod_small by lia.
Qed.

(** The header of a list of more than 55 bytes. *)
Lemma rlp_header_roundtrip d n post :
  55 < n < 2 ^ 64 → zlen post = n → d = rlp_header n ++ post →
  rlp_list_header d = Ok (1 + digits n) ∧ at_pos d (1 + digits n) post.
Proof.
  intros Hn Hl Hd. pose proof (at_pos_0 d) as Hp. rewrite Hd in Hp at 2.
  unfold rlp_header in Hp. rewrite (proj2 (Z.leb_gt n 55)) in Hp by lia.
  assert (1 ≤ digits n ≤ 8) as Hdg
    by (split; [apply digits_pos; lia|apply digits_le_width; [lia|split; [lia|exact (proj2 Hn)]]]).
  rewrite bytesRequired_spec, u8_small in Hp by lia.
  destruct (at_view_pos d 0 _ _ Hp) as [Hv Hp1].
  destruct (view_pos d 1 (digits n) (uintToBytes n) post) as [Hw Hp2];
    [done|by rewrite uintToBytes_zlen by lia|apply zlen_pos_app; rewrite uintToBytes_zlen; lia|].
  split; [|done]. unfold rlp_list_header. rewrite Hv. cbn [mbind outcome_bind].
  rewrite (proj2 (Z.ltb_ge _ 247)) by lia. cbn [throw_if mbind outcome_bind].
  replace (digits n + 247 - 247) with (digits n) by lia. rewrite u8_small by lia.
  rewrite Hw. cbn [mbind outcome_bind].
  destruct (conv64_reads n ltac:(unfold is_uint; lia)) as [Hc _]. injection Hc as ->.
  pose proof (at_pos_bounds _ _ _ Hp2) as [_ Hb].
  replace (zlen d - digits n - 1) with n by lia. unfold wrap. rewrite Z.mod_small by lia.
  by rewrite Z.ltb_irrefl.
Qed.

(** The sizes that the serialisers announce are the sizes they write. *)
Lemma rlp_uint_zlen n : is_uint 256 n → zlen (rlp_uint n) = rlp_uint_size n.
Proof.
  intros [Hn _]. unfold rlp_uint, rlp_uint_size. destruct (Z.eqb_spec n 0) as [->|]; [done|].
  destruct (n <? 128); [done|]. by rewrite zlen_cons, uintToBytes_zlen, bytesRequired_spec.
Qed.

Lemma rlp_v_zlen n : is_uint 256 n → zlen (rlp_v n) = rlp_uint_size n.
Proof.
  intros [Hn _]. unfold rlp_v, rlp_uint_size.
  destruct (n <? 128); [done|]. by rewrite zlen_cons, uintToBytes_zlen, bytesRequired_spec.
Qed.

Lemma rlp_bytes_zlen data : zlen (rlp_bytes data) = rlp_bytes_size data.
Proof.
  unfold rlp_bytes, rlp_bytes_size. pose proof (zlen_nonneg data).
  destruct (zlen data =? 0); [done|].
  destruct (zlen data <=? 55); rewrite zlen_cons; [done|].
  rewrite zlen_app, uintToBytes_zlen, bytesRequired_spec by done. lia.
Qed.

Lemma rlp_scalar_zlen n : 0 ≤ n → zlen (rlp_scalar_out n) = 1 + bytesRequired n.
Proof. intros. unfold rlp_scalar_out. by rewrite zlen_cons, uintToBytes_zlen, bytesRequired_spec. Qed.

Lemma substr_tail b d : substr ([b] ++ d) 1 (zlen ([b] ++ d)) = Ok d.
Proof.
  unfold substr. rewrite zlen_app. pose proof (zlen_nonneg d).
  rewrite (proj2 (Z.leb_le 1 _)) by (rewrite zlen_cons, zlen_nil; lia).
  change (drop (Z.to_nat 1) ([b] ++ d)) with d. rewrite take_ge; [done|].
  rewrite zlen_cons, zlen_nil. unfold zlen. lia.
Qed.

(** The v byte of a block transaction. *)
Lemma v_byte_roundtrip d i v post :
  0 ≤ v ≤ 1 → at_pos d i ((if v =? 0 then [128] else [v]) ++ post) →
  rlp_sigV d i = Ok v ∧ at_pos d (i + 1) post.
Proof.
  intros Hv Hp. unfold rlp_sigV. assert (v = 0 ∨ v = 1) as [-> | ->] by lia; cbn [Z.eqb app] in Hp.
  - by destruct (at_view_pos d i _ _ Hp) as [-> Hp1].
  - destruct (at_view_pos d i _ _ Hp) as [-> Hp1].
    destruct (view_pos d i 1 [1] post) as [Hw _]; [done..|by apply zlen_pos_app|].
    cbn [mbind outcome_bind Z.eqb Pos.eqb]. by rewrite Hw.
Qed.

(** The fields of a transaction have the width of their members, and the two
    that the parser reads at 64 bits fit there. *)
Record TxBlock_ok (tx : TxBlock) : Prop := {
  tbo_to : length (tb_to tx) = 20%nat;
  tbo_chainId : is_uint 64 (tb_chainId tx);
  tbo_nonce : is_uint 64 (tb_nonce tx);
  tbo_gasLimit : is_uint 64 (tb_gasLimit tx);
  tbo_value : is_uint 256 (tb_value tx);
  tbo_prio : is_uint 256 (tb_maxPriorityFeePerGas tx);
  tbo_fee : is_uint 256 (tb_maxFeePerGas tx);
}.

Lemma verifySig_bounds r s v :
  verifySig r s v = true → v ≤ 1 ∧ 0 < r ∧ 0 < s ∧ is_uint 256 r ∧ is_uint 256 s.
Proof.
  unfold verifySig. intros Hs. zify_bool. unfold is_uint.
  pose proof ecConst_256. split_and!; lia.
Qed.

(** What follows the header of a serialised [TxBlock]. *)
Definition TxBlock_payload (tx : TxBlock) : bytes :=
  rlp_uint (tb_chainId tx) ++ rlp_uint (tb_nonce tx) ++
  rlp_uint (tb_maxPriorityFeePerGas tx) ++ rlp_uint (tb_maxFeePerGas tx) ++
  rlp_uint (tb_gasLimit tx) ++ ([148] ++ tb_to tx) ++ rlp_uint (tb_value tx) ++
  rlp_bytes (tb_data tx) ++ [192] ++
  (if tb_v tx =? 0 then [128] else [tb_v tx]) ++ rlp_scalar_out (tb_r tx) ++ rlp_scalar_out (tb_s tx).

Lemma TxBlock_payload_zlen tx :
  TxBlock_ok tx → 0 ≤ tb_r tx → 0 ≤ tb_s tx → zlen (TxBlock_payload tx) < 2 ^ 64 →
  TxBlock_total_size tx true = zlen (TxBlock_payload tx).
Proof.
  intros [Ht Hc Hn Hg Hv Hp Hf] Hr Hs Hb. apply uint64_256 in Hc, Hn, Hg.
  assert (zlen (if tb_v tx =? 0 then [128] else [tb_v tx]) = 1) as Hvl by by case_match.
  rewrite <-(Z.mod_small (zlen (TxBlock_payload tx)) (2 ^ 64)) by (split; [apply zlen_nonneg|done]).
  unfold TxBlock_total_size, TxBlock_payload, wrap. f_equal.
  rewrite !zlen_app, !rlp_uint_zlen, rlp_bytes_zlen, !rlp_scalar_zlen, Hvl by done.
  rewrite (zlen_of_length _ _ Ht), !zlen_cons, !zlen_nil. lia.
Qed.

(** Reads the number at the cursor. *)
Ltac rlp_step :=
  lazymatch goal with
  | Hp : at_pos ?d ?i (rlp_uint ?n ++ ?post) |- context [rlp_number ?conv ?lim ?d ?i] =>
      let j := fresh "j" in let E := fresh "E" in let Hp' := fresh "Hp" in
      destruct (rlp_number_uint conv lim d i n post) as (j & E & Hp');
      [auto using conv64_reads, conv256_reads, uint64_256..|];
      rewrite E; clear E Hp; cbn [mbind outcome_bind]
  end.

(** The part of the parser before the signature check. *)
Lemma TxBlock_parse_serialized tx key cid :
  TxBlock_ok tx → zlen (tb_data tx) ≠ 55 → 0 ≤ tb_v tx → verifySig (tb_r tx) (tb_s tx) (tb_v tx) = true →
  55 < zlen (TxBlock_payload tx) < 2 ^ 63 →
  recover (makeSig (tb_r tx) (tb_s tx) (tb_v tx)) (TxBlock_hash tx false) = Ok key →
  FixedStr_bool key = true → toAddress key = Ok (tb_from tx) →
  TxBlock_parse (TxBlock_rlpSerialize tx true) cid = Ok tx.
Proof.
  intros Hok H55 Hv0 Hsig Hsz Hkey Hkt Hfrom.
  destruct (verifySig_bounds _ _ _ Hsig) as (Hv & Hr & Hs & Hr' & Hs').
  pose proof (TxBlock_payload_zlen tx Hok ltac:(lia) ltac:(lia) ltac:(lia)) as Htot.
  destruct Hok as [Ht Hc Hn Hg Hva Hpr Hf].
  set (d := rlp_header (TxBlock_total_size tx true) ++ TxBlock_payload tx).
  assert (TxBlock_rlpSerialize tx true = [2] ++ d) as -> by done.
  assert (zlen d < 2 ^ 64) as Hd.
  { subst d. rewrite zlen_app, Htot. unfold rlp_header. rewrite (proj2 (Z.leb_gt _ 55)) by lia.
    rewrite zlen_cons, uintToBytes_zlen by lia.
    pose proof (digits_le_width (zlen (TxBlock_payload tx)) 8 ltac:(lia)). lia. }
  unfold TxBlock_parse. rewrite (substr_tail 2 d). cbn [app mbind outcome_bind].
  change (at_view (2 :: d) 0) with (Ok 2). cbn [mbind outcome_bind Z.eqb Pos.eqb negb throw_if].
  destruct (rlp_header_roundtrip d (TxBlock_total_size tx true) (TxBlock_payload tx) ltac:(rewrite Htot; lia) (eq_sym Htot) eq_refl)
    as [-> Hp0].
  unfold TxBlock_payload in Hp0. cbn [mbind outcome_bind]. do 5 rlp_step.
  destruct (at_view_pos d _ _ _ Hp) as [-> Hp1]. cbn [mbind outcome_bind Z.eqb Pos.eqb negb throw_if].
  destruct (view_pos d _ 20 _ _ Hp1) as [-> Hp2];
    [by rewrite (zlen_of_length _ _ Ht)|apply zlen_pos_app; by rewrite (zlen_of_length _ _ Ht)|].
  cbn [mbind outcome_bind]. unfold Address_ctor. rewrite (zlen_eqb _ _ 20 Ht) by done.
  cbn [mbind outcome_bind throw_if negb]. rlp_step.
  match goal with Hq : at_pos d ?i _ |- _ =>
    destruct (rlp_data_roundtrip (Some (runtime_error "Data is too large")) d i _ _ Hd H55 Hq)
      as (k & -> & Hp3) end.
  cbn [mbind outcome_bind].
  destruct (at_view_pos d _ _ _ Hp3) as [-> Hp4]. cbn [mbind outcome_bind Z.eqb Pos.eqb negb throw_if].
  destruct (v_byte_roundtrip d _ _ _ (conj Hv0 Hv) Hp4) as [-> Hp5]. cbn [mbind outcome_bind].
  destruct (rlp_scalar_roundtrip 32 (runtime_error "R is bigger than 32 bytes") d _ (tb_r tx) _
    ltac:(lia) Hr Hr' Hp5) as (k1 & -> & Hp6). cbn [mbind outcome_bind].
  rewrite <-(app_nil_r (rlp_scalar_out (tb_s tx))) in Hp6.
  destruct (rlp_scalar_roundtrip 32 (runtime_error "S is bigger than 32 bytes") d _ (tb_s tx) _
    ltac:(lia) Hs Hs' Hp6) as (k2 & -> & Hp7). cbn [mbind outcome_bind].
  rewrite Hsig. cbn [negb throw_if mbind outcome_bind].
  match goal with |- context [TxBlock_rlpSerialize ?x false] =>
    change (sha3 (TxBlock_rlpSerialize x false)) with (TxBlock_hash tx false) end.
  rewrite Hkey. cbn [mbind outcome_bind]. rewrite Hkt. cbn [negb throw_if mbind outcome_bind].
  rewrite Hfrom. by destruct tx.
Qed.

(** The parts that a signing constructor reads off its signature. *)
Lemma sign_parts hash privKey sig r0 s0 r s v :
  sign hash privKey = Ok sig → view sig 0 32 = Ok r0 → bytesToUint256 r0 = Ok r →
  view sig 32 32 = Ok s0 → bytesToUint256 s0 = Ok s → at_str sig 64 = Ok v →
  verifySig r s v = true →
  sig = makeSig r s v ∧ 0 ≤ v ∧ is_Some (ec_pubkey_create privKey).
Proof.
  intros Hsign Hr0 Hr Hs0 Hs Hv Hver.
  destruct (ecdsa_sign_recoverable hash privKey) as [raw|] eqn:E.
  2: { unfold sign in Hsign. rewrite E in Hsign. injection Hsign as <-.
       vm_compute in Hr0. injection Hr0 as <-. vm_compute in Hr. injection Hr as <-.
       unfold verifySig in Hver. zify_bool. lia. }
  destruct (sign_shape _ _ _ E) as (r' & s' & v' & E' & Ur & Bs & Bv). rewrite E' in Hsign.
  injection Hsign as <-.
  assert (is_uint 256 s') as Us by (pose proof ecConst_256; unfold is_uint;
    assert (ecConst / 2 ≤ ecConst) by (vm_compute; discriminate); lia).
  rewrite makeSig_spec in * by done.
  rewrite (view_at _ [] (be_split 32 r') (be_split 32 s' ++ [v'])) in Hr0
    by (rewrite ?zlen_app, ?be_split_zlen, ?zlen_nil; done || lia).
  rewrite (view_at _ (be_split 32 r') (be_split 32 s') [v']) in Hs0
    by (rewrite ?zlen_app, ?be_split_zlen, ?zlen_nil; done || lia).
  apply Ok_inj in Hr0 as <-. apply Ok_inj in Hs0 as <-.
  rewrite bytesToUint256_spec, be_val_split_small in Hr by (done || apply be_split_length).
  rewrite bytesToUint256_spec, be_val_split_small in Hs by (done || apply be_split_length).
  injection Hr as <-. injection Hs as <-.
  assert (at_str (be_split 32 r' ++ be_split 32 s' ++ [v']) 64 = Ok v') as Hv'.
  { unfold at_str. rewrite bool_decide_true by (unfold zlen; rewrite !length_app, !be_split_length; simpl; lia).
    change (Z.to_nat 64) with 64%nat. rewrite (app_assoc (be_split 32 r')).
    rewrite list_lookup_middle; [done|]. by rewrite length_app, !be_split_length. }
  rewrite Hv' in Hv. injection Hv as <-.
  split_and!; [by rewrite makeSig_spec|lia|]. by eapply sign_key_valid.
Qed.

(** What the signing constructors establish. *)
Lemma TxBlock_sign_facts to from data cid n val prio fee gas key tx :
  TxBlock_sign to from data cid n val prio fee gas key = Ok tx →
  ∃ r s v pub, tx = mkTxBlock to from data cid n val prio fee gas v r s ∧ 0 ≤ v ∧
    verifySig r s v = true ∧ recover (makeSig r s v) (TxBlock_hash tx false) = Ok pub ∧
    FixedStr_bool pub = true ∧ toAddress pub = Ok from.
Proof.
  unfold TxBlock_sign. intros Htx. inv_ok. zify_bool. subst.
  match goal with Hs : sign _ _ = Ok ?g, H0 : view ?g 0 32 = Ok ?a, Ha : bytesToUint256 ?a = Ok _,
    H1 : view ?g 32 32 = Ok ?b, Hb : bytesToUint256 ?b = Ok _, Hv : at_str ?g 64 = Ok _,
    Hver : verifySig _ _ _ = true |- _ =>
    destruct (sign_parts _ _ _ _ _ _ _ _ Hs H0 Ha H1 Hb Hv Hver) as (-> & Hv0 & Hvalid) end.
  destruct (toUPub_priv_Ok key) as (u & Hu & _ & _ & Hub).
  eexists _, _, _, u. split_and!; [done|done|done| |by apply Hub|congruence].
  etransitivity; [eassumption|congruence].
Qed.

Lemma TxValidator_sign_facts from data cid h key tx :
  TxValidator_sign from data cid h key = Ok tx →
  ∃ r s v pub, tx = mkTxValidator from data cid h (u64 (v + (cid * 2 + 35))) r s ∧ 0 ≤ v ∧
    verifySig r s v = true ∧ recover (makeSig r s v) (TxValidator_hash tx false) = Ok pub ∧
    FixedStr_bool pub = true ∧ toAddress pub = Ok from.
Proof.
  unfold TxValidator_sign. intros Htx. inv_ok. zify_bool. subst.
  match goal with Hs : sign _ _ = Ok ?g, H0 : view ?g 0 32 = Ok ?a, Ha : bytesToUint256 ?a = Ok _,
    H1 : view ?g 32 32 = Ok ?b, Hb : bytesToUint256 ?b = Ok _, Hv : at_str ?g 64 = Ok _,
    Hver : verifySig _ _ _ = true |- _ =>
    destruct (sign_parts _ _ _ _ _ _ _ _ Hs H0 Ha H1 Hb Hv Hver) as (-> & Hv0 & Hvalid) end.
  destruct (toUPub_priv_Ok key) as (u & Hu & _ & _ & Hub).
  eexists _, _, _, u. split_and!; [done|done|done| |by apply Hub|congruence].
  etransitivity; [eassumption|congruence].
Qed.

(** ** The round trip of Validator transactions *)

Definition TxValidator_payload (tx : TxValidator) : bytes :=
  rlp_bytes (tv_data tx) ++ rlp_uint (tv_nHeight tx) ++ rlp_v (tv_v tx) ++
  rlp_scalar_out (tv_r tx) ++ rlp_scalar_out (tv_s tx).

Lemma TxValidator_payload_zlen tx :
  is_uint 64 (tv_nHeight tx) → is_uint 256 (tv_v tx) → 0 ≤ tv_r tx → 0 ≤ tv_s tx →
  zlen (TxValidator_payload tx) < 2 ^ 64 →
  TxValidator_total_size tx true = zlen (TxValidator_payload tx).
Proof.
  intros Hh Hv Hr Hs Hb. apply uint64_256 in Hh.
  rewrite <-(Z.mod_small (zlen (TxValidator_payload tx)) (2 ^ 64)) by (split; [apply zlen_nonneg|done]).
  unfold TxValidator_total_size, TxValidator_payload, wrap. f_equal.
  rewrite !zlen_app, rlp_uint_zlen, rlp_v_zlen, rlp_bytes_zlen, !rlp_scalar_zlen by done. lia.
Qed.

Lemma TxValidator_parse_serialized from data cid h r s v key req :
  let tx := mkTxValidator from data cid h (v + (cid * 2 + 35)) r s in
  1 ≤ cid → cid * 2 + 37 < 2 ^ 64 → is_uint 64 h → zlen data ≠ 55 →
  0 ≤ v → verifySig r s v = true → 55 < zlen (TxValidator_payload tx) < 2 ^ 63 →
  recover (makeSig r s v) (TxValidator_hash tx false) = Ok key →
  FixedStr_bool key = true → toAddress key = Ok from →
  TxValidator_parse (TxValidator_rlpSerialize tx true) req = Ok tx.
Proof.
  intros tx Hc1 Hc2 Hh H55 Hv0 Hsig Hsz Hkey Hkt Hfrom.
  destruct (verifySig_bounds _ _ _ Hsig) as (Hv & Hr & Hs & Hr' & Hs').
  assert (is_uint 256 (v + (cid * 2 + 35))) as Hvu by (apply uint64_256; unfold is_uint; lia).
  pose proof (TxValidator_payload_zlen tx Hh Hvu ltac:(cbn; lia) ltac:(cbn; lia) ltac:(lia)) as Htot.
  set (d := TxValidator_rlpSerialize tx true).
  assert (zlen d < 2 ^ 64) as Hd.
  { change d with (rlp_header (TxValidator_total_size tx true) ++ TxValidator_payload tx).
    rewrite zlen_app, Htot. unfold rlp_header. rewrite (proj2 (Z.leb_gt _ 55)) by lia.
    rewrite zlen_cons, uintToBytes_zlen by lia.
    pose proof (digits_le_width (zlen (TxValidator_payload tx)) 8 ltac:(lia)). lia. }
  unfold TxValidator_parse.
  destruct (rlp_header_roundtrip d (TxValidator_total_size tx true) (TxValidator_payload tx)
    ltac:(rewrite Htot; lia) (eq_sym Htot) eq_refl) as [-> Hp0].
  unfold TxValidator_payload in Hp0. cbn [mbind outcome_bind].
  destruct (rlp_data_roundtrip None d _ _ _ Hd H55 Hp0) as (k & -> & Hp3).
  cbn [mbind outcome_bind]. rlp_step. cbn [tv_nHeight tx] in *.
  match goal with Hq : at_pos d ?i (rlp_v _ ++ _) |- _ =>
    destruct (rlp_number_v conv256 (Some (runtime_error "V is not a small string")) d i _ _
      (conv256_reads _ Hvu) Hvu Hq) as (k1 & -> & Hp4) end.
  cbn [mbind outcome_bind].
  destruct (rlp_scalar_roundtrip 55 (runtime_error "R is not a small string") d _ r _
    ltac:(lia) Hr Hr' Hp4) as (k2 & -> & Hp5). cbn [mbind outcome_bind].
  rewrite <-(app_nil_r (rlp_scalar_out (tv_s tx))) in Hp5.
  destruct (rlp_scalar_roundtrip 55 (runtime_error "S is not a small string") d _ s _
    ltac:(lia) Hs Hs' Hp5) as (k3 & -> & _). cbn [mbind outcome_bind].
  rewrite (proj2 (Z.ltb_lt 36 _)) by lia.
  replace ((v + (cid * 2 + 35) - 35) / 2) with cid
    by (replace (v + (cid * 2 + 35) - 35) with (cid * 2 + v) by lia;
        rewrite Z.div_add_l, Z.div_small by lia; lia).
  unfold to_width, sub256, checked. rewrite (proj2 (Z.ltb_lt cid (2 ^ 64))) by lia.
  cbn [mbind outcome_bind]. replace (v + (cid * 2 + 35) - (cid * 2 + 35)) with v by lia.
  rewrite (proj2 (Z.ltb_ge v 0)), (proj2 (Z.ltb_lt v (2 ^ 256))) by lia.
  cbn [mbind outcome_bind]. rewrite (proj2 (Z.ltb_lt v (2 ^ 8))) by lia.
  cbn [mbind outcome_bind]. rewrite Hsig. cbn [negb throw_if mbind outcome_bind].
  match goal with |- context [TxValidator_hash ?x false] =>
    change (TxValidator_hash x false) with (TxValidator_hash tx false) end.
  rewrite Hkey. cbn [mbind outcome_bind]. rewrite bool_decide_false by (by intros ->).
  cbn [throw_if mbind outcome_bind]. rewrite Hfrom. done.
Qed.

(** ** What the parser accepts *)

Lemma fromBigEndian_uint w b : 0 ≤ w → is_uint w (fromBigEndian w b).
Proof.
  intros Hw. assert (0 < 2 ^ w) by (apply Z.pow_pos_nonneg; lia).
  destruct b as [|x b _] using rev_ind; [unfold is_uint, fromBigEndian; cbn [foldl]; lia|].
  unfold fromBigEndian. rewrite foldl_app. cbn [foldl]. by apply Z.mod_pos_bound.
Qed.

Lemma fromBigEndian256_uint b x : bytes_ok b → fromBigEndian256 b = Ok x → is_uint 256 x.
Proof.
  destruct b as [|y b _] using rev_ind; intros Hb Hx.
  - apply Ok_inj in Hx as <-. done.
  - apply Forall_app in Hb as [_ Hy]. rewrite Forall_singleton in Hy.
    unfold fromBigEndian256 in Hx. rewrite foldM_app in Hx. apply bind_Ok in Hx as (acc & _ & Hx).
    cbn [foldM mbind outcome_bind] in Hx. inv_ok. unfold checked in *. inv_ok. zify_bool.
    rewrite lor_shiftl8 by done. rewrite Z.shiftl_mul_pow2 in * by lia.
    unfold is_uint, is_byte in *. lia.
Qed.

Lemma view_ok d i n x : bytes_ok d → view d i n = Ok x → bytes_ok x ∧ zlen x = n.
Proof.
  unfold view. intros Hd Hx. inv_ok. zify_bool. split; [by apply Forall_take, Forall_drop|].
  zlen_solve.
Qed.

Lemma rlp_number_range (P : Z → Prop) conv lim d i n j :
  P 0 → (∀ b x, bytes_ok b → conv b = Ok x → P x) → bytes_ok d →
  rlp_number conv lim d i = Ok (n, j) → P n.
Proof.
  intros HP0 Hc Hd Hn. unfold rlp_number in Hn. apply bind_Ok in Hn as (b & Hb & Hn).
  destruct (negb _).
  - destruct lim; inv_ok; (match goal with Hv : view _ _ _ = Ok _ |- _ => apply view_ok in Hv as [? _]; [|done] end); by eapply Hc.
  - destruct (b =? 128); inv_ok; [done|].
    match goal with Hv : view _ _ _ = Ok _ |- _ => apply view_ok in Hv as [? _]; [|done] end.
    by eapply Hc.
Qed.

Lemma rlp_number_64 lim d i n j :
  bytes_ok d → rlp_number conv64 lim d i = Ok (n, j) → is_uint 64 n.
Proof.
  apply rlp_number_range; [done|]. intros b x _ Hx. unfold conv64 in Hx. apply Ok_inj in Hx as <-.
  by apply fromBigEndian_uint.
Qed.

Lemma rlp_number_256 lim d i n j :
  bytes_ok d → rlp_number conv256 lim d i = Ok (n, j) → is_uint 256 n.
Proof. apply rlp_number_range; [done|]. apply fromBigEndian256_uint. Qed.

Lemma rlp_sigV_nonneg d i v : rlp_sigV d i = Ok v → 0 ≤ v.
Proof.
  unfold rlp_sigV. intros Hv. apply bind_Ok in Hv as (b & _ & Hv).
  destruct (b =? 128); inv_ok; [lia|]. pose proof (fromBigEndian_uint 8 x). unfold is_uint in *. lia.
Qed.

Lemma substr_ok s i n x : bytes_ok s → substr s i n = Ok x → bytes_ok x.
Proof. unfold substr. intros Hs Hx. inv_ok. by apply Forall_take, Forall_drop. Qed.

Lemma Address_ctor_bytes a x : Address_ctor a true = Ok x → x = a ∧ length a = 20%nat.
Proof. unfold Address_ctor. intros Hx. inv_ok. zify_bool. unfold zlen in *. split; [done|lia]. Qed.

(** * Properties *)


(** The same for Validator transactions, for every chain id whose v fits
    in 64 bits. *)
Theorem TxValidator_roundtrip from data cid h key tx req :
  TxValidator_sign from data cid h key = Ok tx →
  1 ≤ cid → cid * 2 + 37 < 2 ^ 64 → is_uint 64 h →
  zlen data ≠ 55 → 55 < zlen (TxValidator_payload tx) < 2 ^ 63 →
  TxValidator_parse (TxValidator_rlpSerialize tx true) req = Ok tx.
Proof.
  intros Htx Hc1 Hc2 Hh H55. destruct (TxValidator_sign_facts _ _ _ _ _ _ Htx)
    as (r & s & v & pub & -> & Hv & Hsig & Hrec & Hb & Hf).
  destruct (verifySig_bounds _ _ _ Hsig) as (Hv1 & _).
  unfold wrap in *. rewrite Z.mod_small in * by lia. intros Hsz.
  by eapply TxValidator_parse_serialized.
Qed.

(** C24: what the parser accepts is well formed and authentic: the fields have
    their width, the recipient 20 bytes, r, s and v are in range, and the
    sender is the address of the key that the signature recovers from the hash
    of the unsigned transaction. *)
Theorem TxBlock_parse_authentic b req tx :
  bytes_ok b → TxBlock_parse b req = Ok tx →
  TxBlock_ok tx ∧ 0 ≤ tb_v tx ∧ verifySig (tb_r tx) (tb_s tx) (tb_v tx) = true ∧
  ∃ key, recover (makeSig (tb_r tx) (tb_s tx) (tb_v tx)) (TxBlock_hash tx false) = Ok key ∧
    FixedStr_bool key = true ∧ toAddress key = Ok (tb_from tx).
Proof.
  intros Hb Htx. unfold TxBlock_parse in Htx. apply bind_Ok in Htx as (d & Hd & Htx).
  apply substr_ok in Hd; [|done]. inv_ok. zify_bool.
  repeat match goal with
  | Hn : rlp_number conv64 _ _ _ = Ok _ |- _ => apply rlp_number_64 in Hn; [|done]
  | Hn : rlp_number conv256 _ _ _ = Ok _ |- _ => apply rlp_number_256 in Hn; [|done]
  | Hv : rlp_sigV _ _ = Ok _ |- _ => apply rlp_sigV_nonneg in Hv
  | Ha : Address_ctor _ true = Ok _ |- _ => apply Address_ctor_bytes in Ha as [-> Ha]
  end.
  split; [by constructor|]. split_and!; [done|done|]. eexists. split_and!; [eassumption|done|done].
Qed.

(** The serialisers write data of 55 bytes with the first byte 0xb7, which
    both parsers take for a long string with no length: they read no data and
    go on in the middle of it. *)
Theorem rlp_data_55_lost lim d i data post :
  zlen data = 55 → at_pos d i (rlp_bytes data ++ post) →
  rlp_data lim d i = Ok ([], u64 (i + 1)).
Proof.
  intros Hl Hp. unfold rlp_bytes in Hp. rewrite Hl in Hp. cbn [Z.eqb Z.leb Z.compare Pos.compare Pos.compare_cont] in Hp.
  change (u8 (55 + 128)) with 183 in Hp. destruct (at_view_pos d i 183 (data ++ post) Hp) as [Hv Hp1].
  destruct (view_pos d (i + 1) 0 [] (data ++ post)) as [Hw _]; [done..|cbn [app]; apply zlen_pos_app; lia|].
  pose proof (at_pos_bounds _ _ _ Hp1) as [? ?]. pose proof (zlen_nonneg (data ++ post)).
  unfold rlp_data. rewrite Hv. cbn [mbind outcome_bind].
  change (183 <? 128) with false. change (183 <? 183) with false. cbn beta iota.
  assert (match lim with Some e => throw_if (192 <=? 183) e | None => Ok tt end = Ok tt) as ->
    by by destruct lim.
  cbn [mbind outcome_bind]. change (u8 (183 - 183)) with 0. rewrite Hw. cbn [mbind outcome_bind].
  change (fromBigEndian 64 []) with 0. rewrite !Z.add_0_r. unfold substr.
  by rewrite (proj2 (Z.leb_le (i + 1) _)) by lia.
Qed.

End Tx.

(** A key, its address, and transactions signed with it. *)
Definition sample_key : bytes := be_split 32 (2 ^ 254 + 12345).
Definition sample_from : bytes :=
  match u ← @toUPub_priv toy_secp sample_key; @toAddress toy_keccak u with Ok a => a | _ => [] end.
Definition sample_TxBlock (data : bytes) : outcome TxBlock :=
  @TxBlock_sign toy_keccak toy_secp (replicate 20 7) sample_from data 8080 3 1000000 0 1000000000 21000 sample_key.
Definition sample_TxValidator (data : bytes) : outcome TxValidator :=
  @TxValidator_sign toy_keccak toy_secp sample_from data 8080 1 sample_key.


Lemma TxValidator_roundtrip_witness :
  ∃ tx, sample_TxValidator (replicate 36 9) = Ok tx ∧
        @TxValidator_parse toy_keccak toy_secp (TxValidator_rlpSerialize tx true) 8080 = Ok tx.
Proof.
  eexists. split; [vm_compute; reflexivity|].
  eapply (@TxValidator_roundtrip toy_keccak toy_secp sample_from (replicate 36 9) 8080 1 sample_key);
    [vm_compute; reflexivity|done|done|by split|discriminate|by vm_compute].
Defined.

Lemma TxBlock_parse_authentic_witness :
  ∃ b tx, @TxBlock_parse toy_keccak toy_secp b 8080 = Ok tx ∧ TxBlock_ok tx.
Proof.
  eexists (match sample_TxBlock [1; 2; 3] with Ok tx => TxBlock_rlpSerialize tx true | _ => [] end), _.
  split; [vm_compute; reflexivity|].
  eapply (@TxBlock_parse_authentic toy_keccak toy_secp
    (match sample_TxBlock [1; 2; 3] with Ok tx => TxBlock_rlpSerialize tx true | _ => [] end) 8080);
    [apply (bool_decide_unpack _); vm_compute; exact I|vm_compute; reflexivity].
Defined.

Lemma rlp_data_55_lost_witness :
  rlp_data None (rlp_bytes (replicate 55 9) ++ [192]) 0 = Ok ([], 1) ∧
  (tx ← sample_TxBlock (replicate 55 9); @TxBlock_parse toy_keccak toy_secp (TxBlock_rlpSerialize tx true) 8080)
  = Throw (runtime_error "Access list is not empty").
Proof.
  split; [|vm_compute; reflexivity].
  apply (@rlp_data_55_lost None (rlp_bytes (replicate 55 9) ++ [192]) 0 (replicate 55 9) [192]);
    [reflexivity|]. by exists [].
Defined.
