(* ===== verification/Block.v ===== *)
(** * Block: blocks, their serialisation and their life cycle
      (src/utils/block.{h,cpp}; parseTxSeedList and getTxValidatorFunction of
      src/core/rdpos.cpp, which a block calls)

    A block is built, filled and finalised, or parsed from bytes.  The parser
    deserialises the transactions in one loop or, with more than 2000 of them
    and several hardware threads, in one task per thread; the number of
    hardware threads is an argument. *)

From S2P Require Import Prelude Utils Hex Strings Merkle Ecdsa Tx.

Record Block := mkBlock {
  b_validatorSig : bytes;
  b_prevBlockHash : bytes;
  b_blockRandomness : bytes;
  b_validatorMerkleRoot : bytes;
  b_txMerkleRoot : bytes;
  b_timestamp : Z;
  b_nHeight : Z;
  b_txValidators : list TxValidator;
  b_txs : list TxBlock;
  b_validatorPubKey : bytes;
  b_finalized : bool;
}.

#[export] Instance Block_eq_dec : EqDecision Block.
Proof. solve_decision. Defined.

(** [Block(prevBlockHash, timestamp, nHeight)]. *)
Definition Block_new (prevBlockHash : bytes) (timestamp nHeight : Z) : Block :=
  mkBlock Signature_empty prevBlockHash Hash_zero Hash_zero Hash_zero timestamp nHeight
    [] [] UPubKey_empty false.

Definition serializeHeader (b : Block) : bytes :=
  b_prevBlockHash b ++ b_blockRandomness b ++ b_validatorMerkleRoot b ++ b_txMerkleRoot b ++
  uint64ToBytes (b_timestamp b) ++ uint64ToBytes (b_nHeight b).

(** The loops of [serializeBlock]: size and bytes of each transaction. *)
Definition serialize_items {T} (rlp : T → bytes) (txs : list T) : bytes :=
  flat_map (λ tx, uint32ToBytes (zlen (rlp tx)) ++ rlp tx) txs.

(** [serializeBlock]: the start of the Validator transactions, written as
    zeros first, is patched once the block transactions are in place. *)
Definition serializeBlock (b : Block) : bytes :=
  let ret := b_validatorSig b ++ serializeHeader b in
  let txValidatorStartLoc := length ret in
  let ret := ret ++ uint64ToBytes 0 in
  let ret := ret ++ serialize_items (λ tx, TxBlock_rlpSerialize tx true) (b_txs b) in
  let txValidatorStart := uint64ToBytes (zlen ret) in
  let ret := take txValidatorStartLoc ret ++ txValidatorStart ++ drop (txValidatorStartLoc + 8) ret in
  ret ++ serialize_items (λ tx, TxValidator_rlpSerialize tx true) (b_txValidators b).

Abbreviation tx_items b := (serialize_items (λ tx, TxBlock_rlpSerialize tx true) (b_txs b)).
Abbreviation val_items b := (serialize_items (λ tx, TxValidator_rlpSerialize tx true) (b_txValidators b)).

(** ** Splitting the bytes into transactions *)

(** [Utils::bytesToUint32(bytes.substr(index, 4))]. *)
Definition read_size (b : bytes) (index : Z) : outcome Z :=
  s ← substr b index 4; bytesToUint32 s.

(** The counting loops: [while (index < stop)].  Running out of fuel is
    [Undef]; [count_txs_total] shows that it does not happen. *)
Fixpoint count_txs (fuel : nat) (b : bytes) (index stop count : Z) : outcome Z :=
  match fuel with
  | O => Undef
  | S fuel =>
      if index <? stop then
        txSize ← read_size b index;
        count_txs fuel b (u64 (index + (txSize + 4))) stop (count + 1)
      else Ok count
  end.

(** [n] rounds of the deserialising loops: the transactions and the index
    after them. *)
Fixpoint parse_items {T} (p : bytes → outcome T) (n : nat) (b : bytes) (index : Z)
    : outcome (list T * Z) :=
  match n with
  | O => Ok ([], index)
  | S n =>
      txSize ← read_size b index;
      let index := u64 (index + 4) in
      s ← substr b index txSize;
      tx ← p s;
      '(txs, index) ← parse_items p n b (u64 (index + txSize));
      Ok (tx :: txs, index)
  end.

(** The loop that moves [thrOff] past the transactions of one thread. *)
Fixpoint skip_items (n : nat) (b : bytes) (thrOff : Z) : outcome Z :=
  match n with
  | O => Ok thrOff
  | S n => len ← read_size b thrOff; skip_items n b (u64 (thrOff + (len + 4)))
  end.

(** [txsPerThr]: the remainder goes to the last thread. *)
Definition txsPerThr (thrNum : nat) (txCount : Z) : list Z :=
  let q := txCount / Z.of_nat thrNum in
  replicate (thrNum - 1) q ++ [q + txCount mod Z.of_nat thrNum].

(** The jobs handed to the tasks, (startIdx, nTxs) each: the offset is not
    advanced after the last one. *)
Fixpoint thread_jobs (b : bytes) (per : list Z) (thrOff : Z) : outcome (list (Z * Z)) :=
  match per with
  | [] => Ok []
  | [n] => Ok [(thrOff, n)]
  | n :: per =>
      off ← skip_items (Z.to_nat n) b thrOff;
      jobs ← thread_jobs b per off;
      Ok ((thrOff, n) :: jobs)
  end.

(** Collecting the futures in order: all tasks run, [get] rethrows the first
    exception. *)
Definition is_undef {A} (r : outcome A) : bool := match r with Undef => true | _ => false end.

Definition collect {A} (rs : list (outcome (list A))) : outcome (list A) :=
  if existsb is_undef rs then Undef
  else foldM (λ txs r, l ← r; Ok (txs ++ l)) [] rs.

Definition parse_threaded {T} (p : bytes → outcome T) (thrNum : nat) (txCount : Z)
    (b : bytes) (index : Z) : outcome (list T) :=
  jobs ← thread_jobs b (txsPerThr thrNum txCount) index;
  collect ((λ '(startIdx, nTxs), fst <$> parse_items p (Z.to_nat nTxs) b startIdx) <$> jobs).

Definition parse_txs {T} (p : bytes → outcome T) (thrNum : nat) (txCount : Z)
    (b : bytes) (index : Z) : outcome (list T) :=
  if (Z.of_nat thrNum <=? 1) || (txCount <=? 2000)
  then fst <$> parse_items p (Z.to_nat txCount) b index
  else parse_threaded p thrNum txCount b index.

(** ** The functions of rdPoS that a block calls *)

Inductive TxValidatorFunction := INVALID | RANDOMHASH | RANDOMSEED.

#[export] Instance TxValidatorFunction_eq_dec : EqDecision TxValidatorFunction.
Proof. solve_decision. Defined.

Definition randomHashHash : bytes := [207; 255; 231; 70].
Definition randomSeedHash : bytes := [111; 197; 162; 214].

Definition getTxValidatorFunction (tx : TxValidator) : TxValidatorFunction :=
  if negb (zlen (tv_data tx) =? 36) then INVALID
  else
    let functionABI := take 4 (tv_data tx) in
    if bool_decide (functionABI = randomHashHash) then RANDOMHASH
    else if bool_decide (functionABI = randomSeedHash) then RANDOMSEED
    else INVALID.

Section Block.
Context `{Keccak, Secp256k1Lib}.

Definition parseTxSeedList (txs : list TxValidator) : bytes :=
  if zlen txs =? 0 then Hash_zero
  else sha3 (foldl (λ seed tx,
         if bool_decide (getTxValidatorFunction tx = RANDOMSEED)
         then seed ++ take 32 (drop 4 (tv_data tx)) else seed) [] txs).

Definition Block_hash (b : Block) : bytes := sha3 (serializeHeader b).

Definition tx_root (txs : list TxBlock) : bytes :=
  getRoot (Merkle_ctor ((λ tx, TxBlock_hash tx true) <$> txs)).
Definition validator_root (txs : list TxValidator) : bytes :=
  getRoot (Merkle_ctor ((λ tx, TxValidator_hash tx true) <$> txs)).

(** The body of the [try] of [Block(bytes, requiredChainId)]. *)
Definition Block_parse_body (thrNum : nat) (b : bytes) (requiredChainId : Z) : outcome Block :=
  _ ← throw_if (zlen b <? 217) (runtime_error "Invalid block size - too short");
  validatorSig ← substr b 0 65;
  let validatorSig := FixedStr_ctor 65 validatorSig in
  prevBlockHash ← (s ← substr b 65 32; Hash_of_view s);
  blockRandomness ← (s ← substr b 97 32; Hash_of_view s);
  validatorMerkleRoot ← (s ← substr b 129 32; Hash_of_view s);
  txMerkleRoot ← (s ← substr b 161 32; Hash_of_view s);
  timestamp ← (s ← substr b 193 8; bytesToUint64 s);
  nHeight ← (s ← substr b 201 8; bytesToUint64 s);
  txValidatorStart ← (s ← substr b 209 8; bytesToUint64 s);
  txCount ← count_txs (S (length b)) b 217 txValidatorStart 0;
  valTxCount ← count_txs (S (length b)) b txValidatorStart (zlen b) 0;
  txs ← parse_txs (λ s, TxBlock_parse s requiredChainId) thrNum txCount b 217;
  '(txValidators, _) ← parse_items (λ s,
      tx ← TxValidator_parse s requiredChainId;
      _ ← throw_if (negb (tv_nHeight tx =? nHeight)) (runtime_error "Invalid validator tx height");
      Ok tx) (Z.to_nat valTxCount) b txValidatorStart;
  let expectedRandomness := parseTxSeedList txValidators in
  _ ← throw_if (negb (bool_decide (tx_root txs = txMerkleRoot)))
        (runtime_error "Invalid tx merkle root");
  _ ← throw_if (negb (bool_decide (validator_root txValidators = validatorMerkleRoot)))
        (runtime_error "Invalid validator merkle root");
  _ ← throw_if (negb (bool_decide (expectedRandomness = blockRandomness)))
        (runtime_error "Invalid block randomness");
  let blk key fin := mkBlock validatorSig prevBlockHash blockRandomness validatorMerkleRoot
        txMerkleRoot timestamp nHeight txValidators txs key fin in
  let msgHash := Block_hash (blk UPubKey_empty false) in
  r ← Signature_r validatorSig;
  s ← Signature_s validatorSig;
  v ← Signature_v validatorSig;
  _ ← throw_if (negb (verifySig r s v)) (runtime_error "Invalid validator signature");
  validatorPubKey ← recover validatorSig msgHash;
  Ok (blk validatorPubKey true).

(** [Block(bytes, requiredChainId)]: every exception is logged and rethrown as
    a [runtime_error]. *)
Definition Block_parse (thrNum : nat) (b : bytes) (requiredChainId : Z) : outcome Block :=
  try_catch (Block_parse_body thrNum b requiredChainId)
    (λ e, Throw (runtime_error ("Block: " ++ what e)%string)).

(** ** Building a block *)

Definition appendTx (b : Block) (tx : TxBlock) : bool * Block :=
  if b_finalized b then (false, b)
  else (true, mkBlock (b_validatorSig b) (b_prevBlockHash b) (b_blockRandomness b)
                (b_validatorMerkleRoot b) (b_txMerkleRoot b) (b_timestamp b) (b_nHeight b)
                (b_txValidators b) (b_txs b ++ [tx]) (b_validatorPubKey b) (b_finalized b)).

Definition appendTxValidator (b : Block) (tx : TxValidator) : bool * Block :=
  if b_finalized b then (false, b)
  else (true, mkBlock (b_validatorSig b) (b_prevBlockHash b) (b_blockRandomness b)
                (b_validatorMerkleRoot b) (b_txMerkleRoot b) (b_timestamp b) (b_nHeight b)
                (b_txValidators b ++ [tx]) (b_txs b) (b_validatorPubKey b) (b_finalized b)).

Definition finalize (b : Block) (validatorPrivKey : bytes) (newTimestamp : Z) : outcome (bool * Block) :=
  if b_finalized b then Ok (false, b)
  else if newTimestamp <? b_timestamp b then Ok (false, b)
  else
    let blk sig key fin := mkBlock sig (b_prevBlockHash b) (parseTxSeedList (b_txValidators b))
          (validator_root (b_txValidators b)) (tx_root (b_txs b)) newTimestamp (b_nHeight b)
          (b_txValidators b) (b_txs b) key fin in
    let hash := Block_hash (blk (b_validatorSig b) (b_validatorPubKey b) false) in
    validatorSig ← sign hash validatorPrivKey;
    validatorPubKey ← recover validatorSig hash;
    Ok (true, blk validatorSig validatorPubKey true).

(** * Lemmas *)

Lemma read_size_Ok b i n :
  bytes_ok b → 0 ≤ i → read_size b i = Ok n → 0 ≤ n < 2 ^ 32 ∧ i + 4 ≤ zlen b.
Proof.
  intros Hb Hi Hr. unfold read_size in Hr. apply bind_Ok in Hr as (s & Hs & Hn).
  pose proof (substr_ok _ _ _ _ Hb Hs) as Hso. pose proof (bytesToUint32_Ok _ _ Hn) as Hl.
  rewrite bytesToUint32_spec in Hn by done. apply Ok_inj in Hn as <-.
  pose proof (be_val_bound s Hso) as Hv. rewrite (zlen_of_length _ _ Hl) in Hv.
  split; [exact Hv|]. unfold substr in Hs. inv_ok. zify_bool.
  rewrite length_take, length_drop in Hl. unfold zlen in *. lia.
Qed.

(** The counting loops stop: every round moves the index forward inside the
    bytes, or throws. *)
Lemma count_txs_total fuel b i stop c :
  bytes_ok b → zlen b < 2 ^ 63 → 0 ≤ i → zlen b - i < Z.of_nat fuel → (0 < fuel)%nat →
  count_txs fuel b i stop c ≠ Undef.
Proof.
  intros Hb Hm. revert i c. induction fuel as [|fuel IH]; intros i c Hi Hf Hf0; [lia|].
  cbn [count_txs]. destruct (i <? stop); [|done].
  destruct (read_size b i) as [n|e|] eqn:Hr; cbn [mbind outcome_bind]; [|done|].
  - apply read_size_Ok in Hr as [Hn Hle]; [|done..]. unfold wrap. rewrite Z.mod_small by lia.
    apply IH; lia.
  - unfold read_size, substr, bytesToUint32 in Hr. case_match; [|done]. cbn [mbind outcome_bind] in Hr.
    by destruct (zlen _ =? 4).
Qed.

(** ** One loop or one task per thread *)

Lemma parse_items_app {T} (p : bytes → outcome T) n m b i :
  parse_items p (n + m) b i =
    ('(l1, j) ← parse_items p n b i; '(l2, k) ← parse_items p m b j; Ok (l1 ++ l2, k)).
Proof.
  revert i. induction n as [|n IH]; intros i; cbn [parse_items Nat.add mbind outcome_bind].
  - by destruct (parse_items p m b i) as [[l k]| |].
  - destruct (read_size b i) as [sz| |]; cbn [mbind outcome_bind]; [|done..].
    destruct (substr b _ sz) as [s| |]; cbn [mbind outcome_bind]; [|done..].
    destruct (p s) as [tx| |]; cbn [mbind outcome_bind]; [|done..].
    rewrite IH. destruct (parse_items p n b _) as [[l1 j]| |]; cbn [mbind outcome_bind]; [|done..].
    by destruct (parse_items p m b j) as [[l2 k]| |].
Qed.

Lemma u64_add_assoc i n : u64 (u64 (i + 4) + n) = u64 (i + (n + 4)).
Proof. unfold wrap. rewrite Z.add_mod_idemp_l by done. f_equal. lia. Qed.

Lemma skip_items_parse {T} (p : bytes → outcome T) n b i l j :
  parse_items p n b i = Ok (l, j) → skip_items n b i = Ok j.
Proof.
  revert i l. induction n as [|n IH]; intros i l Hp; cbn [parse_items skip_items] in *.
  - by injection Hp as <- <-.
  - apply bind_Ok in Hp as (sz & Hr & Hp). rewrite Hr. cbn [mbind outcome_bind].
    apply bind_Ok in Hp as (s & _ & Hp). apply bind_Ok in Hp as (tx & _ & Hp).
    apply bind_Ok in Hp as ([l' k] & Hp & Hk). apply Ok_inj in Hk as [= <- <-].
    rewrite u64_add_assoc in Hp. by eapply IH.
Qed.

Lemma collect_Ok {A} (rs : list (outcome (list A))) l :
  collect rs = Ok l ↔ ∃ ls, rs = Ok <$> ls ∧ l = concat ls.
Proof.
  assert (∀ (rs : list (outcome (list A))) (acc l : list A), foldM (λ txs r, x ← r; Ok (txs ++ x)) acc rs = Ok l ↔
    ∃ ls, rs = Ok <$> ls ∧ l = acc ++ concat ls) as Hfold.
  { clear. intros rs. induction rs as [|r rs IH]; intros acc l; cbn [foldM].
    - split.
      + intros [= <-]. exists []. by rewrite app_nil_r.
      + intros (ls & Hls & ->). destruct ls; [|done]. by rewrite app_nil_r.
    - split.
      + intros Hr. apply bind_Ok in Hr as (acc' & Hr & Hrs). apply bind_Ok in Hr as (x & -> & Hx).
        apply Ok_inj in Hx as <-. apply IH in Hrs as (ls & -> & ->). exists (x :: ls).
        by rewrite <-app_assoc.
      + intros ([|x ls] & Hls & ->); [done|]. injection Hls as -> ->. cbn [mbind outcome_bind].
        apply IH. exists ls. by rewrite <-app_assoc. }
  unfold collect. destruct (existsb is_undef rs) eqn:E.
  - split; [done|]. intros (ls & -> & _). exfalso. induction ls; simpl in E; [done|auto].
  - rewrite Hfold. naive_solver.
Qed.

Definition job_result {T} (p : bytes → outcome T) (b : bytes) (job : Z * Z) : outcome (list T) :=
  let '(startIdx, nTxs) := job in fst <$> parse_items p (Z.to_nat nTxs) b startIdx.

(** Running the jobs of [per] from [off] and joining the results is one loop
    over all of them. *)
Lemma thread_jobs_parse {T} (p : bytes → outcome T) b per off l :
  per ≠ [] →
  (∃ jobs ls, thread_jobs b per off = Ok jobs ∧ job_result p b <$> jobs = Ok <$> ls ∧ l = concat ls) ↔
  (∃ j, parse_items p (sum_list (Z.to_nat <$> per)) b off = Ok (l, j)).
Proof.
  revert off l. induction per as [|n per IH]; intros off l Hne; [done|].
  destruct per as [|m per].
  - cbn [thread_jobs sum_list_with id fmap list_fmap]. rewrite Nat.add_0_r. split.
    + intros (jobs & ls & [= <-] & Hls & ->). destruct ls as [|x [|y ls]]; try done.
      cbn in Hls. destruct (parse_items p (Z.to_nat n) b off) as [[l j]| |]; try done.
      injection Hls as ->. exists j. cbn [concat]. by rewrite app_nil_r.
    + intros (j & Hj). exists [(off, n)], [l]. cbn. rewrite Hj. by rewrite app_nil_r.
  - specialize (IH). cbn [sum_list_with id fmap list_fmap]. rewrite parse_items_app.
    change (thread_jobs b (n :: m :: per) off) with
      (o ← skip_items (Z.to_nat n) b off; jobs ← thread_jobs b (m :: per) o; Ok ((off, n) :: jobs)).
    split.
    + intros (jobs & ls & Hj & Hls & ->). apply bind_Ok in Hj as (o & Ho & Hj).
      apply bind_Ok in Hj as (jobs' & Hj & [= <-]). destruct ls as [|x ls]; [done|].
      cbn [fmap list_fmap job_result] in Hls.
      destruct (parse_items p (Z.to_nat n) b off) as [[l1 j]| |] eqn:Hp; try done.
      cbn in Hls. injection Hls as -> Hls. apply skip_items_parse in Hp as Hs.
      rewrite Ho in Hs. injection Hs as ->. cbn [mbind outcome_bind].
      destruct (proj1 (IH j (concat ls) ltac:(done))) as (k & Hk); [by exists jobs', ls|].
      cbn [sum_list_with id fmap list_fmap] in Hk. rewrite Hk. by exists k.
    + intros (k & Hk). apply bind_Ok in Hk as ([l1 j] & Hp & Hk).
      apply bind_Ok in Hk as ([l2 k'] & Hp2 & Hk). apply Ok_inj in Hk as [= <- <-].
      destruct (proj2 (IH j l2 ltac:(done))) as (jobs & ls & Hj & Hls & ->); [by exists k'|].
      exists ((off, n) :: jobs), (l1 :: ls). rewrite (skip_items_parse _ _ _ _ _ _ Hp).
      cbn [mbind outcome_bind]. rewrite Hj. split; [done|]. cbn [fmap list_fmap job_result].
      rewrite Hp. cbn. by rewrite Hls.
Qed.

(** No transaction is left out or given to two threads. *)
Lemma txsPerThr_sum thrNum txCount :
  (0 < thrNum)%nat → 0 ≤ txCount →
  sum_list (Z.to_nat <$> txsPerThr thrNum txCount) = Z.to_nat txCount.
Proof.
  intros Ht Hc. unfold txsPerThr. rewrite fmap_app, fmap_replicate. set (q := txCount / Z.of_nat thrNum).
  assert (sum_list (replicate (thrNum - 1) (Z.to_nat q) ++ [Z.to_nat (q + txCount mod Z.of_nat thrNum)])
    = ((thrNum - 1) * Z.to_nat q + Z.to_nat (q + txCount mod Z.of_nat thrNum))%nat) as E.
  { induction (thrNum - 1)%nat; simpl; lia. }
  cbn [fmap list_fmap]. rewrite E. subst q.
  pose proof (Z.div_mod txCount (Z.of_nat thrNum)). pose proof (Z.mod_pos_bound txCount (Z.of_nat thrNum)).
  pose proof (Z.div_pos txCount (Z.of_nat thrNum)). set (q := txCount / Z.of_nat thrNum) in *. nia.
Qed.

Lemma parse_threaded_seq {T} (p : bytes → outcome T) thrNum txCount b i l :
  (0 < thrNum)%nat → 0 ≤ txCount →
  parse_threaded p thrNum txCount b i = Ok l ↔
  ∃ j, parse_items p (Z.to_nat txCount) b i = Ok (l, j).
Proof.
  intros Ht Hc. rewrite <-(txsPerThr_sum thrNum) by done.
  rewrite <-thread_jobs_parse by (unfold txsPerThr; by destruct (replicate _ _)).
  unfold parse_threaded. rewrite bind_Ok. split.
  - intros (jobs & Hj & Hc'). apply collect_Ok in Hc' as (ls & Hls & ->).
    exists jobs, ls. split_and!; [done| |done]. exact Hls.
  - intros (jobs & ls & Hj & Hls & ->). exists jobs. split; [done|]. apply collect_Ok.
    exists ls. split; [exact Hls|done].
Qed.

Lemma fmap_Ok {A B} (f : A → B) m b : f <$> m = Ok b ↔ ∃ a, m = Ok a ∧ b = f a.
Proof. destruct m; cbn; naive_solver. Qed.

(** What the parser makes of the transactions does not depend on the number of
    hardware threads. *)
Lemma parse_txs_threads {T} (p : bytes → outcome T) thrNum txCount b i l :
  0 ≤ txCount →
  parse_txs p thrNum txCount b i = Ok l ↔ ∃ j, parse_items p (Z.to_nat txCount) b i = Ok (l, j).
Proof.
  intros Hc. unfold parse_txs. destruct (_ || _) eqn:E.
  - rewrite fmap_Ok. split.
    + intros ([l' j] & Hp & ->). by exists j.
    + intros (j & Hp). by exists (l, j).
  - apply orb_false_iff in E as [E _]. apply Z.leb_gt in E. apply parse_threaded_seq; [lia|done].
Qed.

Lemma count_txs_ge fuel b i stop c n : count_txs fuel b i stop c = Ok n → c ≤ n.
Proof.
  revert i c. induction fuel as [|fuel IH]; intros i c Hn; cbn [count_txs] in Hn; [done|].
  destruct (i <? stop); [|apply Ok_inj in Hn; lia].
  apply bind_Ok in Hn as (sz & _ & Hn). apply IH in Hn. lia.
Qed.

(** Follows a hypothesis [H] that a chain of steps returned, in a goal that
    starts with the same steps. *)
Ltac follow H :=
  let x := fresh "x" in let E := fresh "E" in
  apply bind_Ok in H as (x & E & H); rewrite E; cbn [mbind outcome_bind].

Lemma Block_parse_body_threads thr thr' b cid blk :
  Block_parse_body thr b cid = Ok blk → Block_parse_body thr' b cid = Ok blk.
Proof.
  unfold Block_parse_body. intros Hb. do 11 follow Hb.
  apply bind_Ok in Hb as (txs & Ht & Hb).
  match goal with Hc : count_txs _ _ 217 _ 0 = Ok ?n |- _ => pose proof (count_txs_ge _ _ _ _ _ _ Hc) as Hn end.
  apply parse_txs_threads in Ht; [|done]. apply (parse_txs_threads _ thr') in Ht; [|done].
  rewrite Ht. exact Hb.
Qed.

Lemma Block_parse_Ok thr b cid blk :
  Block_parse thr b cid = Ok blk ↔ Block_parse_body thr b cid = Ok blk.
Proof. unfold Block_parse. rewrite try_catch_Ok. naive_solver. Qed.

(** ** Reading a serialised block *)

Lemma serialize_items_cons {T} (rlp : T → bytes) x l :
  serialize_items rlp (x :: l) = (uint32ToBytes (zlen (rlp x)) ++ rlp x) ++ serialize_items rlp l.
Proof. done. Qed.

Lemma uint32ToBytes_zlen n : zlen (uint32ToBytes n) = 4.
Proof. rewrite uint32ToBytes_spec. apply be_split_zlen. Qed.
Lemma uint64ToBytes_zlen n : zlen (uint64ToBytes n) = 8.
Proof. rewrite uint64ToBytes_spec. apply be_split_zlen. Qed.

Lemma read_size_at b i n post :
  is_uint 32 n → at_pos b i (uint32ToBytes n ++ post) → read_size b i = Ok n.
Proof.
  intros Hn Hp. unfold read_size.
  destruct (substr_pos b i 4 _ _ Hp) as [-> _]; [by rewrite uint32ToBytes_zlen|].
  by apply bytesToUint32_roundtrip.
Qed.

(** Both loops walk over a list of serialised transactions. *)
Lemma serialize_items_read {T} (rlp : T → bytes) (p : bytes → outcome T) l b i post fuel c :
  zlen b < 2 ^ 63 → Forall (λ x, zlen (rlp x) < 2 ^ 32 ∧ p (rlp x) = Ok x) l →
  at_pos b i (serialize_items rlp l ++ post) → (length l < fuel)%nat →
  let j := i + zlen (serialize_items rlp l) in
  parse_items p (length l) b i = Ok (l, j) ∧ count_txs fuel b i j c = Ok (c + zlen l).
Proof.
  intros Hm Hl. revert i fuel c. induction Hl as [|x l [Hx Hpx] Hl IH]; intros i fuel c Hp Hf j.
  - subst j. unfold serialize_items. cbn [flat_map]. rewrite zlen_nil, !Z.add_0_r.
    split; [done|]. destruct fuel; [lia|]. cbn [count_txs]. by rewrite Z.ltb_irrefl.
  - destruct fuel as [|fuel]; [cbn [length] in Hf; lia|].
    assert (j = i + 4 + zlen (rlp x) + zlen (serialize_items rlp l)) as Hj
      by (subst j; rewrite serialize_items_cons, !zlen_app, uint32ToBytes_zlen; lia).
    clearbody j. rewrite serialize_items_cons, <-!app_assoc in Hp.
    pose proof (zlen_nonneg (rlp x)). pose proof (zlen_nonneg (serialize_items rlp l)).
    pose proof (at_pos_bounds _ _ _ Hp) as [Hi0 Hib].
    rewrite !zlen_app, uint32ToBytes_zlen in Hib. pose proof (zlen_nonneg post).
    pose proof (read_size_at b i (zlen (rlp x)) _ ltac:(unfold is_uint; lia) Hp) as Hr.
    assert (at_pos b (i + 4) (rlp x ++ serialize_items rlp l ++ post)) as Hp1
      by (eapply at_pos_app; [exact Hp|by rewrite uint32ToBytes_zlen]).
    destruct (substr_pos b (i + 4) (zlen (rlp x)) _ _ Hp1 eq_refl) as [Hs Hp2].
    destruct (IH (i + 4 + zlen (rlp x)) fuel (c + 1) Hp2 ltac:(cbn [length] in Hf; lia)) as [IHp IHc].
    cbn [parse_items count_txs length]. rewrite Hr. cbn [mbind outcome_bind].
    rewrite (proj2 (Z.ltb_lt i j)) by lia.
    rewrite <-u64_add_assoc. unfold wrap. rewrite (Z.mod_small (i + 4)) by lia.
    rewrite (Z.mod_small (i + 4 + _)) by lia. rewrite Hs. cbn [mbind outcome_bind]. rewrite Hpx.
    cbn [mbind outcome_bind]. rewrite IHp. cbn [mbind outcome_bind]. rewrite Hj. split; [done|].
    rewrite IHc. f_equal. rewrite zlen_cons. lia.
Qed.

Lemma serialize_items_length {T} (rlp : T → bytes) l : zlen l ≤ zlen (serialize_items rlp l).
Proof.
  induction l as [|x l IH]; [done|].
  rewrite serialize_items_cons, !zlen_app, zlen_cons, uint32ToBytes_zlen.
  pose proof (zlen_nonneg (rlp x)). lia.
Qed.

(** The members of a block have the sizes of their types. *)
Record Block_shape (b : Block) : Prop := {
  bs_sig : length (b_validatorSig b) = 65%nat;
  bs_prev : length (b_prevBlockHash b) = 32%nat;
  bs_rand : length (b_blockRandomness b) = 32%nat;
  bs_vroot : length (b_validatorMerkleRoot b) = 32%nat;
  bs_txroot : length (b_txMerkleRoot b) = 32%nat;
  bs_timestamp : is_uint 64 (b_timestamp b);
  bs_nHeight : is_uint 64 (b_nHeight b);
}.

Lemma serializeHeader_zlen b : Block_shape b → zlen (serializeHeader b) = 144.
Proof.
  intros [? Hp Hr Hv Ht _ _]. unfold serializeHeader.
  rewrite !zlen_app, !uint64ToBytes_zlen, (zlen_of_length _ _ Hp), (zlen_of_length _ _ Hr),
    (zlen_of_length _ _ Hv), (zlen_of_length _ _ Ht). done.
Qed.

(** The layout of a serialised block. *)
Lemma serializeBlock_spec b :
  Block_shape b →
  serializeBlock b =
    b_validatorSig b ++ b_prevBlockHash b ++ b_blockRandomness b ++ b_validatorMerkleRoot b ++
    b_txMerkleRoot b ++ uint64ToBytes (b_timestamp b) ++ uint64ToBytes (b_nHeight b) ++
    uint64ToBytes (217 + zlen (tx_items b)) ++ tx_items b ++ val_items b.
Proof.
  intros Hs. pose proof (serializeHeader_zlen b Hs) as Hh. destruct Hs as [Hsig _ _ _ _ _ _].
  unfold serializeBlock. set (hd := b_validatorSig b ++ serializeHeader b).
  set (items := tx_items b). rewrite <-(app_assoc hd). rewrite take_app_length.
  rewrite (drop_app_ge hd) by lia. replace (length hd + 8 - length hd)%nat with 8%nat by lia.
  rewrite (drop_app_length' (uint64ToBytes 0) items 8) by (by rewrite uint64ToBytes_spec).
  rewrite !zlen_app, uint64ToBytes_zlen.
  replace (zlen hd + (8 + zlen items)) with (217 + zlen items)
    by (subst hd; rewrite zlen_app, Hh, (zlen_of_length _ _ Hsig); lia).
  subst hd. unfold serializeHeader. by rewrite <-!app_assoc.
Qed.

(** What a finalised block satisfies. *)
Record Block_sealed (b : Block) : Prop := {
  bse_final : b_finalized b = true;
  bse_txroot : b_txMerkleRoot b = tx_root (b_txs b);
  bse_vroot : b_validatorMerkleRoot b = validator_root (b_txValidators b);
  bse_rand : b_blockRandomness b = parseTxSeedList (b_txValidators b);
  bse_key : recover (b_validatorSig b) (Block_hash b) = Ok (b_validatorPubKey b);
}.

(** Reads a fixed field at the cursor. *)
Ltac field_step :=
  lazymatch goal with
  | Hp : at_pos ?b ?i (?f ++ ?post) |- context [substr ?b ?i ?n] =>
      let E := fresh "E" in let Hp' := fresh "Hp" in
      destruct (substr_pos b i n f post Hp) as [E Hp'];
      [by first [rewrite uint64ToBytes_zlen | match goal with Hl : length f = _ |- _ => rewrite (zlen_of_length _ _ Hl) end]|];
      let k := eval vm_compute in (i + n) in change (i + n) with k in Hp';
      rewrite E; clear E Hp; cbn [mbind outcome_bind]
  end.

Lemma Block_parse_serialized thr cid b r s v :
  Block_shape b → Block_sealed b →
  Forall (λ tx, zlen (TxBlock_rlpSerialize tx true) < 2 ^ 32 ∧
                TxBlock_parse (TxBlock_rlpSerialize tx true) cid = Ok tx) (b_txs b) →
  Forall (λ tx, zlen (TxValidator_rlpSerialize tx true) < 2 ^ 32 ∧
                TxValidator_parse (TxValidator_rlpSerialize tx true) cid = Ok tx ∧
                tv_nHeight tx = b_nHeight b) (b_txValidators b) →
  Signature_r (b_validatorSig b) = Ok r → Signature_s (b_validatorSig b) = Ok s →
  Signature_v (b_validatorSig b) = Ok v → verifySig r s v = true →
  zlen (serializeBlock b) < 2 ^ 63 →
  Block_parse_body thr (serializeBlock b) cid = Ok b.
Proof.
  intros Hsh [Hfin Htr Hvr Hrd Hkey] Htx Hval Hr Hs Hv Hver Hm.
  pose proof (serializeBlock_spec b Hsh) as Hspec. set (d := serializeBlock b) in *.
  pose proof (at_pos_0 d) as Hp0. rewrite Hspec in Hp0 at 2.
  assert (zlen d = 217 + zlen (tx_items b) + zlen (val_items b)) as Hlen.
  { rewrite Hspec. rewrite !zlen_app, !uint64ToBytes_zlen. destruct Hsh.
    repeat match goal with Hl : length _ = _ |- _ => apply zlen_of_length in Hl; rewrite ?Hl; clear Hl end.
    lia. }
  pose proof (serialize_items_length (λ tx, TxBlock_rlpSerialize tx true) (b_txs b)) as Hl1.
  pose proof (serialize_items_length (λ tx, TxValidator_rlpSerialize tx true) (b_txValidators b)) as Hl2.
  pose proof (zlen_nonneg (b_txs b)). pose proof (zlen_nonneg (b_txValidators b)).
  destruct Hsh as [Hsig Hprev Hrand Hvroot Htxroot Hts Hh].
  unfold Block_parse_body. rewrite (proj2 (Z.ltb_ge _ 217)) by lia. cbn [throw_if mbind outcome_bind].
  field_step. unfold FixedStr_ctor. rewrite resize_str_id by done.
  do 4 (field_step; rewrite Hash_of_view_id by done; cbn [mbind outcome_bind]).
  do 2 (field_step; rewrite bytesToUint64_roundtrip by done; cbn [mbind outcome_bind]).
  field_step. rewrite bytesToUint64_roundtrip by (unfold is_uint; lia). cbn [mbind outcome_bind].
  match goal with Hq : at_pos d 217 _ |- _ => rename Hq into Hp end.
  destruct (serialize_items_read (λ tx, TxBlock_rlpSerialize tx true) (λ s, TxBlock_parse s cid)
    (b_txs b) d 217 (val_items b) (S (length d)) 0 Hm Htx Hp) as [Ep Ec]; [unfold zlen in *; lia|].
  rewrite Z.add_0_l in Ec. rewrite Ec. cbn [mbind outcome_bind].
  apply (at_pos_app d (tx_items b) (val_items b) 217 (217 + zlen (tx_items b))) in Hp; [|done].
  rewrite <-(app_nil_r (val_items b)) in Hp.
  set (pv := λ s, tx ← TxValidator_parse s cid;
    _ ← throw_if (negb (tv_nHeight tx =? b_nHeight b)) (runtime_error "Invalid validator tx height");
    Ok tx).
  destruct (serialize_items_read (λ tx, TxValidator_rlpSerialize tx true) pv
    (b_txValidators b) d (217 + zlen (tx_items b)) [] (S (length d)) 0 Hm) as [Evp Evc];
    [|exact Hp|unfold zlen in *; lia|].
  { eapply Forall_impl; [exact Hval|]. intros tx (Hsz & Hpt & Hht). split; [done|].
    subst pv. cbn beta. rewrite Hpt. cbn [mbind outcome_bind]. by rewrite Hht, Z.eqb_refl. }
  rewrite <-Hlen, Z.add_0_l in Evc. rewrite Evc. cbn [mbind outcome_bind].
  assert (parse_txs (λ s, TxBlock_parse s cid) thr (zlen (b_txs b)) d 217 = Ok (b_txs b)) as ->.
  { apply parse_txs_threads; [done|]. eexists. unfold zlen at 1. rewrite Nat2Z.id. exact Ep. }
  cbn [mbind outcome_bind].
  assert (Z.to_nat (zlen (b_txValidators b)) = length (b_txValidators b)) as -> by (unfold zlen; lia).
  rewrite Evp. cbn [mbind outcome_bind]. rewrite <-Htr, <-Hvr, <-Hrd, !bool_decide_true by done.
  cbn [negb throw_if mbind outcome_bind]. rewrite Hr, Hs, Hv. cbn [mbind outcome_bind].
  rewrite Hver. cbn [negb throw_if mbind outcome_bind].
  match goal with |- context [Block_hash ?x] => change (Block_hash x) with (Block_hash b) end.
  rewrite Hkey. cbn [mbind outcome_bind]. rewrite <-Hfin. by destruct b.
Qed.

(** ** The life cycle *)

Lemma finalize_Ok b key ts ok b' :
  finalize b key ts = Ok (ok, b') →
  if ok then b_finalized b = false ∧ b_timestamp b ≤ ts ∧ Block_sealed b' ∧
             b_txs b' = b_txs b ∧ b_txValidators b' = b_txValidators b ∧
             b_prevBlockHash b' = b_prevBlockHash b ∧ b_nHeight b' = b_nHeight b ∧ b_timestamp b' = ts ∧
             sign (Block_hash b') key = Ok (b_validatorSig b')
  else b' = b.
Proof.
  unfold finalize. intros Hf. destruct (b_finalized b) eqn:Hfin; [by injection Hf as <- <-|].
  destruct (Z.ltb_spec ts (b_timestamp b)); [by injection Hf as <- <-|].
  apply bind_Ok in Hf as (sig & Hsig & Hf). apply bind_Ok in Hf as (pk & Hpk & Hf).
  injection Hf as <- <-. split_and!; try done.
Qed.

Lemma Block_parse_sealed thr b cid blk : Block_parse thr b cid = Ok blk → Block_sealed blk.
Proof.
  rewrite Block_parse_Ok. unfold Block_parse_body. intros Hb. inv_ok. zify_bool. by constructor.
Qed.

(** The calls that change a block. *)
Inductive block_step : Block → Block → Prop :=
  | step_appendTx b tx : block_step b (appendTx b tx).2
  | step_appendTxValidator b tx : block_step b (appendTxValidator b tx).2
  | step_finalize b key ts ok b' : finalize b key ts = Ok (ok, b') → block_step b b'.

Inductive block_start : Block → Prop :=
  | start_new prev ts h : block_start (Block_new prev ts h)
  | start_parse thr b cid blk : Block_parse thr b cid = Ok blk → block_start blk.

Lemma block_step_final b b' : block_step b b' → b_finalized b = true → b' = b.
Proof.
  intros Hs Hf. destruct Hs as [b tx|b tx|b key ts ok b' Hfz].
  - unfold appendTx. by rewrite Hf.
  - unfold appendTxValidator. by rewrite Hf.
  - apply finalize_Ok in Hfz. destruct ok; [|done]. destruct Hfz as [Hf' _]. congruence.
Qed.

Lemma block_step_sealed b b' :
  block_step b b' → (b_finalized b = true → Block_sealed b) → b_finalized b' = true → Block_sealed b'.
Proof.
  intros Hs Hi. destruct Hs as [b tx|b tx|b key ts ok b' Hfz].
  - unfold appendTx. destruct (b_finalized b) eqn:E; cbn; [by intros _; apply Hi|congruence].
  - unfold appendTxValidator. destruct (b_finalized b) eqn:E; cbn; [by intros _; apply Hi|congruence].
  - apply finalize_Ok in Hfz. destruct ok; [|by subst]. by destruct Hfz as (_ & _ & Hse & _).
Qed.

(** * Properties *)

(** C25: deserialising the transactions of a block in one task per hardware
    thread gives the same block as deserialising them in one loop: whether and
    what a block parses to does not depend on the number of threads. *)
Theorem block_parse_thread_independent thr thr' b cid blk :
  Block_parse thr b cid = Ok blk ↔ Block_parse thr' b cid = Ok blk.
Proof. rewrite !Block_parse_Ok. split; apply Block_parse_body_threads. Qed.


(** In every state a block object can reach, from either constructor and
    by any calls, a finalised block carries the Merkle roots, the randomness
    and the recovered key of its own contents, and once finalised it never
    changes. *)
Theorem block_lifecycle b0 b1 b2 :
  block_start b0 → rtc block_step b0 b1 → rtc block_step b1 b2 →
  (b_finalized b2 = true → Block_sealed b2) ∧ (b_finalized b1 = true → b2 = b1).
Proof.
  intros Hst Hr1 Hr2. split.
  - assert (rtc block_step b0 b2) as Hr by (by etrans). clear Hr1 Hr2.
    assert (b_finalized b0 = true → Block_sealed b0) as Hi.
    { destruct Hst as [prev ts h|thr d cid blk Hp]; [done|]. intros _. by eapply Block_parse_sealed. }
    clear Hst. induction Hr as [b|b b' b'' Hs _ IH]; [done|]. apply IH.
    by eapply block_step_sealed.
  - clear Hr1. induction Hr2 as [b|b b' b'' Hs _ IH]; [done|]. intros Hf.
    pose proof (block_step_final b b' Hs Hf) as ->. by apply IH.
Qed.

(** The loops that count the transactions of a received block terminate
    on every input: they return a count or throw, and never use up their
    fuel. *)
Theorem block_count_terminates b i stop :
  bytes_ok b → zlen b < 2 ^ 63 → 0 ≤ i →
  (∃ n, count_txs (S (length b)) b i stop 0 = Ok n ∧ 0 ≤ n) ∨
  (∃ e, count_txs (S (length b)) b i stop 0 = Throw e).
Proof.
  intros Hb Hm Hi.
  pose proof (count_txs_total (S (length b)) b i stop 0 Hb Hm Hi ltac:(unfold zlen; lia) ltac:(lia)) as Hu.
  destruct (count_txs (S (length b)) b i stop 0) as [n|e|] eqn:E; [|by right; exists e|done].
  left. exists n. split; [done|]. by eapply count_txs_ge.
Qed.

End Block.

(** A block of two Validator transactions and one block transaction. *)
Definition sample_block : outcome (bool * Block) :=
  tx ← sample_TxBlock [1; 2; 3];
  h ← sample_TxValidator (randomHashHash ++ replicate 32 5);
  s ← sample_TxValidator (randomSeedHash ++ replicate 32 6);
  let b := (appendTx (Block_new (replicate 32 3) 100 1) tx).2 in
  let b := (appendTxValidator b h).2 in
  let b := (appendTxValidator b s).2 in
  @finalize toy_keccak toy_secp b sample_key 200.

Definition block_of (o : outcome (bool * Block)) : Block :=
  match o with Ok (_, b) => b | _ => Block_new [] 0 0 end.

Definition sample_value : Block := block_of sample_block.

Definition sample_unsealed : Block :=
  mkBlock Signature_empty (replicate 32 3) Hash_zero Hash_zero Hash_zero 100 1
    (b_txValidators sample_value) (b_txs sample_value) UPubKey_empty false.

Lemma block_parse_thread_independent_witness :
  @Block_parse toy_keccak toy_secp 1 (serializeBlock sample_value) 8080 = Ok sample_value ∧
  @Block_parse toy_keccak toy_secp 16 (serializeBlock sample_value) 8080 = Ok sample_value.
Proof.
  split; [vm_compute; reflexivity|].
  refine (proj1 (@block_parse_thread_independent toy_keccak toy_secp 1 16
    (serializeBlock sample_value) 8080 sample_value) _).
  vm_compute. reflexivity.
Defined.


Definition plain_tx : TxBlock := mkTxBlock (replicate 20 1) (replicate 20 2) [] 1 0 5 0 0 0 0 7 8.
Definition plain_block : Block := (appendTx (Block_new (replicate 32 3) 100 1) plain_tx).2.

Lemma block_lifecycle_witness :
  @Block_sealed toy_keccak toy_secp
    (block_of (@finalize toy_keccak toy_secp plain_block sample_key 200)).
Proof.
  refine (proj1 (@block_lifecycle toy_keccak toy_secp (Block_new (replicate 32 3) 100 1)
    plain_block _ (start_new _ _ _) _ _) _).
  - apply rtc_once, (step_appendTx _ plain_tx).
  - apply rtc_once. apply (step_finalize plain_block sample_key 200 true). vm_compute. reflexivity.
  - vm_compute. reflexivity.
Defined.

Lemma block_count_terminates_witness :
  (∃ n, count_txs 9 (replicate 8 0) 0 8 0 = Ok n ∧ 0 ≤ n) ∨ (∃ e, count_txs 9 (replicate 8 0) 0 8 0 = Throw e).
Proof.
  apply (block_count_terminates (replicate 8 0) 0 8); [|done|done].
  apply Forall_replicate. by split.
Defined.
