(* ===== verification/DB.v ===== *)
(** * DB: the prefixed key/value database (src/utils/db.{h,cpp})

    RocksDB is a parameter, the class [RocksDB]: its contents in iteration
    order, [Seek] and the atomic [Write] of a batch, with what its
    documentation promises.  The class [DB] of the source is translated on top
    of it and shown to behave as a finite map under each prefix. *)

From S2P Require Import Prelude.

(** One update of a write batch. *)
Inductive wop := WPut (key value : bytes) | WDelete (key : bytes).

Definition bytes_lt (a b : bytes) : Prop := bytes_ltb a b = true.

(** The value of a key in a list of entries. *)
Fixpoint assoc (k : bytes) (l : list (bytes * bytes)) : option bytes :=
  match l with
  | [] => None
  | (k', v) :: l => if bool_decide (k' = k) then Some v else assoc k l
  end.

(** The effect of an update on one key. *)
Definition wop_apply (k : bytes) (old : option bytes) (op : wop) : option bytes :=
  match op with
  | WPut key value => if bool_decide (key = k) then Some value else old
  | WDelete key => if bool_decide (key = k) then None else old
  end.

Class RocksDB := {
  rstore : Type;
  (** The entries in the order of an iterator from the first key. *)
  r_entries : rstore → list (bytes * bytes);
  (** [it->Seek(k)] and the entries from there on. *)
  r_seek : rstore → bytes → list (bytes * bytes);
  (** [Write], and [Put]/[Delete] as a write of one update; [None] is a status
      that is not ok. *)
  r_write : rstore → list wop → option rstore;
  (** Keys are unique and iterated in byte order. *)
  r_sorted : ∀ s, StronglySorted bytes_lt (r_entries s).*1;
  r_seek_spec : ∀ s k, r_seek s k = filter (λ e, bytes_ltb e.1 k = false) (r_entries s);
  (** A batch is applied atomically and in order. *)
  r_write_spec : ∀ s s' ops, r_write s ops = Some s' →
    ∀ k, assoc k (r_entries s') = foldl (wop_apply k) (assoc k (r_entries s)) ops;
}.

(** ** Prefixes and requests *)

Module DBPrefix.
Definition blocks : bytes := [0; 1].
Definition blockHeightMaps : bytes := [0; 2].
Definition nativeAccounts : bytes := [0; 3].
Definition txToBlocks : bytes := [0; 4].
Definition rdPoS : bytes := [0; 5].
Definition contracts : bytes := [0; 6].
Definition contractManager : bytes := [0; 7].
End DBPrefix.

Record DBEntry := mkDBEntry { e_key : bytes; e_value : bytes }.

Record DBBatch := mkDBBatch { puts : list DBEntry; dels : list bytes }.

(** [starts_with] and [remove_prefix] of a slice. *)
Definition starts_with (s pfx : bytes) : bool := bool_decide (take (length pfx) s = pfx).
Definition remove_prefix (s : bytes) (n : nat) : bytes := drop n s.

Section DB.
Context `{RocksDB}.

(** [DB::has]. *)
Definition DB_has (db : rstore) (key pfx : bytes) : bool :=
  let slice := pfx ++ key in
  existsb (λ e, bool_decide (e.1 = slice)) (r_seek db slice).

(** [DB::get]: the first entry from the seek position with the key. *)
Definition DB_get (db : rstore) (key pfx : bytes) : bytes :=
  let slice := pfx ++ key in
  default [] (assoc slice (r_seek db slice)).

(** [DB::put], [DB::del], [DB::putBatch]: whether the write succeeded, and the
    store after it. *)
Definition DB_write (db : rstore) (ops : list wop) : bool * rstore :=
  match r_write db ops with Some db' => (true, db') | None => (false, db) end.

Definition DB_put (db : rstore) (key value pfx : bytes) : bool * rstore :=
  DB_write db [WPut (pfx ++ key) value].

Definition DB_del (db : rstore) (key pfx : bytes) : bool * rstore :=
  DB_write db [WDelete (pfx ++ key)].

Definition DB_putBatch (db : rstore) (batch : DBBatch) (pfx : bytes) : bool * rstore :=
  DB_write db (((λ key, WDelete (pfx ++ key)) <$> dels batch) ++
               ((λ entry, WPut (pfx ++ e_key entry) (e_value entry)) <$> puts batch)).

(** [DB::getBatch]: the entries under a prefix, or those of them whose key is
    asked for (once per occurrence of the key in [keys]). *)
Definition DB_getBatch (db : rstore) (pfx : bytes) (keys : list bytes) : list DBEntry :=
  let found := filter (λ e, starts_with e.1 pfx = true) (r_seek db pfx) in
  let entry e := mkDBEntry (remove_prefix e.1 (length pfx)) e.2 in
  if bool_decide (keys = []) then entry <$> found
  else flat_map (λ e, flat_map (λ key,
         if bool_decide (e_key (entry e) = key) then [entry e] else []) keys) found.

(** * Lemmas *)

(** The map that the entries of a store stand for. *)
Definition lookup_db (db : rstore) (k : bytes) : option bytes := assoc k (r_entries db).

Lemma assoc_Some k v l : assoc k l = Some v → (k, v) ∈ l.
Proof.
  induction l as [|[k' v'] l IH]; cbn; [done|]. case_bool_decide as E; subst.
  - intros [= ->]. left.
  - intros. right. auto.
Qed.

Lemma assoc_filter (P : bytes * bytes → Prop) `{∀ e, Decision (P e)} k l :
  (∀ v, P (k, v)) → assoc k (filter P l) = assoc k l.
Proof.
  intros HP. induction l as [|[k' v] l IH]; [done|]. rewrite filter_cons.
  cbn [assoc]. case_decide as Hd; cbn [assoc]; [by rewrite IH|].
  rewrite bool_decide_false; [done|]. intros ->. by apply Hd.
Qed.

Lemma seek_assoc db k : assoc k (r_seek db k) = lookup_db db k.
Proof. rewrite r_seek_spec. apply assoc_filter. intros v. apply bytes_ltb_irrefl. Qed.

Lemma existsb_assoc k l : existsb (λ e, bool_decide (e.1 = k)) l = bool_decide (is_Some (assoc k l)).
Proof.
  induction l as [|[k' v] l IH]; [done|]. cbn [existsb assoc fst].
  rewrite IH. by destruct (bool_decide (k' = k)).
Qed.

Lemma DB_has_spec db key pfx : DB_has db key pfx = bool_decide (is_Some (lookup_db db (pfx ++ key))).
Proof. unfold DB_has. rewrite existsb_assoc. by rewrite seek_assoc. Qed.

Lemma DB_get_spec db key pfx : DB_get db key pfx = default [] (lookup_db db (pfx ++ key)).
Proof. unfold DB_get. by rewrite seek_assoc. Qed.

Lemma DB_write_spec db ops db' :
  DB_write db ops = (true, db') → ∀ k, lookup_db db' k = foldl (wop_apply k) (lookup_db db k) ops.
Proof.
  unfold DB_write. intros Hw k. destruct (r_write db ops) eqn:E; simplify_eq.
  by apply r_write_spec.
Qed.

Lemma DB_write_fail db ops db' : DB_write db ops = (false, db') → db' = db.
Proof. unfold DB_write. by destruct (r_write db ops); intros; simplify_eq. Qed.

(** The last put of a key in a list. *)
Fixpoint last_put (key : bytes) (l : list DBEntry) : option bytes :=
  match l with
  | [] => None
  | e :: l => match last_put key l with
              | Some v => Some v
              | None => if bool_decide (e_key e = key) then Some (e_value e) else None
              end
  end.

Lemma last_put_elem key v l :
  NoDup (e_key <$> l) → mkDBEntry key v ∈ l → last_put key l = Some v.
Proof.
  induction l as [|e l IH]; intros Hnd Hin; [by apply elem_of_nil in Hin|].
  cbn in Hnd. apply NoDup_cons in Hnd as [Hni Hnd]. cbn [last_put].
  apply elem_of_cons in Hin as [<-|Hin]; [|by rewrite IH].
  cbn [e_key e_value] in *. rewrite bool_decide_true by done.
  destruct (last_put key l) as [w|] eqn:E; [|done]. exfalso. apply Hni. clear -E.
  induction l as [|e l IH]; [done|]. cbn in *. destruct (last_put key l); [right; by apply IH|].
  case_bool_decide; [|done]. subst. left.
Qed.

Lemma last_put_Some key v l : last_put key l = Some v → mkDBEntry key v ∈ l.
Proof.
  induction l as [|[k w] l IH]; cbn; [done|]. destruct (last_put key l) as [u|].
  - intros [= ->]. right. by apply IH.
  - case_bool_decide; [|done]. intros [= ->]. subst. left.
Qed.

Lemma foldl_puts pfx key l o :
  foldl (wop_apply (pfx ++ key)) o ((λ entry, WPut (pfx ++ e_key entry) (e_value entry)) <$> l)
  = match last_put key l with Some v => Some v | None => o end.
Proof.
  revert o. induction l as [|e l IH]; intros o; [done|]. cbn [fmap list_fmap foldl last_put].
  rewrite IH. destruct (last_put key l); [done|]. cbn [wop_apply].
  rewrite (bool_decide_ext (pfx ++ e_key e = pfx ++ key) (e_key e = key)); [by case_bool_decide|].
  split; [by apply app_inv_head|by intros ->].
Qed.

Lemma foldl_dels pfx key l o :
  foldl (wop_apply (pfx ++ key)) o ((λ k, WDelete (pfx ++ k)) <$> l)
  = if bool_decide (key ∈ l) then None else o.
Proof.
  revert o. induction l as [|k l IH]; intros o; [done|]. cbn [fmap list_fmap foldl wop_apply].
  rewrite IH. rewrite (bool_decide_ext (pfx ++ k = pfx ++ key) (k = key));
    [|split; [by apply app_inv_head|by intros ->]].
  repeat case_bool_decide; set_solver.
Qed.

(** Updates under another prefix of the same length do not touch a key. *)
Lemma foldl_other k o ops :
  Forall (λ op, match op with WPut k' _ | WDelete k' => k' ≠ k end) ops →
  foldl (wop_apply k) o ops = o.
Proof.
  intros Ho. revert o. induction Ho as [|op ops Hop Ho IH]; intros o; [done|]. cbn [foldl].
  rewrite IH. destruct op; cbn; by rewrite bool_decide_false.
Qed.

Lemma DB_putBatch_lookup db batch pfx db' key :
  DB_putBatch db batch pfx = (true, db') →
  lookup_db db' (pfx ++ key) =
    match last_put key (puts batch) with
    | Some v => Some v
    | None => if bool_decide (key ∈ dels batch) then None else lookup_db db (pfx ++ key)
    end.
Proof.
  intros Hw. unfold DB_putBatch in Hw. rewrite (DB_write_spec _ _ _ Hw).
  by rewrite foldl_app, foldl_dels, foldl_puts.
Qed.

(** ** Batches in key order *)

Lemma bytes_lt_irrefl k : ¬ bytes_lt k k.
Proof. unfold bytes_lt. by rewrite bytes_ltb_irrefl. Qed.

Lemma sorted_head_notin (k v : bytes) l : StronglySorted bytes_lt ((k, v) :: l).*1 → ∀ v', (k, v') ∉ l.
Proof.
  intros Hs v' Hin. apply StronglySorted_inv in Hs as [_ Hf]. rewrite Forall_forall in Hf.
  apply (bytes_lt_irrefl k), Hf. apply list_elem_of_fmap. by exists (k, v').
Qed.

Lemma sorted_elem_assoc (k v : bytes) l :
  StronglySorted bytes_lt l.*1 → (k, v) ∈ l ↔ assoc k l = Some v.
Proof.
  induction l as [|[k' v'] l IH]; intros Hs; [split; [by intros ?%elem_of_nil|done]|].
  cbn [assoc]. rewrite elem_of_cons. pose proof (sorted_head_notin _ _ _ Hs) as Hn.
  cbn in Hs. apply StronglySorted_inv in Hs as [Hs _]. case_bool_decide as E.
  - subst. split; [|intros [= ->]; by left]. intros [[= ->]|Hin]; [done|]. by apply Hn in Hin.
  - rewrite IH by done. split; [|by right]. intros [[= -> ->]|?]; done.
Qed.

(** A sorted list is determined by its elements. *)
Lemma sorted_entries_eq (l1 l2 : list (bytes * bytes)) :
  StronglySorted bytes_lt l1.*1 → StronglySorted bytes_lt l2.*1 →
  (∀ e, e ∈ l1 ↔ e ∈ l2) → l1 = l2.
Proof.
  revert l2. induction l1 as [|[k1 v1] l1 IH]; intros [|[k2 v2] l2] S1 S2 He.
  - done.
  - exfalso. apply (elem_of_nil (k2, v2)), He. left.
  - exfalso. apply (elem_of_nil (k1, v1)), He. left.
  - pose proof (sorted_head_notin _ _ _ S1) as N1. pose proof (sorted_head_notin _ _ _ S2) as N2.
    cbn in S1, S2. apply StronglySorted_inv in S1 as [S1 F1], S2 as [S2 F2].
    rewrite Forall_forall in F1, F2.
    assert ((k1, v1) = (k2, v2)) as [= -> ->].
    { destruct (proj1 (elem_of_cons _ _ _) (proj1 (He (k1, v1)) ltac:(left))) as [|H1]; [done|].
      destruct (proj1 (elem_of_cons _ _ _) (proj2 (He (k2, v2)) ltac:(left))) as [|H2]; [done|].
      assert (bytes_lt k2 k1) as L1 by (apply F2, list_elem_of_fmap; by exists (k1, v1)).
      assert (bytes_lt k1 k2) as L2 by (apply F1, list_elem_of_fmap; by exists (k2, v2)).
      apply bytes_ltb_asym in L1. unfold bytes_lt in L2. congruence. }
    f_equal. apply IH; [done..|]. intros e. specialize (He e). rewrite !elem_of_cons in He.
    split; intros Hin.
    + destruct (proj1 He (or_intror Hin)) as [->|]; [|done]. by apply N1 in Hin.
    + destruct (proj2 He (or_intror Hin)) as [->|]; [|done]. by apply N2 in Hin.
Qed.

Lemma filter_sorted (P : bytes * bytes → Prop) `{∀ e, Decision (P e)} l :
  StronglySorted bytes_lt l.*1 → StronglySorted bytes_lt (filter P l).*1.
Proof.
  induction l as [|[k v] l IH]; intros Hs; [done|]. cbn in Hs.
  apply StronglySorted_inv in Hs as [Hs Hf]. rewrite filter_cons. case_decide; [|auto].
  cbn. constructor; [auto|]. rewrite Forall_forall in *. intros k' Hk'. apply Hf.
  apply list_elem_of_fmap in Hk' as (e & -> & He). apply list_elem_of_filter in He as [_ He].
  apply list_elem_of_fmap. by exists e.
Qed.

(** An entry under a prefix sorts after the prefix itself. *)
Lemma starts_with_ge s pfx : starts_with s pfx = true → bytes_ltb s pfx = false.
Proof.
  unfold starts_with. rewrite bool_decide_eq_true. intros <-. revert s.
  generalize (length pfx). intros n s. revert n. induction s as [|x s IH]; intros [|n]; try done.
  cbn. by rewrite Z.ltb_irrefl, Z.eqb_refl, IH.
Qed.

Lemma starts_with_app pfx k : starts_with (pfx ++ k) pfx = true.
Proof. unfold starts_with. by rewrite take_app_length, bool_decide_true. Qed.

Lemma starts_with_inv s pfx : starts_with s pfx = true → s = pfx ++ drop (length pfx) s.
Proof.
  unfold starts_with. rewrite bool_decide_eq_true. intros E. rewrite <-E at 1. by rewrite take_drop.
Qed.

(** The entries that [getBatch] scans. *)
Definition under_prefix (db : rstore) (pfx : bytes) : list (bytes * bytes) :=
  filter (λ e, starts_with e.1 pfx = true) (r_seek db pfx).

Lemma under_prefix_elem db pfx k v :
  (k, v) ∈ under_prefix db pfx ↔ ∃ key, k = pfx ++ key ∧ lookup_db db (pfx ++ key) = Some v.
Proof.
  unfold under_prefix. rewrite r_seek_spec, !list_elem_of_filter. cbn [fst].
  rewrite sorted_elem_assoc by apply r_sorted. split.
  - intros (Hp & _ & Hl). apply starts_with_inv in Hp as Hk. eexists. split; [exact Hk|].
    unfold lookup_db. by rewrite <-Hk.
  - intros (key & -> & Hl). split_and!; [apply starts_with_app| |done].
    apply starts_with_ge, starts_with_app.
Qed.

Lemma under_prefix_sorted db pfx : StronglySorted bytes_lt (under_prefix db pfx).*1.
Proof. unfold under_prefix. rewrite r_seek_spec. apply filter_sorted, filter_sorted, r_sorted. Qed.

Lemma DB_getBatch_all db pfx :
  DB_getBatch db pfx [] =
    (λ e, mkDBEntry (remove_prefix e.1 (length pfx)) e.2) <$> under_prefix db pfx.
Proof. done. Qed.

Lemma DB_getBatch_elem db pfx key v :
  mkDBEntry key v ∈ DB_getBatch db pfx [] ↔ lookup_db db (pfx ++ key) = Some v.
Proof.
  rewrite DB_getBatch_all, list_elem_of_fmap. split.
  - intros ([k v'] & [= -> ->] & Hin). apply under_prefix_elem in Hin as (key' & -> & Hl).
    cbn [fst]. unfold remove_prefix. by rewrite drop_app_length.
  - intros Hl. exists (pfx ++ key, v). split; [|apply under_prefix_elem; by exists key].
    cbn [fst snd]. unfold remove_prefix. by rewrite drop_app_length.
Qed.

Lemma getBatch_NoDup db pfx : NoDup (e_key <$> DB_getBatch db pfx []).
Proof.
  rewrite DB_getBatch_all, <-list_fmap_compose. pose proof (under_prefix_sorted db pfx) as Hs.
  assert (Forall (λ e, starts_with e.1 pfx = true) (under_prefix db pfx)) as Hp.
  { apply Forall_forall. intros e He. by apply list_elem_of_filter in He as [? _]. }
  induction Hp as [|[k v] l Hk Hp IH]; [constructor|]. pose proof (sorted_head_notin _ _ _ Hs) as Hn.
  cbn in Hs. apply StronglySorted_inv in Hs as [Hs _]. cbn. constructor; [|auto].
  intros Hin. apply list_elem_of_fmap in Hin as ([k' v'] & E & Hin). cbn in E.
  rewrite Forall_forall in Hp. pose proof (Hp _ Hin) as Hk'. cbn in Hk, Hk'.
  apply starts_with_inv in Hk, Hk'. unfold remove_prefix in E. rewrite E, <-Hk' in Hk. subst.
  by apply Hn in Hin.
Qed.

(** A write under one prefix leaves the other prefixes of its length alone. *)
Lemma DB_putBatch_other db batch pfx db' ok pfx' key :
  DB_putBatch db batch pfx = (ok, db') → length pfx = length pfx' → pfx ≠ pfx' →
  lookup_db db' (pfx' ++ key) = lookup_db db (pfx' ++ key).
Proof.
  intros Hw Hl Hne. destruct ok; [|by rewrite (DB_write_fail _ _ _ Hw)].
  rewrite (DB_write_spec _ _ _ Hw). apply foldl_other. apply Forall_app. split.
  - apply Forall_fmap, Forall_true. intros k E. apply app_inj_1 in E as [? _]; done.
  - apply Forall_fmap, Forall_true. intros e E. apply app_inj_1 in E as [? _]; done.
Qed.

(** The first write that does not fail. *)
Lemma DB_write_succeeds db ops :
  (∀ s ops, is_Some (r_write s ops)) → DB_write db ops = (true, (DB_write db ops).2).
Proof. intros Hw. unfold DB_write. by destruct (Hw db ops) as [db' ->]. Qed.

Lemma DB_get_putBatch db batch pfx key v :
  (∀ s ops, is_Some (r_write s ops)) →
  NoDup (e_key <$> puts batch) → mkDBEntry key v ∈ puts batch →
  DB_get (DB_putBatch db batch pfx).2 key pfx = v.
Proof.
  intros Hw Hnd Hin. rewrite DB_get_spec.
  rewrite (DB_putBatch_lookup db batch pfx (DB_putBatch db batch pfx).2 key)
    by apply (DB_write_succeeds _ _ Hw).
  by rewrite (last_put_elem _ _ _ Hnd Hin).
Qed.

Lemma DB_get_putBatch_other db batch pfx pfx' key :
  length pfx = length pfx' → pfx ≠ pfx' →
  DB_get (DB_putBatch db batch pfx).2 key pfx' = DB_get db key pfx'.
Proof.
  intros Hl Hne. rewrite !DB_get_spec.
  destruct (DB_putBatch db batch pfx) as [ok db'] eqn:E. cbn [snd].
  by rewrite (DB_putBatch_other _ _ _ _ _ _ key E Hl Hne).
Qed.

Lemma DB_get_put db key value pfx key' pfx' :
  (∀ s ops, is_Some (r_write s ops)) →
  DB_get (DB_put db key value pfx).2 key' pfx' =
    if bool_decide (pfx ++ key = pfx' ++ key') then value else DB_get db key' pfx'.
Proof.
  intros Hw. rewrite !DB_get_spec. unfold DB_put.
  rewrite (DB_write_spec _ _ _ (DB_write_succeeds _ _ Hw)). cbn. by case_bool_decide.
Qed.

(** * Properties *)

(** C20: the database is a finite map under each prefix: [has] and [get] are
    lookups, a successful [put] or [del] changes exactly its key, a batch
    deletes first and then puts, the last put of a key winning, and [getBatch]
    returns exactly the entries of the prefix, each key once. *)
Theorem db_refines_map db pfx :
  (∀ key, DB_has db key pfx = true ↔ is_Some (lookup_db db (pfx ++ key))) ∧
  (∀ key, DB_get db key pfx = default [] (lookup_db db (pfx ++ key))) ∧
  (∀ key value db', DB_put db key value pfx = (true, db') →
     ∀ k, lookup_db db' k = if bool_decide (k = pfx ++ key) then Some value else lookup_db db k) ∧
  (∀ key db', DB_del db key pfx = (true, db') →
     ∀ k, lookup_db db' k = if bool_decide (k = pfx ++ key) then None else lookup_db db k) ∧
  (∀ batch db' key, DB_putBatch db batch pfx = (true, db') →
     lookup_db db' (pfx ++ key) =
       match last_put key (puts batch) with
       | Some v => Some v
       | None => if bool_decide (key ∈ dels batch) then None else lookup_db db (pfx ++ key)
       end) ∧
  (∀ key v, mkDBEntry key v ∈ DB_getBatch db pfx [] ↔ lookup_db db (pfx ++ key) = Some v) ∧
  NoDup (e_key <$> DB_getBatch db pfx []).
Proof.
  split_and!.
  - intros key. by rewrite DB_has_spec, bool_decide_eq_true.
  - intros key. apply DB_get_spec.
  - intros key value db' Hw k. rewrite (DB_write_spec _ _ _ Hw). cbn.
    by rewrite (bool_decide_ext (pfx ++ key = k) (k = pfx ++ key)).
  - intros key db' Hw k. rewrite (DB_write_spec _ _ _ Hw). cbn.
    by rewrite (bool_decide_ext (pfx ++ key = k) (k = pfx ++ key)).
  - intros. by apply DB_putBatch_lookup.
  - apply DB_getBatch_elem.
  - apply getBatch_NoDup.
Qed.

(** Writing a batch under one prefix, whether it succeeds or not, does not
    change what any other prefix of the same length holds: not the value of a
    key, and not the list that [getBatch] returns. *)
Theorem db_prefix_isolation db batch pfx pfx' ok db' :
  DB_putBatch db batch pfx = (ok, db') → length pfx = length pfx' → pfx ≠ pfx' →
  (∀ key, DB_get db' key pfx' = DB_get db key pfx') ∧
  (∀ key, DB_has db' key pfx' = DB_has db key pfx') ∧
  (∀ keys, DB_getBatch db' pfx' keys = DB_getBatch db pfx' keys).
Proof.
  intros Hw Hl Hne. assert (∀ key, lookup_db db' (pfx' ++ key) = lookup_db db (pfx' ++ key)) as Heq
    by (intros; by eapply DB_putBatch_other).
  split_and!; intros.
  - by rewrite !DB_get_spec, Heq.
  - by rewrite !DB_has_spec, Heq.
  - assert (under_prefix db' pfx' = under_prefix db pfx') as E.
    { apply sorted_entries_eq; [apply under_prefix_sorted..|]. intros [k v].
      rewrite !under_prefix_elem. by setoid_rewrite Heq. }
    unfold DB_getBatch. fold (under_prefix db' pfx') (under_prefix db pfx'). by rewrite E.
Qed.

End DB.

(** ** An executable stand-in for RocksDB: a log of writes, read in key order *)

Fixpoint toy_insert (k v : bytes) (l : list (bytes * bytes)) : list (bytes * bytes) :=
  match l with
  | [] => [(k, v)]
  | (k', v') :: l' =>
      if bytes_ltb k' k then (k', v') :: toy_insert k v l'
      else if bytes_ltb k k' then (k, v) :: l else (k, v) :: l'
  end.

Definition toy_entries (s : list (bytes * bytes)) : list (bytes * bytes) :=
  foldr (λ e acc, toy_insert e.1 e.2 acc) [] s.

Definition toy_step (s : list (bytes * bytes)) (op : wop) : list (bytes * bytes) :=
  match op with WPut k v => (k, v) :: s | WDelete k => filter (λ e, e.1 ≠ k) s end.

Lemma bytes_ltb_trans a b c : bytes_ltb a b = true → bytes_ltb b c = true → bytes_ltb a c = true.
Proof.
  revert b c. induction a as [|x a IH]; intros [|y b] [|z c]; simpl; try done.
  repeat zcase; simpl; try lia; try done. apply IH.
Qed.

Lemma toy_insert_keys k v l k' : k' ∈ (toy_insert k v l).*1 → k' = k ∨ k' ∈ l.*1.
Proof.
  induction l as [|[x y] l IH]; cbn; [by rewrite list_elem_of_singleton; left|].
  destruct (bytes_ltb x k); cbn; [|destruct (bytes_ltb k x); cbn]; set_solver.
Qed.

Lemma toy_insert_sorted k v l :
  StronglySorted bytes_lt l.*1 → StronglySorted bytes_lt (toy_insert k v l).*1.
Proof.
  induction l as [|[x y] l IH]; intros Hs; cbn; [by repeat constructor|].
  cbn in Hs. pose proof Hs as Hs0. apply StronglySorted_inv in Hs as [Hs Hf].
  rewrite Forall_forall in Hf.
  destruct (bytes_ltb x k) eqn:E1; [|destruct (bytes_ltb k x) eqn:E2].
  - cbn. constructor; [auto|]. apply Forall_forall. intros k' Hk'.
    apply toy_insert_keys in Hk' as [->|Hk']; [done|auto].
  - cbn. constructor; [done|]. apply Forall_cons. split; [done|].
    apply Forall_forall. intros k' Hk'. eapply bytes_ltb_trans; [exact E2|]. by apply Hf.
  - rewrite (bytes_ltb_total x k E1 E2) in Hf. cbn. constructor; [done|]. by apply Forall_forall.
Qed.

Lemma toy_insert_assoc k v l k' :
  assoc k' (toy_insert k v l) = if bool_decide (k = k') then Some v else assoc k' l.
Proof.
  induction l as [|[x y] l IH]; [done|]. cbn.
  destruct (bytes_ltb x k) eqn:E1; [|destruct (bytes_ltb k x) eqn:E2]; cbn.
  - rewrite IH. repeat case_bool_decide; subst; try done. by rewrite bytes_ltb_irrefl in E1.
  - done.
  - rewrite (bytes_ltb_total x k E1 E2). by repeat case_bool_decide.
Qed.

Lemma toy_entries_assoc s k : assoc k (toy_entries s) = assoc k s.
Proof.
  induction s as [|[x y] s IH]; [done|].
  change (toy_entries ((x, y) :: s)) with (toy_insert x y (toy_entries s)).
  by rewrite toy_insert_assoc, IH.
Qed.

Lemma toy_step_assoc s op k : assoc k (toy_step s op) = wop_apply k (assoc k s) op.
Proof.
  destruct op as [key v|key]; cbn; [done|]. case_bool_decide as E.
  - subst. induction s as [|[x y] s IH]; [done|]. rewrite filter_cons. cbn.
    case_decide; [|done]. cbn. by rewrite bool_decide_false.
  - apply assoc_filter. intros v. cbn. by intros [= ->].
Qed.

#[refine] Definition toy_rocks : RocksDB := {|
  rstore := list (bytes * bytes);
  r_entries := toy_entries;
  r_seek := λ s k, filter (λ e, bytes_ltb e.1 k = false) (toy_entries s);
  r_write := λ s ops, Some (foldl toy_step s ops);
|}.
Proof.
  - intros s. induction s as [|[k v] s IH]; [constructor|]. by apply toy_insert_sorted.
  - done.
  - intros s s' ops [= <-] k. rewrite !toy_entries_assoc. revert s.
    induction ops as [|op ops IH]; intros s; [done|]. cbn. by rewrite IH, toy_step_assoc.
Defined.

Lemma db_refines_map_witness :
  @DB_get toy_rocks (@DB_put toy_rocks [] [1] [2; 3] DBPrefix.rdPoS).2 [1] DBPrefix.rdPoS = [2; 3] ∧
  @DB_has toy_rocks [] [1] DBPrefix.rdPoS = false.
Proof.
  pose proof (@db_refines_map toy_rocks (@DB_put toy_rocks [] [1] [2; 3] DBPrefix.rdPoS).2 DBPrefix.rdPoS)
    as (_ & Hg & _).
  split; [|vm_compute; reflexivity]. rewrite Hg. vm_compute. reflexivity.
Defined.

Lemma db_prefix_isolation_witness :
  let db := (@DB_put toy_rocks [] [9] [8] DBPrefix.blocks).2 in
  let db' := (@DB_putBatch toy_rocks db (mkDBBatch [mkDBEntry [9] [7]] [[9]]) DBPrefix.rdPoS).2 in
  @DB_getBatch toy_rocks db' DBPrefix.blocks [] = @DB_getBatch toy_rocks db DBPrefix.blocks [] ∧
  @DB_getBatch toy_rocks db' DBPrefix.blocks [] = [mkDBEntry [9] [8]].
Proof.
  split; [|vm_compute; reflexivity].
  apply (@db_prefix_isolation toy_rocks (@DB_put toy_rocks [] [9] [8] DBPrefix.blocks).2
    (mkDBBatch [mkDBEntry [9] [7]] [[9]]) DBPrefix.rdPoS DBPrefix.blocks true);
    [vm_compute; reflexivity|reflexivity|discriminate].
Defined.
