(* ===== verification/Storage.v ===== *)
(** * Storage: the chain of recent blocks and its indexes (src/core/storage.{h,cpp})

    The state of a [Storage] object is its deque of blocks, the maps that index
    it, the two caches, and the database it reads.  Blocks are shared as
    pointers to constants, so a pointer is its block and null is [None].
    Locks make each public call one transition. *)

From S2P Require Import Prelude Utils Hex Strings Merkle Ecdsa Tx Block DB.

Inductive StorageStatus := NotFound | OnChain | OnCache | OnDB.

#[export] Instance StorageStatus_eq_dec : EqDecision StorageStatus.
Proof. solve_decision. Defined.

(** (transaction, block hash, index in the block, block height). *)
Abbreviation tx_info := (option TxBlock * bytes * Z * Z)%type.

Record Storage := mkStorage {
  chain : list Block;
  blockByHash : gmap bytes Block;
  txByHash : gmap bytes (bytes * Z * Z);
  blockHeightByHash : gmap bytes Z;
  blockHashByHeight : gmap Z bytes;
  cachedBlocks : gmap bytes Block;
  cachedTxs : gmap bytes tx_info;
}.

Definition Storage_empty : Storage := mkStorage [] ∅ ∅ ∅ ∅ ∅ ∅.

(** [map.insert({k, v})]: keeps an existing entry. *)
Definition map_emplace `{Countable K} {A} (k : K) (v : A) (m : gmap K A) : gmap K A :=
  match m !! k with Some _ => m | None => <[k := v]> m end.

Definition no_tx : tx_info := (None, Hash_zero, 0, 0).

Section Storage.
Context `{Keccak, Secp256k1Lib, RocksDB}.
(** Hardware threads of the host, and the chain id of the options. *)
Context (thrNum : nat) (chainID : Z).

Definition set_chain (st : Storage) (c : list Block) : Storage :=
  mkStorage c (blockByHash st) (txByHash st) (blockHeightByHash st) (blockHashByHeight st)
    (cachedBlocks st) (cachedTxs st).

Definition set_cachedBlocks (st : Storage) (m : gmap bytes Block) : Storage :=
  mkStorage (chain st) (blockByHash st) (txByHash st) (blockHeightByHash st) (blockHashByHeight st)
    m (cachedTxs st).

Definition set_cachedTxs (st : Storage) (m : gmap bytes tx_info) : Storage :=
  mkStorage (chain st) (blockByHash st) (txByHash st) (blockHeightByHash st) (blockHashByHeight st)
    (cachedBlocks st) m.

(** The loop over the transactions of a block that is added. *)
Definition index_txs (b : Block) (m : gmap bytes (bytes * Z * Z)) : gmap bytes (bytes * Z * Z) :=
  foldl (λ m e, map_emplace (TxBlock_hash e.2 true) (Block_hash b, Z.of_nat e.1, b_nHeight b) m)
    m (imap pair (b_txs b)).

(** "Add block and txs to mappings". *)
Definition index_block (st : Storage) (b : Block) : Storage :=
  mkStorage (chain st)
    (map_emplace (Block_hash b) b (blockByHash st))
    (index_txs b (txByHash st))
    (map_emplace (Block_hash b) (b_nHeight b) (blockHeightByHash st))
    (map_emplace (b_nHeight b) (Block_hash b) (blockHashByHeight st))
    (cachedBlocks st) (cachedTxs st).

Definition bad_prev : exn := runtime_error "Block does not have the correct previous block hash.".
Definition bad_height : exn := runtime_error "Block does not have the correct height.".

Definition pushBackInternal (st : Storage) (b : Block) : outcome Storage :=
  _ ← match last (chain st) with
      | Some back =>
          _ ← throw_if (negb (bool_decide (Block_hash back = b_prevBlockHash b))) bad_prev;
          throw_if (negb (b_nHeight b =? u64 (b_nHeight back + 1))) bad_height
      | None => Ok tt
      end;
  Ok (index_block (set_chain st (chain st ++ [b])) b).

Definition pushFrontInternal (st : Storage) (b : Block) : outcome Storage :=
  _ ← match head (chain st) with
      | Some front =>
          _ ← throw_if (negb (bool_decide (b_prevBlockHash front = Block_hash b))) bad_prev;
          throw_if (negb (b_nHeight b =? u64 (b_nHeight front - 1))) bad_height
      | None => Ok tt
      end;
  Ok (index_block (set_chain st (b :: chain st)) b).

Definition pushBack (st : Storage) (b : Block) : outcome Storage := pushBackInternal st b.
Definition pushFront (st : Storage) (b : Block) : outcome Storage := pushFrontInternal st b.

(** "Delete block and its txs from the mappings": the two height maps keep
    their entries. *)
Definition unindex_block (st : Storage) (b : Block) : Storage :=
  mkStorage (chain st)
    (delete (Block_hash b) (blockByHash st))
    (foldl (λ m tx, delete (TxBlock_hash tx true) m) (txByHash st) (b_txs b))
    (blockHeightByHash st) (blockHashByHeight st) (cachedBlocks st) (cachedTxs st).

(** [back()] and [front()] of an empty deque are undefined. *)
Definition popBack (st : Storage) : outcome Storage :=
  match last (chain st) with
  | None => Undef
  | Some b => Ok (set_chain (unindex_block st b) (removelast (chain st)))
  end.

Definition popFront (st : Storage) : outcome Storage :=
  match chain st with
  | [] => Undef
  | b :: c => Ok (set_chain (unindex_block st b) c)
  end.

Definition blockExists_hash (st : Storage) (db : rstore) (hash : bytes) : StorageStatus :=
  if bool_decide (is_Some (blockByHash st !! hash)) then OnChain
  else if bool_decide (is_Some (cachedBlocks st !! hash)) then OnCache
  else if DB_has db hash DBPrefix.blocks then OnDB
  else NotFound.

Definition blockExists_height (st : Storage) (height : Z) : StorageStatus :=
  match blockHashByHeight st !! height with
  | Some h =>
      if bool_decide (is_Some (blockByHash st !! h)) then OnChain
      else if bool_decide (is_Some (cachedBlocks st !! h)) then OnCache
      else OnDB
  | None => NotFound
  end.

(** The [OnDB] case of both [getBlock]s: the block is parsed and cached. *)
Definition load_block (st : Storage) (db : rstore) (hash : bytes) : outcome (option Block * Storage) :=
  b ← Block_parse thrNum (DB_get db hash DBPrefix.blocks) chainID;
  let st := set_cachedBlocks st (map_emplace hash b (cachedBlocks st)) in
  Ok (cachedBlocks st !! hash, st).

Definition getBlock_hash (st : Storage) (db : rstore) (hash : bytes) : outcome (option Block * Storage) :=
  match blockExists_hash st db hash with
  | NotFound => Ok (None, st)
  | OnChain => Ok (blockByHash st !! hash, st)
  | OnCache => Ok (cachedBlocks st !! hash, st)
  | OnDB => load_block st db hash
  end.

Definition getBlock_height (st : Storage) (db : rstore) (height : Z) : outcome (option Block * Storage) :=
  match blockExists_height st height, blockHashByHeight st !! height with
  | NotFound, _ => Ok (None, st)
  | OnChain, Some hash => Ok (blockByHash st !! hash, st)
  | OnCache, Some hash => Ok (cachedBlocks st !! hash, st)
  | OnDB, Some hash => load_block st db hash
  | _, None => Undef
  end.

Definition txExists (st : Storage) (db : rstore) (tx : bytes) : StorageStatus :=
  if bool_decide (is_Some (txByHash st !! tx)) then OnChain
  else if bool_decide (is_Some (cachedTxs st !! tx)) then OnCache
  else if DB_has db tx DBPrefix.txToBlocks then OnDB
  else NotFound.

(** [getTxFromBlockWithIndex]: skips [txIndex] transactions of a serialised
    block. *)
Definition getTxFromBlockWithIndex (blockData : bytes) (txIndex : Z) : outcome TxBlock :=
  index ← skip_items (Z.to_nat txIndex) blockData 217;
  txSize ← read_size blockData index;
  s ← substr blockData (u64 (index + 4)) txSize;
  TxBlock_parse s chainID.

(** [blockByHash[h]->getTxs()[i]]: a null pointer or an index past the end is
    undefined. *)
Definition block_tx (m : gmap bytes Block) (h : bytes) (i : Z) : outcome TxBlock :=
  match m !! h with Some b => at_view (b_txs b) i | None => Undef end.

Definition getTx (st : Storage) (db : rstore) (tx : bytes) : outcome (tx_info * Storage) :=
  match txExists st db tx with
  | NotFound => Ok (no_tx, st)
  | OnChain =>
      '(blockHash, blockIndex, blockHeight) ← of_option out_of_range (txByHash st !! tx);
      transaction ← block_tx (blockByHash st) blockHash blockIndex;
      _ ← throw_if (negb (bool_decide (TxBlock_hash transaction true = tx))) (runtime_error "Tx hash mismatch");
      Ok ((Some transaction, blockHash, blockIndex, blockHeight), st)
  | OnCache => Ok (default no_tx (cachedTxs st !! tx), st)
  | OnDB =>
      let txData := DB_get db tx DBPrefix.txToBlocks in
      blockHash ← (s ← substr txData 0 32; Hash_of_view s);
      blockIndex ← (s ← substr txData 32 4; bytesToUint32 s);
      blockHeight ← (s ← substr txData 36 8; bytesToUint64 s);
      let blockData := DB_get db blockHash DBPrefix.blocks in
      Tx ← getTxFromBlockWithIndex blockData blockIndex;
      let st := set_cachedTxs st (map_emplace tx (Some Tx, blockHash, blockIndex, blockHeight) (cachedTxs st)) in
      Ok (default no_tx (cachedTxs st !! tx), st)
  end.

(** [map[k]] on a map of tuples: a missing entry is created with the default
    value. *)
Definition map_bracket `{Countable K} {A} (d : A) (k : K) (m : gmap K A) : A * gmap K A :=
  (default d (m !! k), map_emplace k d m).

(** The [OnDB] case of the two lookups by index. *)
Definition load_tx (st : Storage) (db : rstore) (blockHash : bytes) (blockIndex : Z)
    : outcome (tx_info * Storage) :=
  let blockData := DB_get db blockHash DBPrefix.blocks in
  tx ← getTxFromBlockWithIndex blockData blockIndex;
  let '(blockHeight, heights) := map_bracket 0 blockHash (blockHeightByHash st) in
  let cached := map_emplace (TxBlock_hash tx true) (Some tx, blockHash, blockIndex, blockHeight) (cachedTxs st) in
  Ok (default no_tx (cached !! TxBlock_hash tx true),
      mkStorage (chain st) (blockByHash st) (txByHash st) heights (blockHashByHeight st)
        (cachedBlocks st) cached).

(** The [OnCache] case: [cachedTxs[txHash]] of the transaction in the cached
    block. *)
Definition cached_tx (st : Storage) (blockHash : bytes) (blockIndex : Z) : outcome (tx_info * Storage) :=
  tx ← block_tx (cachedBlocks st) blockHash blockIndex;
  let '(info, cached) := map_bracket no_tx (TxBlock_hash tx true) (cachedTxs st) in
  Ok (info, set_cachedTxs st cached).

(** [txByHash[txHash]] of a transaction of a block on the chain. *)
Definition bracket_tx (st : Storage) (tx : TxBlock) : (bytes * Z * Z) * Storage :=
  let '(info, m) := map_bracket (Hash_zero, 0, 0) (TxBlock_hash tx true) (txByHash st) in
  (info, mkStorage (chain st) (blockByHash st) m (blockHeightByHash st) (blockHashByHeight st)
           (cachedBlocks st) (cachedTxs st)).

(** The state is returned beside the outcome: the lookup may leave an entry
    behind and throw. *)
Definition with_state {A} (st : Storage) (r : outcome (A * Storage)) : outcome A * Storage :=
  match r with Ok (a, st') => (Ok a, st') | Throw e => (Throw e, st) | Undef => (Undef, st) end.

Definition getTxByBlockHashAndIndex (st : Storage) (db : rstore) (blockHash : bytes) (blockIndex : Z)
    : outcome tx_info * Storage :=
  match blockExists_hash st db blockHash with
  | NotFound => (Ok no_tx, st)
  | OnChain =>
      match block_tx (blockByHash st) blockHash blockIndex with
      | Ok tx =>
          let '((txBlockHash, txBlockIndex, txBlockHeight), st) := bracket_tx st tx in
          if negb (bool_decide (txBlockHash = blockHash)) || negb (txBlockIndex =? blockIndex)
          then (Throw (runtime_error "Tx hash mismatch"), st)
          else (Ok (Some tx, txBlockHash, txBlockIndex, txBlockHeight), st)
      | Throw e => (Throw e, st)
      | Undef => (Undef, st)
      end
  | OnCache => with_state st (cached_tx st blockHash blockIndex)
  | OnDB => with_state st (load_tx st db blockHash blockIndex)
  end.

Definition getTxByBlockNumberAndIndex (st : Storage) (db : rstore) (blockHeight blockIndex : Z)
    : outcome (tx_info * Storage) :=
  match blockExists_height st blockHeight, blockHashByHeight st !! blockHeight with
  | NotFound, _ => Ok (no_tx, st)
  | OnChain, Some blockHash =>
      tx ← block_tx (blockByHash st) blockHash blockIndex;
      let '((txBlockHash, txBlockIndex, txBlockHeight), st) := bracket_tx st tx in
      Ok ((Some tx, txBlockHash, txBlockIndex, txBlockHeight), st)
  | OnCache, Some blockHash => cached_tx st blockHash blockIndex
  | OnDB, Some blockHash => load_tx st db blockHash blockIndex
  | _, None => Undef
  end.

Definition latest (st : Storage) : outcome Block :=
  match last (chain st) with Some b => Ok b | None => Undef end.

Definition currentChainSize (st : Storage) : outcome Z :=
  b ← latest st; Ok (u64 (b_nHeight b + 1)).

(** ** Start-up and shut-down *)

Definition genesisKey : bytes :=
  be_split 32 0xe89ef6409c467285bcae9f80ab1cfeb3487cfe61ab28fb7d36443e1daa0c2867.

Definition latest_key : bytes := str "latest".

(** [initializeBlockchain]: the database after it. *)
Definition Storage_initializeBlockchain (db : rstore) : outcome rstore :=
  if DB_has db latest_key DBPrefix.blocks then Ok db
  else
    zero ← Hash_of_view (uint256ToBytes 0);
    '(_, genesis) ← finalize (Block_new zero 1656356645000000 0) genesisKey 1656356646000000;
    let db := (DB_put db latest_key (serializeBlock genesis) DBPrefix.blocks).2 in
    let db := (DB_put db (uint64ToBytes (b_nHeight genesis)) (Block_hash genesis) DBPrefix.blockHeightMaps).2 in
    Ok (DB_put db (Block_hash genesis) (serializeBlock genesis) DBPrefix.blocks).2.

(** The loop over the height mappings. *)
Definition load_heights (st : Storage) (maps : list DBEntry) : outcome Storage :=
  foldM (λ st e,
    height ← bytesToUint64 (e_key e);
    hash ← Hash_of_view (e_value e);
    Ok (mkStorage (chain st) (blockByHash st) (txByHash st)
          (map_emplace hash height (blockHeightByHash st))
          (map_emplace height hash (blockHashByHeight st)) (cachedBlocks st) (cachedTxs st)))
    st maps.

(** The loop that loads up to 501 blocks, newest first. *)
Definition load_recent (st : Storage) (db : rstore) (depth : Z) : outcome Storage :=
  foldM (λ st i,
    let '(hash, heights) := map_bracket Hash_zero (u64 (depth - i)) (blockHashByHeight st) in
    let st := mkStorage (chain st) (blockByHash st) (txByHash st) (blockHeightByHash st) heights
                (cachedBlocks st) (cachedTxs st) in
    block ← Block_parse thrNum (DB_get db hash DBPrefix.blocks) chainID;
    pushFrontInternal st block)
    st (Z.of_nat <$> seq 0 (Z.to_nat (Z.min 500 depth) + 1)).

Definition Storage_ctor (db : rstore) : outcome (Storage * rstore) :=
  db ← Storage_initializeBlockchain db;
  latest ← Block_parse thrNum (DB_get db latest_key DBPrefix.blocks) chainID;
  let depth := b_nHeight latest in
  st ← load_heights Storage_empty (DB_getBatch db DBPrefix.blockHeightMaps []);
  st ← load_recent st db depth;
  Ok (st, db).

(** The batches that [~Storage] builds while it empties the chain. *)
Definition block_entries (c : list Block) : list DBEntry :=
  (λ b, mkDBEntry (Block_hash b) (serializeBlock b)) <$> c.

Definition height_entries (c : list Block) : list DBEntry :=
  (λ b, mkDBEntry (uint64ToBytes (b_nHeight b)) (Block_hash b)) <$> c.

Definition tx_entries (c : list Block) : list DBEntry :=
  flat_map (λ b, imap (λ i tx, mkDBEntry (TxBlock_hash tx true)
      (Block_hash b ++ uint32ToBytes (Z.of_nat i) ++ uint64ToBytes (b_nHeight b))) (b_txs b)) c.

Definition Storage_dtor (st : Storage) (db : rstore) : outcome rstore :=
  latest ← latest st;
  let db := (DB_putBatch db (mkDBBatch (block_entries (chain st)) []) DBPrefix.blocks).2 in
  let db := (DB_putBatch db (mkDBBatch (height_entries (chain st)) []) DBPrefix.blockHeightMaps).2 in
  let db := (DB_putBatch db (mkDBBatch (tx_entries (chain st)) []) DBPrefix.txToBlocks).2 in
  Ok (DB_put db latest_key (serializeBlock latest) DBPrefix.blocks).2.

(** * Lemmas *)

Lemma map_emplace_fresh `{Countable K} {A} (k : K) (v : A) m :
  m !! k = None → map_emplace k v m = <[k := v]> m.
Proof. intros E. unfold map_emplace. by rewrite E. Qed.

Lemma emplace_all_lookup `{Countable K} {A B} (key : B → K) (val : B → A) l m k v :
  NoDup (key <$> l) → (∀ x, x ∈ l → m !! key x = None) →
  foldl (λ m x, map_emplace (key x) (val x) m) m l !! k = Some v ↔
  m !! k = Some v ∨ ∃ x, x ∈ l ∧ key x = k ∧ val x = v.
Proof.
  revert m. induction l as [|x l IH]; intros m Hnd Hf; cbn [foldl].
  - split; [by left|]. intros [?|(x & Hx%elem_of_nil & _)]; done.
  - cbn in Hnd. apply NoDup_cons in Hnd as [Hni Hnd].
    rewrite map_emplace_fresh by (apply Hf; left). rewrite IH; [|done|].
    + rewrite lookup_insert_Some. split.
      * intros [[[<- <-]|[? ?]]|(y & ? & ? & ?)]; [right; exists x; split_and!; [left|done..]|by left|].
        right. exists y. split_and!; [by right|done..].
      * intros [Hm|(y & Hy & <- & <-)].
        -- left. right. split; [|done]. intros <-. rewrite Hf in Hm; [done|left].
        -- apply elem_of_cons in Hy as [->|Hy]; [by left; left|right; by exists y].
    + intros y Hy. rewrite lookup_insert_ne; [apply Hf; by right|].
      intros E. apply Hni. rewrite E. apply list_elem_of_fmap. by exists y.
Qed.

Lemma delete_all_lookup `{Countable K} {A B} (key : B → K) (l : list B) (m : gmap K A) k :
  foldl (λ m x, delete (key x) m) m l !! k = if bool_decide (k ∈ key <$> l) then None else m !! k.
Proof.
  revert m. induction l as [|x l IH]; intros m; cbn [foldl]; [by rewrite bool_decide_false by set_solver|].
  rewrite IH. cbn [fmap list_fmap]. destruct (decide (k = key x)) as [->|Hne].
  - rewrite lookup_delete_eq. rewrite (bool_decide_true (key x ∈ key x :: _)) by left.
    by case_bool_decide.
  - rewrite lookup_delete_ne by done. repeat case_bool_decide; set_solver.
Qed.

(** The transactions of a block, by hash. *)
Definition tx_hashes (b : Block) : list bytes := (λ tx, TxBlock_hash tx true) <$> b_txs b.

Lemma elem_imap_pair {A} (l : list A) i x : (i, x) ∈ imap pair l ↔ l !! i = Some x.
Proof.
  rewrite list_elem_of_lookup. setoid_rewrite list_lookup_imap_Some. split.
  - intros (j & y & Hy & [= -> ->]). done.
  - intros Hl. by exists i, x.
Qed.

Lemma imap_pair_hashes b : (λ e : nat * TxBlock, TxBlock_hash e.2 true) <$> imap pair (b_txs b) = tx_hashes b.
Proof.
  unfold tx_hashes. apply list_eq. intros i. rewrite !list_lookup_fmap, list_lookup_imap.
  by destruct (b_txs b !! i).
Qed.

Lemma index_txs_lookup b m h v :
  NoDup (tx_hashes b) → (∀ h, h ∈ tx_hashes b → m !! h = None) →
  index_txs b m !! h = Some v ↔
  m !! h = Some v ∨
  ∃ i tx, b_txs b !! i = Some tx ∧ TxBlock_hash tx true = h ∧ (Block_hash b, Z.of_nat i, b_nHeight b) = v.
Proof.
  intros Hnd Hf. unfold index_txs.
  rewrite (emplace_all_lookup (λ e : nat * TxBlock, TxBlock_hash e.2 true)).
  - split; (intros [?|Hx]; [by left|right]).
    + destruct Hx as ([i tx] & Hin & ? & ?). apply elem_imap_pair in Hin. by exists i, tx.
    + destruct Hx as (i & tx & Hi & ? & ?). exists (i, tx). by rewrite elem_imap_pair.
  - by rewrite imap_pair_hashes.
  - intros x Hx. apply Hf. rewrite <-imap_pair_hashes.
    apply list_elem_of_fmap. by exists x.
Qed.

(** ** The invariant *)

(** Each block names its predecessor and is one higher. *)
Definition linked (b b' : Block) : Prop :=
  b_prevBlockHash b' = Block_hash b ∧ b_nHeight b' = u64 (b_nHeight b + 1).

Fixpoint chain_linked (c : list Block) : Prop :=
  match c with
  | b :: (b' :: _) as c' => linked b b' ∧ chain_linked c'
  | _ => True
  end.

Record Storage_inv (st : Storage) : Prop := {
  si_linked : chain_linked (chain st);
  si_heights : Forall (λ b, is_uint 64 (b_nHeight b)) (chain st);
  si_hashes : NoDup (Block_hash <$> chain st);
  si_txhashes : NoDup (flat_map tx_hashes (chain st));
  si_blocks : ∀ h b, blockByHash st !! h = Some b ↔ b ∈ chain st ∧ Block_hash b = h;
  si_txs : ∀ h v, txByHash st !! h = Some v ↔
    ∃ b i tx, b ∈ chain st ∧ b_txs b !! i = Some tx ∧ TxBlock_hash tx true = h ∧
              (Block_hash b, Z.of_nat i, b_nHeight b) = v;
}.

(** A block whose hash and whose transactions' hashes are new to the chain. *)
Definition fresh_block (st : Storage) (b : Block) : Prop :=
  is_uint 64 (b_nHeight b) ∧ Block_hash b ∉ Block_hash <$> chain st ∧
  NoDup (tx_hashes b) ∧ Forall (λ h, h ∉ flat_map tx_hashes (chain st)) (tx_hashes b).

#[export] Instance fresh_block_dec st b : Decision (fresh_block st b).
Proof. unfold fresh_block. apply _. Defined.

Lemma elem_flat_map_hashes h c :
  h ∈ flat_map tx_hashes c ↔ ∃ b i tx, b ∈ c ∧ b_txs b !! i = Some tx ∧ TxBlock_hash tx true = h.
Proof.
  rewrite list_elem_of_In, in_flat_map. split.
  - intros (b & Hb & Hh). apply list_elem_of_In in Hb, Hh. unfold tx_hashes in Hh.
    apply list_elem_of_fmap in Hh as (tx & -> & Htx). apply list_elem_of_lookup in Htx as [i Hi].
    by exists b, i, tx.
  - intros (b & i & tx & Hb & Hi & <-). exists b. rewrite <-!list_elem_of_In. split; [done|].
    apply list_elem_of_fmap. exists tx. split; [done|]. by eapply list_elem_of_lookup_2.
Qed.

Lemma chain_linked_snoc c b :
  chain_linked (c ++ [b]) ↔ chain_linked c ∧ ∀ l, last c = Some l → linked l b.
Proof.
  induction c as [|x c IH]; [cbn; naive_solver|]. destruct c as [|y c]; [cbn; naive_solver|].
  change (chain_linked ((x :: y :: c) ++ [b])) with (linked x y ∧ chain_linked ((y :: c) ++ [b])).
  change (chain_linked (x :: y :: c)) with (linked x y ∧ chain_linked (y :: c)).
  change (last (x :: y :: c)) with (last (y :: c)). rewrite IH. naive_solver.
Qed.

Lemma chain_linked_cons b c :
  chain_linked (b :: c) ↔ chain_linked c ∧ ∀ f, head c = Some f → linked b f.
Proof. destruct c; cbn; naive_solver. Qed.

(** Adding a fresh block at either end. *)
Lemma index_block_inv st b c :
  Storage_inv st → fresh_block st b → (c = chain st ++ [b] ∨ c = b :: chain st) → chain_linked c →
  Storage_inv (index_block (set_chain st c) b).
Proof.
  intros [Hl Hh Hn Ht Hb Hx] (Hub & Hfb & Hnt & Hft) Hc Hlc. rewrite Forall_forall in Hft.
  assert (c ≡ₚ b :: chain st) as Hp by (destruct Hc as [->| ->]; [by rewrite Permutation_app_comm|done]).
  assert (∀ x, x ∈ c ↔ x = b ∨ x ∈ chain st) as Hin by (intros x; rewrite Hp; apply elem_of_cons).
  constructor; cbn [chain index_block set_chain blockByHash txByHash].
  - done.
  - rewrite Hp. by constructor.
  - rewrite Hp. cbn. by constructor.
  - assert (flat_map tx_hashes c ≡ₚ flat_map tx_hashes (b :: chain st)) as ->
      by (rewrite !flat_map_concat_map; by rewrite Hp).
    cbn [flat_map]. apply NoDup_app. split_and!; [done| |done]. exact Hft.
  - intros h x. rewrite map_emplace_fresh.
    + rewrite lookup_insert_Some, Hin, Hb. split; [naive_solver|].
      intros [[->|Hxc] <-]; [by left|]. right. split; [|done]. intros E. apply Hfb. rewrite E.
      apply list_elem_of_fmap. by exists x.
    + destruct (blockByHash st !! Block_hash b) as [y|] eqn:E; [|done].
      apply Hb in E as [Hxc Hxe]. exfalso. apply Hfb. rewrite <-Hxe.
      apply list_elem_of_fmap. by exists y.
  - intros h v. rewrite index_txs_lookup; [|done|].
    + rewrite Hx. setoid_rewrite Hin. split.
      * intros [(x & i & tx & ? & ?)|(i & tx & ?)]; [exists x, i, tx|exists b, i, tx]; naive_solver.
      * intros (x & i & tx & [->|Hxc] & ?); [right; by exists i, tx|left; by exists x, i, tx].
    + intros h' Hh'. destruct (txByHash st !! h') as [v'|] eqn:E; [|done].
      apply Hx in E as (x & i & tx & Hxc & Hi & Hhx & _). exfalso. apply (Hft h' Hh').
      apply elem_flat_map_hashes. by exists x, i, tx.
Qed.

Lemma pushBack_inv st b st' :
  Storage_inv st → fresh_block st b → pushBack st b = Ok st' →
  Storage_inv st' ∧ chain st' = chain st ++ [b].
Proof.
  intros Hi Hf Hp. unfold pushBack, pushBackInternal in Hp. apply bind_Ok in Hp as ([] & Hc & Hp).
  apply Ok_inj in Hp as <-. split; [|done]. apply index_block_inv; [done..|by left|].
  apply chain_linked_snoc. split; [apply Hi|]. intros l El. rewrite El in Hc.
  apply bind_Ok in Hc as ([] & H1' & H2'). apply throw_if_Ok in H1', H2'. zify_bool. by split.
Qed.

Lemma u64_pred f n : is_uint 64 f → n = u64 (f - 1) → f = u64 (n + 1).
Proof.
  intros Hf ->. unfold wrap. rewrite Z.add_mod_idemp_l by done.
  replace (f - 1 + 1) with f by lia. symmetry. apply Z.mod_small. exact Hf.
Qed.

Lemma pushFront_inv st b st' :
  Storage_inv st → fresh_block st b → pushFront st b = Ok st' →
  Storage_inv st' ∧ chain st' = b :: chain st.
Proof.
  intros Hi Hf Hp. unfold pushFront, pushFrontInternal in Hp. apply bind_Ok in Hp as ([] & Hc & Hp).
  apply Ok_inj in Hp as <-. split; [|done]. apply index_block_inv; [done..|by right|].
  apply chain_linked_cons. split; [apply Hi|]. intros f Ef. rewrite Ef in Hc.
  apply bind_Ok in Hc as ([] & H1' & H2'). apply throw_if_Ok in H1', H2'. zify_bool.
  split; [done|]. apply u64_pred; [|done]. pose proof (si_heights _ Hi) as Hh.
  destruct (chain st); [done|]. injection Ef as ->. by inversion Hh.
Qed.

(** Removing the block at either end. *)
Lemma unindex_block_inv st b c :
  Storage_inv st → chain st ≡ₚ b :: c → chain_linked c →
  Storage_inv (set_chain (unindex_block st b) c).
Proof.
  intros [Hl Hh Hn Ht Hb Hx] Hp Hlc.
  assert (∀ x, x ∈ chain st ↔ x = b ∨ x ∈ c) as Hin by (intros x; rewrite Hp; apply elem_of_cons).
  rewrite Hp in Hn. cbn in Hn. apply NoDup_cons in Hn as [Hnb Hn].
  assert (flat_map tx_hashes (chain st) ≡ₚ tx_hashes b ++ flat_map tx_hashes c) as Hpt
    by (rewrite !flat_map_concat_map; by rewrite Hp).
  rewrite Hpt in Ht. apply NoDup_app in Ht as (_ & Hdis & Ht).
  assert (∀ x, x ∈ c → Block_hash b ≠ Block_hash x) as Hne
    by (intros x Hxc E; apply Hnb; rewrite E; apply list_elem_of_fmap; by exists x).
  constructor; cbn [chain unindex_block set_chain blockByHash txByHash].
  - done.
  - rewrite Hp in Hh. by inversion Hh.
  - done.
  - done.
  - intros h x. rewrite lookup_delete_Some, Hb, Hin. split; [naive_solver|].
    intros [Hxc <-]. split; [by apply Hne|]. naive_solver.
  - intros h v. rewrite (delete_all_lookup (λ tx, TxBlock_hash tx true)). fold (tx_hashes b).
    case_bool_decide as Hd; [split; [done|]|rewrite Hx; split].
    + intros (x & i & tx & Hxc & Hi & Hhx & _). exfalso. apply (Hdis h Hd).
      apply elem_flat_map_hashes. by exists x, i, tx.
    + intros (x & i & tx & Hxc & Hi & Hhx & ?). exists x, i, tx. split; [|done].
      apply Hin in Hxc as [->|?]; [|done]. exfalso. apply Hd. rewrite <-Hhx.
      apply list_elem_of_fmap. exists tx. split; [done|]. by eapply list_elem_of_lookup_2.
    + intros (x & i & tx & Hxc & ?). exists x, i, tx. rewrite Hin. naive_solver.
Qed.

Lemma popFront_inv st st' : Storage_inv st → popFront st = Ok st' → Storage_inv st'.
Proof.
  intros Hi Hp. unfold popFront in Hp. destruct (chain st) as [|b c] eqn:E; [done|].
  apply Ok_inj in Hp as <-. apply unindex_block_inv; [done|by rewrite E|].
  pose proof (si_linked _ Hi) as Hl. rewrite E in Hl. by apply chain_linked_cons in Hl as [? _].
Qed.

Lemma popBack_inv st st' : Storage_inv st → popBack st = Ok st' → Storage_inv st'.
Proof.
  intros Hi Hp. unfold popBack in Hp. destruct (last (chain st)) as [b|] eqn:E; [|done].
  apply Ok_inj in Hp as <-. apply last_Some in E as [c E]. rewrite E, removelast_last.
  apply unindex_block_inv; [done|by rewrite E, Permutation_app_comm|].
  pose proof (si_linked _ Hi) as Hl. rewrite E in Hl. by apply chain_linked_snoc in Hl as [? _].
Qed.

(** ** Reachable states *)

Lemma inv_same st st' :
  chain st' = chain st → blockByHash st' = blockByHash st → txByHash st' = txByHash st →
  Storage_inv st → Storage_inv st'.
Proof. intros E1 E2 E3 [? ? ? ? ? ?]. constructor; by rewrite ?E1, ?E2, ?E3. Qed.

Lemma block_tx_chain st h i tx :
  Storage_inv st → block_tx (blockByHash st) h i = Ok tx →
  ∃ b, b ∈ chain st ∧ Block_hash b = h ∧ 0 ≤ i ∧ b_txs b !! Z.to_nat i = Some tx.
Proof.
  intros Hi Ht. unfold block_tx in Ht. destruct (blockByHash st !! h) as [b|] eqn:E; [|done].
  apply (si_blocks _ Hi) in E as [Hb Hh]. unfold at_view in Ht. case_bool_decide; [|done].
  destruct (b_txs b !! Z.to_nat i) eqn:El; [|done]. apply Ok_inj in Ht as ->. by exists b.
Qed.

(** A transaction of the chain is indexed, so that [txByHash[...]] creates
    nothing. *)
Lemma bracket_tx_chain st b i tx :
  Storage_inv st → b ∈ chain st → b_txs b !! i = Some tx →
  bracket_tx st tx = ((Block_hash b, Z.of_nat i, b_nHeight b), st).
Proof.
  intros Hi Hb Htx. unfold bracket_tx, map_bracket, map_emplace.
  assert (txByHash st !! TxBlock_hash tx true = Some (Block_hash b, Z.of_nat i, b_nHeight b)) as ->
    by (apply (si_txs _ Hi); by exists b, i, tx).
  by destruct st.
Qed.

Inductive storage_step (db : rstore) : Storage → Storage → Prop :=
  | ss_pushBack st b st' : fresh_block st b → pushBack st b = Ok st' → storage_step db st st'
  | ss_pushFront st b st' : fresh_block st b → pushFront st b = Ok st' → storage_step db st st'
  | ss_popBack st st' : popBack st = Ok st' → storage_step db st st'
  | ss_popFront st st' : popFront st = Ok st' → storage_step db st st'
  | ss_getBlock_hash st h r st' : getBlock_hash st db h = Ok (r, st') → storage_step db st st'
  | ss_getBlock_height st n r st' : getBlock_height st db n = Ok (r, st') → storage_step db st st'
  | ss_getTx st h r st' : getTx st db h = Ok (r, st') → storage_step db st st'
  | ss_getTx_hash st h i : storage_step db st (getTxByBlockHashAndIndex st db h i).2
  | ss_getTx_height st n i r st' :
      getTxByBlockNumberAndIndex st db n i = Ok (r, st') → storage_step db st st'.

Lemma load_block_inv st db h r st' :
  Storage_inv st → load_block st db h = Ok (r, st') → Storage_inv st'.
Proof.
  intros Hi Hl. unfold load_block in Hl. apply bind_Ok in Hl as (b & _ & Hl).
  injection Hl as <- <-. by apply (inv_same st).
Qed.

Lemma cached_tx_inv st h i r st' :
  Storage_inv st → cached_tx st h i = Ok (r, st') → Storage_inv st'.
Proof.
  intros Hi Hl. unfold cached_tx in Hl. apply bind_Ok in Hl as (b & _ & Hl).
  injection Hl as <- <-. by apply (inv_same st).
Qed.

Lemma load_tx_inv st db h i r st' :
  Storage_inv st → load_tx st db h i = Ok (r, st') → Storage_inv st'.
Proof.
  intros Hi Hl. unfold load_tx in Hl. apply bind_Ok in Hl as (b & _ & Hl).
  injection Hl as <- <-. by apply (inv_same st).
Qed.

Lemma with_state_inv st (r : outcome (tx_info * Storage)) :
  Storage_inv st → (∀ i st', r = Ok (i, st') → Storage_inv st') → Storage_inv (with_state st r).2.
Proof. intros Hi Hr. destruct r as [[i st']| |]; cbn; [by eapply Hr|done..]. Qed.

Lemma storage_step_inv db st st' : storage_step db st st' → Storage_inv st → Storage_inv st'.
Proof.
  intros Hs Hi. destruct Hs as [st b st' Hf Hp|st b st' Hf Hp|st st' Hp|st st' Hp|st h r st' Hg
    |st n r st' Hg|st h r st' Hg|st h i|st n i r st' Hg].
  - by eapply pushBack_inv.
  - by eapply pushFront_inv.
  - by eapply popBack_inv.
  - by eapply popFront_inv.
  - unfold getBlock_hash in Hg. case_match; simplify_eq; try done. by eapply load_block_inv.
  - unfold getBlock_height in Hg. repeat case_match; simplify_eq; try done. by eapply load_block_inv.
  - unfold getTx in Hg. case_match; [by simplify_eq| |by simplify_eq|].
    + inv_ok. by simplify_eq.
    + inv_ok. simplify_eq. by apply (inv_same st).
  - unfold getTxByBlockHashAndIndex. case_match; [done| | |].
    + destruct (block_tx _ h i) as [tx| |] eqn:E; [|done..].
      destruct (block_tx_chain _ _ _ _ Hi E) as (b & Hb & _ & _ & Htx).
      rewrite (bracket_tx_chain st b _ tx Hi Hb Htx). by case_match.
    + apply with_state_inv; [done|]. intros ? ?. by apply cached_tx_inv.
    + apply with_state_inv; [done|]. intros ? ?. by apply load_tx_inv.
  - unfold getTxByBlockNumberAndIndex in Hg. repeat case_match; simplify_eq; try done.
    + apply bind_Ok in Hg as (tx & E & Hg).
      destruct (block_tx_chain _ _ _ _ Hi E) as (b & Hb & _ & _ & Htx).
      rewrite (bracket_tx_chain st b _ tx Hi Hb Htx) in Hg. by simplify_eq.
    + by eapply cached_tx_inv.
    + by eapply load_tx_inv.
Qed.

Lemma Storage_empty_inv : Storage_inv Storage_empty.
Proof.
  constructor; cbn; try done; [constructor..| |].
  - intros h b. rewrite lookup_empty. split; [done|]. by intros [?%elem_of_nil _].
  - intros h v. rewrite lookup_empty. split; [done|]. by intros (b & i & tx & ?%elem_of_nil & _).
Qed.

Lemma storage_reach_inv db st : rtc (storage_step db) Storage_empty st → Storage_inv st.
Proof.
  intros Hr. assert (∀ st0, rtc (storage_step db) st0 st → Storage_inv st0 → Storage_inv st) as Hg.
  { clear Hr. induction 1; [done|]. intros. by eauto using storage_step_inv. }
  eapply Hg; [exact Hr|apply Storage_empty_inv].
Qed.

(** ** A transaction inside a serialised block *)

Lemma block_layout b :
  Block_shape b → ∃ pre, serializeBlock b = pre ++ tx_items b ++ val_items b ∧ zlen pre = 217.
Proof.
  intros Hs. pose proof (serializeBlock_spec b Hs) as E. destruct Hs as [Hsig Hp Hr Hv Ht _ _].
  exists (b_validatorSig b ++ b_prevBlockHash b ++ b_blockRandomness b ++ b_validatorMerkleRoot b ++
    b_txMerkleRoot b ++ uint64ToBytes (b_timestamp b) ++ uint64ToBytes (b_nHeight b) ++
    uint64ToBytes (217 + zlen (tx_items b))).
  split; [rewrite E, <-!app_assoc; reflexivity|].
  rewrite !zlen_app, !uint64ToBytes_zlen.
  by rewrite (zlen_of_length _ _ Hsig), (zlen_of_length _ _ Hp), (zlen_of_length _ _ Hr),
    (zlen_of_length _ _ Hv), (zlen_of_length _ _ Ht).
Qed.

Lemma getTxFromBlock_serialized b i tx :
  Block_shape b → zlen (serializeBlock b) < 2 ^ 63 →
  Forall (λ tx, zlen (TxBlock_rlpSerialize tx true) < 2 ^ 32 ∧
                TxBlock_parse (TxBlock_rlpSerialize tx true) chainID = Ok tx) (b_txs b) →
  b_txs b !! i = Some tx →
  getTxFromBlockWithIndex (serializeBlock b) (Z.of_nat i) = Ok tx.
Proof.
  intros Hs Hm Htx Hi. destruct (block_layout b Hs) as (pre & E & Hpre).
  set (d := serializeBlock b) in *. set (rlp := λ tx, TxBlock_rlpSerialize tx true) in *.
  assert (serialize_items rlp (b_txs b) =
    serialize_items rlp (take i (b_txs b)) ++ (uint32ToBytes (zlen (rlp tx)) ++ rlp tx) ++
    serialize_items rlp (drop (S i) (b_txs b))) as Esplit.
  { rewrite <-(take_drop_middle _ _ _ Hi) at 1. unfold serialize_items. by rewrite flat_map_app. }
  assert (at_pos d 217 (serialize_items rlp (take i (b_txs b)) ++
    (uint32ToBytes (zlen (rlp tx)) ++ rlp tx ++ serialize_items rlp (drop (S i) (b_txs b)) ++ val_items b))) as Hp.
  { exists pre. rewrite E, Esplit, <-!app_assoc. done. }
  destruct (serialize_items_read rlp (λ s, TxBlock_parse s chainID) (take i (b_txs b)) d 217 _
    (S (length (take i (b_txs b)))) 0 Hm (Forall_take _ _ _ Htx) Hp ltac:(lia)) as [Hpi _].
  apply skip_items_parse in Hpi. rewrite length_take in Hpi.
  rewrite Nat.min_l in Hpi by (apply lookup_lt_Some in Hi; lia).
  set (j := 217 + zlen (serialize_items rlp (take i (b_txs b)))) in *.
  apply (at_pos_app _ _ _ _ j) in Hp; [|done].
  pose proof (proj1 (Forall_forall _ _) Htx tx (list_elem_of_lookup_2 _ _ _ Hi)) as [Hsz Hpt].
  pose proof (at_pos_bounds _ _ _ Hp) as [Hj0 Hjb]. rewrite zlen_app, uint32ToBytes_zlen in Hjb.
  assert (at_pos d (j + 4) (rlp tx ++ serialize_items rlp (drop (S i) (b_txs b)) ++ val_items b)) as Hp1
    by (eapply at_pos_app; [exact Hp|by rewrite uint32ToBytes_zlen]).
  pose proof (zlen_nonneg (rlp tx ++ serialize_items rlp (drop (S i) (b_txs b)) ++ val_items b)).
  unfold getTxFromBlockWithIndex. rewrite Nat2Z.id, Hpi. cbn [mbind outcome_bind].
  rewrite (read_size_at d j (zlen (rlp tx)) _ ltac:(split; [apply zlen_nonneg|exact Hsz]) Hp).
  cbn [mbind outcome_bind]. unfold wrap. rewrite Z.mod_small by lia.
  destruct (substr_pos d (j + 4) (zlen (rlp tx)) _ _ Hp1 eq_refl) as [-> _].
  cbn [mbind outcome_bind]. exact Hpt.
Qed.

(** ** What the destructor leaves in the database *)

Lemma tx_entries_keys c : e_key <$> tx_entries c = flat_map tx_hashes c.
Proof.
  induction c as [|b c IH]; [done|]. unfold tx_entries in *. cbn [flat_map]. rewrite fmap_app, IH.
  f_equal. unfold tx_hashes. apply list_eq. intros i. rewrite !list_lookup_fmap, list_lookup_imap.
  by destruct (b_txs b !! i).
Qed.

Lemma tx_entries_elem c b i tx :
  b ∈ c → b_txs b !! i = Some tx →
  mkDBEntry (TxBlock_hash tx true) (Block_hash b ++ uint32ToBytes (Z.of_nat i) ++ uint64ToBytes (b_nHeight b))
  ∈ tx_entries c.
Proof.
  intros Hb Hi. unfold tx_entries. apply list_elem_of_In, in_flat_map. exists b.
  rewrite <-!list_elem_of_In. split; [done|]. apply list_elem_of_lookup. exists i.
  by rewrite list_lookup_imap, Hi.
Qed.

Lemma Block_hash_length b : length (Block_hash b) = 32%nat.
Proof. apply sha3_length. Qed.

Lemma dtor_entries st db db' bl :
  Storage_inv st → (∀ s ops, is_Some (r_write s ops)) → last (chain st) = Some bl →
  Storage_dtor st db = Ok db' →
  DB_get db' latest_key DBPrefix.blocks = serializeBlock bl ∧
  (∀ b, b ∈ chain st → DB_get db' (Block_hash b) DBPrefix.blocks = serializeBlock b) ∧
  (∀ b i tx, b ∈ chain st → b_txs b !! i = Some tx →
     DB_get db' (TxBlock_hash tx true) DBPrefix.txToBlocks =
       Block_hash b ++ uint32ToBytes (Z.of_nat i) ++ uint64ToBytes (b_nHeight b)).
Proof.
  intros Hi Hw Hl Hd. unfold Storage_dtor, latest in Hd. rewrite Hl in Hd.
  cbn [mbind outcome_bind] in Hd. apply Ok_inj in Hd as <-.
  assert (∀ (p q k : bytes), p ≠ q → length p = length q → ∀ k', p ++ k ≠ q ++ k') as Hpk.
  { intros p q k Hne Hlen k' E. apply app_inj_1 in E as [? _]; done. }
  split_and!.
  - rewrite DB_get_put by done. by rewrite bool_decide_true.
  - intros b Hb. rewrite DB_get_put, bool_decide_false; [|intros E; apply app_inv_head in E|done].
    + rewrite !DB_get_putBatch_other by done. apply DB_get_putBatch; [done| |].
      * unfold block_entries. cbn [puts]. rewrite <-list_fmap_compose. apply (si_hashes _ Hi).
      * apply list_elem_of_fmap. by exists b.
    + apply (f_equal length) in E. rewrite Block_hash_length in E. done.
  - intros b i tx Hb Htx. rewrite DB_get_put, bool_decide_false by (done || by apply Hpk).
    apply DB_get_putBatch; [done| |by apply tx_entries_elem].
    cbn [puts]. rewrite tx_entries_keys. apply (si_txhashes _ Hi).
Qed.

(** * Properties *)


(** In such a state every block of the chain is found by its hash, and
    every transaction of it by its hash and by its position, with the block it
    is in, without reading the database and without changing the state. *)
Theorem storage_lookup db st b :
  rtc (storage_step db) Storage_empty st → b ∈ chain st →
  getBlock_hash st db (Block_hash b) = Ok (Some b, st) ∧
  ∀ i tx, b_txs b !! i = Some tx →
    getTx st db (TxBlock_hash tx true) =
      Ok ((Some tx, Block_hash b, Z.of_nat i, b_nHeight b), st) ∧
    getTxByBlockHashAndIndex st db (Block_hash b) (Z.of_nat i) =
      (Ok (Some tx, Block_hash b, Z.of_nat i, b_nHeight b), st).
Proof.
  intros Hr Hb. pose proof (storage_reach_inv _ _ Hr) as Hi.
  assert (blockByHash st !! Block_hash b = Some b) as Eb by (by apply (si_blocks _ Hi)).
  assert (blockExists_hash st db (Block_hash b) = OnChain) as Ex
    by (unfold blockExists_hash; by rewrite Eb, bool_decide_true).
  split; [unfold getBlock_hash; by rewrite Ex, Eb|]. intros i tx Htx.
  assert (txByHash st !! TxBlock_hash tx true = Some (Block_hash b, Z.of_nat i, b_nHeight b)) as Et
    by (apply (si_txs _ Hi); by exists b, i, tx).
  assert (block_tx (blockByHash st) (Block_hash b) (Z.of_nat i) = Ok tx) as Ebt.
  { unfold block_tx, at_view. rewrite Eb, bool_decide_true, Nat2Z.id by lia. by rewrite Htx. }
  split.
  - unfold getTx, txExists. rewrite Et. rewrite bool_decide_true by done. cbn.
    rewrite Ebt. cbn. by rewrite bool_decide_true.
  - unfold getTxByBlockHashAndIndex. rewrite Ex, Ebt, (bracket_tx_chain st b i tx Hi Hb Htx).
    by rewrite bool_decide_true, Z.eqb_refl.
Qed.


(** [popBack] leaves the height index as it was, and the next [pushBack]
    at that height does not replace the entry: asking for the height then
    looks for the removed block in the database and throws. *)
Theorem storage_stale_height db st b b' st1 st2 :
  Storage_inv st → last (chain st) = Some b →
  blockHashByHeight st !! b_nHeight b = Some (Block_hash b) →
  popBack st = Ok st1 → fresh_block st1 b' → b_nHeight b' = b_nHeight b → Block_hash b' ≠ Block_hash b →
  pushBack st1 b' = Ok st2 →
  cachedBlocks st !! Block_hash b = None → DB_has db (Block_hash b) DBPrefix.blocks = false →
  getBlock_height st2 db (b_nHeight b') = Throw (runtime_error "Block: Invalid block size - too short").
Proof.
  intros Hi Hl Hbh Hpop Hf Hn Hne Hpush Hc Hdb.
  pose proof (popBack_inv _ _ Hi Hpop) as Hi1.
  unfold popBack in Hpop. rewrite Hl in Hpop. apply Ok_inj in Hpop as <-.
  unfold pushBack, pushBackInternal in Hpush. apply bind_Ok in Hpush as ([] & _ & Hpush).
  apply Ok_inj in Hpush as <-.
  set (st2 := index_block _ b').
  assert (blockHashByHeight st2 !! b_nHeight b' = Some (Block_hash b)) as E1.
  { subst st2. cbn. rewrite Hn. unfold map_emplace. by rewrite Hbh. }
  assert (blockByHash st2 !! Block_hash b = None) as E2.
  { subst st2. cbn. unfold map_emplace. case_match; [apply lookup_delete_eq|].
    by rewrite lookup_insert_ne, lookup_delete_eq. }
  assert (cachedBlocks st2 !! Block_hash b = None) as E3 by done.
  assert (DB_get db (Block_hash b) DBPrefix.blocks = []) as E4.
  { rewrite DB_has_spec in Hdb. rewrite DB_get_spec. apply bool_decide_eq_false in Hdb.
    destruct (lookup_db db _); [|done]. exfalso. by apply Hdb. }
  unfold getBlock_height, blockExists_height. rewrite E1, E2, E3.
  rewrite !bool_decide_false by (by intros []). unfold load_block. by rewrite E4.
Qed.

End Storage.

(** Two blocks in a row, the second with a transaction, on an empty database. *)
Definition st_block0 : Block := Block_new (replicate 32 0) 100 0.
Definition st_block1 : Block :=
  (appendTx (Block_new (@Block_hash toy_keccak st_block0) 200 1) plain_tx).2.
Definition st_block1' : Block := Block_new (@Block_hash toy_keccak st_block0) 300 1.

Definition st_of (o : outcome Storage) : Storage := match o with Ok st => st | _ => Storage_empty end.
Definition st_one : Storage := st_of (@pushBack toy_keccak Storage_empty st_block0).
Definition st_two : Storage := st_of (@pushBack toy_keccak st_one st_block1).

Lemma st_two_reach db : rtc (@storage_step toy_keccak toy_secp toy_rocks 1 8080 db) Storage_empty st_two.
Proof.
  eapply (rtc_l _ _ st_one); [|apply rtc_once].
  - eapply (ss_pushBack _ _ _ _ st_block0);
      [apply (bool_decide_unpack _); vm_compute; exact I|vm_compute; reflexivity].
  - eapply (ss_pushBack _ _ _ _ st_block1);
      [apply (bool_decide_unpack _); vm_compute; exact I|vm_compute; reflexivity].
Qed.


Lemma storage_lookup_witness :
  @getBlock_hash toy_keccak toy_secp toy_rocks 1 8080 st_two [] (@Block_hash toy_keccak st_block1)
  = Ok (Some st_block1, st_two).
Proof.
  refine (proj1 (@storage_lookup toy_keccak toy_secp toy_rocks 1 8080 [] st_two st_block1
    (st_two_reach []) _)).
  apply (bool_decide_unpack _). vm_compute. exact I.
Defined.

Lemma storage_stale_height_witness :
  let st1 := st_of (@popBack toy_keccak st_two) in
  let st2 := st_of (@pushBack toy_keccak st1 st_block1') in
  @getBlock_height toy_keccak toy_secp toy_rocks 1 8080 st2 [] 1
  = Throw (runtime_error "Block: Invalid block size - too short").
Proof.
  refine (@storage_stale_height toy_keccak toy_secp toy_rocks 1 8080 [] st_two st_block1 st_block1'
    _ _ (@storage_reach_inv toy_keccak toy_secp toy_rocks 1 8080 [] st_two (st_two_reach []))
    _ _ _ _ _ _ _ _ _);
    try (vm_compute; reflexivity).
  - apply (bool_decide_unpack _). vm_compute. exact I.
  - vm_compute. discriminate.
Defined.

Definition tx_of (o : outcome TxBlock) : TxBlock := match o with Ok tx => tx | _ => plain_tx end.
Definition st_block2 : Block :=
  (appendTx (Block_new (replicate 32 0) 100 0) (tx_of (sample_TxBlock [1; 2; 3]))).2.
Definition st_kept : Storage := st_of (@pushBack toy_keccak Storage_empty st_block2).
Definition st_saved : list (bytes * bytes) :=
  match @Storage_dtor toy_keccak toy_rocks st_kept [] with Ok db => db | _ => [] end.

