(* ===== verification/RdPoS.v ===== *)
(** * RdPoS: the Random Deterministic Proof of Stake (src/core/rdpos.{h,cpp})

    The state is the ordered set of validators, its shuffled list, the mempool
    of Validator transactions and the seed.  The worker's two kinds of action,
    creating its transactions and marking that a block can be created, are
    translated; its waiting loops and the network requests in them are not.
    Locks make each public call one transition. *)

From S2P Require Import Prelude Utils Hex Strings Merkle RandomGen Ecdsa Tx Block DB Storage.

Definition minValidators : Z := 4.

Record rdPoS := mkRdPoS {
  validators : list bytes;
  randomList : list bytes;
  validatorMempool : gmap bytes TxValidator;
  validatorKey : bytes;
  isValidator : bool;
  bestRandomSeed : bytes;
  randomGen : bytes;
  canCreateBlock : bool;
}.

(** [std::set<Validator>::insert]: ascending and without repetitions. *)
Fixpoint set_insert (a : bytes) (l : list bytes) : list bytes :=
  match l with
  | [] => [a]
  | x :: l' =>
      if bytes_ltb x a then x :: set_insert a l'
      else if bytes_ltb a x then a :: l else l
  end.

Section RdPoS.
Context `{Keccak, Secp256k1Lib, RocksDB}.

(** [initializeBlockchain]: five validators when the database has none. *)
Definition genesisValidators : list bytes :=
  be_split 20 <$>
  [0x7588b0f553d1910266089c58822e1120db47e572; 0xcabf34a268847a610287709d841e5cd590cc5c00;
   0x5fb516dc2cfc1288e689ed377a9eebe2216cf1e3; 0x795083c42583842774febc21abb6df09e784fce5;
   0xbec7b74f70c151707a0bfb20fe3767c6e65499e0].

Definition rdPoS_initializeBlockchain (db : rstore) : rstore :=
  if bool_decide (DB_getBatch db DBPrefix.rdPoS [] = []) then
    foldl (λ db e, (DB_put db (uint64ToBytes (Z.of_nat e.1)) e.2 DBPrefix.rdPoS).2)
      db (imap pair genesisValidators)
  else db.

(** The constructor, with the storage's latest block. *)
Definition rdPoS_ctor (db : rstore) (st : Storage) (validatorPrivKey : bytes) : outcome (rdPoS * rstore) :=
  let db := rdPoS_initializeBlockchain db in
  let validatorsDb := DB_getBatch db DBPrefix.rdPoS [] in
  _ ← throw_if (bool_decide (validatorsDb = [])) (runtime_error "No rdPoS in DB.");
  validators ← foldM (λ s e, a ← Address_ctor (e_value e) true; Ok (set_insert a s)) [] validatorsDb;
  b ← latest st;
  let bestRandomSeed := b_blockRandomness b in
  '(seed, randomList) ← shuffle bestRandomSeed validators;
  Ok (mkRdPoS validators randomList ∅ validatorPrivKey (FixedStr_bool validatorPrivKey)
        bestRandomSeed seed false, db).

(** The destructor: the validators by their position. *)
Definition rdPoS_dtor (rd : rdPoS) (db : rstore) : rstore :=
  (DB_putBatch db (mkDBBatch (imap (λ i v, mkDBEntry (uint64ToBytes (Z.of_nat i)) v) (validators rd)) [])
     DBPrefix.rdPoS).2.

(** The loop of [validateBlock] that pairs the transactions: [None] is a
    [return false]; the map is keyed by the hash of the first of each pair. *)
Definition emplace_pair (m : list (bytes * (TxValidator * TxValidator))) (p : TxValidator * TxValidator) :=
  let k := TxValidator_hash p.1 true in
  if bool_decide (k ∈ m.*1) then m else m ++ [(k, p)].

Definition pair_step (rd : rdPoS) (txs : list TxValidator)
    (o : option (list (bytes * (TxValidator * TxValidator)))) (i : Z)
    : outcome (option (list (bytes * (TxValidator * TxValidator)))) :=
  match o with
  | None => Ok None
  | Some m =>
      hashTx ← at_view txs i;
      expected ← at_view (randomList rd) (i + 1);
      if negb (bool_decide (tv_from hashTx = expected)) then Ok None
      else
        seedTx ← at_view txs (i + minValidators);
        if negb (bool_decide (tv_from seedTx = expected)) then Ok None
        else Ok (Some (emplace_pair m (hashTx, seedTx)))
  end.

Definition pair_txs (rd : rdPoS) (txs : list TxValidator)
    : outcome (option (list (bytes * (TxValidator * TxValidator)))) :=
  foldM (pair_step rd txs) (Some []) (Z.of_nat <$> seq 0 (Z.to_nat minValidators)).

(** The checks on one pair. *)
Definition check_pair (hashTx seedTx : TxValidator) : bool :=
  let hashTxFunction := getTxValidatorFunction hashTx in
  let seedTxFunction := getTxValidatorFunction seedTx in
  negb (bool_decide (hashTxFunction = INVALID)) &&
  negb (bool_decide (seedTxFunction = INVALID)) &&
  bool_decide (tv_from hashTx = tv_from seedTx) &&
  bool_decide (hashTxFunction = RANDOMHASH) &&
  bool_decide (seedTxFunction = RANDOMSEED) &&
  bool_decide (sha3 (drop 4 (tv_data seedTx)) = drop 4 (tv_data hashTx)).

Definition validateBlock (rd : rdPoS) (st : Storage) (b : Block) : outcome bool :=
  latestBlock ← latest st;
  if negb (b_finalized b) then Ok false
  else
    signer ← toAddress (b_validatorPubKey b);
    first ← at_view (randomList rd) 0;
    if negb (bool_decide (signer = first)) then Ok false
    else if negb (zlen (b_txValidators b) =? minValidators * 2) then Ok false
    else if negb (forallb (λ tx, tv_nHeight tx =? b_nHeight b) (b_txValidators b)) then Ok false
    else
      o ← pair_txs rd (b_txValidators b);
      match o with
      | None => Ok false
      | Some m =>
          if negb (zlen m =? minValidators) then Ok false
          else Ok (forallb (λ e, check_pair e.2.1 e.2.2) m)
      end.

Definition processBlock (rd : rdPoS) (b : Block) : outcome (bytes * rdPoS) :=
  _ ← throw_if (negb (b_finalized b)) (runtime_error "Block is not finalized.");
  let bestRandomSeed := b_blockRandomness b in
  '(seed, randomList) ← shuffle bestRandomSeed (validators rd);
  Ok (bestRandomSeed,
      mkRdPoS (validators rd) randomList ∅ (validatorKey rd) (isValidator rd)
        bestRandomSeed seed (canCreateBlock rd)).

(** [signBlock], at the time the clock gives. *)
Definition signBlock (rd : rdPoS) (b : Block) (newTimestamp : Z) : outcome (Block * rdPoS) :=
  '(_, b) ← finalize b (validatorKey rd) newTimestamp;
  Ok (b, mkRdPoS (validators rd) (randomList rd) (validatorMempool rd) (validatorKey rd)
           (isValidator rd) (bestRandomSeed rd) (randomGen rd) false).

Definition set_mempool (rd : rdPoS) (m : gmap bytes TxValidator) : rdPoS :=
  mkRdPoS (validators rd) (randomList rd) m (validatorKey rd) (isValidator rd)
    (bestRandomSeed rd) (randomGen rd) (canCreateBlock rd).

Definition clearMempool (rd : rdPoS) : rdPoS := set_mempool rd ∅.

(** [for (i = 1; i < minValidators + 1; ++i) if (... == randomList[i]) break;] *)
Fixpoint participates (l : list bytes) (from : bytes) (idx : list Z) : outcome bool :=
  match idx with
  | [] => Ok false
  | i :: idx => x ← at_view l i; if bool_decide (from = x) then Ok true else participates l from idx
  end.

Definition txs_from (m : gmap bytes TxValidator) (from : bytes) : list TxValidator :=
  filter (λ tx, tv_from tx = from) (map_to_list m).*2.

Definition addValidatorTx (rd : rdPoS) (st : Storage) (tx : TxValidator) : outcome (bool * rdPoS) :=
  if bool_decide (is_Some (validatorMempool rd !! TxValidator_hash tx true)) then Ok (true, rd)
  else
    latestBlock ← latest st;
    if negb (tv_nHeight tx =? u64 (b_nHeight latestBlock + 1)) then Ok (false, rd)
    else
      p ← participates (randomList rd) (tv_from tx) [1; 2; 3; 4];
      if negb p then Ok (false, rd)
      else
        let add := set_mempool rd (map_emplace (TxValidator_hash tx true) tx (validatorMempool rd)) in
        match txs_from (validatorMempool rd) (tv_from tx) with
        | [] => Ok (true, add)
        | [tx0] =>
            if bool_decide (take 4 (tv_data tx0) = take 4 (tv_data tx)) then Ok (false, rd)
            else Ok (true, add)
        | _ => Ok (false, rd)
        end.

Definition isValidatorAddress (rd : rdPoS) (a : bytes) : bool := bool_decide (a ∈ validators rd).

(** The transactions that [rdPoSWorker::doTxCreation] makes from 32 random
    bytes, and the order in which it submits them. *)
Definition createValidatorTxs (rd : rdPoS) (chainID : Z) (me randomness : bytes) (nHeight : Z)
    : outcome (option (TxValidator * TxValidator)) :=
  let randomHash := sha3 randomness in
  randomHashTx ← TxValidator_sign me (randomHashHash ++ randomHash) chainID nHeight (validatorKey rd);
  seedTx ← TxValidator_sign me (randomSeedHash ++ randomness) chainID nHeight (validatorKey rd);
  if negb (bool_decide (sha3 (drop 4 (tv_data seedTx)) = drop 4 (tv_data randomHashTx))) then Ok None
  else Ok (Some (randomHashTx, seedTx)).

(** * Lemmas *)

(** ** The specification of a valid block *)

(** What rdPoS asks of a block: the first of the shuffled list signs it, and
    the next four commit to a seed and reveal it, in the order of the list. *)
Record valid_round (rl : list bytes) (b : Block) : Prop := {
  vr_final : b_finalized b = true;
  vr_signer : ∃ a, rl !! 0%nat = Some a ∧ toAddress (b_validatorPubKey b) = Ok a;
  vr_size : length (b_txValidators b) = 8%nat;
  vr_height : Forall (λ tx, tv_nHeight tx = b_nHeight b) (b_txValidators b);
  vr_pairs : ∀ i, (i < 4)%nat → ∃ a h s,
    rl !! S i = Some a ∧ b_txValidators b !! i = Some h ∧ b_txValidators b !! (i + 4)%nat = Some s ∧
    tv_from h = a ∧ tv_from s = a ∧
    getTxValidatorFunction h = RANDOMHASH ∧ getTxValidatorFunction s = RANDOMSEED ∧
    sha3 (drop 4 (tv_data s)) = drop 4 (tv_data h);
  vr_distinct : NoDup ((λ tx, TxValidator_hash tx true) <$> take 4 (b_txValidators b));
}.

Lemma at_view_Some {A} (l : list A) (i : nat) x : l !! i = Some x → at_view l (Z.of_nat i) = Ok x.
Proof. intros Hl. unfold at_view. rewrite bool_decide_true, Nat2Z.id by lia. by rewrite Hl. Qed.

Lemma check_pair_spec h s :
  check_pair h s = true ↔
  tv_from h = tv_from s ∧ getTxValidatorFunction h = RANDOMHASH ∧
  getTxValidatorFunction s = RANDOMSEED ∧ sha3 (drop 4 (tv_data s)) = drop 4 (tv_data h).
Proof.
  unfold check_pair. rewrite !andb_true_iff, !negb_true_iff, !bool_decide_eq_false, !bool_decide_eq_true.
  split; [naive_solver|]. intros (? & E1 & E2 & ?). rewrite E1, E2. naive_solver.
Qed.

Lemma pair_step_eval rd txs m i h s a :
  txs !! i = Some h → txs !! (i + 4)%nat = Some s → randomList rd !! S i = Some a →
  pair_step rd txs (Some m) (Z.of_nat i) =
    Ok (if bool_decide (tv_from h = a ∧ tv_from s = a) then Some (emplace_pair m (h, s)) else None).
Proof.
  intros Hh Hs Ha. unfold pair_step. rewrite (at_view_Some _ _ _ Hh). cbn [mbind outcome_bind].
  replace (Z.of_nat i + 1) with (Z.of_nat (S i)) by lia. rewrite (at_view_Some _ _ _ Ha).
  cbn [mbind outcome_bind]. destruct (decide (tv_from h = a)) as [E1|N1].
  - rewrite (bool_decide_true (tv_from h = a)) by done. cbn [negb].
    replace (Z.of_nat i + minValidators) with (Z.of_nat (i + 4)) by (unfold minValidators; lia).
    rewrite (at_view_Some _ _ _ Hs). cbn [mbind outcome_bind].
    destruct (decide (tv_from s = a)).
    + by rewrite !bool_decide_true by done.
    + by rewrite !bool_decide_false by naive_solver.
  - by rewrite !bool_decide_false by naive_solver.
Qed.

Lemma pair_fold_None rd txs l : foldM (pair_step rd txs) None l = Ok None.
Proof. by induction l. Qed.

(** The pairs of the transactions [i] and [i + 4]. *)
Definition pairs_of (txs : list TxValidator) : list (TxValidator * TxValidator) :=
  zip (take 4 txs) (drop 4 txs).

(** The pair comes from the validator. *)
Definition from_both (p : TxValidator * TxValidator) (a : bytes) : Prop :=
  tv_from p.1 = a ∧ tv_from p.2 = a.

Lemma pair_fold_eval rd txs k m ps al :
  length ps = length al →
  (∀ i p, ps !! i = Some p → txs !! (k + i)%nat = Some p.1 ∧ txs !! (k + i + 4)%nat = Some p.2) →
  (∀ i a, al !! i = Some a → randomList rd !! S (k + i) = Some a) →
  foldM (pair_step rd txs) (Some m) (Z.of_nat <$> seq k (length ps)) =
    Ok (if decide (Forall2 from_both ps al) then Some (foldl emplace_pair m ps) else None).
Proof.
  revert k m al. induction ps as [|[h s] ps IH]; intros k m [|a al] Hl Hp Ha; try done.
  cbn [length seq fmap list_fmap foldM].
  destruct (Hp 0%nat (h, s) eq_refl) as [E1 E2]. pose proof (Ha 0%nat a eq_refl) as E3.
  rewrite Nat.add_0_r in *. rewrite (pair_step_eval rd txs m k h s a E1 E2 E3).
  cbn [mbind outcome_bind]. case_bool_decide as Hf.
  - fold (@fmap list _ _ _ Z.of_nat (seq (S k) (length ps))). rewrite (IH (S k) _ al).
    + cbn [foldl]. f_equal. destruct (decide (Forall2 from_both ps al)) as [F|F].
      * rewrite decide_True; [done|]. by constructor.
      * rewrite decide_False; [done|]. intros F'. by inversion F'.
    + by injection Hl.
    + intros i p Hi. rewrite !Nat.add_succ_comm. by apply (Hp (S i)).
    + intros i x Hi. rewrite Nat.add_succ_comm. by apply (Ha (S i)).
  - rewrite pair_fold_None. rewrite decide_False; [done|]. intros F'. by inversion F'.
Qed.

(** Emplacing pairs keeps all of them exactly when their keys differ. *)
Lemma emplace_pairs_NoDup ps :
  NoDup ((λ p, TxValidator_hash p.1 true) <$> ps) →
  foldl emplace_pair [] ps = (λ p, (TxValidator_hash p.1 true, p)) <$> ps.
Proof.
  induction ps as [|p ps IH] using rev_ind; intros Hnd; [done|].
  rewrite fmap_app in Hnd. apply NoDup_app in Hnd as (Hnd & Hdis & _).
  rewrite foldl_app, fmap_app, IH by done. cbn. unfold emplace_pair.
  rewrite bool_decide_false; [done|]. rewrite <-list_fmap_compose. intros Hin.
  apply (Hdis _ Hin). cbn. left.
Qed.

Lemma emplace_pairs_length ps :
  (length (foldl emplace_pair [] ps) ≤ length ps)%nat ∧
  (length (foldl emplace_pair [] ps) = length ps →
   NoDup ((λ p, TxValidator_hash p.1 true) <$> ps)).
Proof.
  induction ps as [|p ps [IH1 IH2]] using rev_ind; [split; [done|constructor]|].
  rewrite foldl_app, fmap_app, length_app. cbn [foldl fmap list_fmap length].
  pose proof (emplace_pairs_NoDup ps) as Hmap. set (m := foldl emplace_pair [] ps) in *.
  unfold emplace_pair. cbn [fst]. case_bool_decide as Hin.
  - split; [lia|]. intros Hl. lia.
  - rewrite length_app. cbn. split; [lia|]. intros Hl.
    specialize (IH2 ltac:(lia)).
    apply NoDup_app. split_and!; [done| |apply NoDup_singleton].
    intros k Hk Hk'%list_elem_of_singleton. subst. apply Hin.
    rewrite Hmap by done. rewrite <-list_fmap_compose. exact Hk.
Qed.

Lemma pairs_of_lookup txs i p :
  length txs = 8%nat → pairs_of txs !! i = Some p ↔ (i < 4)%nat ∧ txs !! i = Some p.1 ∧ txs !! (i + 4)%nat = Some p.2.
Proof.
  intros Hl. unfold pairs_of. destruct p as [h s]. cbn [fst snd].
  rewrite lookup_zip_Some, lookup_take_Some, lookup_drop. rewrite (Nat.add_comm 4 i). naive_solver.
Qed.

Lemma pairs_of_length txs : length txs = 8%nat → length (pairs_of txs) = 4%nat.
Proof. intros Hl. unfold pairs_of. rewrite length_zip_with, length_take, length_drop. lia. Qed.

Lemma pair_txs_eval rd txs :
  length txs = 8%nat → (5 ≤ length (randomList rd))%nat →
  pair_txs rd txs =
    Ok (if decide (Forall2 from_both (pairs_of txs) (take 4 (drop 1 (randomList rd))))
        then Some (foldl emplace_pair [] (pairs_of txs)) else None).
Proof.
  intros Ht Hr. unfold pair_txs. pose proof (pairs_of_length txs Ht) as Hp.
  change (Z.to_nat minValidators) with 4%nat. rewrite <-Hp at 1. apply pair_fold_eval.
  - rewrite Hp, length_take, length_drop. lia.
  - intros i p Hi. by apply pairs_of_lookup in Hi as (_ & ? & ?).
  - intros i a Hi. apply lookup_take_Some in Hi as [Hi _]. rewrite lookup_drop in Hi. done.
Qed.

Lemma pairs_keys txs :
  length txs = 8%nat →
  (λ p, TxValidator_hash p.1 true) <$> pairs_of txs = (λ tx, TxValidator_hash tx true) <$> take 4 txs.
Proof.
  intros Hl. assert ((pairs_of txs).*1 = take 4 txs) as <-.
  { unfold pairs_of. rewrite fst_zip; [done|]. rewrite length_take, length_drop. lia. }
  by rewrite <-list_fmap_compose.
Qed.

(** The four checks on every pair, as the specification states them. *)
Lemma pairs_checked rl txs :
  length txs = 8%nat → (5 ≤ length rl)%nat →
  (Forall2 from_both (pairs_of txs) (take 4 (drop 1 rl)) ∧
   Forall (λ p, check_pair p.1 p.2 = true) (pairs_of txs)) ↔
  ∀ i, (i < 4)%nat → ∃ a h s,
    rl !! S i = Some a ∧ txs !! i = Some h ∧ txs !! (i + 4)%nat = Some s ∧
    tv_from h = a ∧ tv_from s = a ∧
    getTxValidatorFunction h = RANDOMHASH ∧ getTxValidatorFunction s = RANDOMSEED ∧
    sha3 (drop 4 (tv_data s)) = drop 4 (tv_data h).
Proof.
  intros Ht Hr. pose proof (pairs_of_length txs Ht) as Hp. split.
  - intros [HF HC] i Hi. destruct (lookup_lt_is_Some_2 (pairs_of txs) i) as [[h s] Hhs]; [lia|].
    destruct (Forall2_lookup_l _ _ _ _ _ HF Hhs) as (a & Ha & E1 & E2).
    pose proof (Forall_lookup_1 _ _ _ _ HC Hhs) as Hc. apply check_pair_spec in Hc as (_ & ? & ? & ?).
    apply pairs_of_lookup in Hhs as (_ & ? & ?); [|done].
    apply lookup_take_Some in Ha as [Ha _]. rewrite lookup_drop in Ha. by exists a, h, s.
  - intros Hall. split.
    + apply Forall2_same_length_lookup. split; [rewrite Hp, length_take, length_drop; lia|].
      intros i p a Hi Ha. apply pairs_of_lookup in Hi as (Hlt & E1 & E2); [|done].
      apply lookup_take_Some in Ha as [Ha _]. rewrite lookup_drop in Ha. cbn [Nat.add] in Ha.
      destruct (Hall i Hlt) as (a' & h & s & Ha' & Hh & Hs & ? & ? & _).
      rewrite Hh in E1. rewrite Hs in E2. rewrite Ha' in Ha. destruct p. simplify_eq/=. by split.
    + apply Forall_lookup. intros i p Hi. apply pairs_of_lookup in Hi as (Hlt & E1 & E2); [|done].
      destruct (Hall i Hlt) as (a' & h & s & Ha' & Hh & Hs & ? & ? & ? & ? & ?).
      rewrite Hh in E1. rewrite Hs in E2. destruct p. simplify_eq/=. apply check_pair_spec. naive_solver.
Qed.

Lemma forallb_pairs ps :
  NoDup ((λ p, TxValidator_hash p.1 true) <$> ps) →
  forallb (λ e, check_pair e.2.1 e.2.2) (foldl emplace_pair [] ps) = true ↔
  Forall (λ p, check_pair p.1 p.2 = true) ps.
Proof.
  intros Hnd. rewrite emplace_pairs_NoDup by done. clear Hnd.
  induction ps as [|p ps IH]; [by split; [constructor|]|]. cbn [fmap list_fmap forallb fst snd].
  rewrite andb_true_iff, Forall_cons. by rewrite IH.
Qed.

Lemma forallb_height txs n :
  forallb (λ tx, tv_nHeight tx =? n) txs = true ↔ Forall (λ tx, tv_nHeight tx = n) txs.
Proof.
  induction txs as [|tx txs IH]; [by split; [constructor|]|]. cbn [forallb].
  by rewrite andb_true_iff, Forall_cons, Z.eqb_eq, IH.
Qed.

(** The code decides exactly the specification. *)
Lemma validateBlock_spec rd st lb b :
  latest st = Ok lb → (5 ≤ length (randomList rd))%nat → length (b_validatorPubKey b) = 65%nat →
  ∃ r, validateBlock rd st b = Ok r ∧ (r = true ↔ valid_round (randomList rd) b).
Proof.
  intros Hl Hr Hk. unfold validateBlock. rewrite Hl. cbn [mbind outcome_bind].
  destruct (b_finalized b) eqn:Hf; cbn [negb]; [|exists false; split; [done|]; split; [done|]; intros []; congruence].
  destruct (toAddress_Ok _ Hk) as (a & Ha & _). rewrite Ha. cbn [mbind outcome_bind].
  destruct (lookup_lt_is_Some_2 (randomList rd) 0) as [f Hf0]; [lia|].
  pose proof (at_view_Some _ 0 _ Hf0) as Ev. change (Z.of_nat 0) with 0 in Ev. rewrite Ev. cbn [mbind outcome_bind].
  case_bool_decide as Hs; cbn [negb]; [subst f|exists false; split; [done|]; split; [done|]; intros [_ (x & ? & ?)]; congruence].
  destruct (Z.eqb_spec (zlen (b_txValidators b)) (minValidators * 2)) as [Hz|Hz]; cbn [negb].
  2: { exists false. split; [done|]. split; [done|]. intros []. exfalso. apply Hz. unfold zlen. by rewrite vr_size0. }
  assert (length (b_txValidators b) = 8%nat) as Ht by (unfold zlen, minValidators in Hz; lia).
  destruct (forallb _ (b_txValidators b)) eqn:Hh; cbn [negb].
  2: { exists false. split; [done|]. split; [done|]. intros []. apply not_true_iff_false in Hh.
       exfalso. apply Hh. by apply forallb_height. }
  apply forallb_height in Hh. rewrite pair_txs_eval by done. cbn [mbind outcome_bind].
  destruct (decide _) as [HF|HF].
  2: { exists false. split; [done|]. split; [done|]. intros []. exfalso. apply HF.
       by apply (pairs_checked (randomList rd)). }
  destruct (Z.eqb_spec (zlen (foldl emplace_pair [] (pairs_of (b_txValidators b)))) minValidators) as [Hm|Hm]; cbn [negb].
  - destruct (emplace_pairs_length (pairs_of (b_txValidators b))) as [_ Hnd].
    rewrite pairs_of_length in Hnd by done. specialize (Hnd ltac:(unfold zlen, minValidators in Hm; lia)).
    eexists. split; [done|]. rewrite forallb_pairs by done. split.
    + intros HC. constructor; [done|by exists a|done|done| |by rewrite <-pairs_keys].
      by apply pairs_checked.
    + intros []. by apply (pairs_checked (randomList rd)).
  - exists false. split; [done|]. split; [done|]. intros []. exfalso. apply Hm.
    rewrite emplace_pairs_NoDup by (by rewrite pairs_keys). unfold zlen.
    by rewrite length_fmap, pairs_of_length.
Qed.

(** ** The mempool of Validator transactions *)

Definition participants (rd : rdPoS) : list bytes := take 4 (drop 1 (randomList rd)).

(** Every transaction is for the next block and from a participant, and no
    participant has more than two, nor two of the same function. *)
Record mempool_inv (rd : rdPoS) (height : Z) : Prop := {
  mi_key : ∀ k tx, validatorMempool rd !! k = Some tx → k = TxValidator_hash tx true;
  mi_height : ∀ k tx, validatorMempool rd !! k = Some tx → tv_nHeight tx = height;
  mi_from : ∀ k tx, validatorMempool rd !! k = Some tx → tv_from tx ∈ participants rd;
  mi_two : ∀ a, (length (txs_from (validatorMempool rd) a) ≤ 2)%nat;
  mi_functions : ∀ a, NoDup ((λ tx, take 4 (tv_data tx)) <$> txs_from (validatorMempool rd) a);
}.

Lemma txs_from_insert m k tx a :
  m !! k = None →
  txs_from (<[k := tx]> m) a ≡ₚ (if decide (tv_from tx = a) then [tx] else []) ++ txs_from m a.
Proof.
  intros Hk. unfold txs_from. rewrite (map_to_list_insert m k tx Hk). cbn [fmap list_fmap snd].
  rewrite filter_cons. by case_decide.
Qed.

Lemma participates_true l from idx :
  participates l from idx = Ok true → ∃ i, i ∈ idx ∧ at_view l i = Ok from.
Proof.
  induction idx as [|i idx IH]; cbn; [done|]. intros Hp. apply bind_Ok in Hp as (x & Hx & Hp).
  case_bool_decide; subst; [exists i; split; [left|done]|]. destruct (IH Hp) as (j & ? & ?).
  exists j. split; [by right|done].
Qed.

Lemma participates_elem rd from :
  participates (randomList rd) from [1; 2; 3; 4] = Ok true → from ∈ participants rd.
Proof.
  intros Hp. apply participates_true in Hp as (i & Hi & Hv). unfold at_view in Hv.
  case_bool_decide; [|done]. destruct (randomList rd !! Z.to_nat i) eqn:E; [|done].
  apply Ok_inj in Hv as ->. assert (1 ≤ i ≤ 4) by set_solver by lia.
  unfold participants. apply list_elem_of_lookup. exists (Z.to_nat (i - 1)).
  rewrite lookup_take_lt by lia. rewrite lookup_drop. rewrite <-E. f_equal. lia.
Qed.

(** Adding a transaction that passed the checks. *)
Lemma mempool_insert_inv rd h tx :
  mempool_inv rd h → validatorMempool rd !! TxValidator_hash tx true = None →
  tv_nHeight tx = h → tv_from tx ∈ participants rd →
  (length (txs_from (validatorMempool rd) (tv_from tx)) ≤ 1)%nat →
  take 4 (tv_data tx) ∉ (λ tx, take 4 (tv_data tx)) <$> txs_from (validatorMempool rd) (tv_from tx) →
  mempool_inv (set_mempool rd (<[TxValidator_hash tx true := tx]> (validatorMempool rd))) h.
Proof.
  intros [Hk Hh Hf H2 Hn] Hnone Hth Htf Hlen Hsel.
  constructor; cbn [set_mempool validatorMempool].
  - intros k x. rewrite lookup_insert_Some. naive_solver.
  - intros k x. rewrite lookup_insert_Some. naive_solver.
  - intros k x. rewrite lookup_insert_Some. naive_solver.
  - intros a. rewrite txs_from_insert by done. case_decide; subst; cbn; [lia|apply H2].
  - intros a. rewrite txs_from_insert by done. case_decide; subst; cbn; [by constructor|apply Hn].
Qed.

Lemma addValidatorTx_inv rd st lb tx r rd' :
  latest st = Ok lb → mempool_inv rd (u64 (b_nHeight lb + 1)) →
  addValidatorTx rd st tx = Ok (r, rd') →
  mempool_inv rd' (u64 (b_nHeight lb + 1)) ∧ randomList rd' = randomList rd ∧ validators rd' = validators rd.
Proof.
  intros Hl Hi Ha. unfold addValidatorTx in Ha. case_bool_decide as Hin; [by simplify_eq|].
  rewrite Hl in Ha. cbn [mbind outcome_bind] in Ha.
  destruct (Z.eqb_spec (tv_nHeight tx) (u64 (b_nHeight lb + 1))) as [Hh|]; cbn [negb] in Ha; [|by simplify_eq].
  apply bind_Ok in Ha as (p & Hp & Ha). destruct p; cbn [negb] in Ha; [|by simplify_eq].
  apply participates_elem in Hp.
  assert (validatorMempool rd !! TxValidator_hash tx true = None) as Hnone
    by (destruct (validatorMempool rd !! _); [exfalso; by apply Hin|done]).
  rewrite map_emplace_fresh in Ha by done.
  destruct (txs_from (validatorMempool rd) (tv_from tx)) as [|tx0 [|tx1 l]] eqn:E; [|case_bool_decide as Hs|];
    simplify_eq; try done.
  - split; [|done]. apply mempool_insert_inv; rewrite ?E; try done; [cbn; lia|]. by apply not_elem_of_nil.
  - split; [|done]. apply mempool_insert_inv; rewrite ?E; try done. cbn.
    rewrite list_elem_of_singleton. congruence.
Qed.

Lemma filter_filter_length {A} (P Q : A → Prop) `{∀ x, Decision (P x), ∀ x, Decision (Q x)} l :
  (length (filter P (filter Q l)) ≤ length (filter P l))%nat.
Proof.
  induction l as [|x l IH]; [done|]. rewrite (filter_cons Q), (filter_cons P).
  destruct (decide (Q x)); [rewrite (filter_cons P)|]; destruct (decide (P x)); cbn; lia.
Qed.

(** A list in which no sender occurs more than [n] times. *)
Lemma senders_bound (l : list TxValidator) ps n :
  (∀ tx, tx ∈ l → tv_from tx ∈ ps) → (∀ a, length (filter (λ tx, tv_from tx = a) l) ≤ n)%nat →
  (length l ≤ n * length ps)%nat.
Proof.
  revert l. induction ps as [|p ps IH]; intros l Hf Hn.
  - destruct l as [|tx l]; [cbn; lia|]. exfalso. apply (elem_of_nil (tv_from tx)), Hf. left.
  - specialize (IH (filter (λ tx, tv_from tx ≠ p) l)).
    assert (length l = length (filter (λ tx, tv_from tx = p) l) + length (filter (λ tx, tv_from tx ≠ p) l))%nat as E.
    { clear. induction l as [|tx l IH]; [done|]. rewrite !filter_cons. repeat case_decide; cbn; try lia; naive_solver. }
    rewrite E. pose proof (Hn p). cbn [length]. rewrite Nat.mul_succ_r.
    enough (length (filter (λ tx, tv_from tx ≠ p) l) ≤ n * length ps)%nat by lia. apply IH.
    + intros tx Htx. apply list_elem_of_filter in Htx as [Hne Htx]. apply Hf in Htx.
      apply elem_of_cons in Htx as [E'|?]; [contradiction|done].
    + intros a. etrans; [|apply (Hn a)]. apply filter_filter_length.
Qed.

Lemma processBlock_Ok rd b :
  b_finalized b = true → zlen (validators rd) < 2 ^ 64 →
  ∃ rl, processBlock rd b =
    Ok (b_blockRandomness b,
        mkRdPoS (validators rd) rl ∅ (validatorKey rd) (isValidator rd) (b_blockRandomness b)
          (seed_after (length (validators rd)) (b_blockRandomness b)) (canCreateBlock rd)) ∧
    rl ≡ₚ validators rd.
Proof.
  intros Hf Hm. destruct (shuffle_perm (b_blockRandomness b) (validators rd) Hm) as (rl & Hs & Hp).
  exists rl. split; [|done]. unfold processBlock. rewrite Hf. cbn [negb throw_if mbind outcome_bind].
  by rewrite Hs.
Qed.

(** The calls that change the rdPoS state while the chain stays as it is. *)
Inductive rd_step (st : Storage) : rdPoS → rdPoS → Prop :=
  | rs_add rd tx r rd' : addValidatorTx rd st tx = Ok (r, rd') → rd_step st rd rd'
  | rs_clear rd : rd_step st rd (clearMempool rd)
  | rs_process rd b s rd' : processBlock rd b = Ok (s, rd') → rd_step st rd rd'
  | rs_sign rd b ts b' rd' : signBlock rd b ts = Ok (b', rd') → rd_step st rd rd'.

Lemma mempool_inv_empty rd h : validatorMempool rd = ∅ → mempool_inv rd h.
Proof.
  intros E. constructor; rewrite E; try (intros k tx; by rewrite lookup_empty);
    intros a; unfold txs_from; rewrite map_to_list_empty; [cbn; lia|constructor].
Qed.

Lemma rd_step_inv st lb rd rd' :
  latest st = Ok lb → rd_step st rd rd' →
  mempool_inv rd (u64 (b_nHeight lb + 1)) → mempool_inv rd' (u64 (b_nHeight lb + 1)).
Proof.
  intros Hl Hs Hi. destruct Hs as [rd tx r rd' Ha|rd|rd b s rd' Hp|rd b ts b' rd' Hg].
  - by eapply addValidatorTx_inv.
  - by apply mempool_inv_empty.
  - apply mempool_inv_empty. unfold processBlock in Hp. inv_ok. by simplify_eq.
  - unfold signBlock in Hg. inv_ok. destruct Hi. simplify_eq. by constructor.
Qed.

Lemma mempool_size_bound rd h : mempool_inv rd h → (size (validatorMempool rd) ≤ 8)%nat.
Proof.
  intros Hi. rewrite <-length_map_to_list, <-(length_fmap snd).
  etrans; [apply (senders_bound _ (participants rd) 2)|].
  - intros tx Htx. apply list_elem_of_fmap in Htx as ([k x] & -> & Hin).
    apply elem_of_map_to_list in Hin. by eapply (mi_from _ _ Hi).
  - apply (mi_two _ _ Hi).
  - unfold participants. rewrite length_take. lia.
Qed.

Lemma validator_function tx sel x :
  tv_data tx = sel ++ x → length sel = 4%nat → length x = 32%nat →
  getTxValidatorFunction tx =
    if bool_decide (sel = randomHashHash) then RANDOMHASH
    else if bool_decide (sel = randomSeedHash) then RANDOMSEED else INVALID.
Proof.
  intros Ed Hs Hx. unfold getTxValidatorFunction. rewrite Ed.
  rewrite (zlen_eqb _ 36 36) by (rewrite ?length_app; lia). cbn [negb].
  by rewrite take_app_length'.
Qed.

(** * Properties *)

(** C15: with at least five validators [validateBlock] is defined on every
    block and accepts exactly the blocks of a valid round: finalised, signed by
    the first validator of the shuffled list, with eight transactions of the
    block's height in which the next four validators, in order, commit to a
    seed and then reveal it. *)
Theorem rdpos_validate_refines rd st lb b :
  latest st = Ok lb → (5 ≤ length (randomList rd))%nat → length (b_validatorPubKey b) = 65%nat →
  ∃ r, validateBlock rd st b = Ok r ∧ (r = true ↔ valid_round (randomList rd) b).
Proof. apply validateBlock_spec. Qed.

(** In every state reachable by adding Validator transactions, clearing,
    processing and signing, the mempool holds transactions of the next height
    from the four participants only, at most two of each and of different
    functions: never more than eight. *)
Theorem rdpos_mempool_invariant st lb rd0 rd :
  latest st = Ok lb → validatorMempool rd0 = ∅ → rtc (rd_step st) rd0 rd →
  mempool_inv rd (u64 (b_nHeight lb + 1)) ∧ (size (validatorMempool rd) ≤ 8)%nat.
Proof.
  intros Hl He Hr. assert (mempool_inv rd (u64 (b_nHeight lb + 1))) as Hi.
  { assert (mempool_inv rd0 (u64 (b_nHeight lb + 1))) as H0' by by apply mempool_inv_empty.
    clear He. induction Hr; [done|]. eauto using rd_step_inv. }
  split; [done|]. by eapply mempool_size_bound.
Qed.

(** Processing a finalised block always succeeds: the mempool is emptied
    and the shuffled list becomes a permutation of the validators, fixed by the
    validators and the randomness of the block alone; on a block that is not
    finalised it throws. *)
Theorem rdpos_process_block rd b :
  zlen (validators rd) < 2 ^ 64 →
  if b_finalized b then
    ∃ rd', processBlock rd b = Ok (b_blockRandomness b, rd') ∧ validatorMempool rd' = ∅ ∧
      randomList rd' ≡ₚ validators rd ∧ validators rd' = validators rd ∧
      ∀ rd2, validators rd2 = validators rd →
        ∃ rd2', processBlock rd2 b = Ok (b_blockRandomness b, rd2') ∧ randomList rd2' = randomList rd'
  else processBlock rd b = Throw (runtime_error "Block is not finalized.").
Proof.
  intros Hm. destruct (b_finalized b) eqn:Hf; [|by unfold processBlock; rewrite Hf].
  destruct (processBlock_Ok rd b Hf Hm) as (rl & Hp & Hperm). eexists.
  split_and!; [exact Hp|done|done|done|]. intros rd2 E.
  unfold processBlock in *. rewrite Hf in *. cbn [negb throw_if mbind outcome_bind] in *. rewrite E.
  destruct (shuffle (b_blockRandomness b) (validators rd)) as [[s l]| |]; try done.
  cbn [mbind outcome_bind] in *. injection Hp as <- <-. by eexists.
Qed.

(** The two transactions that a worker creates pass the checks of
    [validateBlock] for a pair: the first commits to the hash of the seed that
    the second reveals. *)
Theorem rdpos_worker_pair rd cid me randomness h ht stx :
  length randomness = 32%nat →
  TxValidator_sign me (randomHashHash ++ sha3 randomness) cid h (validatorKey rd) = Ok ht →
  TxValidator_sign me (randomSeedHash ++ randomness) cid h (validatorKey rd) = Ok stx →
  createValidatorTxs rd cid me randomness h = Ok (Some (ht, stx)) ∧
  check_pair ht stx = true ∧ tv_nHeight ht = h ∧ tv_nHeight stx = h ∧ parseTxSeedList [ht; stx] = sha3 randomness.
Proof.
  intros Hr E1 E2. unfold createValidatorTxs. rewrite E1, E2. cbn [mbind outcome_bind].
  apply TxValidator_sign_facts in E1 as (? & ? & ? & ? & -> & _).
  apply TxValidator_sign_facts in E2 as (? & ? & ? & ? & -> & _).
  set (ht := mkTxValidator _ (randomHashHash ++ _) _ _ _ _ _).
  set (stx := mkTxValidator _ (randomSeedHash ++ _) _ _ _ _ _).
  assert (getTxValidatorFunction ht = RANDOMHASH) as F1
    by (by rewrite (validator_function ht randomHashHash (sha3 randomness)) by (done || apply sha3_length)).
  assert (getTxValidatorFunction stx = RANDOMSEED) as F2
    by (by rewrite (validator_function stx randomSeedHash randomness) by done).
  assert (drop 4 (tv_data stx) = randomness ∧ drop 4 (tv_data ht) = sha3 randomness) as [D1 D2] by done.
  rewrite D1, D2, bool_decide_true by done. split_and!; try done.
  - apply check_pair_spec. by rewrite D1, D2.
  - unfold parseTxSeedList. change (zlen [ht; stx] =? 0) with false. cbn [foldl]. rewrite F1, F2.
    rewrite (bool_decide_true (RANDOMSEED = RANDOMSEED)), (bool_decide_false (RANDOMHASH = RANDOMSEED)) by done.
    rewrite D1, app_nil_l.
    by rewrite firstn_all2 by lia.
Qed.

End RdPoS.

(** Five validators, the fourth participant's transactions in the mempool. *)
Definition sample_validators : list bytes := [replicate 20 1; replicate 20 2; replicate 20 3; replicate 20 4; replicate 20 5].
Definition sample_rd : rdPoS :=
  mkRdPoS sample_validators sample_validators ∅ sample_key true Hash_zero Hash_zero false.
Definition val_of (o : outcome TxValidator) : TxValidator :=
  match o with Ok tx => tx | _ => mkTxValidator [] [] 0 0 0 0 0 end.

Definition round_tx (i : Z) (hashed : bool) : TxValidator :=
  let seed := replicate 32 i in
  mkTxValidator (replicate 20 i)
    (if hashed then randomHashHash ++ @sha3 toy_keccak seed else randomSeedHash ++ seed) 1 1 37 i i.

Definition round_key : bytes := 4 :: replicate 64 9.
Definition round_signer : bytes := match @toAddress toy_keccak round_key with Ok a => a | _ => [] end.
Definition round_rd : rdPoS :=
  mkRdPoS [] [round_signer; replicate 20 2; replicate 20 3; replicate 20 4; replicate 20 5] ∅ [] false Hash_zero Hash_zero false.
Definition round_block : Block :=
  mkBlock Signature_empty Hash_zero Hash_zero Hash_zero Hash_zero 0 1
    [round_tx 2 true; round_tx 3 true; round_tx 4 true; round_tx 5 true;
     round_tx 2 false; round_tx 3 false; round_tx 4 false; round_tx 5 false] [] round_key true.

Lemma rdpos_validate_refines_witness :
  @validateBlock toy_keccak round_rd st_two round_block = Ok true ∧
  @valid_round toy_keccak (randomList round_rd) round_block.
Proof.
  destruct (@rdpos_validate_refines toy_keccak round_rd st_two st_block1 round_block) as (r & Hr & Hv);
    [vm_compute; reflexivity|vm_compute; lia|reflexivity|].
  assert (@validateBlock toy_keccak round_rd st_two round_block = Ok true) as E by (vm_compute; reflexivity).
  split; [exact E|]. apply Hv. rewrite E in Hr. injection Hr as <-. reflexivity.
Defined.

Lemma rdpos_mempool_invariant_witness :
  ∃ rd, rtc (@rd_step toy_keccak toy_secp st_one) round_rd rd ∧ size (validatorMempool rd) = 1%nat ∧
        @mempool_inv toy_keccak rd (u64 (b_nHeight st_block0 + 1)).
Proof.
  set (rd := match @addValidatorTx toy_keccak round_rd st_one (round_tx 2 true) with
             | Ok (_, rd) => rd | _ => round_rd end).
  assert (rtc (@rd_step toy_keccak toy_secp st_one) round_rd rd) as Hr.
  { apply rtc_once. apply (rs_add _ _ (round_tx 2 true) true). vm_compute. reflexivity. }
  exists rd. split; [exact Hr|]. split; [vm_compute; reflexivity|].
  apply (@rdpos_mempool_invariant toy_keccak toy_secp st_one st_block0 round_rd rd);
    [vm_compute; reflexivity|reflexivity|exact Hr].
Defined.

Lemma rdpos_process_block_witness :
  ∃ rd', @processBlock toy_keccak sample_rd round_block = Ok (Hash_zero, rd') ∧
         randomList rd' ≡ₚ sample_validators.
Proof.
  pose proof (@rdpos_process_block toy_keccak sample_rd round_block ltac:(reflexivity)) as Hp.
  cbn [b_finalized round_block] in Hp. destruct Hp as (rd' & H1 & _ & H2 & _).
  exists rd'. split; [exact H1|exact H2].
Defined.

Lemma rdpos_worker_pair_witness :
  ∃ h s, @createValidatorTxs toy_keccak toy_secp sample_rd 8080 sample_from (replicate 32 6) 1 = Ok (Some (h, s)).
Proof.
  exists (val_of (sample_TxValidator (randomHashHash ++ @sha3 toy_keccak (replicate 32 6)))),
         (val_of (sample_TxValidator (randomSeedHash ++ replicate 32 6))).
  apply (@rdpos_worker_pair toy_keccak toy_secp sample_rd 8080 sample_from (replicate 32 6) 1);
    [reflexivity|vm_compute; reflexivity|vm_compute; reflexivity].
Defined.
