(* ===== verification/State.v ===== *)
(** * State: accounts, mempool and the execution of blocks (src/core/state.{h,cpp})

    The state works against an interface: [ContractHost] is what it asks of
    the contract manager.  Locks are not modelled: every function runs alone. *)

From S2P Require Import Prelude Utils Hex Strings Ecdsa Tx Block DB Storage RdPoS.

(** ** Interfaces *)

(** What [State] calls on its contract manager.  A transaction's call reads
    the accounts and can change them only through
    [State::processContractPayable], which it is given. *)
Class ContractHost `{RocksDB} := {
  cm : Type;
  cm_load : rstore → outcome (cm * rstore);
  cm_save : cm → rstore → rstore;
  cm_isContractCall : cm → TxBlock → bool;
  cm_isContractAddress : cm → bytes → bool;
  cm_isPayable : cm → ethCallInfo → bool;
  cm_callContract : (gmap bytes Z → outcome (gmap bytes Account)) → gmap bytes Account → TxBlock →
    ST (cm * rstore) (gmap bytes Account);
  cm_callView : ethCallInfo → ST (cm * rstore) bytes;
  cm_validateCall : gmap bytes Account → ethCallInfo → ST (cm * rstore) bool;
  cm_getContracts : cm → list (bytes * bytes);
  (** The manager leaves the entries of the accounts alone. *)
  cm_load_accounts : ∀ db c db' key, cm_load db = Ok (c, db') →
    lookup_db db' (DBPrefix.nativeAccounts ++ key) = lookup_db db (DBPrefix.nativeAccounts ++ key);
  cm_save_accounts : ∀ c db key,
    lookup_db (cm_save c db) (DBPrefix.nativeAccounts ++ key) = lookup_db db (DBPrefix.nativeAccounts ++ key);
  (** Accounts change through the given function or not at all. *)
  cm_callContract_frame : ∀ pcp a tx c a' c', cm_callContract pcp a tx c = (Ok a', c') →
    a' = a ∨ ∃ m, pcp m = Ok a';
}.

(** ** Data *)

Inductive TxInvalid := NotInvalid | InvalidNonce | InvalidBalance.

#[export] Instance TxInvalid_eq_dec : EqDecision TxInvalid.
Proof. solve_decision. Defined.

Section State.
Context `{Keccak} `{Secp256k1Lib} `{RocksDB} `{!ContractHost} `{!CheckedLeft} `{!HashMapOrder}.

Record State := mkState {
  st_db : rstore;
  accounts : gmap bytes Account;
  mempool : gmap bytes TxBlock;
  processingPayable : bool;
  contractManager : cm;
}.

Definition set_accounts (st : State) (a : gmap bytes Account) : State :=
  mkState (st_db st) a (mempool st) (processingPayable st) (contractManager st).
Definition set_txs (st : State) (m : gmap bytes TxBlock) : State :=
  mkState (st_db st) (accounts st) m (processingPayable st) (contractManager st).
Definition set_payable (st : State) (b : bool) : State :=
  mkState (st_db st) (accounts st) (mempool st) b (contractManager st).
(** The manager and the database, which it shares. *)
Definition set_cm (st : State) (c : cm * rstore) : State :=
  mkState c.2 (accounts st) (mempool st) (processingPayable st) c.1.

(** [accounts[addr]]: the account there, made when missing. *)
Definition account_at (a : gmap bytes Account) (addr : bytes) : Account := default emptyAccount (a !! addr).

(** A compound assignment to [accounts[addr].balance]. *)
Definition balance_assign (op : Z → Z → outcome unit * Z) (addr : bytes) (x : Z) : ST State unit := λ st,
  let acc := account_at (accounts st) addr in
  let '(r, v) := op (balance acc) x in
  (r, set_accounts st (<[addr := mkAccount v (nonce acc)]> (accounts st))).

(** [++nonce] on a 64-bit integer. *)
Definition incr_nonce (addr : bytes) : ST State unit := modify (λ st,
  let acc := account_at (accounts st) addr in
  set_accounts st (<[addr := mkAccount (balance acc) (u64 (nonce acc + 1))]> (accounts st))).

(** ** Loading and saving *)

Definition dev1 : bytes := be_split 20 0x00dead00665771855a34155f5e7405489df2c3c6.
Definition desiredBalance : Z := 1000000000000000000000.

(** The value of an account's entry. *)
Definition encode_account (acc : Account) : bytes :=
  (if balance acc =? 0 then [0] else uintToBytes (bytesRequired (balance acc)) ++ uintToBytes (balance acc)) ++
  (if nonce acc =? 0 then [0] else uintToBytes (bytesRequired (nonce acc)) ++ uintToBytes (nonce acc)).

Definition dev1_value : bytes :=
  uintToBytes (bytesRequired desiredBalance) ++ uintToBytes desiredBalance ++ [0].

(** The body of the constructor's loop. *)
Definition load_account (a : gmap bytes Account) (entry : DBEntry) : outcome (gmap bytes Account) :=
  let data := e_value entry in
  _ ← throw_if (negb (zlen (e_key entry) =? 20))
        (runtime_error "Error when loading State from DB, address from DB size mismatch");
  x ← substr data 0 1;
  let balanceSize := fromBigEndian 8 x in
  _ ← throw_if (u64 (zlen data + 1) <? zlen data)
        (runtime_error "Error when loading State from DB, value from DB size mismatch on balanceSize");
  x ← substr data 1 balanceSize;
  balance ← fromBigEndian256 x;
  x ← substr data (1 + balanceSize) 1;
  let nonceSize := fromBigEndian 8 x in
  _ ← throw_if (negb (2 + balanceSize + nonceSize =? zlen data))
        (runtime_error "Error when loading State from DB, value from DB size mismatch on nonceSize");
  x ← substr data (2 + balanceSize) nonceSize;
  let nonce := fromBigEndian 64 x in
  Ok (map_emplace (e_key entry) (mkAccount balance nonce) a).

Definition State_ctor (db : rstore) : outcome State :=
  '(c, db) ← cm_load db;
  let accountsFromDB := DB_getBatch db DBPrefix.nativeAccounts [] in
  let '(accountsFromDB, db) :=
    if bool_decide (accountsFromDB = []) then
      let db := (DB_put db dev1 dev1_value DBPrefix.nativeAccounts).2 in
      (DB_getBatch db DBPrefix.nativeAccounts [], db)
    else (accountsFromDB, db) in
  a ← foldM load_account ∅ accountsFromDB;
  Ok (mkState db a ∅ false c).

(** The destructor; the contract manager is a member and is destroyed after
    its body. *)
Definition State_dtor (st : State) : rstore :=
  let accountsBatch := (λ e, mkDBEntry e.1 (encode_account e.2)) <$> iter_map (accounts st) in
  let db := (DB_putBatch (st_db st) (mkDBBatch accountsBatch []) DBPrefix.nativeAccounts).2 in
  cm_save (contractManager st) db.

(** ** Transactions *)

(** [tx.getValue() + (tx.getGasLimit() * tx.getMaxFeePerGas())] *)
Definition txWithFees (tx : TxBlock) : outcome Z :=
  fee ← mul256 (tb_gasLimit tx) (tb_maxFeePerGas tx);
  add256 (tb_value tx) fee.

Definition validateTransactionInternal (st : State) (tx : TxBlock) : outcome TxInvalid :=
  if bool_decide (is_Some (mempool st !! TxBlock_hash tx true)) then Ok NotInvalid
  else
    match accounts st !! tb_from tx with
    | None => Ok InvalidBalance
    | Some acc =>
        total ← txWithFees tx;
        if balance acc <? total then Ok InvalidBalance
        else if negb (nonce acc =? tb_nonce tx) then Ok InvalidNonce
        else Ok NotInvalid
    end.

(** [processContractPayable], on the accounts and the flag. *)
Definition processContractPayable (processing : bool) (a : gmap bytes Account) (payableMap : gmap bytes Z)
    : outcome (gmap bytes Account) :=
  if negb processing then
    Throw (runtime_error "Uh oh, contracts are going haywire! Cannot change State while not processing a payable contract.")
  else Ok (foldl (λ a e, <[e.1 := mkAccount e.2 (nonce (account_at a e.1))]> a) a (iter_map payableMap)).

(** [contractManager->callContract(tx)]. *)
Definition host_call (tx : TxBlock) : ST State unit := λ st,
  let pcp := processContractPayable (processingPayable st) (accounts st) in
  match cm_callContract pcp (accounts st) tx (contractManager st, st_db st) with
  | (Ok a, c) => (Ok tt, set_cm (set_accounts st a) c)
  | (Throw e, c) => (Throw e, set_cm st c)
  | (Undef, c) => (Undef, set_cm st c)
  end.

(** The [try] block of [processTransaction]. *)
Definition process_body (tx : TxBlock) : ST State unit :=
  txValueWithFees ← lift (txWithFees tx);
  _ ← balance_assign sub_assign (tb_from tx) txValueWithFees;
  _ ← balance_assign add_assign (tb_to tx) (tb_value tx);
  call ← gets (λ st, cm_isContractCall (contractManager st) tx);
  if (call : bool) then
    payable ← gets (λ st, cm_isPayable (contractManager st) (txToCallInfo tx));
    _ ← (if (payable : bool) then modify (λ st, set_payable st true) else mret tt);
    _ ← host_call tx;
    modify (λ st, set_payable st false)
  else mret tt.

Definition processTransaction (tx : TxBlock) : ST State unit := λ st,
  match accounts st !! tb_from tx with
  | None => (Undef, st)
  | Some _ =>
      (_ ← catching (process_body tx) (λ _, balance_assign add_assign (tb_from tx) (tb_value tx));
       incr_nonce (tb_from tx)) st
  end.

(** ** The mempool *)

(** The second loop of [refreshMempool]; a validation that throws leaves the
    mempool half rebuilt. *)
Definition keep_valid (e : bytes * TxBlock) : ST State unit := λ st,
  match validateTransactionInternal st e.2 with
  | Ok NotInvalid => (Ok tt, set_txs st (map_emplace e.1 e.2 (mempool st)))
  | Ok _ => (Ok tt, st)
  | Throw x => (Throw x, st)
  | Undef => (Undef, st)
  end.

Definition refreshMempool (b : Block) : ST State unit := λ st,
  let mempoolCopy := foldl (λ m tx, delete (TxBlock_hash tx true) m) (mempool st) (b_txs b) in
  each keep_valid (iter_map mempoolCopy) (set_txs st ∅).

Definition addTx (tx : TxBlock) : ST State TxInvalid := λ st,
  match validateTransactionInternal st tx with
  | Ok NotInvalid => (Ok NotInvalid, set_txs st (map_emplace (TxBlock_hash tx true) tx (mempool st)))
  | r => (r, st)
  end.

Definition State_addValidatorTx (rd : rdPoS) (storage : Storage) (tx : TxValidator) : outcome (bool * rdPoS) :=
  addValidatorTx rd storage tx.

Definition isTxInMempool (st : State) (txHash : bytes) : bool := bool_decide (is_Some (mempool st !! txHash)).
Definition getTxFromMempool (st : State) (txHash : bytes) : option TxBlock := mempool st !! txHash.

Definition fillBlockWithTransactions (st : State) (b : Block) : Block :=
  foldl (λ b e, (appendTx b e.2).2) b (iter_map (mempool st)).

(** ** Blocks *)

Fixpoint all_valid (st : State) (txs : list TxBlock) : outcome bool :=
  match txs with
  | [] => Ok true
  | tx :: txs =>
      r ← validateTransactionInternal st tx;
      if negb (bool_decide (r = NotInvalid)) then Ok false else all_valid st txs
  end.

Definition validateNextBlock (st : State) (rd : rdPoS) (storage : Storage) (b : Block) : outcome bool :=
  latestBlock ← latest storage;
  if negb (b_nHeight b =? u64 (b_nHeight latestBlock + 1)) then Ok false
  else if negb (bool_decide (b_prevBlockHash b = Block_hash latestBlock)) then Ok false
  else if b_timestamp b <? b_timestamp latestBlock then Ok false
  else
    v ← validateBlock rd storage b;
    if negb v then Ok false else all_valid st (b_txs b).

(** The objects that [processNextBlock] changes. *)
Definition node : Type := State * rdPoS * Storage.

Definition processNextBlock (b : Block) : ST node unit := λ '(st, rd, storage),
  match (v ← validateNextBlock st rd storage b;
         throw_if (negb v) (runtime_error "Invalid block detected during processNextBlock sanity check.")) with
  | Throw e => (Throw e, (st, rd, storage))
  | Undef => (Undef, (st, rd, storage))
  | Ok _ =>
      match each processTransaction (b_txs b) st with
      | (Throw e, st) => (Throw e, (st, rd, storage))
      | (Undef, st) => (Undef, (st, rd, storage))
      | (Ok _, st) =>
          match processBlock rd b with
          | Throw e => (Throw e, (st, rd, storage))
          | Undef => (Undef, (st, rd, storage))
          | Ok (_, rd) =>
              match refreshMempool b st with
              | (Throw e, st) => (Throw e, (st, rd, storage))
              | (Undef, st) => (Undef, (st, rd, storage))
              | (Ok _, st) =>
                  match pushBack storage b with
                  | Throw e => (Throw e, (st, rd, storage))
                  | Undef => (Undef, (st, rd, storage))
                  | Ok storage => (Ok tt, (st, rd, storage))
                  end
              end
          end
      end
  end.

(** ** Queries *)

Definition getNativeBalance (st : State) (addr : bytes) : Z := balance (account_at (accounts st) addr).
Definition getNativeNonce (st : State) (addr : bytes) : Z := nonce (account_at (accounts st) addr).

Definition addBalance (addr : bytes) : ST State unit :=
  balance_assign add_assign addr 1000000000000000000000.

Definition State_ethCall (callInfo : ethCallInfo) : ST State bytes := λ st,
  if cm_isContractAddress (contractManager st) (ci_to callInfo) then
    let '(r, c) := cm_callView callInfo (contractManager st, st_db st) in (r, set_cm st c)
  else (Ok [], st).

(** [from] converts to [bool] when some byte of it is not zero. *)
Definition estimateGas (callInfo : ethCallInfo) : ST State bool := λ st,
  let validate :=
    if cm_isContractAddress (contractManager st) (ci_to callInfo) then
      match cm_validateCall (accounts st) callInfo (contractManager st, st_db st) with
      | (Ok _, c) => (Ok true, set_cm st c)
      | (Throw e, c) => (Throw e, set_cm st c)
      | (Undef, c) => (Undef, set_cm st c)
      end
    else (Ok true, st) in
  if FixedStr_bool (ci_from callInfo) && negb (ci_value callInfo =? 0) then
    match (if negb (ci_gasLimit callInfo =? 0) && negb (ci_gasPrice callInfo =? 0)
           then mul256 (ci_gasLimit callInfo) (ci_gasPrice callInfo) else Ok 0) with
    | Ok totalGas =>
        match accounts st !! ci_from callInfo with
        | None => (Ok false, st)
        | Some acc =>
            match add256 (ci_value callInfo) totalGas with
            | Ok needed => if balance acc <? needed then (Ok false, st) else validate
            | Throw e => (Throw e, st)
            | Undef => (Undef, st)
            end
        end
    | Throw e => (Throw e, st)
    | Undef => (Undef, st)
    end
  else validate.

(** * Lemmas *)

(** ** The supply *)

(** The sum of all balances. *)
Definition total (a : gmap bytes Account) : Z := map_fold (λ _ acc t, balance acc + t) 0 a.

Lemma total_insert_fresh a k acc : a !! k = None → total (<[k := acc]> a) = balance acc + total a.
Proof.
  intros E. unfold total. rewrite (map_fold_insert_L _ _ k acc a); [done| |done]. intros. lia.
Qed.

Lemma total_insert a k acc : total (<[k := acc]> a) = total a - balance (account_at a k) + balance acc.
Proof.
  unfold account_at. destruct (a !! k) as [acc0|] eqn:E.
  - rewrite <-(insert_delete_id a k acc0) at 2 by done.
    rewrite <-insert_delete_eq, !total_insert_fresh by apply lookup_delete_eq. cbn. lia.
  - rewrite total_insert_fresh by done. cbn. lia.
Qed.

(** Balances fit their type. *)
Definition accounts_ok (a : gmap bytes Account) : Prop :=
  map_Forall (λ _ acc, is_uint 256 (balance acc) ∧ is_uint 64 (nonce acc)) a.

Lemma total_nonneg a : accounts_ok a → 0 ≤ total a.
Proof.
  induction a as [|k acc a E IH] using map_ind; intros Hok; [done|].
  rewrite total_insert_fresh by done. apply map_Forall_insert in Hok as [[Hb _] Hok]; [|done].
  specialize (IH Hok). unfold is_uint in Hb. lia.
Qed.

Lemma account_at_ok a k : accounts_ok a → is_uint 256 (balance (account_at a k)) ∧ is_uint 64 (nonce (account_at a k)).
Proof.
  intros Hok. unfold account_at. destruct (a !! k) as [acc|] eqn:E; [by apply (Hok k)|].
  by split; unfold is_uint; cbn.
Qed.

Lemma account_at_le_total a k : accounts_ok a → balance (account_at a k) ≤ total a.
Proof.
  intros Hok. unfold account_at. destruct (a !! k) as [acc|] eqn:E; [|by apply total_nonneg].
  rewrite <-(insert_delete_id a k acc), total_insert_fresh by (done || apply lookup_delete_eq).
  assert (accounts_ok (delete k a)) as Hd by (by apply map_Forall_delete).
  pose proof (total_nonneg _ Hd). cbn. lia.
Qed.

Lemma account_at_insert a k acc k' :
  account_at (<[k := acc]> a) k' = if decide (k = k') then acc else account_at a k'.
Proof.
  unfold account_at. case_decide; subst; [by rewrite lookup_insert_eq|by rewrite lookup_insert_ne].
Qed.

Lemma accounts_ok_insert a k b n :
  accounts_ok a → is_uint 256 b → is_uint 64 n → accounts_ok (<[k := mkAccount b n]> a).
Proof. intros Hok ? ?. by apply map_Forall_insert_2. Qed.

Lemma txWithFees_Ok tx t :
  txWithFees tx = Ok t → t = tb_value tx + tb_gasLimit tx * tb_maxFeePerGas tx ∧
    is_uint 256 (tb_gasLimit tx * tb_maxFeePerGas tx) ∧ is_uint 256 t.
Proof.
  unfold txWithFees, mul256, add256, is_uint. intros Hf. apply bind_Ok in Hf as (f & E1 & E2).
  apply checked_Ok in E1 as [-> ?], E2 as [-> ?]. done.
Qed.

(** ** The two balance changes *)

Lemma balance_add_Ok st addr x :
  0 ≤ balance (account_at (accounts st) addr) + x < 2 ^ 256 →
  balance_assign add_assign addr x st =
    (Ok tt, set_accounts st (<[addr := mkAccount (balance (account_at (accounts st) addr) + x)
                                         (nonce (account_at (accounts st) addr))]> (accounts st))).
Proof. intros. unfold balance_assign, add_assign. by rewrite add256_Ok. Qed.

Lemma balance_sub_Ok st addr x :
  0 ≤ balance (account_at (accounts st) addr) - x < 2 ^ 256 →
  balance_assign sub_assign addr x st =
    (Ok tt, set_accounts st (<[addr := mkAccount (balance (account_at (accounts st) addr) - x)
                                         (nonce (account_at (accounts st) addr))]> (accounts st))).
Proof. intros. unfold balance_assign, sub_assign. by rewrite sub256_Ok. Qed.

(** The accounts after the sender has paid [t] and the recipient got [v]. *)
Definition moved (a : gmap bytes Account) (from to : bytes) (t v : Z) : gmap bytes Account :=
  let a1 := <[from := mkAccount (balance (account_at a from) - t) (nonce (account_at a from))]> a in
  <[to := mkAccount (balance (account_at a1 to) + v) (nonce (account_at a1 to))]> a1.

Lemma moved_spec a from to t v k :
  account_at (moved a from to t v) k =
    mkAccount (balance (account_at a k) - (if decide (from = k) then t else 0) + (if decide (to = k) then v else 0))
              (nonce (account_at a k)).
Proof.
  unfold moved. rewrite !account_at_insert. destruct (account_at a k) as [b n] eqn:E.
  repeat case_decide; subst; rewrite ?E in *; try done; cbn; f_equal; lia.
Qed.

Lemma moved_total a from to t v : total (moved a from to t v) = total a - t + v.
Proof. unfold moved. rewrite !total_insert. cbn [balance]. lia. Qed.

Lemma moved_is_Some a from to t v k : is_Some (a !! k) → is_Some (moved a from to t v !! k).
Proof. intros. unfold moved. rewrite !lookup_insert_is_Some'. auto. Qed.

(** ** Running one transaction *)

(** The sender exists and can pay; nothing can overflow. *)
Record can_pay (a : gmap bytes Account) (tx : TxBlock) (t : Z) : Prop := {
  cp_ok : accounts_ok a;
  cp_supply : total a < 2 ^ 256;
  cp_value : 0 ≤ tb_value tx;
  cp_sender : is_Some (a !! tb_from tx);
  cp_cost : txWithFees tx = Ok t;
  cp_funds : t ≤ balance (account_at a (tb_from tx));
}.

(** Both balance changes succeed. *)
Lemma pay_both a tx t :
  can_pay a tx t →
  let a1 := <[tb_from tx := mkAccount (balance (account_at a (tb_from tx)) - t) (nonce (account_at a (tb_from tx)))]> a in
  0 ≤ balance (account_at a (tb_from tx)) - t < 2 ^ 256 ∧
  0 ≤ balance (account_at a1 (tb_to tx)) + tb_value tx < 2 ^ 256.
Proof.
  intros [Hok Hs Hv _ Hc Hf] a1. pose proof (txWithFees_Ok _ _ Hc) as (Et & Hfee & Ht).
  pose proof (account_at_ok _ (tb_from tx) Hok) as [Hb Hn]. unfold is_uint in Hfee, Ht, Hb.
  assert (0 ≤ balance (account_at a (tb_from tx)) - t < 2 ^ 256) as Hsub by lia. split; [done|].
  assert (accounts_ok a1) as Hok1 by (by apply accounts_ok_insert).
  pose proof (account_at_le_total _ (tb_to tx) Hok1) as Hle.
  pose proof (account_at_ok _ (tb_to tx) Hok1) as [Hb1 _]. unfold is_uint in Hb1.
  assert (total a1 = total a - t) by (unfold a1; rewrite total_insert; cbn [balance]; lia). lia.
Qed.

Lemma moved_ok a tx t : can_pay a tx t → accounts_ok (moved a (tb_from tx) (tb_to tx) t (tb_value tx)).
Proof.
  intros Hp. destruct (pay_both _ _ _ Hp) as [H1' H2']. destruct Hp as [Hok _ _ _ _ _].
  unfold moved. apply accounts_ok_insert; [apply accounts_ok_insert; try done|done|].
  - by apply account_at_ok.
  - rewrite account_at_insert. case_decide; by apply account_at_ok.
Qed.

(** The state in which the contract manager is asked. *)
Lemma process_body_paid st tx t :
  can_pay (accounts st) tx t →
  process_body tx st =
    (call ← gets (λ st, cm_isContractCall (contractManager st) tx);
     if (call : bool) then
       payable ← gets (λ st, cm_isPayable (contractManager st) (txToCallInfo tx));
       _ ← (if (payable : bool) then modify (λ st, set_payable st true) else mret tt);
       _ ← host_call tx;
       modify (λ st, set_payable st false)
     else mret tt) (set_accounts st (moved (accounts st) (tb_from tx) (tb_to tx) t (tb_value tx))).
Proof.
  intros Hp. pose proof (pay_both _ _ _ Hp) as [H1' H2'].
  unfold process_body, mbind at 1, ST_bind at 1, lift. rewrite (cp_cost _ _ _ Hp).
  unfold mbind at 1, ST_bind at 1. rewrite balance_sub_Ok by done.
  unfold mbind at 1, ST_bind at 1. by rewrite balance_add_Ok by done.
Qed.

Definition bumped (a : gmap bytes Account) (addr : bytes) : gmap bytes Account :=
  <[addr := mkAccount (balance (account_at a addr)) (u64 (nonce (account_at a addr) + 1))]> a.

Lemma bumped_spec a addr k :
  account_at (bumped a addr) k =
    mkAccount (balance (account_at a k)) (if decide (addr = k) then u64 (nonce (account_at a k) + 1) else nonce (account_at a k)).
Proof. unfold bumped. rewrite account_at_insert. case_decide; subst; [done|]. by destruct (account_at a k). Qed.

Lemma bumped_total a addr : total (bumped a addr) = total a.
Proof. unfold bumped. rewrite total_insert. cbn [balance]. lia. Qed.

Lemma bumped_ok a addr : accounts_ok a → accounts_ok (bumped a addr).
Proof.
  intros Hok. apply accounts_ok_insert; [done|by apply account_at_ok|].
  unfold is_uint, wrap. apply Z.mod_pos_bound. lia.
Qed.

(** The accounts after a transfer. *)
Definition transferred (a : gmap bytes Account) (tx : TxBlock) (t : Z) : gmap bytes Account :=
  bumped (moved a (tb_from tx) (tb_to tx) t (tb_value tx)) (tb_from tx).

Lemma processTransaction_plain st tx t :
  can_pay (accounts st) tx t → cm_isContractCall (contractManager st) tx = false →
  processTransaction tx st = (Ok tt, set_accounts st (transferred (accounts st) tx t)).
Proof.
  intros Hp Hc. unfold processTransaction. destruct (cp_sender _ _ _ Hp) as [acc ->].
  unfold mbind at 1, ST_bind at 1, catching. rewrite (process_body_paid _ _ _ Hp).
  unfold mbind, ST_bind, gets. cbn [contractManager set_accounts]. by rewrite Hc.
Qed.

Lemma transferred_spec a tx t k :
  account_at (transferred a tx t) k =
    mkAccount (balance (account_at a k) - (if decide (tb_from tx = k) then t else 0)
                                        + (if decide (tb_to tx = k) then tb_value tx else 0))
              (if decide (tb_from tx = k) then u64 (nonce (account_at a k) + 1) else nonce (account_at a k)).
Proof. unfold transferred. rewrite bumped_spec, moved_spec. cbn. by repeat case_decide. Qed.

Lemma transferred_total a tx t :
  txWithFees tx = Ok t → total (transferred a tx t) = total a - tb_gasLimit tx * tb_maxFeePerGas tx.
Proof.
  intros [-> _]%txWithFees_Ok. unfold transferred. rewrite bumped_total, moved_total. lia.
Qed.

(** ** Running a block of transfers *)

(** The specification: a ledger gives every address a balance and a nonce, and
    a transfer moves the value, burns the fee and counts one. *)
Definition ledger_transfer (L : bytes → Account) (tx : TxBlock) : bytes → Account := λ k,
  let fee := tb_gasLimit tx * tb_maxFeePerGas tx in
  mkAccount (balance (L k) - (if decide (tb_from tx = k) then tb_value tx + fee else 0)
                           + (if decide (tb_to tx = k) then tb_value tx else 0))
            (if decide (tb_from tx = k) then u64 (nonce (L k) + 1) else nonce (L k)).

Definition fees (txs : list TxBlock) : Z :=
  foldr (λ tx s, tb_gasLimit tx * tb_maxFeePerGas tx + s) 0 txs.

(** Every sender can pay when its turn comes. *)
Fixpoint funded (a : gmap bytes Account) (txs : list TxBlock) : Prop :=
  match txs with
  | [] => True
  | tx :: txs => ∃ t, can_pay a tx t ∧ funded (transferred a tx t) txs
  end.

Lemma ledger_transfer_ext L L' tx : (∀ k, L k = L' k) → ∀ k, ledger_transfer L tx k = ledger_transfer L' tx k.
Proof. intros E k. unfold ledger_transfer. by rewrite E. Qed.

Lemma ledger_fold_ext txs L L' :
  (∀ k, L k = L' k) → ∀ k, foldl ledger_transfer L txs k = foldl ledger_transfer L' txs k.
Proof.
  revert L L'. induction txs as [|tx txs IH]; intros L L' E; [done|]. apply IH.
  by apply ledger_transfer_ext.
Qed.

Lemma process_transfers txs st :
  funded (accounts st) txs → Forall (λ tx, cm_isContractCall (contractManager st) tx = false) txs →
  ∃ a, each processTransaction txs st = (Ok tt, set_accounts st a) ∧
    (∀ k, account_at a k = foldl ledger_transfer (account_at (accounts st)) txs k) ∧
    total a = total (accounts st) - fees txs.
Proof.
  revert st. induction txs as [|tx txs IH]; intros st Hf Hc.
  - exists (accounts st). cbn. split_and!; [by destruct st|done|lia].
  - destruct Hf as (t & Hp & Hf). apply Forall_cons in Hc as [Hc Hcs].
    destruct (IH (set_accounts st (transferred (accounts st) tx t)) Hf Hcs) as (a & E & Ha & Ht).
    exists a. split_and!.
    + cbn [each]. unfold mbind, ST_bind. by rewrite (processTransaction_plain _ _ _ Hp Hc), E.
    + intros k. rewrite Ha. cbn [foldl]. apply ledger_fold_ext. intros k'.
      cbn [accounts set_accounts]. rewrite transferred_spec. unfold ledger_transfer.
      by destruct (txWithFees_Ok _ _ (cp_cost _ _ _ Hp)) as [-> _].
    + rewrite Ht. cbn [accounts set_accounts]. change (fees (tx :: txs)) with (tb_gasLimit tx * tb_maxFeePerGas tx + fees txs).
      rewrite (transferred_total _ _ _ (cp_cost _ _ _ Hp)). lia.
Qed.

(** C6: a block of transfers that do not call contracts, each of which its
    sender can pay when its turn comes, is processed without an exception; the
    accounts become those of the ledger specification and the sum of all
    balances falls by exactly the fees. *)
Theorem state_transfers_refine txs st :
  funded (accounts st) txs → Forall (λ tx, cm_isContractCall (contractManager st) tx = false) txs →
  ∃ st', each processTransaction txs st = (Ok tt, st') ∧
    (∀ addr, getNativeBalance st' addr = balance (foldl ledger_transfer (account_at (accounts st)) txs addr) ∧
             getNativeNonce st' addr = nonce (foldl ledger_transfer (account_at (accounts st)) txs addr)) ∧
    total (accounts st') =
      total (accounts st) - fees txs ∧
    mempool st' = mempool st ∧ contractManager st' = contractManager st.
Proof.
  intros Hf Hc. destruct (process_transfers _ _ Hf Hc) as (a & E & Ha & Ht).
  exists (set_accounts st a). split_and!; try done. intros addr.
  unfold getNativeBalance, getNativeNonce. cbn [accounts set_accounts]. by rewrite Ha.
Qed.

(** ** Failed calls *)

Lemma processTransaction_failed_call st tx t e :
  can_pay (accounts st) tx t → cm_isContractCall (contractManager st) tx = true →
  (∀ pcp a, ∃ c, cm_callContract pcp a tx (contractManager st, st_db st) = (Throw e, c)) →
  balance (account_at (accounts st) (tb_from tx)) + tb_value tx < 2 ^ 256 →
  let a := moved (accounts st) (tb_from tx) (tb_to tx) t (tb_value tx) in
  ∃ c, processTransaction tx st =
    (Ok tt, mkState c.2 (bumped (<[tb_from tx := mkAccount (balance (account_at a (tb_from tx)) + tb_value tx)
                                               (nonce (account_at a (tb_from tx)))]> a) (tb_from tx))
              (mempool st) (cm_isPayable (contractManager st) (txToCallInfo tx) || processingPayable st) c.1).
Proof.
  intros Hp Hc Ht Hb a. unfold processTransaction. destruct (cp_sender _ _ _ Hp) as [acc ->].
  unfold mbind at 1, ST_bind at 1, catching. rewrite (process_body_paid _ _ _ Hp). fold a.
  assert (0 ≤ balance (account_at a (tb_from tx)) + tb_value tx < 2 ^ 256) as Hr.
  { unfold a. rewrite moved_spec. cbn [balance]. rewrite decide_True by done.
    destruct (txWithFees_Ok _ _ (cp_cost _ _ _ Hp)) as (-> & Hf & _). destruct Hp as [Hok Hs Hv _ _ Hfu].
    unfold is_uint in Hf. pose proof (account_at_ok _ (tb_from tx) Hok) as [Hu _]. unfold is_uint in Hu.
    case_decide; lia. }
  unfold mbind at 1, ST_bind at 1, gets at 1. cbn [contractManager set_accounts]. rewrite Hc.
  unfold mbind at 1, ST_bind at 1, gets at 1. cbn [contractManager set_accounts].
  destruct (cm_isPayable (contractManager st) (txToCallInfo tx));
    unfold mbind, ST_bind, modify, mret, ST_ret, host_call;
    cbn [contractManager accounts mempool processingPayable st_db set_payable set_accounts].
  - destruct (Ht (processContractPayable true a) a) as [c ->].
    rewrite balance_add_Ok by done. by exists c.
  - destruct (Ht (processContractPayable (processingPayable st) a) a) as [c ->].
    rewrite balance_add_Ok by done. by exists c.
Qed.

(** C39: when the called contract throws, the sender is given the value back
    but the recipient keeps it: the call costs the sender the fee only, and the
    sum of all balances grows by the value. *)
Theorem state_failed_call_mints st tx t e :
  can_pay (accounts st) tx t → cm_isContractCall (contractManager st) tx = true →
  (∀ pcp a, ∃ c, cm_callContract pcp a tx (contractManager st, st_db st) = (Throw e, c)) →
  balance (account_at (accounts st) (tb_from tx)) + tb_value tx < 2 ^ 256 → tb_to tx ≠ tb_from tx →
  ∃ st', processTransaction tx st = (Ok tt, st') ∧
    getNativeBalance st' (tb_from tx) =
      getNativeBalance st (tb_from tx) - tb_gasLimit tx * tb_maxFeePerGas tx ∧
    getNativeBalance st' (tb_to tx) = getNativeBalance st (tb_to tx) + tb_value tx ∧
    total (accounts st') = total (accounts st) - tb_gasLimit tx * tb_maxFeePerGas tx + tb_value tx ∧
    getNativeNonce st' (tb_from tx) = u64 (getNativeNonce st (tb_from tx) + 1).
Proof.
  intros Hp Hc Ht Hb Hne. destruct (processTransaction_failed_call _ _ _ _ Hp Hc Ht Hb) as [c E].
  eexists. split; [exact E|]. destruct (txWithFees_Ok _ _ (cp_cost _ _ _ Hp)) as [Et _].
  unfold getNativeBalance, getNativeNonce. cbn [accounts].
  rewrite bumped_total, total_insert, moved_total, !bumped_spec, !account_at_insert, !moved_spec.
  cbn [balance nonce]. rewrite !(decide_True (P := tb_from tx = tb_from tx)) by done.
  rewrite !(decide_False (P := tb_from tx = tb_to tx)), ?(decide_False (P := tb_to tx = tb_from tx)) by done.
  rewrite (decide_True (P := tb_to tx = tb_to tx)) by done. cbn [balance nonce]. split_and!; try done; lia.
Qed.

(** ** Replay within a block *)

Lemma can_pay_twice a tx t :
  can_pay a tx t → 2 * t ≤ balance (account_at a (tb_from tx)) → can_pay (transferred a tx t) tx t.
Proof.
  intros Hp H2t. destruct (txWithFees_Ok _ _ (cp_cost _ _ _ Hp)) as (Et & Hf & _). unfold is_uint in Hf. split.
  - by apply bumped_ok, moved_ok.
  - rewrite (transferred_total _ _ _ (cp_cost _ _ _ Hp)). pose proof (cp_supply _ _ _ Hp). lia.
  - apply Hp.
  - unfold transferred, bumped. rewrite lookup_insert_eq. by eexists.
  - apply Hp.
  - rewrite transferred_spec. cbn [balance]. rewrite decide_True by done.
    pose proof (cp_value _ _ _ Hp). case_decide; lia.
Qed.

Lemma can_pay_valid st tx t :
  can_pay (accounts st) tx t → nonce (account_at (accounts st) (tb_from tx)) = tb_nonce tx →
  validateTransactionInternal st tx = Ok NotInvalid.
Proof.
  intros Hp Hn. unfold validateTransactionInternal. case_bool_decide; [done|].
  pose proof (cp_funds _ _ _ Hp) as Hf. unfold account_at in Hf, Hn.
  destruct (cp_sender _ _ _ Hp) as [acc E]. rewrite E in *. cbn in Hf, Hn.
  rewrite (cp_cost _ _ _ Hp). cbn [mbind outcome_bind].
  destruct (Z.ltb_spec (balance acc) t); [lia|]. by rewrite Hn, Z.eqb_refl.
Qed.

(** The transactions of a block are all validated against the state before
    the block, so the same signed transaction twice in a block is accepted, and
    it is then executed twice: the sender pays twice and the recipient is paid
    twice for one signature. *)
Theorem state_replay_in_block st tx t :
  can_pay (accounts st) tx t → nonce (account_at (accounts st) (tb_from tx)) = tb_nonce tx →
  2 * t ≤ getNativeBalance st (tb_from tx) → tb_to tx ≠ tb_from tx →
  cm_isContractCall (contractManager st) tx = false →
  all_valid st [tx; tx] = Ok true ∧
  ∃ st', each processTransaction [tx; tx] st = (Ok tt, st') ∧
    getNativeBalance st' (tb_from tx) = getNativeBalance st (tb_from tx) - 2 * t ∧
    getNativeBalance st' (tb_to tx) = getNativeBalance st (tb_to tx) + 2 * tb_value tx.
Proof.
  intros Hp Hn H2t Hne Hc. unfold getNativeBalance in *. split.
  - cbn [all_valid]. rewrite (can_pay_valid _ _ _ Hp Hn). cbn [mbind outcome_bind].
    by rewrite bool_decide_true by done.
  - pose proof (can_pay_twice _ _ _ Hp H2t) as Hp2.
    exists (set_accounts st (transferred (transferred (accounts st) tx t) tx t)).
    cbn [each]. unfold mbind, ST_bind. rewrite (processTransaction_plain _ _ _ Hp Hc).
    rewrite (processTransaction_plain (set_accounts st _) _ _ Hp2 Hc). cbn [accounts set_accounts].
    rewrite !transferred_spec. cbn [balance].
    rewrite !(decide_True (P := tb_from tx = tb_from tx)), !(decide_True (P := tb_to tx = tb_to tx)) by done.
    rewrite !(decide_False (P := tb_from tx = tb_to tx)), !(decide_False (P := tb_to tx = tb_from tx)) by done.
    split_and!; [done|lia|lia].
Qed.

(** ** Account entries *)

Lemma sized_spec n :
  is_uint 256 n →
  (if n =? 0 then [0] else uintToBytes (bytesRequired n) ++ uintToBytes n) = digits n :: uintToBytes n ∧
  is_byte (digits n).
Proof.
  intros Hn. unfold is_uint in Hn. assert (0 ≤ digits n ≤ 32) as Hd.
  { split; [apply digits_nonneg|]. apply digits_le_width; [lia|done]. }
  split; [|unfold is_byte; lia]. destruct (Z.eqb_spec n 0) as [->|]; [done|].
  rewrite (bytesRequired_spec n) by lia. pose proof (digits_pos n ltac:(lia)).
  rewrite (uintToBytes_spec (digits n)) by lia.
  assert (digits (digits n) = 1) as ->.
  { pose proof (digits_pos (digits n) ltac:(lia)).
    pose proof (digits_le_width (digits n) 1 ltac:(lia) ltac:(lia)). lia. }
  change (be_split (Z.to_nat 1) (digits n)) with [digits n mod 256]. by rewrite Z.mod_small by lia.
Qed.

Lemma fromBigEndian_byte b : is_byte b → fromBigEndian 8 [b] = b.
Proof.
  intros Hb. rewrite fromBigEndian_spec by (done || by constructor).
  unfold be_val. cbn [foldl]. rewrite Z.mod_small; unfold is_byte in Hb; lia.
Qed.

Lemma load_account_encoded a key acc :
  length key = 20%nat → is_uint 256 (balance acc) → is_uint 64 (nonce acc) →
  load_account a (mkDBEntry key (encode_account acc)) = Ok (map_emplace key acc a).
Proof.
  intros Hk Hb Hn. destruct acc as [b n]. cbn [balance nonce] in *.
  assert (is_uint 256 n) as Hn' by (unfold is_uint in *; lia).
  destruct (sized_spec b Hb) as [E1 D1], (sized_spec n Hn') as [E2 D2].
  assert (0 ≤ b ∧ 0 ≤ n) as [? ?] by (unfold is_uint in *; lia).
  pose proof (uintToBytes_zlen b ltac:(done)) as L1. pose proof (uintToBytes_zlen n ltac:(done)) as L2.
  unfold load_account, encode_account. cbn [e_key e_value balance nonce]. rewrite E1, E2.
  rewrite (zlen_of_length _ _ Hk). cbn [negb Z.eqb throw_if mbind outcome_bind Pos.eqb Z.of_nat Pos.of_succ_nat Pos.succ].
  set (data := (digits b :: uintToBytes b) ++ digits n :: uintToBytes n).
  assert (zlen data = 2 + digits b + digits n) as Ld
    by (unfold data; rewrite zlen_app, !zlen_cons; lia).
  pose proof (digits_nonneg b). pose proof (digits_nonneg n). unfold is_byte in D1, D2.
  rewrite (substr_at data [] [digits b] (uintToBytes b ++ digits n :: uintToBytes n) 0 1) by done.
  cbn [mbind outcome_bind]. rewrite fromBigEndian_byte by done.
  unfold wrap at 1. rewrite (Z.mod_small (zlen data + 1)) by lia.
  rewrite (proj2 (Z.ltb_ge _ _)) by lia. cbn [throw_if mbind outcome_bind].
  rewrite (substr_at data [digits b] (uintToBytes b) (digits n :: uintToBytes n) 1 (digits b)) by done.
  cbn [mbind outcome_bind].
  rewrite fromBigEndian256_spec, be_val_uintToBytes
    by (try rewrite be_val_uintToBytes; unfold is_uint in *; auto using uintToBytes_ok; lia).
  cbn [mbind outcome_bind].
  rewrite (substr_at data (digits b :: uintToBytes b) [digits n] (uintToBytes n) (1 + digits b) 1)
    by (done || rewrite zlen_cons; lia).
  cbn [mbind outcome_bind]. rewrite fromBigEndian_byte by done.
  rewrite (proj2 (Z.eqb_eq _ _)) by lia. cbn [negb throw_if mbind outcome_bind].
  rewrite (substr_at data ((digits b :: uintToBytes b) ++ [digits n]) (uintToBytes n) [] (2 + digits b) (digits n));
    [|unfold data; by rewrite app_nil_r, <-app_assoc|rewrite zlen_app, !zlen_cons, zlen_nil; lia|done].
  cbn [mbind outcome_bind]. rewrite fromBigEndian_spec, be_val_uintToBytes by (done || lia || by apply uintToBytes_ok).
  unfold is_uint in Hn. by rewrite Z.mod_small.
Qed.

(** The entries of [db] are those of the accounts [a]. *)
Definition stored (db : rstore) (a : gmap bytes Account) : Prop :=
  ∀ key v, lookup_db db (DBPrefix.nativeAccounts ++ key) = Some v ↔ ∃ acc, a !! key = Some acc ∧ v = encode_account acc.

Definition addresses_ok (a : gmap bytes Account) : Prop := map_Forall (λ k _, length k = 20%nat) a.

Lemma foldM_load a l m :
  accounts_ok a → addresses_ok a →
  (∀ e, e ∈ l → ∃ acc, a !! e_key e = Some acc ∧ e_value e = encode_account acc) →
  foldM load_account m l = Ok (foldl (λ m e, map_emplace (e_key e) (account_at a (e_key e)) m) m l).
Proof.
  intros Hok Hk. revert m. induction l as [|[k v] l IH]; intros m Hl; [done|]. cbn [foldM foldl].
  destruct (Hl (mkDBEntry k v) ltac:(left)) as (acc & E & Ev). cbn [e_key e_value] in *. subst v.
  rewrite load_account_encoded by (by apply (Hk k acc) || by apply (Hok k acc)).
  cbn [mbind outcome_bind]. unfold account_at at 2. rewrite E. cbn [default]. apply IH.
  intros e He. apply Hl. by right.
Qed.

Lemma load_stored db a :
  stored db a → accounts_ok a → addresses_ok a →
  foldM load_account ∅ (DB_getBatch db DBPrefix.nativeAccounts []) = Ok a.
Proof.
  intros Hs Hok Hk. rewrite (foldM_load a); [|done|done|].
  - f_equal. apply map_eq. intros k. apply option_eq. intros acc.
    rewrite (emplace_all_lookup e_key (λ e, account_at a (e_key e)));
      [|apply getBatch_NoDup|intros; apply lookup_empty].
    rewrite lookup_empty. split.
    + intros [?|([k' v] & He & <- & <-)]; [done|]. apply DB_getBatch_elem, Hs in He as (acc & E & _).
      cbn [e_key]. unfold account_at. by rewrite E.
    + intros E. right. exists (mkDBEntry k (encode_account acc)). split_and!.
      * apply DB_getBatch_elem, Hs. by exists acc.
      * done.
      * cbn [e_key]. unfold account_at. by rewrite E.
  - intros [k v] He. by apply DB_getBatch_elem, Hs in He.
Qed.

Lemma save_stored st :
  (∀ s ops, is_Some (r_write s ops)) →
  (∀ key v, lookup_db (st_db st) (DBPrefix.nativeAccounts ++ key) = Some v → is_Some (accounts st !! key)) →
  stored (State_dtor st) (accounts st).
Proof.
  intros Hw Hin key v. unfold State_dtor. rewrite cm_save_accounts.
  set (l := (λ e, mkDBEntry e.1 (encode_account e.2)) <$> iter_map (accounts st)).
  destruct (DB_putBatch (st_db st) (mkDBBatch l []) DBPrefix.nativeAccounts) as [ok db'] eqn:E.
  assert (ok = true) as ->.
  { unfold DB_putBatch, DB_write in E. destruct (Hw (st_db st) (((λ key, WDelete (DBPrefix.nativeAccounts ++ key)) <$> []) ++
      ((λ entry, WPut (DBPrefix.nativeAccounts ++ e_key entry) (e_value entry)) <$> l))) as [s Es].
    cbn [dels puts] in E. rewrite Es in E. by injection E. }
  cbn [snd]. rewrite (DB_putBatch_lookup _ _ _ _ _ E). cbn [puts dels].
  rewrite bool_decide_false by apply not_elem_of_nil.
  assert (NoDup (e_key <$> l)) as Hnd by (unfold l; rewrite <-list_fmap_compose; apply iter_map_NoDup).
  destruct (accounts st !! key) as [acc|] eqn:Ea.
  - rewrite (last_put_elem key (encode_account acc) l Hnd).
    + split; [intros [= <-]; by exists acc|]. by intros (? & [= <-] & ->).
    + apply list_elem_of_fmap. exists (key, acc). by rewrite iter_map_elem.
  - destruct (last_put key l) as [w|] eqn:El.
    + apply last_put_Some in El. apply list_elem_of_fmap in El as ([k ac] & [= -> ->] & Hk).
      apply iter_map_elem in Hk. congruence.
    + split; [|by intros (? & ? & _)]. intros Hv. apply Hin in Hv. rewrite Ea in Hv. by destruct Hv.
Qed.

(** C26: the accounts saved by the destructor are the accounts the next start
    loads: balance and nonce of every address survive the size-prefixed
    encoding and the database, in any iteration order of the map. *)
Theorem state_accounts_survive st c db' :
  (∀ s ops, is_Some (r_write s ops)) → accounts_ok (accounts st) → addresses_ok (accounts st) →
  accounts st ≠ ∅ →
  (∀ key v, lookup_db (st_db st) (DBPrefix.nativeAccounts ++ key) = Some v → is_Some (accounts st !! key)) →
  cm_load (State_dtor st) = Ok (c, db') →
  State_ctor (State_dtor st) = Ok (mkState db' (accounts st) ∅ false c).
Proof.
  intros Hw Hok Hk Hne Hin Hl. unfold State_ctor. rewrite Hl. cbn [mbind outcome_bind].
  assert (stored db' (accounts st)) as Hs.
  { intros key v. rewrite (cm_load_accounts _ _ _ _ Hl). by apply save_stored. }
  rewrite bool_decide_false.
  - by rewrite (load_stored _ _ Hs Hok Hk).
  - intros E. destruct (map_choose _ Hne) as (k & acc & Ea).
    apply (elem_of_nil (mkDBEntry k (encode_account acc))). rewrite <-E. apply DB_getBatch_elem, Hs.
    by exists acc.
Qed.

(** ** The mempool *)

(** What the state asks of a transaction. *)
Definition acceptable (a : gmap bytes Account) (tx : TxBlock) : Prop :=
  ∃ acc t, a !! tb_from tx = Some acc ∧ txWithFees tx = Ok t ∧ t ≤ balance acc ∧ nonce acc = tb_nonce tx.

Lemma validate_fresh st tx :
  mempool st !! TxBlock_hash tx true = None →
  validateTransactionInternal st tx = Ok NotInvalid ↔ acceptable (accounts st) tx.
Proof.
  intros Hm. unfold validateTransactionInternal, acceptable.
  rewrite bool_decide_false by (rewrite Hm; by intros []).
  destruct (accounts st !! tb_from tx) as [acc|]; [|split; [done|by intros (? & ? & ? & _)]].
  destruct (txWithFees tx) as [t|e|]; cbn [mbind outcome_bind];
    [|split; [done|by intros (? & ? & _ & ? & _)]..].
  destruct (Z.ltb_spec (balance acc) t).
  { split; [done|]. intros (? & ? & [= <-] & [= <-] & ? & _). lia. }
  destruct (Z.eqb_spec (nonce acc) (tb_nonce tx)); cbn [negb].
  - split; [|done]. intros _. by exists acc, t.
  - split; [done|]. by intros (? & ? & [= <-] & _ & _ & ?).
Qed.

(** Transactions are kept under their hash, and their cost is a number. *)
Definition keyed (m : gmap bytes TxBlock) : Prop :=
  map_Forall (λ h tx, h = TxBlock_hash tx true ∧ ∃ t, txWithFees tx = Ok t) m.

Definition mempool_ok (st : State) : Prop :=
  keyed (mempool st) ∧ map_Forall (λ _ tx, acceptable (accounts st) tx) (mempool st).

Lemma validate_total st tx t :
  txWithFees tx = Ok t → ∃ r, validateTransactionInternal st tx = Ok r.
Proof.
  intros Ht. unfold validateTransactionInternal. case_bool_decide; [by eexists|].
  destruct (accounts st !! tb_from tx); [|by eexists]. rewrite Ht. cbn [mbind outcome_bind].
  repeat case_match; by eexists.
Qed.

#[export] Instance acceptable_dec a tx : Decision (acceptable a tx).
Proof.
  unfold acceptable. destruct (a !! tb_from tx) as [acc|] eqn:E; [|right; by intros (? & ? & ? & _)].
  destruct (txWithFees tx) as [t|e|] eqn:Et; [|right; by intros (? & ? & _ & ? & _)..].
  destruct (decide (t ≤ balance acc ∧ nonce acc = tb_nonce tx)) as [Hy|Hn].
  - left. exists acc, t. naive_solver.
  - right. intros (? & ? & [= <-] & [= <-] & ? & ?). naive_solver.
Defined.

Lemma keep_valid_spec st h tx :
  h = TxBlock_hash tx true → (∃ t, txWithFees tx = Ok t) → mempool st !! h = None →
  keep_valid (h, tx) st =
    (Ok tt, set_txs st (if decide (acceptable (accounts st) tx) then <[h := tx]> (mempool st) else mempool st)).
Proof.
  intros -> [t Ht] Hm. unfold keep_valid. cbn [fst snd].
  destruct (validate_total st tx t Ht) as [r Hr]. pose proof (validate_fresh st tx Hm) as Hv. rewrite Hr in *.
  case_decide as Hd.
  - apply Hv in Hd as [= ->]. by rewrite map_emplace_fresh.
  - destruct r; [by destruct Hd; apply Hv| |]; by destruct st.
Qed.

Lemma keep_all l st :
  NoDup l.*1 → Forall (λ e, e.1 = TxBlock_hash e.2 true ∧ ∃ t, txWithFees e.2 = Ok t) l →
  (∀ h, h ∈ l.*1 → mempool st !! h = None) →
  ∃ m, each keep_valid l st = (Ok tt, set_txs st m) ∧
    ∀ h tx, m !! h = Some tx ↔ mempool st !! h = Some tx ∨ ((h, tx) ∈ l ∧ acceptable (accounts st) tx).
Proof.
  revert st. induction l as [|[h tx] l IH]; intros st Hnd Hk Hf.
  - exists (mempool st). split; [by destruct st|]. intros. split; [by left|]. by intros [?|[?%elem_of_nil _]].
  - cbn in Hnd. apply NoDup_cons in Hnd as [Hni Hnd]. apply Forall_cons in Hk as [[Eh Ht] Hk].
    cbn [each fst snd] in *. pose proof (Hf h ltac:(left)) as Hh.
    set (m1 := if decide (acceptable (accounts st) tx) then <[h := tx]> (mempool st) else mempool st).
    destruct (IH (set_txs st m1) Hnd Hk) as (m & E & Hm).
    { intros h' Hh'. cbn. unfold m1. case_decide; [rewrite lookup_insert_ne by (by intros ->)|]; apply Hf; by right. }
    exists m. split.
    { unfold mbind, ST_bind. rewrite (keep_valid_spec _ _ _ Eh Ht Hh). fold m1. by rewrite E. }
    intros h' tx'. rewrite Hm. cbn [mempool accounts set_txs]. rewrite elem_of_cons. unfold m1. case_decide as Hd.
    + rewrite lookup_insert_Some. split.
      * intros [[[-> ->]|[_ ?]]|[? ?]]; [right; by auto|by left|right; by auto].
      * intros [Hs|[[[= -> ->]|?] ?]]; [|by left; left|by right].
        left. right. split; [|done]. intros ->. congruence.
    + split; [naive_solver|]. intros [?|[[[= -> ->]|?] ?]]; naive_solver.
Qed.

Lemma foldl_delete_lookup (txs : list TxBlock) (m : gmap bytes TxBlock) h tx :
  foldl (λ m tx, delete (TxBlock_hash tx true) m) m txs !! h = Some tx ↔
  m !! h = Some tx ∧ h ∉ (λ tx, TxBlock_hash tx true) <$> txs.
Proof.
  revert m. induction txs as [|t txs IH]; intros m; cbn [foldl fmap list_fmap].
  - split; [|by intros []]. intros. split; [done|]. apply not_elem_of_nil.
  - rewrite IH, lookup_delete_Some, not_elem_of_cons. naive_solver.
Qed.

Lemma refreshMempool_spec b st :
  keyed (mempool st) →
  ∃ m, refreshMempool b st = (Ok tt, set_txs st m) ∧
    ∀ h tx, m !! h = Some tx ↔
      mempool st !! h = Some tx ∧ h ∉ ((λ tx, TxBlock_hash tx true) <$> b_txs b) ∧ acceptable (accounts st) tx.
Proof.
  intros Hk. unfold refreshMempool.
  set (mc := foldl _ (mempool st) (b_txs b)).
  destruct (keep_all (iter_map mc) (set_txs st ∅)) as (m & E & Hm).
  - apply iter_map_NoDup.
  - apply Forall_forall. intros [h tx] Hin%iter_map_elem. apply foldl_delete_lookup in Hin as [Hin _].
    by apply Hk.
  - intros. apply lookup_empty.
  - exists m. split; [exact E|]. intros h tx. rewrite Hm. cbn [mempool accounts set_txs].
    rewrite lookup_empty, iter_map_elem. unfold mc. rewrite foldl_delete_lookup. naive_solver.
Qed.

Lemma refreshed_ok st m :
  keyed (mempool st) → (∀ h tx, m !! h = Some tx → mempool st !! h = Some tx ∧ acceptable (accounts st) tx) →
  mempool_ok (set_txs st m).
Proof.
  intros Hk Hm. split; intros h tx Hl; apply Hm in Hl as [? ?]; [by apply Hk|done].
Qed.

(** Running transactions leaves the mempool alone. *)
Definition frames {A} (m : ST State A) : Prop := ∀ st, mempool (m st).2 = mempool st.

Lemma frames_bind {A B} (m : ST State A) (f : A → ST State B) : frames m → (∀ a, frames (f a)) → frames (m ≫= f).
Proof.
  intros Hm Hf st. unfold mbind, ST_bind. specialize (Hm st). destruct (m st) as [[a| |] s']; [|done..].
  by rewrite Hf.
Qed.

Lemma frames_balance op addr x : frames (balance_assign op addr x).
Proof. intros st. unfold balance_assign. by destruct (op _ x). Qed.

Lemma frames_body tx : frames (process_body tx).
Proof.
  unfold process_body. repeat (apply frames_bind; [try done; try apply frames_balance|intros]).
  case_match; [|done]. repeat (apply frames_bind; [|intros]).
  - done.
  - by case_match.
  - intros st. unfold host_call. by destruct (cm_callContract _ _ _ _) as [[]].
  - done.
Qed.

Lemma frames_process tx : frames (processTransaction tx).
Proof.
  intros st. unfold processTransaction. case_match; [|done]. apply frames_bind; [|done].
  intros s. unfold catching. pose proof (frames_body tx s) as Hb. destruct (process_body tx s) as [[]]; try done.
  by rewrite frames_balance.
Qed.

Lemma frames_each txs : frames (each processTransaction txs).
Proof. induction txs; [done|]. apply frames_bind; [apply frames_process|done]. Qed.

Lemma validateNextBlock_true st rd storage b :
  validateNextBlock st rd storage b = Ok true →
  ∃ lb, latest storage = Ok lb ∧ b_nHeight b = u64 (b_nHeight lb + 1) ∧ b_prevBlockHash b = Block_hash lb ∧
    b_timestamp lb ≤ b_timestamp b ∧ validateBlock rd storage b = Ok true ∧ all_valid st (b_txs b) = Ok true.
Proof.
  unfold validateNextBlock. intros Hv. apply bind_Ok in Hv as (lb & Hl & Hv).
  destruct (Z.eqb_spec (b_nHeight b) (u64 (b_nHeight lb + 1))); [|done].
  case_bool_decide; [|done]. destruct (Z.ltb_spec (b_timestamp b) (b_timestamp lb)); [done|].
  cbn [negb] in Hv. apply bind_Ok in Hv as (v & Hr & Hv). destruct v; [|done]. by exists lb.
Qed.

Lemma validateBlock_finalized rd storage b : validateBlock rd storage b = Ok true → b_finalized b = true.
Proof.
  unfold validateBlock. intros Hv. apply bind_Ok in Hv as (lb & _ & Hv). by destruct (b_finalized b).
Qed.

Lemma pushBack_next storage lb b :
  latest storage = Ok lb → b_nHeight b = u64 (b_nHeight lb + 1) → b_prevBlockHash b = Block_hash lb →
  ∃ storage', pushBack storage b = Ok storage' ∧ latest storage' = Ok b ∧ chain storage' = chain storage ++ [b].
Proof.
  unfold latest, pushBack, pushBackInternal. intros Hl Hh Hp.
  destruct (last (chain storage)) as [lb'|]; [|done]. injection Hl as ->.
  rewrite bool_decide_true by done. rewrite Hh, Z.eqb_refl. cbn [negb throw_if mbind outcome_bind].
  eexists. split; [done|]. cbn [chain index_block set_chain]. by rewrite last_snoc.
Qed.

(** ** Blocks *)

Lemma processNextBlock_Ok b st rd storage n' :
  processNextBlock b (st, rd, storage) = (Ok tt, n') →
  validateNextBlock st rd storage b = Ok true ∧
  ∃ st1 st2 seed rd' storage', each processTransaction (b_txs b) st = (Ok tt, st1) ∧
    processBlock rd b = Ok (seed, rd') ∧ refreshMempool b st1 = (Ok tt, st2) ∧
    pushBack storage b = Ok storage' ∧ n' = (st2, rd', storage').
Proof.
  unfold processNextBlock. destruct (validateNextBlock st rd storage b) as [[]|e|]; cbn [mbind outcome_bind negb throw_if];
    try (by intros [=]). intros E. split; [done|].
  destruct (each processTransaction (b_txs b) st) as [[[]|e|] st1] eqn:E1; try discriminate E.
  destruct (processBlock rd b) as [[seed rd']|e|] eqn:E2; try discriminate E.
  destruct (refreshMempool b st1) as [[[]|e|] st2] eqn:E3; try discriminate E.
  destruct (pushBack storage b) as [storage'|e|] eqn:E4; try discriminate E.
  injection E as <-. by exists st1, st2, seed, rd', storage'.
Qed.

(** A block of funded transfers that passes the checks is executed. *)
Lemma processNextBlock_valid b st rd storage :
  keyed (mempool st) → zlen (validators rd) < 2 ^ 64 →
  funded (accounts st) (b_txs b) →
  Forall (λ tx, cm_isContractCall (contractManager st) tx = false) (b_txs b) →
  validateNextBlock st rd storage b = Ok true →
  ∃ st' rd' storage',
    processNextBlock b (st, rd, storage) = (Ok tt, (st', rd', storage')) ∧
    latest storage' = Ok b ∧ chain storage' = chain storage ++ [b] ∧
    (∀ addr, account_at (accounts st') addr = foldl ledger_transfer (account_at (accounts st)) (b_txs b) addr) ∧
    validatorMempool rd' = ∅ ∧ randomList rd' ≡ₚ validators rd ∧
    ∀ h tx, mempool st' !! h = Some tx ↔
      mempool st !! h = Some tx ∧ h ∉ ((λ tx, TxBlock_hash tx true) <$> b_txs b) ∧ acceptable (accounts st') tx.
Proof.
  intros Hk Hm Hf Hc Hv.
  destruct (process_transfers _ _ Hf Hc) as (a & E & Ha & _).
  destruct (validateNextBlock_true _ _ _ _ Hv) as (lb & Hl & Hh & Hp & _ & Hrv & _).
  destruct (processBlock_Ok rd b (validateBlock_finalized _ _ _ Hrv) Hm) as (rl & Hpb & Hperm).
  destruct (pushBack_next _ _ _ Hl Hh Hp) as (storage' & Hpush & Hlat & Hch).
  destruct (refreshMempool_spec b (set_accounts st a) Hk) as (m & Hrf & Hmem).
  eexists (set_txs (set_accounts st a) m), _, storage'. split.
  { unfold processNextBlock. rewrite Hv. cbn [mbind outcome_bind negb throw_if]. by rewrite E, Hpb, Hrf, Hpush. }
  split_and!; [exact Hlat|exact Hch|exact Ha|done|exact Hperm|exact Hmem].
Qed.

(** C17: a block of funded transfers that passes [validateNextBlock] is
    executed completely: it becomes the latest block of the storage, the
    accounts become those of the ledger specification, the Validator mempool is
    emptied, and the mempool keeps exactly the transactions that are not in the
    block and are acceptable on the new accounts.  A block that does not pass
    throws and changes nothing. *)
Theorem state_block_execution b st rd storage :
  keyed (mempool st) → zlen (validators rd) < 2 ^ 64 →
  funded (accounts st) (b_txs b) →
  Forall (λ tx, cm_isContractCall (contractManager st) tx = false) (b_txs b) →
  match validateNextBlock st rd storage b with
  | Ok true => ∃ st' rd' storage',
      processNextBlock b (st, rd, storage) = (Ok tt, (st', rd', storage')) ∧
      latest storage' = Ok b ∧ chain storage' = chain storage ++ [b] ∧
      (∀ addr, account_at (accounts st') addr = foldl ledger_transfer (account_at (accounts st)) (b_txs b) addr) ∧
      validatorMempool rd' = ∅ ∧ randomList rd' ≡ₚ validators rd ∧
      ∀ h tx, mempool st' !! h = Some tx ↔
        mempool st !! h = Some tx ∧ h ∉ ((λ tx, TxBlock_hash tx true) <$> b_txs b) ∧ acceptable (accounts st') tx
  | Ok false => processNextBlock b (st, rd, storage) =
      (Throw (runtime_error "Invalid block detected during processNextBlock sanity check."), (st, rd, storage))
  | Throw e => processNextBlock b (st, rd, storage) = (Throw e, (st, rd, storage))
  | Undef => processNextBlock b (st, rd, storage) = (Undef, (st, rd, storage))
  end.
Proof.
  intros Hk Hm Hf Hc. destruct (validateNextBlock st rd storage b) as [[]|e|] eqn:Hv;
    [by apply processNextBlock_valid|unfold processNextBlock; rewrite Hv; reflexivity..].
Qed.

(** The operations that change the state between blocks, and the blocks. *)
Inductive node_step : node → node → Prop :=
  | ns_addTx tx r st st' rd storage :
      addTx tx st = (r, st') → node_step (st, rd, storage) (st', rd, storage)
  | ns_addValidatorTx tx r st rd rd' storage :
      State_addValidatorTx rd storage tx = Ok (r, rd') → node_step (st, rd, storage) (st, rd', storage)
  | ns_addBalance addr st st' rd storage :
      addBalance addr st = (Ok tt, st') → node_step (st, rd, storage) (st', rd, storage)
  | ns_ethCall ci r st st' rd storage :
      State_ethCall ci st = (r, st') → node_step (st, rd, storage) (st', rd, storage)
  | ns_estimateGas ci r st st' rd storage :
      estimateGas ci st = (r, st') → node_step (st, rd, storage) (st', rd, storage)
  | ns_block b n n' : processNextBlock b n = (Ok tt, n') → node_step n n'
  | ns_rejected b st rd storage e n' :
      validateNextBlock st rd storage b ≠ Ok true → processNextBlock b (st, rd, storage) = (Throw e, n') →
      node_step (st, rd, storage) n'.

Lemma addTx_ok tx r st st' : mempool_ok st → addTx tx st = (r, st') → mempool_ok st'.
Proof.
  intros [Hk Ha]. unfold addTx. destruct (mempool st !! TxBlock_hash tx true) as [tx0|] eqn:E.
  - unfold validateTransactionInternal. rewrite bool_decide_true by (rewrite E; by eexists).
    intros [= <- <-]. unfold map_emplace. rewrite E. by destruct st.
  - pose proof (validate_fresh st tx E) as Hv.
    destruct (validateTransactionInternal st tx) as [[]|e|]; intros [= <- <-]; try done.
    rewrite map_emplace_fresh by done. destruct (proj1 Hv eq_refl) as (acc & t & Hacc).
    split; cbn [mempool accounts set_txs]; apply map_Forall_insert_2; try done.
    + split; [done|]. exists t. naive_solver.
    + by exists acc, t.
Qed.

Lemma addBalance_ok addr st st' : mempool_ok st → addBalance addr st = (Ok tt, st') → mempool_ok st'.
Proof.
  intros [Hk Ha]. unfold addBalance, balance_assign, add_assign.
  destruct (add256 _ _) as [v|e|] eqn:E; intros [= <-]. split; [done|].
  intros h tx Hl. destruct (Ha _ _ Hl) as (acc & t & E1 & E2 & E3 & E4).
  apply checked_Ok in E as [-> _]. unfold acceptable. cbn [accounts set_accounts].
  destruct (decide (addr = tb_from tx)) as [->|].
  - rewrite lookup_insert_eq. unfold account_at. rewrite E1. cbn [default].
    eexists _, t. split; [done|]. cbn [balance nonce from_option id]. split_and!; [done|lia|done].
  - rewrite lookup_insert_ne by done. by exists acc, t.
Qed.

Lemma estimateGas_frame ci r st st' : estimateGas ci st = (r, st') → accounts st' = accounts st ∧ mempool st' = mempool st.
Proof.
  unfold estimateGas. intros E. repeat case_match; simplify_eq; done.
Qed.

Lemma State_ethCall_frame ci r st st' : State_ethCall ci st = (r, st') → accounts st' = accounts st ∧ mempool st' = mempool st.
Proof. unfold State_ethCall. intros E. repeat case_match; by simplify_eq. Qed.

Lemma node_step_ok n n' : node_step n n' → mempool_ok n.1.1 → mempool_ok n'.1.1.
Proof.
  intros Hs Hok. destruct Hs as [? ? ? ? ? ? E|? ? ? ? ? ? E|? ? ? ? ? E|? ? ? ? ? ? E|? ? ? ? ? ? E|b [[st rd] storage] n' E|? ? ? ? ? ? Hv E];
    cbn [fst] in *; eauto using addTx_ok, addBalance_ok.
  - apply State_ethCall_frame in E as [Ea Em]. unfold mempool_ok. by rewrite Ea, Em.
  - apply estimateGas_frame in E as [Ea Em]. unfold mempool_ok. by rewrite Ea, Em.
  - apply processNextBlock_Ok in E as (_ & st1 & st2 & seed & rd' & storage' & E1 & _ & E3 & _ & ->).
    cbn [fst]. pose proof (frames_each (b_txs b) st) as Hfr. rewrite E1 in Hfr. cbn [snd] in Hfr.
    assert (keyed (mempool st1)) as Hk by (rewrite Hfr; apply Hok).
    destruct (refreshMempool_spec b st1 Hk) as (m & E & Hm). rewrite E in E3. injection E3 as <-.
    apply refreshed_ok; [done|]. intros h tx Hl. by apply Hm in Hl as (? & _ & ?).
  - unfold processNextBlock in E. destruct (validateNextBlock _ _ _ _) as [[]|x|]; cbn in E; try done;
      by injection E as _ <-.
Qed.


End State.

(** * Examples *)

(** A manager with one contract, on which every call fails. *)
#[refine] Definition toy_host : @ContractHost toy_rocks := {|
  cm := unit;
  cm_load db := Ok (tt, db);
  cm_save _ db := db;
  cm_isContractCall _ tx := bool_decide (tb_to tx = replicate 20 7);
  cm_isContractAddress _ a := bool_decide (a = replicate 20 7);
  cm_isPayable _ _ := true;
  cm_callContract _ _ _ c := (Throw (runtime_error "Functor not found"), c);
  cm_callView _ c := (Throw (runtime_error "Functor not found"), c);
  cm_validateCall _ _ c := (Throw (runtime_error "Functor not found"), c);
  cm_getContracts _ := [];
|}.
Proof. all: naive_solver. Defined.

Definition alice : bytes := replicate 20 1.
Definition bob : bytes := replicate 20 2.
Definition pay (to : bytes) (value : Z) : TxBlock := mkTxBlock to alice [] 8080 0 value 1 2 5 0 1 1.
Definition funds : gmap bytes Account := {[ alice := mkAccount 1000 0 ]}.
Definition state0 : @State toy_rocks toy_host := @mkState toy_rocks toy_host [] funds ∅ false tt.

Lemma funds_pay to value :
  0 ≤ value ≤ 990 → can_pay funds (pay to value) (value + 10).
Proof.
  intros Hv. split.
  - apply map_Forall_singleton. by split.
  - reflexivity.
  - cbn; lia.
  - by eexists.
  - unfold txWithFees. change (mul256 _ _) with (Ok 10). apply add256_Ok. cbn [tb_value pay]. lia.
  - cbn [tb_from pay]. unfold account_at, funds. rewrite lookup_singleton_eq. cbn. lia.
Qed.

Lemma state_transfers_refine_witness :
  ∃ st', @each _ _ (@processTransaction toy_rocks toy_host toy_left toy_order) [pay bob 300] state0 = (Ok tt, st') ∧
    total (accounts st') = 990.
Proof.
  destruct (@state_transfers_refine toy_rocks toy_host toy_left toy_order [pay bob 300] state0)
    as (st' & E & _ & Ht & _).
  - exists 310. split; [apply (funds_pay bob 300); lia|exact I].
  - repeat constructor.
  - exists st'. split; [exact E|]. rewrite Ht. reflexivity.
Defined.

Lemma state_failed_call_mints_witness :
  ∃ st', @processTransaction toy_rocks toy_host toy_left toy_order (pay (replicate 20 7) 300) state0 = (Ok tt, st') ∧
    total (accounts st') = 1290.
Proof.
  destruct (@state_failed_call_mints toy_rocks toy_host toy_left toy_order state0 (pay (replicate 20 7) 300) 310
              (runtime_error "Functor not found")) as (st' & E & _ & _ & Ht & _).
  - apply (funds_pay (replicate 20 7) 300). lia.
  - reflexivity.
  - intros. by eexists.
  - reflexivity.
  - discriminate.
  - exists st'. split; [exact E|]. rewrite Ht. reflexivity.
Defined.

Lemma state_replay_in_block_witness :
  ∃ st', @each _ _ (@processTransaction toy_rocks toy_host toy_left toy_order) [pay bob 300; pay bob 300] state0 = (Ok tt, st') ∧
    getNativeBalance st' bob = 600.
Proof.
  destruct (@state_replay_in_block toy_keccak toy_rocks toy_host toy_left toy_order state0 (pay bob 300) 310)
    as (_ & st' & E & _ & Hb).
  - apply (funds_pay bob 300). lia.
  - reflexivity.
  - vm_compute. discriminate.
  - discriminate.
  - reflexivity.
  - exists st'. split; [exact E|]. etrans; [exact Hb|reflexivity].
Defined.

Lemma state_accounts_survive_witness :
  @State_ctor toy_rocks toy_host (@State_dtor toy_rocks toy_host toy_order state0) =
    Ok (@mkState toy_rocks toy_host (@State_dtor toy_rocks toy_host toy_order state0) funds ∅ false tt).
Proof.
  apply (@state_accounts_survive toy_rocks toy_host toy_order state0 tt).
  - intros. by eexists.
  - apply map_Forall_singleton. by split.
  - apply map_Forall_singleton. reflexivity.
  - apply map_non_empty_singleton.
  - done.
  - reflexivity.
Defined.

Definition next_block : Block :=
  mkBlock Signature_empty (@Block_hash toy_keccak st_block0) Hash_zero Hash_zero Hash_zero 200 1
    (b_txValidators round_block) [pay bob 300] round_key true.

Lemma state_block_execution_witness :
  ∃ st' rd' storage',
    @processNextBlock toy_keccak toy_rocks toy_host toy_left toy_order next_block (state0, round_rd, st_one) =
      (Ok tt, (st', rd', storage')) ∧
    latest storage' = Ok next_block.
Proof.
  pose proof (@state_block_execution toy_keccak toy_rocks toy_host toy_left toy_order
                next_block state0 round_rd st_one) as Hx.
  assert (@validateNextBlock toy_keccak toy_rocks toy_host state0 round_rd st_one next_block = Ok true) as E
    by (vm_compute; reflexivity).
  rewrite E in Hx. destruct Hx as (st' & rd' & storage' & Hp & Hl & _).
  - done.
  - reflexivity.
  - exists 310. split; [apply (funds_pay bob 300); lia|exact I].
  - repeat constructor.
  - exists st', rd', storage'. split; [exact Hp|exact Hl].
Defined.

