(* ===== verification/SafeVars.v ===== *)
(** * SafeVars: the variables of contracts (src/contract/variables)

    A contract changes its variables in two stages: operators work on a
    temporary copy ([valuePtr]) and register the variable with its contract;
    when the call ends, the contract commits or reverts every registered
    variable.  [SafeUint8_t] to [SafeUint64_t] are the same class at four
    widths, and [SafeUint256_t] differs in its [commit] and has no shifts.
    An operator whose right operand is another safe variable reads it with
    [get] and then does what the overload for plain values does; SafeUints.v
    has both. *)

From S2P Require Import Prelude Utils.

(** ** SafeBase *)

Record SafeVar (A : Type) := mkSafeVar {
  sv_owned : bool;        (** [owner != nullptr] *)
  sv_registered : bool;
  sv_value : A;
  sv_ptr : option A;      (** [valuePtr], [None] for the null pointer *)
}.
Arguments mkSafeVar {_}.
Arguments sv_owned {_}.
Arguments sv_registered {_}.
Arguments sv_value {_}.
Arguments sv_ptr {_}.

Section SafeBase.
Context {A : Type}.
Implicit Types v : SafeVar A.

Definition sv_set_ptr v (p : option A) : SafeVar A := mkSafeVar (sv_owned v) (sv_registered v) (sv_value v) p.

(** [check()]. *)
Definition sv_check v : SafeVar A :=
  match sv_ptr v with None => sv_set_ptr v (Some (sv_value v)) | Some _ => v end.

(** [markAsUsed()]: variables without an owner are not registered. *)
Definition sv_markAsUsed v : SafeVar A :=
  mkSafeVar (sv_owned v) (sv_owned v || sv_registered v) (sv_value v) (sv_ptr v).

(** [*valuePtr] after [check()]. *)
Definition sv_pending v : A := default (sv_value v) (sv_ptr v).

Definition sv_get : ST (SafeVar A) A := λ v, (Ok (sv_pending v), sv_check v).

(** [check(); markAsUsed(); *valuePtr = x;] *)
Definition sv_assign (x : A) : ST (SafeVar A) unit := λ v,
  (Ok tt, sv_set_ptr (sv_markAsUsed (sv_check v)) (Some x)).

(** [check(); markAsUsed();] and an update that may throw before it writes. *)
Definition sv_update (f : A → outcome A) : ST (SafeVar A) unit := λ v,
  let v := sv_markAsUsed (sv_check v) in
  match f (sv_pending v) with
  | Ok x => (Ok tt, sv_set_ptr v (Some x))
  | Throw e => (Throw e, v)
  | Undef => (Undef, v)
  end.

(** [commit()] of [SafeUint8_t] to [SafeUint64_t] and of [SafeBool]. *)
Definition sv_commit v : SafeVar A := mkSafeVar (sv_owned v) false (sv_pending v) None.

(** [revert()] of all but [SafeAddress]. *)
Definition sv_revert v : SafeVar A := mkSafeVar (sv_owned v) false (sv_value v) None.

(** [SafeUint256_t::commit()] dereferences without [check()]. *)
Definition SafeUint256_commit v : outcome (SafeVar A) :=
  match sv_ptr v with
  | Some x => Ok (mkSafeVar (sv_owned v) false x None)
  | None => Undef
  end.

(** [SafeString::commit()] keeps the temporary copy. *)
Definition SafeString_commit v : SafeVar A :=
  mkSafeVar (sv_owned v) false (sv_pending v) (Some (sv_pending v)).

(** [SafeAddress]: neither function resets [registered]. *)
Definition SafeAddress_commit v : SafeVar A := mkSafeVar (sv_owned v) (sv_registered v) (sv_pending v) None.
Definition SafeAddress_revert v : SafeVar A := sv_set_ptr v None.

End SafeBase.

(** ** Constructors *)

(** [SafeUintX_t(owner, value)], [SafeBool(owner, value)]: the initial value is
    temporary until it is committed. *)
Definition SafeUint_owned (x : Z) : SafeVar Z := mkSafeVar true false 0 (Some x).
Definition SafeUint_local (x : Z) : SafeVar Z := mkSafeVar false false 0 (Some x).
Definition SafeUint_copy (other : SafeVar Z) : SafeVar Z := SafeUint_local (sv_pending other).
Definition SafeBool_owned (b : bool) : SafeVar bool := mkSafeVar true false false (Some b).
Definition SafeBool_copy (other : SafeVar bool) : SafeVar bool :=
  mkSafeVar false false (sv_value other) (Some (sv_pending other)).
Definition SafeString_owned (s : bytes) : SafeVar bytes := mkSafeVar true false [] (Some s).
Definition SafeAddress_owned (a : bytes) : SafeVar bytes := mkSafeVar true false a (Some a).

(** The copy constructor of [SafeAddress] calls [check()] on the new object and
    dereferences the pointer of the other. *)
Definition SafeAddress_copy (other : SafeVar bytes) : outcome (SafeVar bytes) :=
  match sv_ptr other with
  | Some a => Ok (mkSafeVar false false (sv_value other) (Some a))
  | None => Undef
  end.

Definition SafeAddress_eq (a : bytes) : ST (SafeVar bytes) bool := λ v, (Ok (bool_decide (sv_pending v = a)), sv_check v).
Definition SafeAddress_ne (a : bytes) : ST (SafeVar bytes) bool := λ v, (Ok (bool_decide (sv_pending v ≠ a)), sv_check v).

(** ** Unsigned integers of [w] bits *)

Section SafeUint.
Context (w : Z).

(** [std::numeric_limits<T>::max()] *)
Definition uint_max : Z := 2 ^ w - 1.

(** The values that the operators compute from [*valuePtr] and the right
    operand. *)
Definition uint_add (x y : Z) : outcome Z :=
  if uint_max - y <? x then Throw overflow_error else Ok (wrap w (x + y)).
Definition uint_sub (x y : Z) : outcome Z :=
  if x <? y then Throw underflow_error else Ok (wrap w (x - y)).
Definition uint_mul (x y : Z) : outcome Z :=
  if (y =? 0) || (x =? 0) then Throw domain_error
  else if uint_max / y <? x then Throw overflow_error
  else Ok (wrap w (x * y)).
Definition uint_div (x y : Z) : outcome Z :=
  if (x =? 0) || (y =? 0) then Throw domain_error else Ok (x / y).
Definition uint_mod (x y : Z) : outcome Z :=
  if (x =? 0) || (y =? 0) then Throw domain_error else Ok (x mod y).
Definition uint_and (x y : Z) : outcome Z := Ok (Z.land x y).
Definition uint_or (x y : Z) : outcome Z := Ok (Z.lor x y).
Definition uint_xor (x y : Z) : outcome Z := Ok (Z.lxor x y).

(** The operands are promoted to at least 32 bits before they are shifted. *)
Definition uint_shl (x y : Z) : outcome Z :=
  if Z.max 32 w <=? y then Undef else Ok (wrap w (Z.shiftl x y)).
Definition uint_shr (x y : Z) : outcome Z :=
  if Z.max 32 w <=? y then Undef else Ok (Z.shiftr x y).

(** [operator+] and the others: a new local variable. *)
Definition SafeUint_op (f : Z → Z → outcome Z) (y : Z) : ST (SafeVar Z) (SafeVar Z) := λ v,
  match f (sv_pending v) y with
  | Ok r => (Ok (SafeUint_local r), sv_check v)
  | Throw e => (Throw e, sv_check v)
  | Undef => (Undef, sv_check v)
  end.

Definition SafeUint_add : Z → ST (SafeVar Z) (SafeVar Z) := SafeUint_op uint_add.
Definition SafeUint_sub : Z → ST (SafeVar Z) (SafeVar Z) := SafeUint_op uint_sub.
Definition SafeUint_mul : Z → ST (SafeVar Z) (SafeVar Z) := SafeUint_op uint_mul.
Definition SafeUint_div : Z → ST (SafeVar Z) (SafeVar Z) := SafeUint_op uint_div.
Definition SafeUint_mod : Z → ST (SafeVar Z) (SafeVar Z) := SafeUint_op uint_mod.
Definition SafeUint_and : Z → ST (SafeVar Z) (SafeVar Z) := SafeUint_op uint_and.
Definition SafeUint_or : Z → ST (SafeVar Z) (SafeVar Z) := SafeUint_op uint_or.
Definition SafeUint_xor : Z → ST (SafeVar Z) (SafeVar Z) := SafeUint_op uint_xor.
Definition SafeUint_shl : Z → ST (SafeVar Z) (SafeVar Z) := SafeUint_op uint_shl.
Definition SafeUint_shr : Z → ST (SafeVar Z) (SafeVar Z) := SafeUint_op uint_shr.

(** [operator+=] and the others: the pending value. *)
Definition SafeUint_add_assign (y : Z) : ST (SafeVar Z) unit := sv_update (λ x, uint_add x y).
Definition SafeUint_sub_assign (y : Z) : ST (SafeVar Z) unit := sv_update (λ x, uint_sub x y).
Definition SafeUint_mul_assign (y : Z) : ST (SafeVar Z) unit := sv_update (λ x, uint_mul x y).
Definition SafeUint_div_assign (y : Z) : ST (SafeVar Z) unit := sv_update (λ x, uint_div x y).
Definition SafeUint_mod_assign (y : Z) : ST (SafeVar Z) unit := sv_update (λ x, uint_mod x y).
Definition SafeUint_and_assign (y : Z) : ST (SafeVar Z) unit := sv_update (λ x, uint_and x y).
Definition SafeUint_or_assign (y : Z) : ST (SafeVar Z) unit := sv_update (λ x, uint_or x y).
Definition SafeUint_xor_assign (y : Z) : ST (SafeVar Z) unit := sv_update (λ x, uint_xor x y).
Definition SafeUint_shl_assign (y : Z) : ST (SafeVar Z) unit := sv_update (λ x, uint_shl x y).
Definition SafeUint_shr_assign (y : Z) : ST (SafeVar Z) unit := sv_update (λ x, uint_shr x y).

Definition SafeUint_incr : ST (SafeVar Z) unit :=
  sv_update (λ x, if x =? uint_max then Throw overflow_error else Ok (x + 1)).
Definition SafeUint_decr : ST (SafeVar Z) unit :=
  sv_update (λ x, if x =? 0 then Throw underflow_error else Ok (x - 1)).

(** [!], [&&], [||] and the comparisons. *)
Definition SafeUint_test (f : Z → bool) : ST (SafeVar Z) bool := λ v, (Ok (f (sv_pending v)), sv_check v).
Definition SafeUint_not : ST (SafeVar Z) bool := SafeUint_test (λ x, x =? 0).
Definition SafeUint_land (y : Z) : ST (SafeVar Z) bool := SafeUint_test (λ x, negb (x =? 0) && negb (y =? 0)).
Definition SafeUint_lor (y : Z) : ST (SafeVar Z) bool := SafeUint_test (λ x, negb (x =? 0) || negb (y =? 0)).
Definition SafeUint_eq (y : Z) : ST (SafeVar Z) bool := SafeUint_test (λ x, x =? y).
Definition SafeUint_ne (y : Z) : ST (SafeVar Z) bool := SafeUint_test (λ x, negb (x =? y)).
Definition SafeUint_lt (y : Z) : ST (SafeVar Z) bool := SafeUint_test (λ x, x <? y).
Definition SafeUint_le (y : Z) : ST (SafeVar Z) bool := SafeUint_test (λ x, x <=? y).
Definition SafeUint_gt (y : Z) : ST (SafeVar Z) bool := SafeUint_test (λ x, y <? x).
Definition SafeUint_ge (y : Z) : ST (SafeVar Z) bool := SafeUint_test (λ x, y <=? x).

End SafeUint.

(** ** SafeUnorderedMap *)

(** Keys are addresses in every contract; they are byte strings here. *)
Record SafeMap (T : Type) := mkSafeMap {
  sm_owned : bool;
  sm_registered : bool;
  sm_map : gmap bytes T;
  sm_ptr : option (gmap bytes T);       (** [mapPtr] *)
  sm_erased : option (gset bytes);      (** [erasedKeys] *)
}.
Arguments mkSafeMap {_}.
Arguments sm_owned {_}.
Arguments sm_registered {_}.
Arguments sm_map {_}.
Arguments sm_ptr {_}.
Arguments sm_erased {_}.

Section SafeMap.
Context {T : Type} (T0 : T).   (** [T()] *)
Implicit Types m : SafeMap T.

Definition sm_pending m : gmap bytes T := default ∅ (sm_ptr m).
Definition sm_gone m : gset bytes := default ∅ (sm_erased m).

(** [SafeUnorderedMap(owner, map)]. *)
Definition SafeMap_owned (map : gmap bytes T) : SafeMap T := mkSafeMap true false map None None.

Definition SafeMap_copy (other : SafeMap T) : SafeMap T :=
  mkSafeMap false false (sm_map other) (Some (sm_pending other)) (Some (sm_gone other)).

(** [check()]. *)
Definition sm_check m : SafeMap T :=
  mkSafeMap (sm_owned m) (sm_registered m) (sm_map m) (Some (sm_pending m)) (Some (sm_gone m)).

Definition sm_markAsUsed m : SafeMap T :=
  mkSafeMap (sm_owned m) (sm_owned m || sm_registered m) (sm_map m) (sm_ptr m) (sm_erased m).

Definition sm_set m (p : gmap bytes T) : SafeMap T :=
  mkSafeMap (sm_owned m) (sm_registered m) (sm_map m) (Some p) (sm_erased m).

(** Copies an entry that was not erased into the temporary map. *)
Definition checkKeyAndCopy (key : bytes) m : SafeMap T :=
  let m := sm_check m in
  match sm_pending m !! key, sm_map m !! key with
  | None, Some x => if bool_decide (key ∈ sm_gone m) then m else sm_set m (<[key := x]> (sm_pending m))
  | _, _ => m
  end.

Definition checkKeyAndCreate (key : bytes) m : SafeMap T :=
  let m := sm_check m in
  match sm_pending m !! key with
  | Some _ => m
  | None =>
      match sm_map m !! key with
      | None => sm_set m (<[key := T0]> (sm_pending m))
      | Some x =>
          if bool_decide (key ∈ sm_gone m) then sm_set m (<[key := T0]> (sm_pending m))
          else sm_set m (<[key := x]> (sm_pending m))
      end
  end.

Definition key_not_found : exn := runtime_error "Key not found".

Definition checkKeyAndThrow (key : bytes) m : outcome (SafeMap T) :=
  let m := sm_check m in
  match sm_pending m !! key with
  | Some _ => Ok m
  | None =>
      match sm_map m !! key with
      | None => Throw key_not_found
      | Some x => if bool_decide (key ∈ sm_gone m) then Throw key_not_found
                  else Ok (sm_set m (<[key := x]> (sm_pending m)))
      end
  end.

(** [operator[]] followed by an assignment through the reference; [f] gives
    the result of the assignment and the value it leaves. *)
Definition SafeMap_bracket {B} (key : bytes) (f : T → outcome B * T) : ST (SafeMap T) B := λ m,
  let m := sm_markAsUsed (checkKeyAndCreate key m) in
  let '(r, x) := f (default T0 (sm_pending m !! key)) in
  (r, sm_set m (<[key := x]> (sm_pending m))).

(** [at], for reading. *)
Definition SafeMap_at (key : bytes) : ST (SafeMap T) T := λ m,
  match checkKeyAndThrow key m with
  | Ok m => (Ok (default T0 (sm_pending m !! key)), sm_markAsUsed m)
  | Throw e => (Throw e, sm_check m)
  | Undef => (Undef, sm_check m)
  end.

(** [find] on a const map: the entry found, if any. *)
Definition SafeMap_find (key : bytes) : ST (SafeMap T) (option T) := λ m,
  let m := checkKeyAndCopy key m in (Ok (sm_pending m !! key), m).

(** [find] otherwise, with an assignment through the iterator when the entry
    is there. *)
Definition SafeMap_find_update {B} (key : bytes) (missing : outcome B) (f : T → outcome B * T)
    : ST (SafeMap T) B := λ m,
  let m := sm_markAsUsed (checkKeyAndCopy key m) in
  match sm_pending m !! key with
  | None => (missing, m)
  | Some x => let '(r, x') := f x in (r, sm_set m (<[key := x']> (sm_pending m)))
  end.

Definition SafeMap_contains (key : bytes) : ST (SafeMap T) bool := λ m,
  let m := checkKeyAndCopy key m in (Ok (bool_decide (is_Some (sm_pending m !! key))), m).

Definition SafeMap_count (key : bytes) : ST (SafeMap T) Z := λ m,
  let m := checkKeyAndCopy key m in (Ok (if sm_pending m !! key then 1 else 0), m).

(** [insert] and [emplace]: into the temporary map only. *)
Definition SafeMap_insert (key : bytes) (x : T) : ST (SafeMap T) bool := λ m,
  let m := sm_markAsUsed (sm_check m) in
  match sm_pending m !! key with
  | Some _ => (Ok false, m)
  | None => (Ok true, sm_set m (<[key := x]> (sm_pending m)))
  end.

Definition SafeMap_insert_or_assign (key : bytes) (x : T) : ST (SafeMap T) bool := λ m,
  let m := sm_markAsUsed (sm_check m) in
  (Ok (bool_decide (sm_pending m !! key = None)), sm_set m (<[key := x]> (sm_pending m))).

Definition SafeMap_erase (key : bytes) : ST (SafeMap T) Z := λ m,
  let m := sm_markAsUsed (sm_check m) in
  (Ok (if sm_pending m !! key then 1 else 0),
   mkSafeMap (sm_owned m) (sm_registered m) (sm_map m) (Some (delete key (sm_pending m))) (Some ({[key]} ∪ sm_gone m))).

Definition SafeMap_empty (m : SafeMap T) : bool :=
  bool_decide (sm_map m = ∅) || bool_decide (sm_pending m = ∅).
Definition SafeMap_size (m : SafeMap T) : Z := Z.of_nat (size (sm_map m)).

(** [commit()]: [merge] takes the keys the map lacks, the loops overwrite the
    others and erase; [erasedKeys] is kept. *)
Definition SafeMap_commit m : SafeMap T :=
  let m := sm_check m in
  mkSafeMap (sm_owned m) false
    (filter (λ e, e.1 ∉ sm_gone m) (sm_pending m ∪ sm_map m)) None (sm_erased m).

Definition SafeMap_revert m : SafeMap T := mkSafeMap (sm_owned m) false (sm_map m) None None.

End SafeMap.

Arguments SafeMap_bracket {_} _ {_} _ _ _.

(** * Lemmas *)

(** ** Unsigned integers *)

(** The variable with a new pending value, registered. *)
Definition staged {A} (v : SafeVar A) (x : A) : SafeVar A :=
  mkSafeVar (sv_owned v) (sv_owned v || sv_registered v) (sv_value v) (Some x).

Lemma sv_update_spec {A} (f : A → outcome A) (v : SafeVar A) :
  sv_update f v =
    match f (sv_pending v) with
    | Ok x => (Ok tt, staged v x)
    | Throw e => (Throw e, staged v (sv_pending v))
    | Undef => (Undef, staged v (sv_pending v))
    end.
Proof.
  destruct v as [o r x [p|]]; unfold sv_update, staged, sv_pending, sv_check; cbn;
    by destruct (f _).
Qed.

Section UintSpec.
Context (w : Z).

Lemma wrap_small x : 0 ≤ x < 2 ^ w → wrap w x = x.
Proof. intros. by apply Z.mod_small. Qed.

Lemma uint_add_spec x y :
  is_uint w x → is_uint w y → uint_add w x y = if x + y <? 2 ^ w then Ok (x + y) else Throw overflow_error.
Proof.
  unfold is_uint, uint_add, uint_max. intros. repeat zcase; try lia; try done. by rewrite wrap_small by lia.
Qed.

Lemma uint_sub_spec x y :
  is_uint w x → is_uint w y → uint_sub w x y = if y <=? x then Ok (x - y) else Throw underflow_error.
Proof.
  unfold is_uint, uint_sub. intros. repeat zcase; try lia; try done. by rewrite wrap_small by lia.
Qed.

Lemma uint_mul_spec x y :
  is_uint w x → is_uint w y →
  uint_mul w x y = if (x =? 0) || (y =? 0) then Throw domain_error
                   else if x * y <? 2 ^ w then Ok (x * y) else Throw overflow_error.
Proof.
  unfold is_uint, uint_mul, uint_max. intros Hx Hy. rewrite orb_comm.
  destruct (Z.eqb_spec x 0), (Z.eqb_spec y 0); cbn [orb]; try done.
  assert ((2 ^ w - 1) / y < x ↔ 2 ^ w ≤ x * y) as Hiff.
  { pose proof (Z.div_mod (2 ^ w - 1) y ltac:(lia)). pose proof (Z.mod_pos_bound (2 ^ w - 1) y ltac:(lia)).
    split; nia. }
  destruct (Z.ltb_spec ((2 ^ w - 1) / y) x), (Z.ltb_spec (x * y) (2 ^ w)); try done; try lia.
  by rewrite wrap_small by lia.
Qed.

End UintSpec.

(** The assigning operators of every width compute exactly: the pending
    value becomes the mathematical result when that fits the type, and
    otherwise the operator throws and the pending value stays; a product,
    quotient or remainder with a zero operand on either side throws. *)
Theorem safeuint_exact w v y :
  0 < w → is_uint w (sv_pending v) → is_uint w y →
  let x := sv_pending v in
  let ok r := (Ok tt, staged v r) in
  let fail e := (Throw e, staged v x) in
  SafeUint_add_assign w y v = (if x + y <? 2 ^ w then ok (x + y) else fail overflow_error) ∧
  SafeUint_sub_assign w y v = (if y <=? x then ok (x - y) else fail underflow_error) ∧
  SafeUint_mul_assign w y v = (if (x =? 0) || (y =? 0) then fail domain_error
                               else if x * y <? 2 ^ w then ok (x * y) else fail overflow_error) ∧
  SafeUint_div_assign y v = (if (x =? 0) || (y =? 0) then fail domain_error else ok (x / y)) ∧
  SafeUint_mod_assign y v = (if (x =? 0) || (y =? 0) then fail domain_error else ok (x mod y)) ∧
  SafeUint_incr w v = (if x + 1 <? 2 ^ w then ok (x + 1) else fail overflow_error) ∧
  SafeUint_decr v = (if 1 <=? x then ok (x - 1) else fail underflow_error).
Proof.
  intros Hw Hx Hy x ok fail. subst x ok fail.
  unfold SafeUint_add_assign, SafeUint_sub_assign, SafeUint_mul_assign, SafeUint_div_assign,
    SafeUint_mod_assign, SafeUint_incr, SafeUint_decr. rewrite !sv_update_spec.
  rewrite uint_add_spec, uint_sub_spec, uint_mul_spec by done. unfold uint_div, uint_mod, uint_max.
  unfold is_uint in Hx. split_and!; repeat case_match; zify_bool; simplify_eq; try done; lia.
Qed.

Lemma safeuint_exact_witness :
  SafeUint_add_assign 8 100 (SafeUint_owned 200) = (Throw overflow_error, staged (SafeUint_owned 200) 200) ∧
  SafeUint_mul_assign 8 0 (SafeUint_owned 200) = (Throw domain_error, staged (SafeUint_owned 200) 200) ∧
  SafeUint_sub_assign 8 50 (SafeUint_owned 200) = (Ok tt, staged (SafeUint_owned 200) 150).
Proof.
  pose proof (safeuint_exact 8 (SafeUint_owned 200) 100) as (E1 & _);
    [lia|split; cbn; lia|split; cbn; lia|].
  pose proof (safeuint_exact 8 (SafeUint_owned 200) 0) as (_ & _ & E2 & _);
    [lia|split; cbn; lia|split; cbn; lia|].
  pose proof (safeuint_exact 8 (SafeUint_owned 200) 50) as (_ & E3 & _);
    [lia|split; cbn; lia|split; cbn; lia|].
  split; [exact E1|]. split; [exact E2|exact E3].
Defined.

(** ** Maps *)

Section MapSpec.
Context {T : Type} (T0 : T).
Implicit Types m : SafeMap T.

(** The map as the running call sees it. *)
Definition sm_view m : gmap bytes T :=
  sm_pending m ∪ filter (λ e, e.1 ∉ sm_gone m) (sm_map m).

(** Nothing is pending in a map that is not registered. *)
Definition sm_clean m : Prop := sm_registered m = false → sm_view m = sm_map m.

(** No key has been erased. *)
Definition sm_whole m : Prop := sm_gone m = ∅.

Lemma sm_view_whole m : sm_whole m → sm_view m = sm_pending m ∪ sm_map m.
Proof.
  intros Hm. unfold sm_view. f_equal. apply map_filter_id. intros. rewrite Hm. apply not_elem_of_empty.
Qed.

Lemma sm_view_lookup m k :
  sm_view m !! k = match sm_pending m !! k with
                   | Some x => Some x
                   | None => if bool_decide (k ∈ sm_gone m) then None else sm_map m !! k
                   end.
Proof.
  unfold sm_view. destruct (sm_pending m !! k) as [x|] eqn:E.
  - by apply lookup_union_Some_l.
  - rewrite lookup_union_r by done. case_bool_decide as Hd.
    + apply map_lookup_filter_None. right. intros x _. cbn. naive_solver.
    + destruct (sm_map m !! k) as [x|] eqn:Em.
      * by apply map_lookup_filter_Some.
      * apply map_lookup_filter_None. by left.
Qed.

Lemma sm_view_check m : sm_view (sm_check m) = sm_view m.
Proof. done. Qed.

Lemma sm_view_set m p k x :
  sm_pending m = p → sm_view (sm_set m (<[k := x]> p)) = <[k := x]> (sm_view m).
Proof.
  intros <-. apply map_eq. intros k'. rewrite sm_view_lookup.
  change (sm_pending (sm_set m (<[k := x]> (sm_pending m)))) with (<[k := x]> (sm_pending m)).
  destruct (decide (k = k')) as [->|Hne].
  - by rewrite !lookup_insert_eq.
  - rewrite !lookup_insert_ne by done. by rewrite sm_view_lookup.
Qed.

(** The lookups copy entries but do not change what the call sees. *)
Lemma checkKeyAndCopy_spec key m :
  sm_view (checkKeyAndCopy key m) = sm_view m ∧ sm_pending (checkKeyAndCopy key m) !! key = sm_view m !! key.
Proof.
  rewrite sm_view_lookup. unfold checkKeyAndCopy.
  change (sm_pending (sm_check m)) with (sm_pending m). change (sm_map (sm_check m)) with (sm_map m).
  change (sm_gone (sm_check m)) with (sm_gone m).
  destruct (sm_pending m !! key) as [x|] eqn:E; [done|]. destruct (sm_map m !! key) as [x|] eqn:Em.
  - case_bool_decide as Hd; [done|].
    rewrite sm_view_set by done. rewrite sm_view_check. split.
    + apply insert_id. by rewrite sm_view_lookup, E, bool_decide_false.
    + apply lookup_insert_eq.
  - split; [done|]. change (sm_pending (sm_check m)) with (sm_pending m). rewrite E. by case_bool_decide.
Qed.

Lemma checkKeyAndCreate_spec key m :
  let x := default T0 (sm_view m !! key) in
  sm_view (checkKeyAndCreate T0 key m) = <[key := x]> (sm_view m) ∧
  sm_pending (checkKeyAndCreate T0 key m) !! key = Some x.
Proof.
  intros x. subst x. rewrite sm_view_lookup. unfold checkKeyAndCreate.
  change (sm_pending (sm_check m)) with (sm_pending m). change (sm_map (sm_check m)) with (sm_map m).
  change (sm_gone (sm_check m)) with (sm_gone m).
  destruct (sm_pending m !! key) as [x|] eqn:E.
  - split; [|by change (sm_pending (sm_check m)) with (sm_pending m)].
    rewrite sm_view_check. symmetry. apply insert_id. by rewrite sm_view_lookup, E.
  - destruct (sm_map m !! key) as [x|] eqn:Em; [|by case_bool_decide; rewrite sm_view_set by done;
      (split; [done|apply lookup_insert_eq])].
    case_bool_decide; rewrite sm_view_set by done; (split; [done|apply lookup_insert_eq]).
Qed.

(** What the lookups leave alone. *)
Definition sm_same m' m : Prop :=
  sm_owned m' = sm_owned m ∧ sm_registered m' = sm_registered m ∧ sm_map m' = sm_map m ∧ sm_gone m' = sm_gone m.

Lemma checkKeyAndCopy_frame key m : sm_same (checkKeyAndCopy key m) m.
Proof. unfold checkKeyAndCopy. by repeat case_match. Qed.

Lemma checkKeyAndCreate_frame key m : sm_same (checkKeyAndCreate T0 key m) m.
Proof. unfold checkKeyAndCreate. by repeat case_match. Qed.

Lemma SafeMap_bracket_spec {B} key (f : T → outcome B * T) m :
  ∃ m', SafeMap_bracket T0 key f m = ((f (default T0 (sm_view m !! key))).1, m') ∧
    sm_view m' = <[key := (f (default T0 (sm_view m !! key))).2]> (sm_view m) ∧
    sm_map m' = sm_map m ∧ sm_gone m' = sm_gone m ∧ sm_owned m' = sm_owned m ∧
    sm_registered m' = sm_owned m || sm_registered m.
Proof.
  destruct (checkKeyAndCreate_spec key m) as [Hv Hp].
  destruct (checkKeyAndCreate_frame key m) as (Ho & Hr & Hm & Hg).
  unfold SafeMap_bracket. set (m1 := checkKeyAndCreate T0 key m) in *.
  change (sm_pending (sm_markAsUsed m1)) with (sm_pending m1). rewrite Hp. cbn [default from_option id].
  destruct (f (default T0 (sm_view m !! key))) as [r x'] eqn:Ef. cbn [fst snd].
  eexists. split; [done|]. rewrite sm_view_set by done.
  change (sm_view (sm_markAsUsed m1)) with (sm_view m1). rewrite Hv, insert_insert_eq.
  cbn. rewrite Ho, Hr. split_and!; done.
Qed.

Lemma SafeMap_find_spec key m :
  ∃ m', SafeMap_find key m = (Ok (sm_view m !! key), m') ∧ sm_view m' = sm_view m ∧ sm_map m' = sm_map m ∧
    sm_gone m' = sm_gone m ∧ sm_owned m' = sm_owned m ∧ sm_registered m' = sm_registered m.
Proof.
  destruct (checkKeyAndCopy_spec key m) as [Hv Hp].
  destruct (checkKeyAndCopy_frame key m) as (Ho & Hr & Hm & Hg).
  unfold SafeMap_find. rewrite Hp. eexists. split; [done|]. done.
Qed.

Lemma SafeMap_commit_spec m :
  sm_map (SafeMap_commit m) = filter (λ e, e.1 ∉ sm_gone m) (sm_pending m ∪ sm_map m) ∧
  sm_pending (SafeMap_commit m) = ∅ ∧ sm_gone (SafeMap_commit m) = sm_gone m.
Proof. done. Qed.

Lemma SafeMap_commit_whole m :
  sm_whole m → sm_map (SafeMap_commit m) = sm_view m ∧ sm_view (SafeMap_commit m) = sm_view m ∧
    sm_whole (SafeMap_commit m) ∧ sm_registered (SafeMap_commit m) = false.
Proof.
  intros Hm. assert (sm_map (SafeMap_commit m) = sm_view m) as Hc.
  { rewrite sm_view_whole by done. apply map_filter_id.
    intros. change (sm_gone (sm_check m)) with (sm_gone m). rewrite Hm. apply not_elem_of_empty. }
  split_and!; [done| |done|done]. rewrite sm_view_whole by done.
  rewrite Hc. apply map_empty_union.
Qed.

Lemma SafeMap_revert_spec m :
  sm_view (SafeMap_revert m) = sm_map m ∧ sm_whole (SafeMap_revert m) ∧ sm_registered (SafeMap_revert m) = false.
Proof.
  split_and!; [|done|done]. rewrite sm_view_whole by done. apply map_empty_union.
Qed.

End MapSpec.

(** ** Calls on a map *)

(** What a contract function does with a map: assign through [operator[]],
    assign with [insert_or_assign], and look keys up. *)
Inductive map_op (T : Type) :=
  | MSet (key : bytes) (x : T)
  | MAssign (key : bytes) (x : T)
  | MFind (key : bytes).
Arguments MSet {_}.
Arguments MAssign {_}.
Arguments MFind {_}.

Section MapOps.
Context {T : Type} (T0 : T).

Definition run_op (op : map_op T) : ST (SafeMap T) (option T) :=
  match op with
  | MSet key x => _ ← SafeMap_bracket T0 key (λ _, (Ok tt, x)); mret None
  | MAssign key x => _ ← SafeMap_insert_or_assign key x; mret None
  | MFind key => SafeMap_find key
  end.

(** The same on a plain map. *)
Definition spec_op (op : map_op T) (g : gmap bytes T) : option T * gmap bytes T :=
  match op with
  | MSet key x | MAssign key x => (None, <[key := x]> g)
  | MFind key => (g !! key, g)
  end.

Fixpoint run_ops (ops : list (map_op T)) : ST (SafeMap T) (list (option T)) :=
  match ops with
  | [] => mret []
  | op :: ops => r ← run_op op; rs ← run_ops ops; mret (r :: rs)
  end.

Fixpoint spec_ops (ops : list (map_op T)) (g : gmap bytes T) : list (option T) * gmap bytes T :=
  match ops with
  | [] => ([], g)
  | op :: ops => let '(r, g) := spec_op op g in let '(rs, g) := spec_ops ops g in (r :: rs, g)
  end.

Lemma run_op_spec op m :
  ∃ m', run_op op m = (Ok (spec_op op (sm_view m)).1, m') ∧ sm_view m' = (spec_op op (sm_view m)).2 ∧
    sm_map m' = sm_map m ∧ sm_gone m' = sm_gone m.
Proof.
  destruct op as [key x|key x|key]; cbn [run_op spec_op fst snd].
  - destruct (SafeMap_bracket_spec T0 key (λ _, (Ok tt, x)) m) as (m' & E & Hv & Hm & Hg & _).
    exists m'. unfold mbind, ST_bind. by rewrite E.
  - eexists. split; [done|]. split; [|done]. by rewrite sm_view_set by done.
  - destruct (SafeMap_find_spec key m) as (m' & E & Hv & Hm & Hg & _). by exists m'.
Qed.

Lemma run_ops_spec ops m :
  ∃ m', run_ops ops m = (Ok (spec_ops ops (sm_view m)).1, m') ∧ sm_view m' = (spec_ops ops (sm_view m)).2 ∧
    sm_map m' = sm_map m ∧ sm_gone m' = sm_gone m.
Proof.
  revert m. induction ops as [|op ops IH]; intros m; [by exists m|].
  destruct (run_op_spec op m) as (m1 & E1 & Hv1 & Hm1 & Hg1).
  destruct (IH m1) as (m2 & E2 & Hv2 & Hm2 & Hg2). exists m2. cbn [run_ops spec_ops].
  destruct (spec_op op (sm_view m)) as [r g]. cbn [fst snd] in *. rewrite Hv1 in *.
  destruct (spec_ops ops g) as [rs g']. cbn [fst snd] in *. unfold mbind, ST_bind. rewrite E1, E2.
  split_and!; [done|done|congruence|congruence].
Qed.

End MapOps.

(** A call's reads and writes on a contract's map behave as on a plain
    map that starts as the committed one; committing publishes exactly that
    map, and reverting leaves the committed map as it was before the call. *)
Theorem safemap_transaction {T} (T0 : T) ops (m : SafeMap T) :
  sm_whole m → sm_pending m = ∅ →
  ∃ m', run_ops T0 ops m = (Ok (spec_ops ops (sm_map m)).1, m') ∧
    sm_map (SafeMap_commit m') = (spec_ops ops (sm_map m)).2 ∧
    sm_view (SafeMap_commit m') = (spec_ops ops (sm_map m)).2 ∧
    sm_map (SafeMap_revert m') = sm_map m ∧ sm_view (SafeMap_revert m') = sm_map m.
Proof.
  intros Hw Hp. assert (sm_view m = sm_map m) as Hv by (rewrite sm_view_whole, Hp by done; apply map_empty_union).
  destruct (run_ops_spec T0 ops m) as (m' & E & Hv' & Hm & Hg). rewrite Hv in *.
  assert (sm_whole m') as Hw' by (unfold sm_whole; by rewrite Hg).
  destruct (SafeMap_commit_whole m' Hw') as (Hc1 & Hc2 & _). destruct (SafeMap_revert_spec m') as (Hr & _).
  exists m'. rewrite <-Hv'. split_and!; try done. by rewrite Hr.
Qed.

Definition sample_map : SafeMap Z := SafeMap_owned {[ [1] := 10 ]}.

Lemma safemap_transaction_witness :
  ∃ m', run_ops 0 [MSet [1] 7; MFind [1]; MAssign [2] 5] sample_map = (Ok [None; Some 7; None], m') ∧
    sm_map (SafeMap_revert m') = {[ [1] := 10 ]}.
Proof.
  destruct (safemap_transaction 0 [MSet [1] 7; MFind [1]; MAssign [2] 5] sample_map) as (m' & E & _ & _ & Hr & _);
    [reflexivity|reflexivity|].
  exists m'. split; [exact E|exact Hr].
Defined.

(** [commit] erases the keys of [erasedKeys] after it has written the
    pending entries and does not clear the set: once a key has been erased,
    every entry written under it later, in the same call or after any number
    of commits, is dropped when it is committed. *)
Theorem safemap_erase_sticky {T} (T0 : T) (m : SafeMap T) key calls :
  let erased := SafeMap_commit (SafeMap_erase key m).2 in
  let last := foldl (λ m ops, SafeMap_commit (run_ops T0 ops m).2) erased calls in
  sm_map last !! key = None ∧
  ∀ x, sm_map (SafeMap_commit (SafeMap_bracket T0 key (λ _, (Ok tt, x)) last).2) !! key = None.
Proof.
  assert (∀ m : SafeMap T, key ∈ sm_gone m → sm_map (SafeMap_commit m) !! key = None) as Hdrop.
  { intros m1 Hk. rewrite (proj1 (SafeMap_commit_spec m1)). apply map_lookup_filter_None. right. naive_solver. }
  intros erased last.
  assert (key ∈ sm_gone last ∧ sm_map last !! key = None) as [Hg Hm].
  { assert (key ∈ sm_gone erased ∧ sm_map erased !! key = None) as He.
    { assert (key ∈ sm_gone (SafeMap_erase key m).2) by (cbn; set_solver). split; [done|by apply Hdrop]. }
    subst last. clearbody erased. revert erased He. induction calls as [|ops calls IH]; intros m1 [Hg Hm]; [done|].
    cbn [foldl]. apply IH. destruct (run_ops_spec T0 ops m1) as (m2 & -> & _ & _ & Hg2). cbn [snd].
    rewrite <-Hg2 in Hg. split; [done|by apply Hdrop]. }
  split; [done|]. intros x. apply Hdrop.
  destruct (SafeMap_bracket_spec T0 key (λ _, (Ok tt, x)) last) as (m' & -> & _ & _ & Hg' & _). cbn [snd]. by rewrite Hg'.
Qed.
