(* ===== verification/SafeUints.v ===== *)
(** * SafeUints: contracts that compute with their integers

    The five classes SafeUint8_t, SafeUint16_t, SafeUint32_t, SafeUint64_t and
    SafeUint256_t (src/contract/variables), with the overloads whose right
    operand is another variable, on the variables of one contract: the
    integers it owns and the local ones its functions make.  The contract
    keeps the list of the variables in use (src/contract/dynamiccontract.h)
    and commits or reverts them when the call ends.  An operand may be the
    variable itself, as in [x += x]. *)
From stdpp Require Import base list.
From S2P Require Import Prelude Utils SafeVars.

(** ** Calls *)

Inductive arith_op := OpAdd | OpSub | OpMul | OpDiv | OpMod.
Inductive bit_op := OpAnd | OpOr | OpXor.
Inductive shift_op := OpShl | OpShr.
Inductive test_op := TestAnd | TestOr | TestEq | TestNe | TestLt | TestLe | TestGt | TestGe.

(** The right operand: a plain integer, or another variable. *)
Inductive operand := Lit (y : Z) | Other (j : nat).

Inductive uint_call :=
  | CNew (x : Z)
  | CCopy (j : nat)
  | CArith (op : arith_op) (i : nat) (o : operand)
  | CBits (op : bit_op) (i : nat) (o : operand)
  | CShift (op : shift_op) (i : nat) (o : operand)
  | CTest (op : test_op) (i : nat) (o : operand)
  | CNot (i : nat)
  | CGet (i : nat)
  | CSet (i : nat) (o : operand)
  | CArithSet (op : arith_op) (i : nat) (o : operand)
  | CBitsSet (op : bit_op) (i : nat) (o : operand)
  | CShiftSet (op : shift_op) (i : nat) (o : operand)
  | CIncr (i : nat)
  | CDecr (i : nat).

(** What a call returns: a new variable, an integer, a truth value, nothing. *)
Inductive uint_result := RVar (i : nat) | RInt (x : Z) | RBool (b : bool) | RUnit.

(** The variables, the owned ones first, and [usedVariables]. *)
Record vars := mkVars { vs : list (SafeVar Z); usedVariables : list nat }.

(** [markAsUsed] and [registerVariableUse]: the variable joins the list when
    it was not registered before. *)
Definition put (i : nat) (v v' : SafeVar Z) (s : vars) : vars :=
  mkVars (<[i := v']> (vs s)) (if sv_registered v' && negb (sv_registered v) then usedVariables s ++ [i] else usedVariables s).

(** [other.get()] fills the pointer of the other variable. *)
Definition touch (reads : bool) (o : operand) (s : vars) : vars :=
  match o with
  | Other j => if reads then mkVars (alter sv_check j (vs s)) (usedVariables s) else s
  | Lit _ => s
  end.

Definition operand_val (o : operand) (s : vars) : option Z :=
  match o with Lit y => Some y | Other j => sv_pending <$> vs s !! j end.

(** A call on variable [i] with an operand; [reads] is whether the operand is
    read for this value of the variable, [res] what becomes of the result. *)
Definition with_operand {B} (op : Z → ST (SafeVar Z) B) (reads : Z → bool) (res : B → vars → uint_result * vars)
    (i : nat) (o : operand) : ST vars uint_result := λ s,
  match vs s !! i, operand_val o s with
  | Some v, Some y =>
      let '(r, v') := op y v in
      let s := touch (reads (sv_pending v)) o (put i v v' s) in
      match r with
      | Ok b => let '(r, s) := res b s in (Ok r, s)
      | Throw e => (Throw e, s)
      | Undef => (Undef, s)
      end
  | _, _ => (Undef, s)
  end.

(** A call that returns a new local variable. *)
Definition new_var (v : SafeVar Z) (s : vars) : uint_result * vars :=
  (RVar (length (vs s)), mkVars (vs s ++ [v]) (usedVariables s)).

(** [||] and [&&], and the tests for zero of [/] and [%], leave the right
    operand alone when the left one decides. *)
Definition arith_reads (op : arith_op) (x : Z) : bool :=
  match op with OpDiv | OpMod => negb (x =? 0) | _ => true end.
Definition test_reads (op : test_op) (x : Z) : bool :=
  match op with TestAnd => negb (x =? 0) | TestOr => x =? 0 | _ => true end.
Definition always (x : Z) : bool := true.

Section Run.
Context (w : Z).

Definition arith_fun (op : arith_op) : Z → ST (SafeVar Z) (SafeVar Z) :=
  match op with
  | OpAdd => SafeUint_add w | OpSub => SafeUint_sub w | OpMul => SafeUint_mul w
  | OpDiv => SafeUint_div | OpMod => SafeUint_mod
  end.
Definition run_arith (op : arith_op) : nat → operand → ST vars uint_result :=
  with_operand (arith_fun op) (arith_reads op) new_var.

Definition bits_fun (op : bit_op) : Z → ST (SafeVar Z) (SafeVar Z) :=
  match op with OpAnd => SafeUint_and | OpOr => SafeUint_or | OpXor => SafeUint_xor end.
Definition run_bits (op : bit_op) : nat → operand → ST vars uint_result :=
  with_operand (bits_fun op) always new_var.

Definition shift_fun (op : shift_op) : Z → ST (SafeVar Z) (SafeVar Z) :=
  match op with OpShl => SafeUint_shl w | OpShr => SafeUint_shr w end.
Definition run_shift (op : shift_op) : nat → operand → ST vars uint_result :=
  with_operand (shift_fun op) always new_var.

Definition test_fun (op : test_op) : Z → ST (SafeVar Z) bool :=
  match op with
  | TestAnd => SafeUint_land | TestOr => SafeUint_lor | TestEq => SafeUint_eq | TestNe => SafeUint_ne
  | TestLt => SafeUint_lt | TestLe => SafeUint_le | TestGt => SafeUint_gt | TestGe => SafeUint_ge
  end.
Definition run_test (op : test_op) : nat → operand → ST vars uint_result :=
  with_operand (test_fun op) (test_reads op) (λ b s, (RBool b, s)).
Definition run_not (i : nat) : ST vars uint_result :=
  with_operand (λ _, SafeUint_not) always (λ b s, (RBool b, s)) i (Lit 0).
Definition run_get (i : nat) : ST vars uint_result :=
  with_operand (λ _, sv_get) always (λ x s, (RInt x, s)) i (Lit 0).

Definition nothing (_ : unit) (s : vars) : uint_result * vars := (RUnit, s).
Definition run_set : nat → operand → ST vars uint_result := with_operand sv_assign always nothing.

Definition arith_set_fun (op : arith_op) : Z → ST (SafeVar Z) unit :=
  match op with
  | OpAdd => SafeUint_add_assign w | OpSub => SafeUint_sub_assign w | OpMul => SafeUint_mul_assign w
  | OpDiv => SafeUint_div_assign | OpMod => SafeUint_mod_assign
  end.
Definition run_arith_set (op : arith_op) : nat → operand → ST vars uint_result :=
  with_operand (arith_set_fun op) (arith_reads op) nothing.

Definition bits_set_fun (op : bit_op) : Z → ST (SafeVar Z) unit :=
  match op with OpAnd => SafeUint_and_assign | OpOr => SafeUint_or_assign | OpXor => SafeUint_xor_assign end.
Definition run_bits_set (op : bit_op) : nat → operand → ST vars uint_result :=
  with_operand (bits_set_fun op) always nothing.

Definition shift_set_fun (op : shift_op) : Z → ST (SafeVar Z) unit :=
  match op with OpShl => SafeUint_shl_assign w | OpShr => SafeUint_shr_assign w end.
Definition run_shift_set (op : shift_op) : nat → operand → ST vars uint_result :=
  with_operand (shift_set_fun op) always nothing.

Definition run_step (up : bool) (i : nat) : ST vars uint_result :=
  with_operand (λ _, if up then SafeUint_incr w else SafeUint_decr) always nothing i (Lit 0).

(** The constructors of local variables; copying reads the other variable. *)
Definition run_new (x : Z) : ST vars uint_result := λ s, let '(r, s) := new_var (SafeUint_local x) s in (Ok r, s).
Definition run_copy (j : nat) : ST vars uint_result :=
  with_operand (λ _ v, (Ok (SafeUint_copy v), sv_check v)) always new_var j (Lit 0).

End Run.

(** ** The five classes *)

Record SafeUintClass := {
  su_width : Z;
  su_arith : arith_op → nat → operand → ST vars uint_result;
  su_bits : bit_op → nat → operand → ST vars uint_result;
  su_shift : option (shift_op → nat → operand → ST vars uint_result);
  su_test : test_op → nat → operand → ST vars uint_result;
  su_set : nat → operand → ST vars uint_result;
  su_arith_set : arith_op → nat → operand → ST vars uint_result;
  su_bits_set : bit_op → nat → operand → ST vars uint_result;
  su_shift_set : option (shift_op → nat → operand → ST vars uint_result);
  su_step : bool → nat → ST vars uint_result;
  su_commit : SafeVar Z → outcome (SafeVar Z);
}.

Definition SafeUint8_arith : arith_op → nat → operand → ST vars uint_result := run_arith 8.
Definition SafeUint8_bits : bit_op → nat → operand → ST vars uint_result := run_bits.
Definition SafeUint8_shift : shift_op → nat → operand → ST vars uint_result := run_shift 8.
Definition SafeUint8_test : test_op → nat → operand → ST vars uint_result := run_test.
Definition SafeUint8_set : nat → operand → ST vars uint_result := run_set.
Definition SafeUint8_arith_set : arith_op → nat → operand → ST vars uint_result := run_arith_set 8.
Definition SafeUint8_bits_set : bit_op → nat → operand → ST vars uint_result := run_bits_set.
Definition SafeUint8_shift_set : shift_op → nat → operand → ST vars uint_result := run_shift_set 8.
Definition SafeUint8_step : bool → nat → ST vars uint_result := run_step 8.
Definition SafeUint8_commit (v : SafeVar Z) : outcome (SafeVar Z) := Ok (sv_commit v).

Definition SafeUint8_t : SafeUintClass := {|
  su_width := 8; su_arith := SafeUint8_arith; su_bits := SafeUint8_bits; su_shift := Some SafeUint8_shift;
  su_test := SafeUint8_test; su_set := SafeUint8_set; su_arith_set := SafeUint8_arith_set;
  su_bits_set := SafeUint8_bits_set; su_shift_set := Some SafeUint8_shift_set; su_step := SafeUint8_step;
  su_commit := SafeUint8_commit |}.

Definition SafeUint16_arith : arith_op → nat → operand → ST vars uint_result := run_arith 16.
Definition SafeUint16_bits : bit_op → nat → operand → ST vars uint_result := run_bits.
Definition SafeUint16_shift : shift_op → nat → operand → ST vars uint_result := run_shift 16.
Definition SafeUint16_test : test_op → nat → operand → ST vars uint_result := run_test.
Definition SafeUint16_set : nat → operand → ST vars uint_result := run_set.
Definition SafeUint16_arith_set : arith_op → nat → operand → ST vars uint_result := run_arith_set 16.
Definition SafeUint16_bits_set : bit_op → nat → operand → ST vars uint_result := run_bits_set.
Definition SafeUint16_shift_set : shift_op → nat → operand → ST vars uint_result := run_shift_set 16.
Definition SafeUint16_step : bool → nat → ST vars uint_result := run_step 16.
Definition SafeUint16_commit (v : SafeVar Z) : outcome (SafeVar Z) := Ok (sv_commit v).

Definition SafeUint16_t : SafeUintClass := {|
  su_width := 16; su_arith := SafeUint16_arith; su_bits := SafeUint16_bits; su_shift := Some SafeUint16_shift;
  su_test := SafeUint16_test; su_set := SafeUint16_set; su_arith_set := SafeUint16_arith_set;
  su_bits_set := SafeUint16_bits_set; su_shift_set := Some SafeUint16_shift_set; su_step := SafeUint16_step;
  su_commit := SafeUint16_commit |}.

Definition SafeUint32_arith : arith_op → nat → operand → ST vars uint_result := run_arith 32.
Definition SafeUint32_bits : bit_op → nat → operand → ST vars uint_result := run_bits.
Definition SafeUint32_shift : shift_op → nat → operand → ST vars uint_result := run_shift 32.
Definition SafeUint32_test : test_op → nat → operand → ST vars uint_result := run_test.
Definition SafeUint32_set : nat → operand → ST vars uint_result := run_set.
Definition SafeUint32_arith_set : arith_op → nat → operand → ST vars uint_result := run_arith_set 32.
Definition SafeUint32_bits_set : bit_op → nat → operand → ST vars uint_result := run_bits_set.
Definition SafeUint32_shift_set : shift_op → nat → operand → ST vars uint_result := run_shift_set 32.
Definition SafeUint32_step : bool → nat → ST vars uint_result := run_step 32.
Definition SafeUint32_commit (v : SafeVar Z) : outcome (SafeVar Z) := Ok (sv_commit v).

Definition SafeUint32_t : SafeUintClass := {|
  su_width := 32; su_arith := SafeUint32_arith; su_bits := SafeUint32_bits; su_shift := Some SafeUint32_shift;
  su_test := SafeUint32_test; su_set := SafeUint32_set; su_arith_set := SafeUint32_arith_set;
  su_bits_set := SafeUint32_bits_set; su_shift_set := Some SafeUint32_shift_set; su_step := SafeUint32_step;
  su_commit := SafeUint32_commit |}.

Definition SafeUint64_t : SafeUintClass := {|
  su_width := 64; su_arith := run_arith 64; su_bits := run_bits; su_shift := Some (run_shift 64);
  su_test := run_test; su_set := run_set; su_arith_set := run_arith_set 64;
  su_bits_set := run_bits_set; su_shift_set := Some (run_shift_set 64); su_step := run_step 64;
  su_commit v := Ok (sv_commit v) |}.

(** The class without shifts, whose [commit] dereferences the pointer. *)
Definition SafeUint256_t : SafeUintClass := {|
  su_width := 256; su_arith := run_arith 256; su_bits := run_bits; su_shift := None;
  su_test := run_test; su_set := run_set; su_arith_set := run_arith_set 256;
  su_bits_set := run_bits_set; su_shift_set := None; su_step := run_step 256;
  su_commit := SafeUint256_commit |}.

(** ** Functions of a contract *)

(** A function of a contract: calls, each chosen from the results so far. *)
Inductive uint_prog (A : Type) := Ret (a : A) | Do (c : uint_call) (k : uint_result → uint_prog A).
Arguments Ret {_} _.
Arguments Do {_} _ _.

(** An operator that the class does not have: no program contains it. *)
Definition no_operator : ST vars uint_result := λ s, (Undef, s).

Definition run_uint_call (K : SafeUintClass) (c : uint_call) : ST vars uint_result :=
  match c with
  | CNew x => run_new x
  | CCopy j => run_copy j
  | CArith op i o => su_arith K op i o
  | CBits op i o => su_bits K op i o
  | CShift op i o => match su_shift K with Some f => f op i o | None => no_operator end
  | CTest op i o => su_test K op i o
  | CNot i => run_not i
  | CGet i => run_get i
  | CSet i o => su_set K i o
  | CArithSet op i o => su_arith_set K op i o
  | CBitsSet op i o => su_bits_set K op i o
  | CShiftSet op i o => match su_shift_set K with Some f => f op i o | None => no_operator end
  | CIncr i => su_step K true i
  | CDecr i => su_step K false i
  end.

Fixpoint run_uint_prog {A} (K : SafeUintClass) (p : uint_prog A) : ST vars A :=
  match p with Ret a => mret a | Do c k => r ← run_uint_call K c; run_uint_prog K (k r) end.

(** [updateState]: every variable in use is committed, or reverted. *)
Fixpoint commit_used (K : SafeUintClass) (u : list nat) (l : list (SafeVar Z)) : outcome (list (SafeVar Z)) :=
  match u with
  | [] => Ok l
  | i :: u => match l !! i with
              | Some v => v ← su_commit K v; commit_used K u (<[i := v]> l)
              | None => Undef
              end
  end.
Definition revert_used (u : list nat) (l : list (SafeVar Z)) : list (SafeVar Z) :=
  foldl (λ l i, alter sv_revert i l) l u.

Definition updateState_uints (K : SafeUintClass) (commitToState : bool) (s : vars) : outcome vars :=
  if commitToState then l ← commit_used K (usedVariables s) (vs s); Ok (mkVars l [])
  else Ok (mkVars (revert_used (usedVariables s) (vs s)) []).

(** [DynamicContract::ethCall] on a contract with these integers: the local
    variables die when the function is left; the variables are reverted when
    it throws or when the call is only simulated, and committed otherwise.  The
    exception is the function's; [ethCall] passes its text on in a
    [runtime_error]. *)
Definition transaction {A} (K : SafeUintClass) (getCommit : bool) (p : uint_prog A) (s : vars) : outcome A * outcome vars :=
  let '(r, s') := run_uint_prog K p s in
  let s' := mkVars (take (length (vs s)) (vs s')) (usedVariables s') in
  (r, match r with Undef => Undef | Ok _ => updateState_uints K getCommit s' | Throw _ => updateState_uints K false s' end).

(** ** Programs on integers *)

(** What the operators mean: the exact result, or an exception. *)
Definition spec_arith (w : Z) (op : arith_op) (x y : Z) : outcome Z :=
  match op with
  | OpAdd => if x + y <? 2 ^ w then Ok (x + y) else Throw overflow_error
  | OpSub => if y <=? x then Ok (x - y) else Throw underflow_error
  | OpMul => if (x =? 0) || (y =? 0) then Throw domain_error
             else if x * y <? 2 ^ w then Ok (x * y) else Throw overflow_error
  | OpDiv => if (x =? 0) || (y =? 0) then Throw domain_error else Ok (x / y)
  | OpMod => if (x =? 0) || (y =? 0) then Throw domain_error else Ok (x mod y)
  end.
Definition spec_bits (op : bit_op) (x y : Z) : outcome Z :=
  Ok (match op with OpAnd => Z.land x y | OpOr => Z.lor x y | OpXor => Z.lxor x y end).
Definition spec_shift (w : Z) (op : shift_op) (x y : Z) : outcome Z :=
  if Z.max 32 w <=? y then Undef
  else Ok (match op with OpShl => x * 2 ^ y mod 2 ^ w | OpShr => x / 2 ^ y end).
Definition spec_test (op : test_op) (x y : Z) : bool :=
  match op with
  | TestAnd => bool_decide (x ≠ 0 ∧ y ≠ 0) | TestOr => bool_decide (x ≠ 0 ∨ y ≠ 0)
  | TestEq => bool_decide (x = y) | TestNe => bool_decide (x ≠ y)
  | TestLt => bool_decide (x < y) | TestLe => bool_decide (x ≤ y)
  | TestGt => bool_decide (y < x) | TestGe => bool_decide (y ≤ x)
  end.
Definition spec_step (w : Z) (up : bool) (x y : Z) : outcome Z :=
  spec_arith w (if up then OpAdd else OpSub) x 1.

(** A call on the list of the values. *)
Definition spec_on (f : Z → Z → outcome Z) (res : Z → list Z → uint_result * list Z) (i : nat) (o : operand)
    (l : list Z) : outcome uint_result * list Z :=
  match l !! i, (match o with Lit y => Some y | Other j => l !! j end) with
  | Some x, Some y =>
      match f x y with
      | Ok z => let '(r, l) := res z l in (Ok r, l)
      | Throw e => (Throw e, l)
      | Undef => (Undef, l)
      end
  | _, _ => (Undef, l)
  end.
Definition to_new (z : Z) (l : list Z) : uint_result * list Z := (RVar (length l), l ++ [z]).
Definition to_var (i : nat) (z : Z) (l : list Z) : uint_result * list Z := (RUnit, <[i := z]> l).
Definition to_bool (z : Z) (l : list Z) : uint_result * list Z := (RBool (z =? 1), l).

Definition spec_uint_call (w : Z) (c : uint_call) (l : list Z) : outcome uint_result * list Z :=
  match c with
  | CNew x => (Ok (RVar (length l)), l ++ [x])
  | CCopy j => spec_on (λ x _, Ok x) to_new j (Lit 0) l
  | CArith op i o => spec_on (spec_arith w op) to_new i o l
  | CBits op i o => spec_on (spec_bits op) to_new i o l
  | CShift op i o => spec_on (spec_shift w op) to_new i o l
  | CTest op i o => spec_on (λ x y, Ok (Z.b2z (spec_test op x y))) to_bool i o l
  | CNot i => spec_on (λ x _, Ok (Z.b2z (bool_decide (x = 0)))) to_bool i (Lit 0) l
  | CGet i => spec_on (λ x _, Ok x) (λ x l, (RInt x, l)) i (Lit 0) l
  | CSet i o => spec_on (λ _ y, Ok y) (to_var i) i o l
  | CArithSet op i o => spec_on (spec_arith w op) (to_var i) i o l
  | CBitsSet op i o => spec_on (spec_bits op) (to_var i) i o l
  | CShiftSet op i o => spec_on (spec_shift w op) (to_var i) i o l
  | CIncr i => spec_on (spec_step w true) (to_var i) i (Lit 0) l
  | CDecr i => spec_on (spec_step w false) (to_var i) i (Lit 0) l
  end.

Fixpoint spec_uint_prog {A} (w : Z) (p : uint_prog A) (l : list Z) : outcome A * list Z :=
  match p with
  | Ret a => (Ok a, l)
  | Do c k =>
      match spec_uint_call w c l with
      | (Ok r, l) => spec_uint_prog w (k r) l
      | (Throw e, l) => (Throw e, l)
      | (Undef, l) => (Undef, l)
      end
  end.

(** * The classes implement the programs on integers *)

(** ** Ranges *)

Lemma is_uint_ones w x : 0 ≤ w → is_uint w x ↔ Z.land x (Z.ones w) = x.
Proof.
  intros Hw. rewrite Z.land_ones by done. unfold is_uint. pose proof (Z.pow_pos_nonneg 2 w).
  split; [apply Z.mod_small|]. intros <-. apply Z.mod_pos_bound. lia.
Qed.

Lemma spec_bits_uint w op x y z : 0 ≤ w → is_uint w x → is_uint w y → spec_bits op x y = Ok z → is_uint w z.
Proof.
  intros Hw Hx Hy [= <-]. apply (is_uint_ones _ _ Hw) in Hx, Hy. apply is_uint_ones; [done|]. destruct op.
  - by rewrite <-Z.land_assoc, Hy.
  - by rewrite Z.land_lor_distr_l, Hx, Hy.
  - apply Z.bits_inj. intros n. apply (f_equal (λ z, Z.testbit z n)) in Hx, Hy. revert Hx Hy.
    rewrite !Z.land_spec, !Z.lxor_spec. by destruct (Z.testbit x n), (Z.testbit y n), (Z.testbit _ n).
Qed.

Lemma spec_arith_uint w op x y z : is_uint w x → is_uint w y → spec_arith w op x y = Ok z → is_uint w z.
Proof.
  unfold is_uint. intros Hx Hy. destruct op; cbn [spec_arith]; repeat case_match; zify_bool; intros; simplify_eq; try nia.
  - pose proof (Z.div_pos x y). pose proof (Z.div_le_upper_bound x y x). nia.
  - pose proof (Z.mod_pos_bound x y). lia.
Qed.

Lemma spec_shift_uint w op x y z : 0 ≤ w → is_uint w x → is_uint w y → spec_shift w op x y = Ok z → is_uint w z.
Proof.
  unfold is_uint, spec_shift. intros Hw Hx Hy. case_match; [done|]. pose proof (Z.pow_pos_nonneg 2 w). pose proof (Z.pow_pos_nonneg 2 y).
  destruct op; intros [= <-].
  - apply Z.mod_pos_bound. lia.
  - pose proof (Z.div_pos x (2 ^ y)). pose proof (Z.div_le_upper_bound x (2 ^ y) x). nia.
Qed.

Lemma uint_shift_spec w op x y : 0 ≤ y → match op with OpShl => uint_shl w | OpShr => uint_shr w end x y = spec_shift w op x y.
Proof.
  intros Hy. unfold spec_shift, uint_shl, uint_shr, wrap.
  destruct op; case_match; try done; by rewrite ?Z.shiftl_mul_pow2, ?Z.shiftr_div_pow2 by done.
Qed.

Lemma alter_lookup {A} (f : A → A) (j : nat) (l : list A) :
  alter f j l = match l !! j with Some v => <[j := f v]> l | None => l end.
Proof.
  destruct (l !! j) as [v|] eqn:Hj.
  - rewrite list_insert_alter. apply list_alter_ext; [|done]. intros x Hx. by simplify_eq.
  - apply list_eq. intros i. rewrite list_lookup_alter. case_decide; [|done]. subst. by rewrite Hj.
Qed.

(** ** The invariant of a running function *)

Definition pend (s : vars) : list Z := sv_pending <$> vs s.

Section Invariant.
Context (w : Z) (base : list Z).
Notation n := (length base).

(** An owned variable holds the committed value, and is registered once it
    may differ from it; a local one is never registered. *)
Definition var_ok (u : list nat) (i : nat) (v : SafeVar Z) : Prop :=
  is_uint w (sv_pending v) ∧
  (sv_registered v = true ↔ i ∈ u) ∧
  (sv_registered v = true → is_Some (sv_ptr v)) ∧
  (if decide (i < n)%nat
   then sv_owned v = true ∧ base !! i = Some (sv_value v) ∧ (sv_registered v = false → sv_pending v = sv_value v)
   else sv_owned v = false ∧ sv_registered v = false).

Definition vars_inv (s : vars) : Prop :=
  (n ≤ length (vs s))%nat ∧ NoDup (usedVariables s) ∧ (∀ i, i ∈ usedVariables s → (i < n)%nat) ∧
  ∀ i v, vs s !! i = Some v → var_ok (usedVariables s) i v.

Lemma sv_check_pending (v : SafeVar Z) : sv_pending (sv_check v) = sv_pending v.
Proof using Type. by destruct v as [? ? ? []]. Qed.

Lemma vars_inv_check s i v : vars_inv s → vs s !! i = Some v → vars_inv (put i v (sv_check v) s).
Proof.
  intros (Hn & Hnd & Hlt & Hv) Hi. unfold put.
  replace (sv_registered (sv_check v) && negb (sv_registered v)) with false
    by (destruct v as [? [] ? []]; done).
  split_and!; cbn [vs usedVariables]; [by rewrite length_insert|done|done|].
  intros j v' [(<- & <- & _)|[_ Hj]]%list_lookup_insert_Some; [|by apply Hv].
  destruct (Hv _ _ Hi) as (Hu & Hr & Hp & Ho). unfold var_ok. rewrite sv_check_pending.
  by destruct v as [ow rg x [p|]].
Qed.

Lemma vars_inv_staged s i v x :
  vars_inv s → vs s !! i = Some v → is_uint w x → vars_inv (put i v (staged v x) s).
Proof.
  intros (Hn & Hnd & Hlt & Hv) Hi Hx. destruct (Hv _ _ Hi) as (Hu & Hr & Hp & Ho). unfold put. cbn [sv_registered staged].
  destruct (decide (i < n)%nat) as [Hin|Hin].
  - destruct Ho as (Ho & Hb & _). rewrite Ho. cbn [orb andb].
    assert (∀ b, (b = true ↔ sv_registered v = true) → NoDup (if negb b then usedVariables s ++ [i] else usedVariables s) ∧
      ∀ j, j ∈ (if negb b then usedVariables s ++ [i] else usedVariables s) ↔ j = i ∨ j ∈ usedVariables s) as Hset.
    { intros [] Hb'; cbn [negb]; split; try done.
      - intros j. split; [by right|]. intros [->|]; [apply Hr, Hb'|]; done.
      - apply NoDup_app. split_and!; [done| |apply NoDup_singleton]. intros j Hj ->%list_elem_of_singleton. by apply Hr, Hb' in Hj.
      - intros j. rewrite elem_of_app, list_elem_of_singleton. tauto. }
    destruct (Hset (sv_registered v)) as [Hnd' Hel]; [done|]. split_and!; cbn [vs usedVariables]; [by rewrite length_insert|done| |].
    + intros j [->|Hj]%Hel; [done|by apply Hlt].
    + intros j v' [(<- & <- & _)|[Hne Hj]]%list_lookup_insert_Some.
      * split_and!; cbn; [done| |by intros; eexists|].
        -- rewrite Ho. split; [intros _; apply Hel; by left|done].
        -- rewrite decide_True by done. rewrite Ho. by split_and!.
      * destruct (Hv _ _ Hj) as (Hu' & Hr' & Hp' & Ho'). split_and!; [done| |done|done].
        rewrite Hr', Hel. naive_solver.
  - destruct Ho as [Ho Hreg]. rewrite Ho, Hreg. cbn [orb andb]. split_and!; cbn [vs usedVariables]; [by rewrite length_insert|done|done|].
    intros j v' [(<- & <- & _)|[_ Hj]]%list_lookup_insert_Some; [|by apply Hv].
    split_and!; cbn; rewrite ?Ho, ?Hreg; try done; [by rewrite Hreg in Hr|]. by rewrite decide_False.
Qed.

Lemma vars_inv_touch s reads o : vars_inv s → vars_inv (touch reads o s).
Proof.
  intros Hs. destruct o as [y|j]; [done|]. cbn. destruct reads; [|done]. rewrite alter_lookup.
  destruct (vs s !! j) as [v|] eqn:Hj; [|by destruct s].
  pose proof (vars_inv_check s j v Hs Hj) as Hc. unfold put in Hc.
  by replace (sv_registered (sv_check v) && negb (sv_registered v)) with false in Hc by (destruct v as [? [] ? []]; done).
Qed.

Lemma vars_inv_new s x : vars_inv s → is_uint w x → vars_inv (new_var (SafeUint_local x) s).2.
Proof.
  intros (Hn & Hnd & Hlt & Hv) Hx. split_and!; cbn; [rewrite length_app; lia|done|done|].
  intros i v [Hi|[Hi Hl]]%lookup_app_Some; [by apply Hv|]. apply list_lookup_singleton_Some in Hl as [Hl <-].
  split_and!; cbn; [done| |done|by rewrite decide_False by lia].
  split; [done|]. intros Hin%Hlt. lia.
Qed.

(** ** Each call does to the variables what it means for their values *)

Definition simulates (m : ST vars uint_result) (f : list Z → outcome uint_result * list Z) : Prop :=
  ∀ s, vars_inv s → (m s).1 = (f (pend s)).1 ∧ pend (m s).2 = (f (pend s)).2 ∧ vars_inv (m s).2.

Definition operand_ok (o : operand) : Prop := match o with Lit y => is_uint w y | Other _ => True end.

Lemma operand_val_pend o s y :
  operand_ok o → vars_inv s → operand_val o s = Some y →
  is_uint w y ∧ (match o with Lit y => Some y | Other j => pend s !! j end) = Some y.
Proof.
  intros Ho (_ & _ & _ & Hv). destruct o as [z|j]; cbn; [by intros [= <-]|].
  unfold pend. rewrite list_lookup_fmap. destruct (vs s !! j) as [v|] eqn:Hj; [|done]. intros [= <-].
  split; [|done]. by apply (Hv j).
Qed.

Lemma operand_val_none o s :
  operand_val o s = None → (match o with Lit y => Some y | Other j => pend s !! j end) = None.
Proof using Type. destruct o as [z|j]; [done|]. unfold pend. cbn. by rewrite list_lookup_fmap. Qed.

Lemma pend_touch reads o s : pend (touch reads o s) = pend s.
Proof using Type.
  destruct o as [y|j]; [done|]. destruct reads; [|done]. unfold pend. cbn. rewrite alter_lookup.
  destruct (vs s !! j) as [v|] eqn:Hj; [|done]. rewrite list_fmap_insert, sv_check_pending.
  apply list_insert_id. by rewrite list_lookup_fmap, Hj.
Qed.

Lemma pend_lookup s i : pend s !! i = sv_pending <$> vs s !! i.
Proof using Type. apply list_lookup_fmap. Qed.

Lemma pend_put i v v' s : pend (put i v v' s) = <[i := sv_pending v']> (pend s).
Proof using Type. unfold pend. cbn. by rewrite list_fmap_insert. Qed.

Lemma pend_put_check i v s : vs s !! i = Some v → pend (put i v (sv_check v) s) = pend s.
Proof using Type.
  intros Hi. rewrite pend_put, sv_check_pending. apply list_insert_id. unfold pend. by rewrite list_lookup_fmap, Hi.
Qed.

(** Operators that leave the variable and return something. *)
Lemma simulates_read {B} (op : Z → ST (SafeVar Z) B) reads res (f : Z → Z → outcome Z) (g : Z → B) spec_res i o :
  operand_ok o →
  (∀ y v, is_uint w y → is_uint w (sv_pending v) → op y v = (g <$> f (sv_pending v) y, sv_check v)) →
  (∀ x y z s, is_uint w x → is_uint w y → f x y = Ok z → vars_inv s →
     (res (g z) s).1 = (spec_res z (pend s)).1 ∧ pend (res (g z) s).2 = (spec_res z (pend s)).2 ∧ vars_inv (res (g z) s).2) →
  simulates (with_operand op reads res i o) (spec_on f spec_res i o).
Proof.
  intros Ho Hop Hres s Hs. unfold with_operand, spec_on. rewrite (pend_lookup s i).
  destruct (vs s !! i) as [v|] eqn:Hi; [|done]. cbn [fmap option_fmap option_map].
  destruct (operand_val o s) as [y|] eqn:Ey; [|by rewrite (operand_val_none _ _ Ey)].
  destruct (operand_val_pend _ _ _ Ho Hs Ey) as [Hy ->].
  assert (is_uint w (sv_pending v)) as Hx by by apply Hs in Hi as (? & _).
  rewrite (Hop y v Hy Hx). set (t := touch _ o _).
  assert (vars_inv t) as Ht by by apply vars_inv_touch, vars_inv_check.
  assert (pend t = pend s) as Hp by (unfold t; by rewrite pend_touch, pend_put_check).
  destruct (f (sv_pending v) y) as [z| |] eqn:Ef; cbn; [|done..].
  destruct (Hres _ _ z t Hx Hy Ef Ht) as (E1 & E2 & E3). rewrite <-Hp.
  destruct (res (g z) t), (spec_res z (pend t)). cbn in *. by subst.
Qed.

(** Operators that update the variable. *)
Lemma simulates_update (op : Z → ST (SafeVar Z) unit) reads (f : Z → Z → outcome Z) i o :
  operand_ok o →
  (∀ y v, is_uint w y → is_uint w (sv_pending v) → op y v = sv_update (λ x, f x y) v) →
  (∀ x y z, is_uint w x → is_uint w y → f x y = Ok z → is_uint w z) →
  simulates (with_operand op reads nothing i o) (spec_on f (to_var i) i o).
Proof.
  intros Ho Hop Hf s Hs. unfold with_operand, spec_on. rewrite (pend_lookup s i).
  destruct (vs s !! i) as [v|] eqn:Hi; [|done]. cbn [fmap option_fmap option_map].
  destruct (operand_val o s) as [y|] eqn:Ey; [|by rewrite (operand_val_none _ _ Ey)].
  destruct (operand_val_pend _ _ _ Ho Hs Ey) as [Hy ->].
  assert (is_uint w (sv_pending v)) as Hx by by apply Hs in Hi as (? & _).
  rewrite (Hop y v Hy Hx), sv_update_spec.
  assert (∀ z, is_uint w z → vars_inv (touch (reads (sv_pending v)) o (put i v (staged v z) s))) as Hput
    by (intros z Hz; by apply vars_inv_touch, vars_inv_staged).
  assert (<[i := sv_pending v]> (pend s) = pend s) as Hid
    by (apply list_insert_id; unfold pend; by rewrite list_lookup_fmap, Hi).
  destruct (f (sv_pending v) y) as [z| |] eqn:Ef; cbn; rewrite pend_touch, pend_put; cbn; split_and!; eauto.
Qed.

End Invariant.

Section Simulation.
Context (w : Z) (base : list Z) (Hw : 0 < w).

Lemma SafeUint_op_spec (f : Z → Z → outcome Z) y v : SafeUint_op f y v = (SafeUint_local <$> f (sv_pending v) y, sv_check v).
Proof using Type. unfold SafeUint_op. by destruct (f _ _). Qed.

(** An operator that returns a new variable with the value of [f]. *)
Lemma simulates_new op reads f i o :
  operand_ok w o →
  (∀ y v, is_uint w y → is_uint w (sv_pending v) → op y v = (SafeUint_local <$> f (sv_pending v) y, sv_check v)) →
  (∀ x y z, is_uint w x → is_uint w y → f x y = Ok z → is_uint w z) →
  simulates w base (with_operand op reads new_var i o) (spec_on f to_new i o).
Proof.
  intros Ho Hop Hf. apply (simulates_read w base op reads new_var f SafeUint_local); [done|done|].
  intros x y z s Hx Hy Hz Hs. split_and!.
  - cbn. unfold pend. by rewrite length_fmap.
  - cbn. unfold pend. cbn. by rewrite fmap_app.
  - apply vars_inv_new; eauto.
Qed.

Lemma arith_simulates op i o :
  operand_ok w o → simulates w base (run_arith w op i o) (spec_on (spec_arith w op) to_new i o).
Proof.
  intros Ho. apply simulates_new; [done| |eauto using spec_arith_uint]. intros y v Hy Hv.
  destruct op; cbn [arith_fun spec_arith]; unfold SafeUint_add, SafeUint_sub, SafeUint_mul, SafeUint_div, SafeUint_mod;
    rewrite SafeUint_op_spec; by rewrite ?uint_add_spec, ?uint_sub_spec, ?uint_mul_spec.
Qed.

Lemma arith_set_simulates op i o :
  operand_ok w o → simulates w base (run_arith_set w op i o) (spec_on (spec_arith w op) (to_var i) i o).
Proof.
  intros Ho. apply simulates_update; [done| |eauto using spec_arith_uint]. intros y v Hy Hv.
  destruct op; cbn [arith_set_fun spec_arith];
    unfold SafeUint_add_assign, SafeUint_sub_assign, SafeUint_mul_assign, SafeUint_div_assign, SafeUint_mod_assign;
    rewrite !sv_update_spec; by rewrite ?uint_add_spec, ?uint_sub_spec, ?uint_mul_spec.
Qed.

Lemma is_uint_0 : is_uint w 0.
Proof using Hw. split; [lia|]. apply Z.pow_pos_nonneg; lia. Qed.

Lemma bits_simulates op i o :
  operand_ok w o → simulates w base (run_bits op i o) (spec_on (spec_bits op) to_new i o).
Proof using Hw.
  intros Ho. apply simulates_new; [done| |intros x y z Hx Hy; apply spec_bits_uint; [lia|done|done]]. intros y v _ _.
  by destruct op.
Qed.

Lemma bits_set_simulates op i o :
  operand_ok w o → simulates w base (run_bits_set op i o) (spec_on (spec_bits op) (to_var i) i o).
Proof using Hw.
  intros Ho. apply simulates_update; [done| |intros x y z Hx Hy; apply spec_bits_uint; [lia|done|done]]. intros y v _ _.
  by destruct op.
Qed.

Lemma shift_simulates op i o :
  operand_ok w o → simulates w base (run_shift w op i o) (spec_on (spec_shift w op) to_new i o).
Proof using Hw.
  intros Ho. apply simulates_new; [done| |intros x y z Hx Hy; apply spec_shift_uint; [lia|done|done]]. intros y v [Hy _] _.
  rewrite <-uint_shift_spec by done.
  destruct op; cbn [shift_fun]; unfold SafeUint_shl, SafeUint_shr; apply SafeUint_op_spec.
Qed.

Lemma shift_set_simulates op i o :
  operand_ok w o → simulates w base (run_shift_set w op i o) (spec_on (spec_shift w op) (to_var i) i o).
Proof using Hw.
  intros Ho. apply simulates_update; [done| |intros x y z Hx Hy; apply spec_shift_uint; [lia|done|done]]. intros y v [Hy _] _.
  rewrite sv_update_spec, <-uint_shift_spec by done.
  destruct op; cbn [shift_set_fun]; unfold SafeUint_shl_assign, SafeUint_shr_assign; by rewrite sv_update_spec.
Qed.

(** Operators that return a truth value. *)
Lemma simulates_test op reads (b : Z → Z → bool) i o :
  operand_ok w o → (∀ y v, op y v = (Ok (b (sv_pending v) y), sv_check v)) →
  simulates w base (with_operand op reads (λ b s, (RBool b, s)) i o) (spec_on (λ x y, Ok (Z.b2z (b x y))) to_bool i o).
Proof.
  intros Ho Hop. apply (simulates_read w base op reads _ _ (λ z, z =? 1)); [done| |].
  - intros y v _ _. rewrite Hop. cbn. by destruct (b _ _).
  - intros x y z s _ _ _ Hs. by split_and!.
Qed.

Lemma test_simulates op i o :
  operand_ok w o → simulates w base (run_test op i o) (spec_on (λ x y, Ok (Z.b2z (spec_test op x y))) to_bool i o).
Proof.
  intros Ho. apply simulates_test; [done|]. intros y v.
  destruct op; cbn [test_fun spec_test]; unfold SafeUint_land, SafeUint_lor, SafeUint_eq, SafeUint_ne, SafeUint_lt,
    SafeUint_le, SafeUint_gt, SafeUint_ge, SafeUint_test; do 2 f_equal; repeat zcase; first [done | exfalso; lia].
Qed.

Lemma not_simulates i :
  simulates w base (run_not i) (spec_on (λ x _, Ok (Z.b2z (bool_decide (x = 0)))) to_bool i (Lit 0)).
Proof using Hw.
  apply (simulates_test _ _ (λ x _, bool_decide (x = 0))); [apply is_uint_0|]. intros y v.
  unfold SafeUint_not, SafeUint_test. do 2 f_equal. by repeat zcase.
Qed.

Lemma get_simulates i : simulates w base (run_get i) (spec_on (λ x _, Ok x) (λ x l, (RInt x, l)) i (Lit 0)).
Proof using Hw.
  apply (simulates_read w base _ _ _ _ id); [apply is_uint_0|done|]. intros x y z s _ _ _ Hs. by split_and!.
Qed.

Lemma copy_simulates i : simulates w base (run_copy i) (spec_on (λ x _, Ok x) to_new i (Lit 0)).
Proof using Hw. apply simulates_new; [apply is_uint_0|done|]. by intros x y z Hx _ [= <-]. Qed.

Lemma new_simulates x : is_uint w x → simulates w base (run_new x) (λ l, (Ok (RVar (length l)), l ++ [x])).
Proof.
  intros Hx s Hs. split_and!.
  - cbn. unfold pend. by rewrite length_fmap.
  - cbn. unfold pend. cbn. by rewrite fmap_app.
  - exact (vars_inv_new w base s x Hs Hx).
Qed.

Lemma set_simulates i o : operand_ok w o → simulates w base (run_set i o) (spec_on (λ _ y, Ok y) (to_var i) i o).
Proof.
  intros Ho. apply simulates_update; [done| |by intros x y z _ Hy [= <-]]. intros y v _ _.
  by rewrite sv_update_spec; destruct v as [? ? ? []].
Qed.

Lemma step_simulates up i : simulates w base (run_step w up i) (spec_on (spec_step w up) (to_var i) i (Lit 0)).
Proof using Hw.
  pose proof (Z.pow_gt_1 2 w). apply simulates_update; [apply is_uint_0| |].
  - intros y v _ Hv. unfold is_uint in Hv. destruct up; unfold SafeUint_incr, SafeUint_decr, spec_step; cbn [spec_arith];
      rewrite !sv_update_spec; unfold uint_max; repeat zcase; try done; exfalso; lia.
  - intros x y z Hx _. apply spec_arith_uint; [done|]. split; lia.
Qed.
End Simulation.

(** ** What a class promises *)

(** The calls a program with variables of the class can make. *)
Definition call_typed (K : SafeUintClass) (c : uint_call) : Prop :=
  match c with
  | CNew x => is_uint (su_width K) x
  | CArith _ _ o | CBits _ _ o | CTest _ _ o | CSet _ o | CArithSet _ _ o | CBitsSet _ _ o => operand_ok (su_width K) o
  | CShift _ _ o => is_Some (su_shift K) ∧ operand_ok (su_width K) o
  | CShiftSet _ _ o => is_Some (su_shift_set K) ∧ operand_ok (su_width K) o
  | CCopy _ | CNot _ | CGet _ | CIncr _ | CDecr _ => True
  end.

Fixpoint prog_typed {A} (K : SafeUintClass) (p : uint_prog A) : Prop :=
  match p with Ret _ => True | Do c k => call_typed K c ∧ ∀ r, prog_typed K (k r) end.

(** Every call has its meaning on the values, and [commit] stores the value of
    a variable that was used. *)
Class UintLaws (K : SafeUintClass) := {
  law_call base c :
    call_typed K c → simulates (su_width K) base (run_uint_call K c) (spec_uint_call (su_width K) c);
  law_commit v x : sv_ptr v = Some x → su_commit K v = Ok (mkSafeVar (sv_owned v) false x None);
}.

Ltac class_calls :=
  intros base c Hc; destruct c;
  match type of Hc with
  | call_typed _ (CShift _ _ _) => destruct Hc as [[? Hs] Hc]; try discriminate Hs
  | call_typed _ (CShiftSet _ _ _) => destruct Hc as [[? Hs] Hc]; try discriminate Hs
  | _ => idtac
  end;
  first
    [ exact (new_simulates _ _ _ Hc) | refine (copy_simulates _ _ _ _)
    | exact (arith_simulates _ _ _ _ _ Hc) | refine (bits_simulates _ _ _ _ _ _ Hc)
    | refine (shift_simulates _ _ _ _ _ _ Hc) | exact (test_simulates _ _ _ _ _ Hc)
    | refine (not_simulates _ _ _ _) | refine (get_simulates _ _ _ _) | exact (set_simulates _ _ _ _ Hc)
    | exact (arith_set_simulates _ _ _ _ _ Hc) | refine (bits_set_simulates _ _ _ _ _ _ Hc)
    | refine (shift_set_simulates _ _ _ _ _ _ Hc) | refine (step_simulates _ _ _ _ _) ]; done.
Ltac class_commit := by intros [? ? ? ?] x [= ->].

#[export] Instance SafeUint8_laws : UintLaws SafeUint8_t.
Proof. split; [class_calls|class_commit]. Qed.
#[export] Instance SafeUint16_laws : UintLaws SafeUint16_t.
Proof. split; [class_calls|class_commit]. Qed.
#[export] Instance SafeUint32_laws : UintLaws SafeUint32_t.
Proof. split; [class_calls|class_commit]. Qed.
#[export] Instance SafeUint64_laws : UintLaws SafeUint64_t.
Proof. split; [class_calls|class_commit]. Qed.
#[export] Instance SafeUint256_laws : UintLaws SafeUint256_t.
Proof. split; [class_calls|class_commit]. Qed.

(** ** Transactions *)

Definition values (s : vars) : list Z := sv_value <$> vs s.

(** Between two calls the variables of the contract are as committed. *)
Definition settled (w : Z) (s : vars) : Prop :=
  usedVariables s = [] ∧
  ∀ i v, vs s !! i = Some v →
    sv_owned v = true ∧ sv_registered v = false ∧ sv_pending v = sv_value v ∧ is_uint w (sv_value v).

Lemma settled_pend w s : settled w s → pend s = values s.
Proof.
  intros [_ Hs]. apply list_eq. intros i. unfold pend, values. rewrite !list_lookup_fmap.
  destruct (vs s !! i) as [v|] eqn:Hi; [|done]. cbn. f_equal. by apply (Hs i).
Qed.

Lemma settled_inv w s : settled w s → vars_inv w (values s) s.
Proof.
  intros [Hu Hs]. unfold vars_inv, values. rewrite Hu, length_fmap. split_and!; [done|apply NoDup_nil_2|by intros i Hi%not_elem_of_nil|].
  intros i v Hi. destruct (Hs i v Hi) as (Ho & Hr & Hp & Hx). split_and!; [by rewrite Hp| |by rewrite Hr|].
  - rewrite Hr. split; [done|]. by intros Hin%not_elem_of_nil.
  - rewrite length_fmap, decide_True by by eapply lookup_lt_Some. by rewrite list_lookup_fmap, Hi.
Qed.

Section Transaction.
Context (K : SafeUintClass) {laws : UintLaws K}.
Notation w := (su_width K).

Lemma prog_simulates {A} base (p : uint_prog A) : prog_typed K p → ∀ s, vars_inv w base s →
  (run_uint_prog K p s).1 = (spec_uint_prog w p (pend s)).1 ∧
  pend (run_uint_prog K p s).2 = (spec_uint_prog w p (pend s)).2 ∧ vars_inv w base (run_uint_prog K p s).2.
Proof using laws.
  induction p as [a|c k IH]; intros Ht s Hs; [done|]. destruct Ht as [Hc Hk]. cbn [run_uint_prog spec_uint_prog].
  destruct (law_call base c Hc s Hs) as (E1 & E2 & E3). unfold mbind, ST_bind.
  destruct (run_uint_call K c s) as [r s'], (spec_uint_call w c (pend s)) as [r' l']. cbn in E1, E2, E3. subst r' l'.
  destruct r as [r| |]; [|done..]. by apply IH.
Qed.

Lemma commit_used_lookup u : ∀ l, NoDup u → (∀ i, i ∈ u → ∃ v x, l !! i = Some v ∧ sv_ptr v = Some x) →
  ∃ l', commit_used K u l = Ok l' ∧ ∀ i, l' !! i = (λ v, if decide (i ∈ u) then sv_commit v else v) <$> l !! i.
Proof using laws.
  induction u as [|j u IH]; intros l Hnd Hu; cbn [commit_used].
  - exists l. split; [done|]. intros i. by destruct (l !! i).
  - apply NoDup_cons in Hnd as [Hj Hnd]. destruct (Hu j) as (v & x & Hv & Hx); [left|].
    rewrite Hv, (law_commit v x Hx), Ok_bind.
    destruct (IH (<[j := mkSafeVar (sv_owned v) false x None]> l) Hnd) as (l' & -> & Hl').
    { intros i Hi. rewrite list_lookup_insert_ne by by intros ->. apply Hu. by right. }
    exists l'. split; [done|]. intros i. rewrite Hl'. destruct (decide (i = j)) as [->|Hne].
    + rewrite list_lookup_insert_eq by by eapply lookup_lt_Some. rewrite Hv. cbn.
      rewrite decide_False by done. rewrite decide_True by left. unfold sv_commit, sv_pending. by rewrite Hx.
    + rewrite list_lookup_insert_ne by done. destruct (l !! i); [|done]. cbn.
      rewrite (decide_ext (i ∈ u) (i ∈ j :: u)); [done|]. rewrite elem_of_cons. naive_solver.
Qed.

Lemma revert_used_lookup u : ∀ l i,
  revert_used u l !! i = (λ v, if decide (i ∈ u) then sv_revert v else v) <$> l !! i.
Proof using Type.
  unfold revert_used. induction u as [|j u IH]; intros l i; cbn [foldl]; [by destruct (l !! i)|].
  rewrite IH, list_lookup_alter. destruct (decide (j = i)) as [->|Hne].
  - destruct (l !! i) as [v|]; [|done]. cbn. f_equal. rewrite (decide_True (P := i ∈ i :: u)) by left. by case_decide.
  - destruct (l !! i) as [v|]; [|done]. cbn. f_equal. rewrite (decide_ext (i ∈ u) (i ∈ j :: u)); [done|].
    rewrite elem_of_cons. naive_solver.
Qed.

(** What the invariant says of the variables of the contract, without the
    local ones. *)
Lemma vars_inv_owned base s i v :
  vars_inv w base s → take (length base) (vs s) !! i = Some v →
  is_uint w (sv_pending v) ∧ sv_owned v = true ∧ base !! i = Some (sv_value v) ∧
  if decide (i ∈ usedVariables s) then is_Some (sv_ptr v)
  else sv_registered v = false ∧ sv_pending v = sv_value v.
Proof using Type.
  intros (_ & _ & _ & Hv) [Hi Hlt]%lookup_take_Some. destruct (Hv i v Hi) as (Hx & Hr & Hp & Ho).
  rewrite decide_True in Ho by done. destruct Ho as (Ho & Hb & Hc). split_and!; [done..|]. case_decide as Hu.
  - by apply Hp, Hr.
  - assert (sv_registered v = false) as E by (destruct (sv_registered v); [by destruct Hu; apply Hr|done]). auto.
Qed.

(** When a function that settles each variable in use ran over them, the
    variables are settled. *)
Lemma settled_after base s (f : SafeVar Z → SafeVar Z) l' :
  vars_inv w base s →
  (∀ i, l' !! i = (λ v, if decide (i ∈ usedVariables s) then f v else v) <$> take (length base) (vs s) !! i) →
  (∀ v, sv_owned (f v) = sv_owned v ∧ sv_registered (f v) = false ∧ sv_pending (f v) = sv_value (f v)) →
  (∀ i v, take (length base) (vs s) !! i = Some v → is_uint w (sv_value (f v))) →
  settled w (mkVars l' []).
Proof using Type.
  intros Hs Hl' Hf Hu. split; [done|]. cbn [vs]. intros i v' Hi. rewrite Hl' in Hi.
  apply fmap_Some in Hi as (v & Hi & ->). destruct (vars_inv_owned _ _ _ _ Hs Hi) as (Hx & Ho & _ & Hc).
  case_decide.
  - destruct (Hf v) as (-> & -> & ->). split_and!; [done..|by eapply Hu].
  - destruct Hc as [Hr Hp]. split_and!; [done..|]. by rewrite <-Hp.
Qed.

Lemma owned_values base s : vars_inv w base s → sv_value <$> take (length base) (vs s) = base.
Proof using Type.
  intros Hs. apply list_eq. intros i. rewrite list_lookup_fmap. destruct (take _ _ !! i) as [v|] eqn:Hi.
  - by destruct (vars_inv_owned _ _ _ _ Hs Hi) as (_ & _ & -> & _).
  - symmetry. apply lookup_ge_None_2. apply lookup_ge_None_1 in Hi. rewrite length_take in Hi. destruct Hs as [Hn _]. lia.
Qed.

(** The end of a call: with the local variables gone, the variables of the
    contract are settled again, on the pending values or on the old ones. *)
Lemma updateState_commits base s :
  vars_inv w base s →
  ∃ s', updateState_uints K true (mkVars (take (length base) (vs s)) (usedVariables s)) = Ok s' ∧ settled w s' ∧
    values s' = take (length base) (pend s).
Proof using laws.
  intros Hs. unfold updateState_uints. cbn [vs usedVariables].
  destruct (commit_used_lookup (usedVariables s) (take (length base) (vs s))) as (l' & -> & Hl'); [apply Hs| |].
  { intros i Hi. destruct (lookup_lt_is_Some_2 (take (length base) (vs s)) i) as [v Hv].
    { destruct Hs as (Hn & _ & Hlt & _). rewrite length_take. apply Hlt in Hi. lia. }
    destruct (vars_inv_owned _ _ _ _ Hs Hv) as (_ & _ & _ & Hp). rewrite decide_True in Hp by done.
    destruct Hp as [x Hx]. by exists v, x. }
  rewrite Ok_bind. eexists. split; [done|]. split.
  - apply (settled_after base s sv_commit); try done. intros i v Hi. by destruct (vars_inv_owned _ _ _ _ Hs Hi) as [? _].
  - unfold values, pend. rewrite <-fmap_take. apply list_eq. intros i. cbn [vs]. rewrite !list_lookup_fmap, Hl'.
    destruct (take _ _ !! i) as [v|] eqn:Hi; [|done]. cbn. f_equal.
    destruct (vars_inv_owned _ _ _ _ Hs Hi) as (_ & _ & _ & Hc). case_decide; [done|]. by destruct Hc as [_ ->].
Qed.

Lemma updateState_reverts base s :
  vars_inv w base s → Forall (is_uint w) base →
  ∃ s', updateState_uints K false (mkVars (take (length base) (vs s)) (usedVariables s)) = Ok s' ∧ settled w s' ∧
    values s' = base.
Proof using Type.
  intros Hs Hbase. unfold updateState_uints. cbn [vs usedVariables]. eexists. split; [done|]. split.
  - apply (settled_after base s sv_revert); [done|intros i; apply revert_used_lookup|done|].
    intros i v Hi. destruct (vars_inv_owned _ _ _ _ Hs Hi) as (_ & _ & Hb & _). rewrite Forall_lookup in Hbase. eauto.
  - rewrite <-(owned_values base s Hs) at 2. apply list_eq. intros i. unfold values. cbn [vs].
    rewrite !list_lookup_fmap, revert_used_lookup. destruct (take _ _ !! i); [|done]. cbn. f_equal. by case_decide.
Qed.

Lemma transaction_refines {A} commit (p : uint_prog A) s :
  prog_typed K p → settled w s →
  let '(r, l) := spec_uint_prog w p (values s) in
  (transaction K commit p s).1 = r ∧
  (r ≠ Undef → ∃ s', (transaction K commit p s).2 = Ok s' ∧ settled w s' ∧
     values s' = match r with Ok _ => if commit then take (length (vs s)) l else values s | _ => values s end).
Proof using laws.
  intros Ht Hs. pose proof (settled_inv w s Hs) as Hi.
  destruct (prog_simulates (values s) p Ht s Hi) as (E1 & E2 & E3). rewrite (settled_pend w s Hs) in E1, E2.
  unfold transaction. destruct (run_uint_prog K p s) as [r s'], (spec_uint_prog w p (values s)) as [r' l].
  cbn in E1, E2, E3. subst r' l. split; [done|]. intros Hr. cbn [snd].
  assert (length (vs s) = length (values s)) as -> by (unfold values; by rewrite length_fmap).
  assert (Forall (is_uint w) (values s)) as Hu.
  { apply Forall_lookup. intros i x. unfold values. rewrite list_lookup_fmap.
    intros (v & Hv & ->)%fmap_Some. by apply Hs in Hv as (_ & _ & _ & ?). }
  destruct r as [a|e|]; [destruct commit| |done]; [by apply updateState_commits|by apply updateState_reverts..].
Qed.
End Transaction.


(** Two integers of a contract, 200 and 7. *)
Definition two_uints : vars := mkVars [mkSafeVar true false 200 None; mkSafeVar true false 7 (Some 7)] [].

(** [x /= y; y = x + x;] and [y *= y; x += x;]. *)
Definition halves : uint_prog unit :=
  Do (CArithSet OpDiv 0 (Other 1)) (λ _, Do (CArith OpAdd 0 (Other 0))
    (λ r, match r with RVar i => Do (CSet 1 (Other i)) (λ _, Ret tt) | _ => Ret tt end)).
Definition doubles : uint_prog unit :=
  Do (CArithSet OpMul 1 (Other 1)) (λ _, Do (CArithSet OpAdd 0 (Other 0)) (λ _, Ret tt)).

