(* ===== verification/SafeMapOps.v ===== *)
(** * SafeUnorderedMap: iterators, hints, ranges and node handles

    The rest of [src/contract/variables/safeunorderedmap.h]: the constructor
    of a local map, the iterators of the committed and of the temporary map,
    and the overloads of [insert], [insert_or_assign], [emplace] and [erase].
    The theorems state what all the operations of a call amount to, on a plain
    map with the set of keys the call has loaded and the set it has erased,
    and where the class differs from [std::unordered_map]. *)
From stdpp Require Import base list gmap.
From S2P Require Import Prelude SafeVars.
Open Scope Z_scope.

(** ** Iterators *)

(** The map an iterator was taken from. *)
Inductive container := Committed | Temporary.

(** An iterator of a map: the entry it points at, or [end()]. An iterator is
    used before the next commit or revert, which destroy the temporary map. *)
Record iterator := mkIterator { it_of : container; it_key : option bytes }.

#[global] Instance container_eq_dec : EqDecision container.
Proof. solve_decision. Defined.
#[global] Instance iterator_eq_dec : EqDecision iterator.
Proof. solve_decision. Defined.

(** A node handle: the entry it owns, if any. *)
Definition node_type (T : Type) := option (bytes * T).

Section Ops.
Context `{HashMapOrder} {T : Type} (T0 : T).
Implicit Types m : SafeMap T.

(** A position of the temporary map: [end()] or an entry it holds. *)
Definition it_valid m (it : iterator) : bool :=
  bool_decide (it_of it = Temporary) &&
  match it_key it with None => true | Some k => bool_decide (is_Some (sm_pending m !! k)) end.

(** The position [k] of an iteration order and what follows it. *)
Fixpoint it_suffix (l : list (bytes * T)) (k : option bytes) : outcome (list (bytes * T)) :=
  match k, l with
  | None, _ => Ok []
  | Some _, [] => Undef
  | Some k', (k1, x) :: l' => if bool_decide (k1 = k') then Ok l else it_suffix l' k
  end.

(** [for (it = first; it != last; ++it)] from a position: the keys visited. *)
Fixpoint it_until (l : list (bytes * T)) (last : option bytes) : outcome (list bytes) :=
  match l with
  | [] => match last with None => Ok [] | Some _ => Undef end
  | (k, _) :: l' => if bool_decide (last = Some k) then Ok [] else ks ← it_until l' last; Ok (k :: ks)
  end.

Definition it_head (l : list (bytes * T)) : option bytes := fst <$> head l.

(** [++it]. *)
Definition it_next (l : list (bytes * T)) (k : option bytes) : outcome (option bytes) :=
  l' ← it_suffix l k; match l' with [] => Undef | _ :: l' => Ok (it_head l') end.

(** [SafeUnorderedMap(map)]: a local map holds its entries as temporary ones. *)
Definition SafeMap_local (map : gmap bytes T) : SafeMap T := mkSafeMap false false ∅ (Some map) None.

Definition SafeMap_cbegin m : iterator := mkIterator Committed (it_head (iter_map (sm_map m))).
Definition SafeMap_cend m : iterator := mkIterator Committed None.

Definition SafeMap_begin : ST (SafeMap T) iterator := λ m,
  let m := sm_check m in (Ok (mkIterator Temporary (it_head (iter_map (sm_pending m)))), m).
Definition SafeMap_end : ST (SafeMap T) iterator := λ m, (Ok (mkIterator Temporary None), sm_check m).

(** The keys a loop from one iterator to another visits. *)
Definition it_range m (first last : iterator) : outcome (list bytes) :=
  if bool_decide (it_of first = it_of last) then
    let l := iter_map (match it_of first with Committed => sm_map m | Temporary => sm_pending m end) in
    l ← it_suffix l (it_key first); it_until l (it_key last)
  else Undef.

(** ** Insertion *)

(** [std::unordered_map::insert] on the temporary map: where the entry with
    the key is, and whether it was inserted. *)
Definition temp_insert (v : bytes * T) m : (iterator * bool) * SafeMap T :=
  let it := mkIterator Temporary (Some v.1) in
  match sm_pending m !! v.1 with
  | Some _ => ((it, false), m)
  | None => ((it, true), sm_set m (<[v.1 := v.2]> (sm_pending m)))
  end.

Definition temp_assign (v : bytes * T) m : (iterator * bool) * SafeMap T :=
  ((mkIterator Temporary (Some v.1), bool_decide (sm_pending m !! v.1 = None)),
   sm_set m (<[v.1 := v.2]> (sm_pending m))).

(** [check(); markAsUsed();] and an operation on the temporary map. *)
Definition used {A} (f : SafeMap T → A * SafeMap T) : ST (SafeMap T) A := λ m,
  let '(a, m) := f (sm_markAsUsed (sm_check m)) in (Ok a, m).

(** The same with a hint, which has to be a position of the temporary map. *)
Definition used_hint {A} (hint : iterator) (f : SafeMap T → (iterator * A) * SafeMap T)
    : ST (SafeMap T) iterator := λ m,
  let m := sm_markAsUsed (sm_check m) in
  if it_valid m hint then let '((it, _), m) := f m in (Ok it, m) else (Undef, m).

(** [insert(const value_type&)]; the entry and the flag. *)
Definition SafeMap_insert_value (v : bytes * T) : ST (SafeMap T) (iterator * bool) := used (temp_insert v).
Definition SafeMap_insert_rvalue (v : bytes * T) : ST (SafeMap T) (iterator * bool) := used (temp_insert v).
Definition SafeMap_insert_hint (hint : iterator) (v : bytes * T) : ST (SafeMap T) iterator :=
  used_hint hint (temp_insert v).
Definition SafeMap_insert_hint_rvalue (hint : iterator) (v : bytes * T) : ST (SafeMap T) iterator :=
  used_hint hint (temp_insert v).

(** [insert(first, last)] and [insert(ilist)]: the values in order. *)
Definition temp_insert_all (vs : list (bytes * T)) m : unit * SafeMap T :=
  (tt, foldl (λ m v, (temp_insert v m).2) m vs).
Definition SafeMap_insert_range (vs : list (bytes * T)) : ST (SafeMap T) unit := used (temp_insert_all vs).
Definition SafeMap_insert_ilist (vs : list (bytes * T)) : ST (SafeMap T) unit := used (temp_insert_all vs).

(** [insert(node_type&&)]: position, inserted, and the node that was not. *)
Definition temp_insert_node (nh : node_type T) m : (iterator * (bool * node_type T)) * SafeMap T :=
  match nh with
  | None => ((mkIterator Temporary None, (false, None)), m)
  | Some v => let '((it, ins), m) := temp_insert v m in ((it, (ins, if ins then None else nh)), m)
  end.
Definition SafeMap_insert_node (nh : node_type T) : ST (SafeMap T) (iterator * (bool * node_type T)) :=
  used (temp_insert_node nh).
Definition SafeMap_insert_hint_node (hint : iterator) (nh : node_type T) : ST (SafeMap T) iterator :=
  used_hint hint (temp_insert_node nh).

Definition SafeMap_assign_value (k : bytes) (x : T) : ST (SafeMap T) (iterator * bool) := used (temp_assign (k, x)).
Definition SafeMap_assign_rvalue (k : bytes) (x : T) : ST (SafeMap T) (iterator * bool) := used (temp_assign (k, x)).
Definition SafeMap_assign_hint (hint : iterator) (k : bytes) (x : T) : ST (SafeMap T) iterator :=
  used_hint hint (temp_assign (k, x)).
Definition SafeMap_assign_hint_rvalue (hint : iterator) (k : bytes) (x : T) : ST (SafeMap T) iterator :=
  used_hint hint (temp_assign (k, x)).

(** [emplace(args...)], with the entry the arguments build. *)
Definition SafeMap_emplace (v : bytes * T) : ST (SafeMap T) (iterator * bool) := used (temp_insert v).
Definition SafeMap_emplace_hint (hint : iterator) (v : bytes * T) : ST (SafeMap T) iterator :=
  used_hint hint (temp_insert v).

(** ** Erasure *)

(** [erasedKeys] with the keys, the temporary map without. *)
Definition temp_erase (ks : list bytes) m : SafeMap T :=
  mkSafeMap (sm_owned m) (sm_registered m) (sm_map m)
    (Some (filter (λ e, e.1 ∉ ks) (sm_pending m))) (Some (list_to_set ks ∪ sm_gone m)).

(** [erase(pos)] for both kinds of iterators: [pos] has to point at an entry
    of the temporary map. The result is the next entry. *)
Definition SafeMap_erase_it (pos : iterator) : ST (SafeMap T) iterator := λ m,
  let m := sm_markAsUsed (sm_check m) in
  match it_key pos with
  | Some k =>
      if it_valid m pos then
        match it_next (iter_map (sm_pending m)) (Some k) with
        | Ok next => (Ok (mkIterator Temporary next), temp_erase [k] m)
        | _ => (Undef, m)
        end
      else (Undef, m)
  | None => (Undef, m)
  end.

(** [erase(first, last)]. *)
Definition SafeMap_erase_range (first last : iterator) : ST (SafeMap T) iterator := λ m,
  let m := sm_markAsUsed (sm_check m) in
  if it_valid m first && it_valid m last then
    match it_range m first last with
    | Ok ks => (Ok last, temp_erase ks m)
    | _ => (Undef, m)
    end
  else (Undef, m).

(** [erase(K&& key)]: the key is forwarded to [erasedKeys] and then used
    again; [left] is what the first use leaves in the argument. *)
Definition SafeMap_erase_forward (key left : bytes) : ST (SafeMap T) Z := λ m,
  let m := sm_markAsUsed (sm_check m) in
  (Ok (if sm_pending m !! left then 1 else 0),
   mkSafeMap (sm_owned m) (sm_registered m) (sm_map m)
     (Some (delete left (sm_pending m))) (Some ({[key]} ∪ sm_gone m))).

(** [at] on a const map. *)
Definition SafeMap_at_const (key : bytes) : ST (SafeMap T) T := λ m,
  match checkKeyAndThrow key m with
  | Ok m => (Ok (default T0 (sm_pending m !! key)), m)
  | Throw e => (Throw e, sm_check m)
  | Undef => (Undef, sm_check m)
  end.

End Ops.

(** * What a call sees *)

(** A call on a map, abstractly: a plain map, the keys whose entries the call
    has loaded or written, and the keys it has erased. *)
Record call_view (T : Type) := mkView {
  cv_map : gmap bytes T;
  cv_loaded : gset bytes;
  cv_erased : gset bytes;
}.
Arguments mkView {_}.
Arguments cv_map {_}.
Arguments cv_loaded {_}.
Arguments cv_erased {_}.

(** The operations of a call, and their results. *)
Inductive call_op (T : Type) :=
  | CFind (k : bytes)
  | CCount (k : bytes)
  | CContains (k : bytes)
  | CAt (k : bytes)
  | CSet (k : bytes) (x : T)
  | CInsert (v : bytes * T)
  | CInsertHint (hint : iterator) (v : bytes * T)
  | CInsertAll (vs : list (bytes * T))
  | CInsertNode (nh : node_type T)
  | CInsertHintNode (hint : iterator) (nh : node_type T)
  | CAssign (k : bytes) (x : T)
  | CAssignHint (hint : iterator) (k : bytes) (x : T)
  | CErase (k : bytes)
  | CEraseIt (pos : iterator)
  | CEraseRange (first last : iterator)
  | CBegin
  | CEnd.
Arguments CFind {_}. Arguments CCount {_}. Arguments CContains {_}. Arguments CAt {_}. Arguments CSet {_}.
Arguments CInsert {_}. Arguments CInsertHint {_}. Arguments CInsertAll {_}. Arguments CInsertNode {_}.
Arguments CInsertHintNode {_}. Arguments CAssign {_}. Arguments CAssignHint {_}. Arguments CErase {_}.
Arguments CEraseIt {_}. Arguments CEraseRange {_}. Arguments CBegin {_}. Arguments CEnd {_}.

Inductive call_res (T : Type) :=
  | RNone
  | REntry (x : option T)
  | RCount (n : Z)
  | RBool (b : bool)
  | RPos (it : iterator)
  | RInserted (it : iterator) (b : bool)
  | RNode (it : iterator) (b : bool) (nh : node_type T).
Arguments RNone {_}. Arguments REntry {_}. Arguments RCount {_}. Arguments RBool {_}. Arguments RPos {_}.
Arguments RInserted {_}. Arguments RNode {_}.

Section Calls.
Context `{HashMapOrder} {T : Type} (T0 : T).
Implicit Types m : SafeMap T.
Implicit Types a : call_view T.

Definition run_call (op : call_op T) : ST (SafeMap T) (call_res T) :=
  match op with
  | CFind k => x ← SafeMap_find k; mret (REntry x)
  | CCount k => n ← SafeMap_count k; mret (RCount n)
  | CContains k => b ← SafeMap_contains k; mret (RBool b)
  | CAt k => x ← SafeMap_at T0 k; mret (REntry (Some x))
  | CSet k x => _ ← SafeMap_bracket T0 k (λ _, (Ok tt, x)); mret RNone
  | CInsert v => r ← SafeMap_insert_value v; mret (RInserted r.1 r.2)
  | CInsertHint hint v => it ← SafeMap_insert_hint hint v; mret (RPos it)
  | CInsertAll vs => _ ← SafeMap_insert_range vs; mret RNone
  | CInsertNode nh => r ← SafeMap_insert_node nh; mret (RNode r.1 r.2.1 r.2.2)
  | CInsertHintNode hint nh => it ← SafeMap_insert_hint_node hint nh; mret (RPos it)
  | CAssign k x => r ← SafeMap_assign_value k x; mret (RInserted r.1 r.2)
  | CAssignHint hint k x => it ← SafeMap_assign_hint hint k x; mret (RPos it)
  | CErase k => n ← SafeMap_erase k; mret (RCount n)
  | CEraseIt pos => it ← SafeMap_erase_it pos; mret (RPos it)
  | CEraseRange first last => it ← SafeMap_erase_range first last; mret (RPos it)
  | CBegin => it ← SafeMap_begin; mret (RPos it)
  | CEnd => it ← SafeMap_end; mret (RPos it)
  end.

(** The same on the abstract state. *)
Definition cv_load (k : bytes) a : call_view T :=
  mkView (cv_map a) (if cv_map a !! k then {[k]} ∪ cv_loaded a else cv_loaded a) (cv_erased a).
Definition cv_write (k : bytes) (x : T) a : call_view T :=
  mkView (<[k := x]> (cv_map a)) ({[k]} ∪ cv_loaded a) (cv_erased a).
Definition cv_drop (ks : list bytes) a : call_view T :=
  mkView (filter (λ e, e.1 ∉ ks) (cv_map a)) (cv_loaded a ∖ list_to_set ks) (list_to_set ks ∪ cv_erased a).

(** The entries the call can iterate over. *)
Definition cv_entries a : gmap bytes T := filter (λ e, e.1 ∈ cv_loaded a) (cv_map a).
Definition cv_has (k : bytes) a : bool := bool_decide (k ∈ cv_loaded a).
Definition cv_pos (it : iterator) a : bool :=
  bool_decide (it_of it = Temporary) && match it_key it with None => true | Some k => cv_has k a end.

Definition cv_insert (v : bytes * T) a : call_view T := if cv_has v.1 a then a else cv_write v.1 v.2 a.
Definition at_key (k : bytes) : iterator := mkIterator Temporary (Some k).

Definition spec_call (op : call_op T) a : outcome (call_res T) * call_view T :=
  let hinted hint it a' := if cv_pos hint a then (Ok (RPos it), a') else (Undef, a) in
  match op with
  | CFind k => (Ok (REntry (cv_map a !! k)), cv_load k a)
  | CCount k => (Ok (RCount (if cv_map a !! k then 1 else 0)), cv_load k a)
  | CContains k => (Ok (RBool (if cv_map a !! k then true else false)), cv_load k a)
  | CAt k => match cv_map a !! k with
             | Some x => (Ok (REntry (Some x)), cv_load k a)
             | None => (Throw key_not_found, a)
             end
  | CSet k x => (Ok RNone, cv_write k x a)
  | CInsert v => (Ok (RInserted (at_key v.1) (negb (cv_has v.1 a))), cv_insert v a)
  | CInsertHint hint v => hinted hint (at_key v.1) (cv_insert v a)
  | CInsertAll vs => (Ok RNone, foldl (λ a v, cv_insert v a) a vs)
  | CInsertNode nh =>
      (Ok match nh with
          | None => RNode (mkIterator Temporary None) false None
          | Some v => RNode (at_key v.1) (negb (cv_has v.1 a)) (if cv_has v.1 a then nh else None)
          end, from_option (λ v, cv_insert v a) a nh)
  | CInsertHintNode hint nh =>
      hinted hint (mkIterator Temporary (fst <$> nh)) (from_option (λ v, cv_insert v a) a nh)
  | CAssign k x => (Ok (RInserted (at_key k) (negb (cv_has k a))), cv_write k x a)
  | CAssignHint hint k x => hinted hint (at_key k) (cv_write k x a)
  | CErase k => (Ok (RCount (if cv_has k a then 1 else 0)), cv_drop [k] a)
  | CEraseIt pos =>
      match it_key pos with
      | Some k => match it_next (iter_map (cv_entries a)) (Some k) with
                  | Ok next => if cv_pos pos a then (Ok (RPos (mkIterator Temporary next)), cv_drop [k] a) else (Undef, a)
                  | _ => (Undef, a)
                  end
      | None => (Undef, a)
      end
  | CEraseRange first last =>
      if cv_pos first a && cv_pos last a then
        match l ← it_suffix (iter_map (cv_entries a)) (it_key first); it_until l (it_key last) with
        | Ok ks => (Ok (RPos last), cv_drop ks a)
        | _ => (Undef, a)
        end
      else (Undef, a)
  | CBegin => (Ok (RPos (mkIterator Temporary (it_head (iter_map (cv_entries a))))), a)
  | CEnd => (Ok (RPos (mkIterator Temporary None)), a)
  end.

(** What the call sees of a map. *)
Definition sm_abs m : call_view T := mkView (sm_view m) (dom (sm_pending m)) (sm_gone m).

(** ** Lemmas *)

Lemma cv_has_abs k m : cv_has k (sm_abs m) = bool_decide (is_Some (sm_pending m !! k)).
Proof. apply bool_decide_ext. cbn. by rewrite elem_of_dom. Qed.

Lemma cv_entries_abs m : cv_entries (sm_abs m) = sm_pending m.
Proof.
  apply map_eq. intros k. unfold cv_entries. cbn. destruct (sm_pending m !! k) as [x|] eqn:E.
  - apply map_lookup_filter_Some. cbn. split; [by rewrite sm_view_lookup, E|by apply elem_of_dom].
  - apply map_lookup_filter_None. right. intros x _ Hd. apply elem_of_dom in Hd as [y Hy]. cbn in Hy. congruence.
Qed.

Lemma it_valid_abs it m : it_valid m it = cv_pos it (sm_abs m).
Proof. unfold it_valid, cv_pos. f_equal. destruct (it_key it); [by rewrite cv_has_abs|done]. Qed.

Lemma sm_abs_used m : sm_abs (sm_markAsUsed (sm_check m)) = sm_abs m.
Proof. done. Qed.

Lemma sm_abs_set m k x : sm_abs (sm_set m (<[k := x]> (sm_pending m))) = cv_write k x (sm_abs m).
Proof.
  unfold sm_abs, cv_write. cbn [cv_map cv_loaded cv_erased]. rewrite sm_view_set by done. f_equal.
  change (sm_pending (sm_set m (<[k := x]> (sm_pending m)))) with (<[k := x]> (sm_pending m)).
  by rewrite dom_insert_L.
Qed.

Lemma sm_abs_erase ks m : sm_abs (temp_erase ks m) = cv_drop ks (sm_abs m).
Proof.
  unfold sm_abs, cv_drop. cbn [cv_map cv_loaded cv_erased]. f_equal.
  - apply map_eq. intros k. rewrite sm_view_lookup.
    change (sm_pending (temp_erase ks m)) with (filter (λ e : bytes * T, e.1 ∉ ks) (sm_pending m)).
    change (sm_gone (temp_erase ks m)) with ((list_to_set ks : gset bytes) ∪ sm_gone m).
    change (sm_map (temp_erase ks m)) with (sm_map m).
    rewrite !map_lookup_filter, sm_view_lookup. destruct (decide (k ∈ ks)) as [Hin|Hin].
    + rewrite (bool_decide_true (k ∈ _ ∪ _)) by set_solver.
      destruct (sm_pending m !! k); [|destruct (bool_decide (k ∈ sm_gone m)), (sm_map m !! k)]; cbn; try done;
        by rewrite option_guard_False by naive_solver.
    + destruct (sm_pending m !! k); cbn; [by rewrite !option_guard_True by done|].
      destruct (decide (k ∈ sm_gone m)); [by rewrite !bool_decide_true by set_solver|].
      rewrite !bool_decide_false by set_solver. destruct (sm_map m !! k); cbn; [|done].
      by rewrite option_guard_True by done.
  - apply set_eq. intros k. rewrite elem_of_difference, !elem_of_dom.
    change (sm_pending (temp_erase ks m)) with (filter (λ e : bytes * T, e.1 ∉ ks) (sm_pending m)).
    split.
    + intros [x Hx]. apply map_lookup_filter_Some in Hx as [Hx Hk]. split; [by exists x|set_solver].
    + intros [[x Hx] Hk]. exists x. apply map_lookup_filter_Some. split; [done|set_solver].
Qed.

Lemma cv_write_write k x y a : cv_write k x (cv_write k y a) = cv_write k x a.
Proof. unfold cv_write. cbn. f_equal; [apply insert_insert_eq|set_solver]. Qed.

Lemma sm_abs_copy k m : sm_abs (checkKeyAndCopy k m) = cv_load k (sm_abs m).
Proof.
  destruct (checkKeyAndCopy_spec k m) as [Hv _]. destruct (checkKeyAndCopy_frame k m) as (_ & _ & _ & Hg).
  unfold sm_abs, cv_load. cbn [cv_map cv_loaded cv_erased]. rewrite Hv, Hg. f_equal.
  rewrite sm_view_lookup. unfold checkKeyAndCopy.
  change (sm_pending (sm_check m)) with (sm_pending m). change (sm_map (sm_check m)) with (sm_map m).
  change (sm_gone (sm_check m)) with (sm_gone m).
  destruct (sm_pending m !! k) as [x|] eqn:E.
  - assert (k ∈ dom (sm_pending m)) by (apply elem_of_dom; eauto).
    change (sm_pending (sm_check m)) with (sm_pending m). set_solver.
  - destruct (sm_map m !! k) as [x|]; [|by case_bool_decide].
    case_bool_decide; [done|]. apply dom_insert_L.
Qed.

Lemma sm_abs_create k m :
  sm_abs (checkKeyAndCreate T0 k m) = cv_write k (default T0 (sm_view m !! k)) (sm_abs m).
Proof.
  destruct (checkKeyAndCreate_spec T0 k m) as [Hv _]. destruct (checkKeyAndCreate_frame T0 k m) as (_ & _ & _ & Hg).
  unfold sm_abs, cv_write. cbn [cv_map cv_loaded cv_erased]. rewrite Hv, Hg. f_equal.
  unfold checkKeyAndCreate.
  change (sm_pending (sm_check m)) with (sm_pending m). change (sm_map (sm_check m)) with (sm_map m).
  change (sm_gone (sm_check m)) with (sm_gone m).
  destruct (sm_pending m !! k) as [x|] eqn:E.
  - assert (k ∈ dom (sm_pending m)) by (apply elem_of_dom; eauto).
    change (sm_pending (sm_check m)) with (sm_pending m). set_solver.
  - destruct (sm_map m !! k); [case_bool_decide|]; apply dom_insert_L.
Qed.

(** [at] finds what the call sees. *)
Lemma checkKeyAndThrow_spec k m :
  match sm_view m !! k with
  | Some x => checkKeyAndThrow k m = Ok (checkKeyAndCopy k m) ∧ sm_pending (checkKeyAndCopy k m) !! k = Some x
  | None => checkKeyAndThrow k m = Throw key_not_found
  end.
Proof.
  destruct (checkKeyAndCopy_spec k m) as [_ Hp]. rewrite Hp, sm_view_lookup. clear Hp.
  unfold checkKeyAndThrow, checkKeyAndCopy.
  change (sm_pending (sm_check m)) with (sm_pending m). change (sm_map (sm_check m)) with (sm_map m).
  change (sm_gone (sm_check m)) with (sm_gone m).
  destruct (sm_pending m !! k); [done|]. destruct (sm_map m !! k); case_bool_decide; done.
Qed.

(** The operations on the temporary map. *)
Lemma temp_insert_abs v m :
  temp_insert v m = ((at_key v.1, negb (cv_has v.1 (sm_abs m))), (temp_insert v m).2) ∧
  sm_abs (temp_insert v m).2 = cv_insert v (sm_abs m) ∧ sm_map (temp_insert v m).2 = sm_map m.
Proof.
  unfold temp_insert, cv_insert. rewrite cv_has_abs.
  destruct (sm_pending m !! v.1) as [x|]; cbn [snd]; [by rewrite bool_decide_true by eauto|].
  rewrite bool_decide_false by (intros [? [=]]). split_and!; [done|apply sm_abs_set|done].
Qed.

Lemma temp_assign_abs k x m :
  temp_assign (k, x) m = ((at_key k, negb (cv_has k (sm_abs m))), (temp_assign (k, x) m).2) ∧
  sm_abs (temp_assign (k, x) m).2 = cv_write k x (sm_abs m).
Proof.
  unfold temp_assign. cbn [snd fst]. split; [|apply sm_abs_set]. do 2 f_equal. rewrite cv_has_abs.
  destruct (sm_pending m !! k); [by rewrite (bool_decide_true (is_Some _)) by eauto|].
  by rewrite (bool_decide_false (is_Some _)) by (intros [? [=]]).
Qed.

Lemma temp_insert_all_abs vs m :
  sm_abs (temp_insert_all vs m).2 = foldl (λ a v, cv_insert v a) (sm_abs m) vs ∧
  sm_map (temp_insert_all vs m).2 = sm_map m.
Proof.
  unfold temp_insert_all. cbn [snd]. revert m. induction vs as [|v vs IH]; intros m; [done|]. cbn [foldl].
  destruct (IH (temp_insert v m).2) as [-> ->]. by destruct (temp_insert_abs v m) as (_ & -> & ->).
Qed.

Lemma temp_insert_node_abs nh m :
  let '((it, (ins, nh_left)), m') := temp_insert_node nh m in
  (Ok (RNode it ins nh_left), sm_abs m') = spec_call (CInsertNode nh) (sm_abs m) ∧ it = mkIterator Temporary (fst <$> nh) ∧
  sm_map m' = sm_map m.
Proof.
  destruct nh as [v|]; [|done]. cbn [temp_insert_node]. destruct (temp_insert_abs v m) as (E & Ha & Hm).
  rewrite E. unfold spec_call. cbn [from_option]. rewrite Ha. split_and!; [|done|done].
  by destruct (cv_has v.1 (sm_abs m)).
Qed.

(** What an operation leaves of the rest of the map. *)
Definition call_frame (op : call_op T) m : Prop :=
  (run_call op m).1 = (spec_call op (sm_abs m)).1 ∧ sm_abs (run_call op m).2 = (spec_call op (sm_abs m)).2 ∧
  sm_map (run_call op m).2 = sm_map m.

(** ** The simulation, one group of operations at a time *)

Lemma run_lookup_sim op m :
  match op with CFind _ | CCount _ | CContains _ | CAt _ | CSet _ _ => call_frame op m | _ => True end.
Proof.
  assert (∀ k, sm_map (checkKeyAndCopy k m) = sm_map m) as Hm by (intros k; by destruct (checkKeyAndCopy_frame k m) as (_ & _ & ? & _)).
  destruct op as [k|k|k|k|k x| | | | | | | | | | | | ]; try done; unfold call_frame;
    cbn [run_call spec_call]; unfold mbind, ST_bind, mret, ST_ret.
  - unfold SafeMap_find. rewrite (proj2 (checkKeyAndCopy_spec k m)). cbn [fst snd]. by rewrite sm_abs_copy.
  - unfold SafeMap_count. rewrite (proj2 (checkKeyAndCopy_spec k m)). cbn [fst snd]. by rewrite sm_abs_copy.
  - unfold SafeMap_contains. rewrite (proj2 (checkKeyAndCopy_spec k m)). cbn [fst snd]. rewrite sm_abs_copy.
    split_and!; [|done|done]. cbn [sm_abs cv_map].
    destruct (sm_view m !! k); [by rewrite bool_decide_true by eauto|by rewrite bool_decide_false by (intros [? [=]])].
  - pose proof (checkKeyAndThrow_spec k m) as Ht. cbn [sm_abs cv_map]. unfold SafeMap_at.
    destruct (sm_view m !! k) as [x|]; [destruct Ht as [-> Hp]|rewrite Ht; done]. rewrite Hp. cbn.
    split_and!; [done| |done]. apply sm_abs_copy.
  - unfold SafeMap_bracket. cbn [fst snd]. split_and!; [done| |].
    + rewrite sm_abs_set. change (sm_abs (sm_markAsUsed (checkKeyAndCreate T0 k m))) with (sm_abs (checkKeyAndCreate T0 k m)).
      by rewrite sm_abs_create, cv_write_write.
    + by destruct (checkKeyAndCreate_frame T0 k m) as (_ & _ & ? & _).
Qed.

Lemma run_hint_sim {A} hint (f : SafeMap T → (iterator * A) * SafeMap T) it a' m :
  (∀ m0, sm_abs m0 = sm_abs m → sm_map m0 = sm_map m →
     (f m0).1.1 = it ∧ sm_abs (f m0).2 = a' ∧ sm_map (f m0).2 = sm_map m) →
  let r := used_hint hint f m in
  r.1 = (if cv_pos hint (sm_abs m) then Ok it else Undef) ∧
  sm_abs r.2 = (if cv_pos hint (sm_abs m) then a' else sm_abs m) ∧ sm_map r.2 = sm_map m.
Proof.
  intros Hf. unfold used_hint. rewrite it_valid_abs, sm_abs_used. destruct (cv_pos hint (sm_abs m)); [|done].
  destruct (Hf (sm_markAsUsed (sm_check m))) as (H1 & H2 & H3); [done|done|].
  destruct (f (sm_markAsUsed (sm_check m))) as [[it' x] m']. cbn in *. by subst.
Qed.

Lemma run_insert_sim op m :
  match op with
  | CInsert _ | CInsertHint _ _ | CInsertAll _ | CInsertNode _ | CInsertHintNode _ _ | CAssign _ _ | CAssignHint _ _ _ =>
      call_frame op m
  | _ => True
  end.
Proof.
  destruct op as [ | | | | |v|hint v|vs|nh|hint nh|k x|hint k x| | | | | ]; try done; unfold call_frame;
    cbn [run_call spec_call]; unfold mbind, ST_bind, mret, ST_ret.
  - unfold SafeMap_insert_value, used. destruct (temp_insert_abs v (sm_markAsUsed (sm_check m))) as (E & Ha & Hm).
    by rewrite E.
  - unfold SafeMap_insert_hint. destruct (run_hint_sim hint (temp_insert v) (at_key v.1) (cv_insert v (sm_abs m)) m) as (H1 & H2 & H3).
    { intros m0 Ha Hm. destruct (temp_insert_abs v m0) as (E & Ha' & Hm'). rewrite Ha in *. split_and!; [by rewrite E|exact Ha'|congruence]. }
    destruct (used_hint hint (temp_insert v) m) as [r m']. cbn [fst snd] in *. subst r.
    destruct (cv_pos hint (sm_abs m)); done.
  - unfold SafeMap_insert_range, used.
    destruct (temp_insert_all_abs vs (sm_markAsUsed (sm_check m))) as (Ha & Hm).
    by destruct (temp_insert_all vs _) as [[] m'].
  - unfold SafeMap_insert_node, used. pose proof (temp_insert_node_abs nh (sm_markAsUsed (sm_check m))) as Hn.
    destruct (temp_insert_node nh _) as [[it [ins nh']] m']. destruct Hn as (Hn & _ & Hm). cbn [fst snd].
    rewrite sm_abs_used in Hn. cbn [spec_call] in Hn. injection Hn as Hn1 Hn2. rewrite <-Hn2. split_and!; [by rewrite Hn1|done|done].
  - unfold SafeMap_insert_hint_node. destruct (run_hint_sim hint (temp_insert_node nh)
      (mkIterator Temporary (fst <$> nh)) (from_option (λ v, cv_insert v (sm_abs m)) (sm_abs m) nh) m) as (H1 & H2 & H3).
    { intros m0 Ha Hm. pose proof (temp_insert_node_abs nh m0) as Hn.
      destruct (temp_insert_node nh m0) as [[it [ins nh']] m']. destruct Hn as (Hn & -> & Hm'). rewrite Ha in Hn.
      cbn [spec_call] in Hn. injection Hn as Hn1 Hn2. cbn [fst snd]. split_and!; [reflexivity|exact Hn2|congruence]. }
    destruct (used_hint hint (temp_insert_node nh) m) as [r m']. cbn [fst snd] in *. subst r.
    destruct (cv_pos hint (sm_abs m)); done.
  - unfold SafeMap_assign_value, used. destruct (temp_assign_abs k x (sm_markAsUsed (sm_check m))) as (E & Ha).
    rewrite E. done.
  - unfold SafeMap_assign_hint. destruct (run_hint_sim hint (temp_assign (k, x)) (at_key k) (cv_write k x (sm_abs m)) m) as (H1 & H2 & H3).
    { intros m0 Ha Hm. destruct (temp_assign_abs k x m0) as (E & Ha'). rewrite Ha in *. split_and!; [by rewrite E|exact Ha'|done]. }
    destruct (used_hint hint (temp_assign (k, x)) m) as [r m']. cbn [fst snd] in *. subst r.
    destruct (cv_pos hint (sm_abs m)); done.
Qed.

Lemma SafeMap_erase_temp k m :
  (SafeMap_erase k m).1 = Ok (if cv_has k (sm_abs m) then 1 else 0) ∧
  sm_abs (SafeMap_erase k m).2 = cv_drop [k] (sm_abs m) ∧ sm_map (SafeMap_erase k m).2 = sm_map m.
Proof.
  split_and!; [| |done].
  - cbn [SafeMap_erase fst]. rewrite cv_has_abs. change (sm_pending (sm_markAsUsed (sm_check m))) with (sm_pending m).
    destruct (sm_pending m !! k); [by rewrite bool_decide_true by eauto|by rewrite bool_decide_false by (intros [? [=]])].
  - rewrite <-(sm_abs_used m), <-sm_abs_erase. cbn [SafeMap_erase snd]. unfold sm_abs.
    set (m0 := sm_markAsUsed (sm_check m)).
    assert (delete k (sm_pending m0) = filter (λ e : bytes * T, e.1 ∉ [k]) (sm_pending m0)) as Hd.
    { apply map_eq. intros k'. rewrite map_lookup_filter. destruct (decide (k = k')) as [<-|Hne].
      - rewrite lookup_delete_eq. destruct (sm_pending m0 !! k); cbn; [|done].
        by rewrite option_guard_False by (cbn; set_solver).
      - rewrite lookup_delete_ne by done. destruct (sm_pending m0 !! k'); cbn; [|done].
        by rewrite option_guard_True by (cbn; set_solver). }
    assert (({[k]} : gset bytes) = list_to_set [k]) as Hk by set_solver.
    unfold temp_erase. by rewrite Hd, Hk.
Qed.

Lemma run_erase_sim op m :
  match op with CErase _ | CEraseIt _ | CEraseRange _ _ | CBegin | CEnd => call_frame op m | _ => True end.
Proof.
  destruct op as [ | | | | | | | | | | | |k|pos|first last| | ]; try done; unfold call_frame;
    cbn [run_call spec_call]; unfold mbind, ST_bind, mret, ST_ret.
  - destruct (SafeMap_erase_temp k m) as (H1 & H2 & H3). destruct (SafeMap_erase k m) as [r m']. cbn [fst snd] in *. by subst r.
  - rewrite cv_entries_abs. unfold SafeMap_erase_it. rewrite it_valid_abs, sm_abs_used.
    change (sm_pending (sm_markAsUsed (sm_check m))) with (sm_pending m).
    destruct (it_key pos) as [k|]; [|done]. destruct (cv_pos pos (sm_abs m)).
    + destruct (it_next _ _); cbn [fst snd]; [|done|done]. rewrite sm_abs_erase. done.
    + by destruct (it_next _ _).
  - rewrite cv_entries_abs. unfold SafeMap_erase_range, it_range. rewrite !it_valid_abs, sm_abs_used.
    change (sm_pending (sm_markAsUsed (sm_check m))) with (sm_pending m).
    destruct (cv_pos first (sm_abs m)) eqn:E1, (cv_pos last (sm_abs m)) eqn:E2; cbn [andb]; try done.
    apply andb_prop in E1 as [E1%bool_decide_eq_true _]. apply andb_prop in E2 as [E2%bool_decide_eq_true _].
    rewrite E1, E2, bool_decide_true by done.
    destruct (it_suffix _ _) as [l|e|]; [|done|done]. rewrite ?Ok_bind. unfold outcome_bind.
    destruct (it_until l _); cbn [fst snd]; [|done|done]. by rewrite sm_abs_erase.
  - cbn. by rewrite cv_entries_abs.
Qed.

Lemma run_call_sim op m : call_frame op m.
Proof.
  pose proof (run_lookup_sim op m). pose proof (run_insert_sim op m). pose proof (run_erase_sim op m). by destruct op.
Qed.

(** ** Whole calls *)

(** A contract function: operations up to the first that throws. *)
Fixpoint run_calls (ops : list (call_op T)) : ST (SafeMap T) (list (call_res T)) :=
  match ops with
  | [] => mret []
  | op :: ops => r ← run_call op; rs ← run_calls ops; mret (r :: rs)
  end.

Fixpoint spec_calls (ops : list (call_op T)) a : outcome (list (call_res T)) * call_view T :=
  match ops with
  | [] => (Ok [], a)
  | op :: ops =>
      let '(r, a) := spec_call op a in
      match r with
      | Ok r => let '(rs, a) := spec_calls ops a in (rs ← rs; Ok (r :: rs), a)
      | Throw e => (Throw e, a)
      | Undef => (Undef, a)
      end
  end.

Lemma run_calls_sim ops m :
  (run_calls ops m).1 = (spec_calls ops (sm_abs m)).1 ∧ sm_abs (run_calls ops m).2 = (spec_calls ops (sm_abs m)).2 ∧
  sm_map (run_calls ops m).2 = sm_map m.
Proof.
  revert m. induction ops as [|op ops IH]; intros m; [done|].
  destruct (run_call_sim op m) as (H1 & H2 & H3). cbn [run_calls spec_calls]. unfold mbind, ST_bind.
  destruct (run_call op m) as [r m1], (spec_call op (sm_abs m)) as [r' a1]. cbn [fst snd] in *. subst r' a1.
  destruct r as [r|e|]; [|done|done]. destruct (IH m1) as (G1 & G2 & G3).
  destruct (run_calls ops m1) as [rs m2], (spec_calls ops (sm_abs m1)) as [rs' a2]. cbn [fst snd] in *. subst rs' a2.
  destruct rs; cbn; split_and!; congruence.
Qed.

Lemma sm_map_commit m : sm_map (SafeMap_commit m) = filter (λ e, e.1 ∉ sm_gone m) (sm_view m).
Proof.
  rewrite (proj1 (SafeMap_commit_spec m)). apply map_eq. intros k. rewrite !map_lookup_filter, sm_view_lookup.
  rewrite lookup_union. destruct (sm_pending m !! k) as [x|]; [by destruct (sm_map m !! k)|].
  case_bool_decide; destruct (sm_map m !! k); try done. cbn. by rewrite option_guard_False by naive_solver.
Qed.

End Calls.

Arguments run_calls {_ _}.
Arguments spec_calls {_ _}.


(** The first insert of the model of the contracts is the same operation. *)
Lemma SafeMap_insert_value_spec `{HashMapOrder} {T} k (x : T) m :
  SafeMap_insert k x m = ((r ← (SafeMap_insert_value (k, x) m).1; Ok r.2), (SafeMap_insert_value (k, x) m).2).
Proof. unfold SafeMap_insert, SafeMap_insert_value, used, temp_insert. cbn [fst snd]. by destruct (sm_pending _ !! k). Qed.

(** ** Iteration *)

Section Iteration.
Context `{HashMapOrder} {T : Type}.
Implicit Types l : list (bytes * T).

Lemma it_until_end l : it_until l None = Ok l.*1.
Proof. induction l as [|[k x] l IH]; [done|]. cbn. rewrite bool_decide_false by done. by rewrite IH. Qed.

Lemma it_suffix_head l : it_suffix l (it_head l) = Ok l.
Proof. destruct l as [|[k x] l]; [done|]. cbn. by rewrite bool_decide_true. Qed.

End Iteration.

(** A loop from [begin()] to [end()] visits exactly the entries the call has
    loaded or written, each once, and a loop from [cbegin()] to [cend()] the
    committed ones: neither visits what the call sees. Erasing the first
    range erases the loaded entries only. *)
Theorem safemap_iteration `{HashMapOrder} {T} (m : SafeMap T) :
  let '(b, m1) := SafeMap_begin m in
  let '(e, m2) := SafeMap_end m1 in
  ∃ first last ks, b = Ok first ∧ e = Ok last ∧ it_range m2 first last = Ok ks ∧
    ks ≡ₚ (map_to_list (sm_pending m)).*1 ∧ sm_view m2 = sm_view m ∧
    (∃ ks', it_range m (SafeMap_cbegin m) (SafeMap_cend m) = Ok ks' ∧ ks' ≡ₚ (map_to_list (sm_map m)).*1) ∧
    (∃ m3, SafeMap_erase_range first last m2 = (Ok last, m3) ∧ sm_pending m3 = ∅ ∧
      sm_map (SafeMap_commit m3) = filter (λ e, e.1 ∉ dom (sm_pending m) ∪ sm_gone m) (sm_map m)).
Proof.
  cbn -[SafeMap_erase_range SafeMap_cbegin].
  assert (∀ g : gmap bytes T, (iter_map g).*1 ≡ₚ (map_to_list g).*1) as Hp by (intros g; by rewrite iter_map_perm).
  assert (it_range (sm_check (sm_check m)) (mkIterator Temporary (it_head (iter_map (sm_pending m))))
            (mkIterator Temporary None) = Ok (iter_map (sm_pending m)).*1) as Hr.
  { unfold it_range. cbn [it_of it_key]. rewrite bool_decide_true by done.
    change (sm_pending (sm_check (sm_check m))) with (sm_pending m). by rewrite it_suffix_head, Ok_bind, it_until_end. }
  eexists _, _, _. split; [done|]. split; [done|]. split; [exact Hr|]. split; [apply Hp|]. split; [done|]. split.
  { eexists. unfold it_range, SafeMap_cbegin, SafeMap_cend. cbn [it_of it_key]. rewrite bool_decide_true by done.
    rewrite it_suffix_head, Ok_bind, it_until_end. split; [done|apply Hp]. }
  unfold SafeMap_erase_range. change (it_range (sm_markAsUsed (sm_check _))) with (it_range (sm_check (sm_check m))).
  rewrite Hr. set (m2 := sm_markAsUsed _). change (sm_check (sm_check m)) with (sm_check m) in m2.
  assert (it_valid m2 (mkIterator Temporary (it_head (iter_map (sm_pending m)))) = true) as ->.
  { unfold it_valid. cbn [it_of it_key]. rewrite bool_decide_true by done. cbn [andb].
    change (sm_pending m2) with (sm_pending m). destruct (iter_map (sm_pending m)) as [|[k x] l] eqn:E; [done|].
    cbn. apply bool_decide_eq_true. exists x. apply elem_of_map_to_list. rewrite <-iter_map_perm, E. left. }
  assert (∀ k, k ∈ (iter_map (sm_pending m)).*1 ↔ k ∈ dom (sm_pending m)) as Hk.
  { intros k. rewrite Hp, list_elem_of_fmap, elem_of_dom. split.
    - intros [[k' x] [-> Hx%elem_of_map_to_list]]. by exists x.
    - intros [x Hx]. exists (k, x). by rewrite elem_of_map_to_list. }
  eexists. split; [done|].
  assert (sm_pending (temp_erase (iter_map (sm_pending m)).*1 m2) = ∅) as He.
  { apply map_eq. intros k. rewrite lookup_empty. apply map_lookup_filter_None. right. intros x Hx Hn.
    apply Hn, Hk, elem_of_dom. by exists x. }
  split; [done|]. rewrite He, map_empty_union.
  apply map_filter_ext. intros k x _.
  change (sm_gone (temp_erase (iter_map (sm_pending m)).*1 m2)) with ((list_to_set (iter_map (sm_pending m)).*1 : gset bytes) ∪ sm_gone m).
  rewrite !not_elem_of_union, elem_of_list_to_set. by rewrite Hk.
Qed.

(** [insert] of a key that the committed map already has: it reports an
    insertion and overwrites the entry at the next commit, unless the call
    has looked the key up before, when it reports that the key is there and
    keeps the entry. [erase] of such a key reports that nothing was erased,
    and erases it. *)
Theorem safemap_insert_depends `{HashMapOrder} {T} (m : SafeMap T) k (x y : T) :
  sm_whole m → sm_pending m = ∅ → sm_map m !! k = Some x →
  let '(r1, m1) := SafeMap_insert k y m in
  let '(_, m2) := SafeMap_find k m in
  let '(r3, m3) := SafeMap_insert k y m2 in
  let '(r4, m4) := SafeMap_erase k m in
  r1 = Ok true ∧ sm_map (SafeMap_commit m1) = <[k := y]> (sm_map m) ∧
  r3 = Ok false ∧ sm_map (SafeMap_commit m3) = sm_map m ∧
  r4 = Ok 0 ∧ sm_map (SafeMap_commit m4) = delete k (sm_map m).
Proof.
  intros Hw Hp Hx. assert (sm_view m = sm_map m) as Hv by (rewrite sm_view_whole, Hp by done; apply map_empty_union).
  unfold SafeMap_insert. change (sm_pending (sm_markAsUsed (sm_check m))) with (sm_pending m).
  rewrite Hp, lookup_empty. unfold SafeMap_find. destruct (checkKeyAndCopy_spec k m) as [Hv2 Hp2].
  set (m2 := checkKeyAndCopy k m) in *. cbv zeta. change (sm_pending (sm_markAsUsed (sm_check m2))) with (sm_pending m2).
  rewrite Hp2, Hv, Hx. split; [done|].
  assert (∀ m0 : SafeMap T, sm_gone m0 = sm_gone m → sm_map (SafeMap_commit m0) = sm_view m0) as Hc.
  { intros m0 Hg. apply SafeMap_commit_whole. unfold sm_whole. by rewrite Hg. }
  split; [rewrite Hc by done; rewrite sm_view_set by done; change (sm_view (sm_markAsUsed (sm_check m))) with (sm_view m); by rewrite Hv|].
  split; [done|]. split.
  { rewrite Hc by (destruct (checkKeyAndCopy_frame k m) as (_ & _ & _ & ?); done).
    change (sm_view (sm_markAsUsed (sm_check m2))) with (sm_view m2). by rewrite Hv2. }
  change (sm_pending (sm_markAsUsed (sm_check m))) with (sm_pending m). rewrite Hp, lookup_empty, delete_empty.
  split; [done|]. rewrite sm_map_commit. apply map_eq. intros k'. rewrite map_lookup_filter, sm_view_lookup.
  cbn -[lookup delete union]. rewrite lookup_empty. change (sm_gone (sm_markAsUsed (sm_check m))) with (sm_gone m). rewrite Hw.
  destruct (decide (k = k')) as [<-|Hne].
  - rewrite bool_decide_true by set_solver. by rewrite lookup_delete_eq.
  - rewrite bool_decide_false by set_solver. rewrite lookup_delete_ne by done.
    destruct (sm_map m !! k'); cbn; [|done]. by rewrite option_guard_True by (cbn; set_solver).
Qed.

Lemma safemap_insert_depends_witness :
  let '(r1, m1) := @SafeMap_insert Z [1] 5 sample_map in r1 = Ok true ∧ sm_map (SafeMap_commit m1) = {[ [1] := 5 ]}.
Proof.
  pose proof (@safemap_insert_depends toy_order Z sample_map [1] 10 5 eq_refl eq_refl eq_refl) as Hs.
  destruct (SafeMap_insert [1] 5 sample_map) as [r1 m1], (SafeMap_find [1] sample_map) as [r2 m2],
    (SafeMap_insert [1] 5 m2) as [r3 m3], (SafeMap_erase [1] sample_map) as [r4 m4].
  destruct Hs as (H1 & H2 & _). split; [exact H1|]. rewrite H2. reflexivity.
Defined.

(** [erase(K&&)] called with an rvalue whose move leaves another key: the
    entry stays visible to the rest of the call and goes only at the commit. *)
Theorem safemap_erase_moved_key `{HashMapOrder} {T} (m : SafeMap T) k k' (x : T) :
  k ≠ k' → sm_pending m !! k = Some x → sm_pending m !! k' = None →
  let '(r, m') := SafeMap_erase_forward k k' m in
  r = Ok 0 ∧ sm_view m' !! k = Some x ∧ sm_map (SafeMap_commit m') !! k = None.
Proof.
  intros Hne Hx Hn. unfold SafeMap_erase_forward. cbv zeta.
  change (sm_pending (sm_markAsUsed (sm_check m))) with (sm_pending m). rewrite Hn. split; [done|].
  split; [|rewrite sm_map_commit; apply map_lookup_filter_None; right; intros ? _ Hg; apply Hg; cbn; set_solver].
  rewrite sm_view_lookup. unfold sm_pending at 1. cbn [sm_ptr default from_option id].
  change (sm_pending (sm_markAsUsed (sm_check m))) with (sm_pending m). by rewrite lookup_delete_ne, Hx.
Qed.

(** [erase(K&&)] with an lvalue is [erase(const Key&)]. *)
Lemma SafeMap_erase_forward_lvalue `{HashMapOrder} {T} (m : SafeMap T) k :
  SafeMap_erase_forward k k m = SafeMap_erase k m.
Proof. done. Qed.

Definition map_calls : list (call_op Z) :=
  [CInsert ([2], 5); CInsertHint (mkIterator Temporary (Some [2])) ([3], 6); CEraseIt (mkIterator Temporary (Some [2]));
   CFind [1]; CAt [2]].

Lemma safemap_calls_refine_example :
  (@run_calls toy_order Z 0 map_calls sample_map).1 = Throw key_not_found.
Proof. reflexivity. Qed.
