(* ===== verification/SafeString.v ===== *)
(** * SafeString: strings of contracts (src/contract/variables/safestring.h)

    A [SafeString] has the member functions of [std::string].  Each of them
    makes the temporary copy ([check]), registers the variable if the function
    is not const ([markAsUsed]) and calls the function of the same name on the
    copy.  The first part models those functions of [std::string]; the second
    the class; the third its contract with a transaction: between two commits a
    [SafeString] computes what a [std::string] computes, and a revert forgets
    it.

    A [const_iterator] is a position in the temporary copy; iterators of other
    strings and [capacity()] are left out. *)

From S2P Require Import Prelude Utils SafeVars.

(** ** Arguments

    The overloads of a function differ in the form of the text they take. *)

Inductive text : Type :=
  | T_string (s : bytes)                           (** [const std::string&], [initializer_list], [InputIt first, last] *)
  | T_safe (o : SafeVar bytes)                     (** [const SafeString&] *)
  | T_substring (s : bytes) (pos count : Z)        (** [const std::string&, pos, count] *)
  | T_safe_substring (o : SafeVar bytes) (pos count : Z)
  | T_array (s : bytes) (count : Z)                (** [const char*, count]: the readable memory at the pointer *)
  | T_cstr (s : bytes)                             (** [const char*], null-terminated *)
  | T_fill (count ch : Z)                          (** [count, ch] *)
  | T_char (ch : Z).

(** [std::string::npos]. *)
Definition npos : Z := 2 ^ 64 - 1.

(** The number of characters from [pos] on, at most [n]. *)
Definition rlen (s : bytes) (pos n : Z) : nat := Z.to_nat (Z.min n (zlen s - pos)).

(** The part of [s] that a position and a count denote. *)
Definition string_substr (s : bytes) (pos n : Z) : outcome bytes :=
  _ ← throw_if (zlen s <? pos) out_of_range;
  Ok (take (rlen s pos n) (drop (Z.to_nat pos) s)).

(** The characters before the first NUL; undefined if there is none. *)
Fixpoint c_string (s : bytes) : outcome bytes :=
  match s with
  | [] => Undef
  | c :: s => if c =? 0 then Ok [] else t ← c_string s; Ok (c :: t)
  end.

Definition text_of (t : text) : outcome bytes :=
  match t with
  | T_string s => Ok s
  | T_safe o => Ok (sv_pending o)
  | T_substring s pos count => string_substr s pos count
  | T_safe_substring o pos count => string_substr (sv_pending o) pos count
  | T_array s count => if zlen s <? count then Undef else Ok (take (Z.to_nat count) s)
  | T_cstr s => c_string s
  | T_fill count ch => Ok (replicate (Z.to_nat count) ch)
  | T_char ch => Ok [ch]
  end.

(** ** std::string *)

Section StdString.
Context (max_size : Z).   (** chosen by the implementation *)

(** A result that is too long is refused before anything is written. *)
Definition sized (s : bytes) : outcome bytes :=
  _ ← throw_if (max_size <? zlen s) length_error; Ok s.

Definition string_assign (t : text) (_ : bytes) : outcome bytes := x ← text_of t; sized x.
Definition string_append (t : text) (s : bytes) : outcome bytes := x ← text_of t; sized (s ++ x).

(** [replace(pos, count, t)]: [insert] replaces nothing, [erase] by nothing. *)
Definition string_replace (pos count : Z) (t : text) (s : bytes) : outcome bytes :=
  x ← text_of t;
  _ ← throw_if (zlen s <? pos) out_of_range;
  sized (take (Z.to_nat pos) s ++ x ++ drop (Z.to_nat pos + rlen s pos count) s).

Definition string_insert (index : Z) (t : text) (s : bytes) : outcome bytes :=
  x ← text_of t;
  _ ← throw_if (zlen s <? index) out_of_range;
  sized (take (Z.to_nat index) s ++ x ++ drop (Z.to_nat index) s).

Definition string_erase (index count : Z) (s : bytes) : outcome bytes :=
  _ ← throw_if (zlen s <? index) out_of_range;
  Ok (take (Z.to_nat index) s ++ drop (Z.to_nat index + rlen s index count) s).

(** Iterators outside of the string are undefined behaviour. *)
Definition valid_range (s : bytes) (first last : Z) : bool :=
  (0 <=? first) && (first <=? last) && (last <=? zlen s).

Definition string_insert_at (i : Z) (t : text) (s : bytes) : outcome bytes :=
  if valid_range s i i then string_insert i t s else Undef.
Definition string_erase_range (first last : Z) (s : bytes) : outcome bytes :=
  if valid_range s first last then string_erase first (last - first) s else Undef.
Definition string_erase_at (i : Z) (s : bytes) : outcome bytes :=
  if valid_range s i (i + 1) then string_erase i 1 s else Undef.
Definition string_replace_range (first last : Z) (t : text) (s : bytes) : outcome bytes :=
  if valid_range s first last then string_replace first (last - first) t s else Undef.

Definition string_push_back (ch : Z) (s : bytes) : outcome bytes := sized (s ++ [ch]).
Definition string_pop_back (s : bytes) : outcome bytes :=
  if decide (s = []) then Undef else Ok (removelast s).
Definition string_resize (count ch : Z) (s : bytes) : outcome bytes :=
  _ ← throw_if (max_size <? count) length_error;
  Ok (take (Z.to_nat count) s ++ replicate (Z.to_nat count - length s) ch).
Definition string_reserve (new_cap : Z) (s : bytes) : outcome bytes :=
  _ ← throw_if (max_size <? new_cap) length_error; Ok s.

(** Where the references that [at], [operator[]], [front] and [back] return
    point to. *)
Definition string_at (pos : Z) (s : bytes) : outcome Z :=
  _ ← throw_if (zlen s <=? pos) out_of_range; Ok pos.
Definition string_bracket (pos : Z) (s : bytes) : outcome Z :=
  if zlen s <? pos then Undef else Ok pos.
Definition string_front (s : bytes) : outcome Z := if decide (s = []) then Undef else Ok 0.
Definition string_back (s : bytes) : outcome Z := if decide (s = []) then Undef else Ok (zlen s - 1).

(** Reads and writes through such a reference. *)
Definition ref_read (s : bytes) (i : Z) : outcome Z := at_str s i.
Definition ref_write (ch i : Z) (s : bytes) : outcome bytes :=
  if i <? zlen s then Ok (<[Z.to_nat i := ch]> s)
  else if (i =? zlen s) && (ch =? 0) then Ok s else Undef.

(** [compare]: characters are compared as unsigned. *)
Fixpoint traits_compare (a b : bytes) : comparison :=
  match a, b with
  | [], [] => Eq
  | [], _ :: _ => Lt
  | _ :: _, [] => Gt
  | x :: a, y :: b => match x ?= y with Eq => traits_compare a b | c => c end
  end.
Definition string_compare (t : text) (s : bytes) : outcome comparison :=
  x ← text_of t; Ok (traits_compare s x).
Definition string_compare_part (pos1 count1 : Z) (t : text) (s : bytes) : outcome comparison :=
  x ← text_of t; part ← string_substr s pos1 count1; Ok (traits_compare part x).

Definition has_prefix (s x : bytes) : bool := bool_decide (take (length x) s = x).
Definition string_starts_with (t : text) (s : bytes) : outcome bool :=
  x ← text_of t; Ok (has_prefix s x).
Definition string_ends_with (t : text) (s : bytes) : outcome bool :=
  x ← text_of t;
  Ok ((zlen x <=? zlen s) && bool_decide (drop (length s - length x) s = x)).

(** [copy(dest, count, pos)]: [dest] is the memory the pointer points to; the
    result is the number of characters and the memory afterwards. *)
Definition string_copy (dest : bytes) (count pos : Z) (s : bytes) : outcome (Z * bytes) :=
  part ← string_substr s pos count;
  if zlen dest <? zlen part then Undef
  else Ok (zlen part, part ++ drop (length part) dest).

(** The searches: the first position from [pos] on, or the last up to [pos],
    where [p] holds. *)
Fixpoint first_at (p : nat → bool) (from n : nat) : Z :=
  match n with
  | O => npos
  | S n => if p from then Z.of_nat from else first_at p (S from) n
  end.
Fixpoint last_at (p : nat → bool) (n : nat) : Z :=
  match n with O => npos | S n => if p n then Z.of_nat n else last_at p n end.

Definition occurs_at (s x : bytes) (i : nat) : bool :=
  bool_decide (i + length x ≤ length s)%nat && has_prefix (drop i s) x.
Definition char_with (q : Z → bool) (s : bytes) (i : nat) : bool :=
  match s !! i with Some c => q c | None => false end.
Definition char_in (s x : bytes) : nat → bool := char_with (λ c, bool_decide (c ∈ x)) s.
Definition char_not_in (s x : bytes) : nat → bool := char_with (λ c, bool_decide (c ∉ x)) s.

(** Positions [0 .. size()] for a text, [0 .. size() - 1] for a character. *)
Definition search_first (p : bytes → bytes → nat → bool) (limit pos : Z) (s x : bytes) : Z :=
  if limit <=? pos then npos else first_at (p s x) (Z.to_nat pos) (Z.to_nat (limit - pos)).
Definition search_last (p : bytes → bytes → nat → bool) (limit pos : Z) (s x : bytes) : Z :=
  last_at (p s x) (Z.to_nat (Z.min limit (pos + 1))).

Definition string_find (t : text) (pos : Z) (s : bytes) : outcome Z :=
  x ← text_of t; Ok (search_first occurs_at (zlen s + 1) pos s x).
Definition string_rfind (t : text) (pos : Z) (s : bytes) : outcome Z :=
  x ← text_of t; Ok (search_last occurs_at (zlen s + 1) pos s x).
Definition string_find_first_of (t : text) (pos : Z) (s : bytes) : outcome Z :=
  x ← text_of t; Ok (search_first char_in (zlen s) pos s x).
Definition string_find_first_not_of (t : text) (pos : Z) (s : bytes) : outcome Z :=
  x ← text_of t; Ok (search_first char_not_in (zlen s) pos s x).
Definition string_find_last_of (t : text) (pos : Z) (s : bytes) : outcome Z :=
  x ← text_of t; Ok (search_last char_in (zlen s) pos s x).
Definition string_find_last_not_of (t : text) (pos : Z) (s : bytes) : outcome Z :=
  x ← text_of t; Ok (search_last char_not_in (zlen s) pos s x).

End StdString.

(** ** The class *)

(** [SafeString(str)], [SafeString()] and the copy constructor, which also
    calls [check()] on the string it copies. *)
Definition SafeString_local (s : bytes) : SafeVar bytes := mkSafeVar false false [] (Some s).
Definition SafeString_default : SafeVar bytes := SafeString_local [].
Definition SafeString_copy : ST (SafeVar bytes) (SafeVar bytes) := λ other,
  (Ok (SafeString_local (sv_pending other)), sv_check other).

Section SafeString.
Context (max_size : Z).

(** [check(); return strPtr->f();] *)
Definition ss_read {B} (f : bytes → outcome B) : ST (SafeVar bytes) B := λ v,
  (f (sv_pending v), sv_check v).

(** [check(); markAsUsed(); return strPtr->f();] where [f] returns a reference
    or an iterator. *)
Definition ss_ref {B} (f : bytes → outcome B) : ST (SafeVar bytes) B := λ v,
  (f (sv_pending v), sv_markAsUsed (sv_check v)).

(** A write through a reference the class gave out. *)
Definition ss_write (ch i : Z) : ST (SafeVar bytes) unit := λ v,
  match ref_write ch i (sv_pending v) with
  | Ok s => (Ok tt, sv_set_ptr v (Some s))
  | Throw e => (Throw e, v)
  | Undef => (Undef, v)
  end.

Definition SafeString_get : ST (SafeVar bytes) bytes := ss_read Ok.

Definition SafeString_assign (t : text) : ST (SafeVar bytes) unit := sv_update (string_assign max_size t).

Definition SafeString_at (pos : Z) : ST (SafeVar bytes) Z := ss_ref (string_at pos).
Definition SafeString_at_const (pos : Z) : ST (SafeVar bytes) Z :=
  ss_read (λ s, i ← string_at pos s; ref_read s i).
Definition SafeString_front : ST (SafeVar bytes) Z := ss_ref string_front.
Definition SafeString_front_const : ST (SafeVar bytes) Z := ss_read (λ s, i ← string_front s; ref_read s i).
Definition SafeString_back : ST (SafeVar bytes) Z := ss_ref string_back.
Definition SafeString_back_const : ST (SafeVar bytes) Z := ss_read (λ s, i ← string_back s; ref_read s i).
Definition SafeString_bracket (pos : Z) : ST (SafeVar bytes) Z := ss_ref (string_bracket pos).
Definition SafeString_bracket_const (pos : Z) : ST (SafeVar bytes) Z :=
  ss_read (λ s, i ← string_bracket pos s; ref_read s i).

(** The memory that [c_str()] and [data()] point to. *)
Definition SafeString_c_str : ST (SafeVar bytes) bytes := ss_read (λ s, Ok (s ++ [0])).
Definition SafeString_data : ST (SafeVar bytes) bytes := ss_read (λ s, Ok (s ++ [0])).

(** A reverse iterator is the position of the iterator it was made from. *)
Definition SafeString_begin : ST (SafeVar bytes) Z := ss_ref (λ _, Ok 0).
Definition SafeString_cbegin : ST (SafeVar bytes) Z := ss_read (λ _, Ok 0).
Definition SafeString_end : ST (SafeVar bytes) Z := ss_ref (λ s, Ok (zlen s)).
Definition SafeString_cend : ST (SafeVar bytes) Z := ss_read (λ s, Ok (zlen s)).
Definition SafeString_rbegin : ST (SafeVar bytes) Z := ss_ref (λ s, Ok (zlen s)).
Definition SafeString_crbegin : ST (SafeVar bytes) Z := ss_read (λ s, Ok (zlen s)).
Definition SafeString_rend : ST (SafeVar bytes) Z := ss_ref (λ _, Ok 0).
Definition SafeString_crend : ST (SafeVar bytes) Z := ss_read (λ _, Ok 0).

Definition SafeString_empty : ST (SafeVar bytes) bool := ss_read (λ s, Ok (bool_decide (s = []))).
Definition SafeString_size : ST (SafeVar bytes) Z := ss_read (λ s, Ok (zlen s)).
Definition SafeString_length : ST (SafeVar bytes) Z := ss_read (λ s, Ok (zlen s)).
Definition SafeString_max_size : ST (SafeVar bytes) Z := ss_read (λ _, Ok max_size).
Definition SafeString_reserve (new_cap : Z) : ST (SafeVar bytes) unit := sv_update (string_reserve max_size new_cap).
Definition SafeString_shrink_to_fit : ST (SafeVar bytes) unit := sv_update Ok.
Definition SafeString_clear : ST (SafeVar bytes) unit := sv_update (λ _, Ok []).

Definition SafeString_insert (index : Z) (t : text) : ST (SafeVar bytes) unit :=
  sv_update (string_insert max_size index t).
Definition SafeString_insert_at (i : Z) (t : text) : ST (SafeVar bytes) Z :=
  _ ← sv_update (string_insert_at max_size i t); mret i.
Definition SafeString_erase (index count : Z) : ST (SafeVar bytes) unit := sv_update (string_erase index count).
Definition SafeString_erase_at (i : Z) : ST (SafeVar bytes) Z := _ ← sv_update (string_erase_at i); mret i.
Definition SafeString_erase_range (first last : Z) : ST (SafeVar bytes) Z :=
  _ ← sv_update (string_erase_range first last); mret first.
Definition SafeString_push_back (ch : Z) : ST (SafeVar bytes) unit := sv_update (string_push_back max_size ch).
Definition SafeString_pop_back : ST (SafeVar bytes) unit := sv_update string_pop_back.
Definition SafeString_append (t : text) : ST (SafeVar bytes) unit := sv_update (string_append max_size t).

Definition SafeString_compare (t : text) : ST (SafeVar bytes) comparison := ss_read (string_compare t).
Definition SafeString_compare_part (pos1 count1 : Z) (t : text) : ST (SafeVar bytes) comparison :=
  ss_read (string_compare_part pos1 count1 t).
Definition SafeString_starts_with (t : text) : ST (SafeVar bytes) bool := ss_read (string_starts_with t).
Definition SafeString_ends_with (t : text) : ST (SafeVar bytes) bool := ss_read (string_ends_with t).

(** The overload for [(pos, count, cstr, count2)] registers the variable after
    the change, and not at all if the change throws. *)
Definition replace_then_mark (pos count : Z) (t : text) : ST (SafeVar bytes) unit := λ v,
  let v := sv_check v in
  match string_replace max_size pos count t (sv_pending v) with
  | Ok s => (Ok tt, sv_markAsUsed (sv_set_ptr v (Some s)))
  | Throw e => (Throw e, v)
  | Undef => (Undef, v)
  end.
Definition SafeString_replace (pos count : Z) (t : text) : ST (SafeVar bytes) unit :=
  match t with
  | T_array _ _ => replace_then_mark pos count t
  | _ => sv_update (string_replace max_size pos count t)
  end.
Definition SafeString_replace_range (first last : Z) (t : text) : ST (SafeVar bytes) unit :=
  sv_update (string_replace_range max_size first last t).

Definition SafeString_substr (pos count : Z) : ST (SafeVar bytes) (SafeVar bytes) :=
  ss_read (λ s, part ← string_substr s pos count; Ok (SafeString_local part)).
Definition SafeString_copy_to (dest : bytes) (count pos : Z) : ST (SafeVar bytes) (Z * bytes) :=
  ss_read (string_copy dest count pos).
Definition SafeString_resize (count : Z) : ST (SafeVar bytes) unit := sv_update (string_resize max_size count 0).
Definition SafeString_resize_char (count ch : Z) : ST (SafeVar bytes) unit :=
  sv_update (string_resize max_size count ch).

(** [swap] exchanges the temporary copies of two variables. *)
Definition SafeString_swap : ST (SafeVar bytes * SafeVar bytes) unit := λ '(v, other),
  let v := sv_markAsUsed (sv_check v) in
  let other := sv_markAsUsed (sv_check other) in
  (Ok tt, (sv_set_ptr v (sv_ptr other), sv_set_ptr other (sv_ptr v))).

Definition SafeString_find (t : text) (pos : Z) : ST (SafeVar bytes) Z := ss_read (string_find t pos).
Definition SafeString_rfind (t : text) (pos : Z) : ST (SafeVar bytes) Z := ss_read (string_rfind t pos).
Definition SafeString_find_first_of (t : text) (pos : Z) : ST (SafeVar bytes) Z :=
  ss_read (string_find_first_of t pos).
Definition SafeString_find_first_not_of (t : text) (pos : Z) : ST (SafeVar bytes) Z :=
  ss_read (string_find_first_not_of t pos).
Definition SafeString_find_last_of (t : text) (pos : Z) : ST (SafeVar bytes) Z :=
  ss_read (string_find_last_of t pos).
Definition SafeString_find_last_not_of (t : text) (pos : Z) : ST (SafeVar bytes) Z :=
  ss_read (string_find_last_not_of t pos).

(** Operators.  Assignment is [operator=] of [std::string]. *)
Definition SafeString_op_assign (t : text) : ST (SafeVar bytes) unit := sv_update (string_assign max_size t).
Definition SafeString_op_append (t : text) : ST (SafeVar bytes) unit := sv_update (string_append max_size t).
Definition SafeString_op_add (t : text) : ST (SafeVar bytes) (SafeVar bytes) :=
  ss_read (λ s, x ← string_append max_size t s; Ok (SafeString_local x)).
Definition SafeString_op_eq (t : text) : ST (SafeVar bytes) bool :=
  ss_read (λ s, x ← text_of t; Ok (bool_decide (s = x))).
Definition SafeString_op_ne (t : text) : ST (SafeVar bytes) bool :=
  ss_read (λ s, x ← text_of t; Ok (bool_decide (s ≠ x))).
Definition SafeString_op_lt (t : text) : ST (SafeVar bytes) bool :=
  ss_read (λ s, x ← text_of t; Ok (bytes_ltb s x)).
Definition SafeString_op_gt (t : text) : ST (SafeVar bytes) bool :=
  ss_read (λ s, x ← text_of t; Ok (bytes_ltb x s)).
Definition SafeString_op_le (t : text) : ST (SafeVar bytes) bool :=
  ss_read (λ s, x ← text_of t; Ok (negb (bytes_ltb x s))).
Definition SafeString_op_ge (t : text) : ST (SafeVar bytes) bool :=
  ss_read (λ s, x ← text_of t; Ok (negb (bytes_ltb s x))).

(** [out << s]. *)
Definition SafeString_print (out : bytes) : ST (SafeVar bytes) bytes := ss_read (λ s, Ok (out ++ s)).

End SafeString.

(** ** Programs over a string

    The calls a contract can make, each with the type of what it returns.  A
    call whose result is a reference comes with the character that is then
    written to it. *)

Inductive call : Type → Type :=
  | K_get : call bytes
  | K_assign (t : text) : call unit
  | K_set_at (pos ch : Z) : call unit
  | K_at (pos : Z) : call Z
  | K_set_front (ch : Z) : call unit
  | K_front : call Z
  | K_set_back (ch : Z) : call unit
  | K_back : call Z
  | K_set (pos ch : Z) : call unit
  | K_bracket (pos : Z) : call Z
  | K_c_str : call bytes
  | K_begin : call Z
  | K_end : call Z
  | K_empty : call bool
  | K_size : call Z
  | K_reserve (new_cap : Z) : call unit
  | K_shrink_to_fit : call unit
  | K_clear : call unit
  | K_insert (index : Z) (t : text) : call unit
  | K_insert_at (i : Z) (t : text) : call Z
  | K_erase (index count : Z) : call unit
  | K_erase_at (i : Z) : call Z
  | K_erase_range (first last : Z) : call Z
  | K_push_back (ch : Z) : call unit
  | K_pop_back : call unit
  | K_append (t : text) : call unit
  | K_compare (t : text) : call comparison
  | K_compare_part (pos1 count1 : Z) (t : text) : call comparison
  | K_starts_with (t : text) : call bool
  | K_ends_with (t : text) : call bool
  | K_replace (pos count : Z) (t : text) : call unit
  | K_replace_range (first last : Z) (t : text) : call unit
  | K_substr (pos count : Z) : call (SafeVar bytes)
  | K_copy (dest : bytes) (count pos : Z) : call (Z * bytes)
  | K_resize (count : Z) : call unit
  | K_resize_char (count ch : Z) : call unit
  | K_find (t : text) (pos : Z) : call Z
  | K_rfind (t : text) (pos : Z) : call Z
  | K_find_first_of (t : text) (pos : Z) : call Z
  | K_find_first_not_of (t : text) (pos : Z) : call Z
  | K_find_last_of (t : text) (pos : Z) : call Z
  | K_find_last_not_of (t : text) (pos : Z) : call Z
  | K_op_assign (t : text) : call unit
  | K_op_append (t : text) : call unit
  | K_op_add (t : text) : call (SafeVar bytes)
  | K_op_eq (t : text) : call bool
  | K_op_lt (t : text) : call bool.

(** A program goes on with the result or the exception of a call. *)
Inductive prog (A : Type) : Type :=
  | Return (a : A)
  | Call {B} (c : call B) (k : B + exn → prog A).
Arguments Return {_} _.
Arguments Call {_ _} _ _.

(** The result of [m] or its exception goes to [k]. *)
Definition attempt {S A B} (m : ST S B) (k : B + exn → ST S A) : ST S A := λ s,
  match m s with
  | (Ok b, s) => k (inl b) s
  | (Throw e, s) => k (inr e) s
  | (Undef, s) => (Undef, s)
  end.

Section Run.
Context {S : Type} (exec : ∀ B, call B → ST S B).

Fixpoint run {A} (p : prog A) : ST S A :=
  match p with Return a => mret a | Call c k => attempt (exec _ c) (λ r, run (k r)) end.
End Run.

Section Exec.
Context (max_size : Z).

(** The call on a [SafeString]. *)
Definition exec_safe {B} (c : call B) : ST (SafeVar bytes) B :=
  match c with
  | K_get => SafeString_get
  | K_assign t => SafeString_assign max_size t
  | K_set_at pos ch => i ← SafeString_at pos; ss_write ch i
  | K_at pos => SafeString_at_const pos
  | K_set_front ch => i ← SafeString_front; ss_write ch i
  | K_front => SafeString_front_const
  | K_set_back ch => i ← SafeString_back; ss_write ch i
  | K_back => SafeString_back_const
  | K_set pos ch => i ← SafeString_bracket pos; ss_write ch i
  | K_bracket pos => SafeString_bracket_const pos
  | K_c_str => SafeString_c_str
  | K_begin => SafeString_begin
  | K_end => SafeString_end
  | K_empty => SafeString_empty
  | K_size => SafeString_size
  | K_reserve n => SafeString_reserve max_size n
  | K_shrink_to_fit => SafeString_shrink_to_fit
  | K_clear => SafeString_clear
  | K_insert i t => SafeString_insert max_size i t
  | K_insert_at i t => SafeString_insert_at max_size i t
  | K_erase i n => SafeString_erase i n
  | K_erase_at i => SafeString_erase_at i
  | K_erase_range i j => SafeString_erase_range i j
  | K_push_back ch => SafeString_push_back max_size ch
  | K_pop_back => SafeString_pop_back
  | K_append t => SafeString_append max_size t
  | K_compare t => SafeString_compare t
  | K_compare_part i n t => SafeString_compare_part i n t
  | K_starts_with t => SafeString_starts_with t
  | K_ends_with t => SafeString_ends_with t
  | K_replace i n t => SafeString_replace max_size i n t
  | K_replace_range i j t => SafeString_replace_range max_size i j t
  | K_substr i n => SafeString_substr i n
  | K_copy dest n i => SafeString_copy_to dest n i
  | K_resize n => SafeString_resize max_size n
  | K_resize_char n ch => SafeString_resize_char max_size n ch
  | K_find t i => SafeString_find t i
  | K_rfind t i => SafeString_rfind t i
  | K_find_first_of t i => SafeString_find_first_of t i
  | K_find_first_not_of t i => SafeString_find_first_not_of t i
  | K_find_last_of t i => SafeString_find_last_of t i
  | K_find_last_not_of t i => SafeString_find_last_not_of t i
  | K_op_assign t => SafeString_op_assign max_size t
  | K_op_append t => SafeString_op_append max_size t
  | K_op_add t => SafeString_op_add max_size t
  | K_op_eq t => SafeString_op_eq t
  | K_op_lt t => SafeString_op_lt t
  end.

(** The specification: the same call on a [std::string]. *)
Definition reads {B} (f : bytes → outcome B) : ST bytes B := λ s, (f s, s).
Definition writes {B} (f : bytes → outcome bytes) (b : B) : ST bytes B := λ s,
  match f s with Ok s' => (Ok b, s') | Throw e => (Throw e, s) | Undef => (Undef, s) end.
Definition stores (place : bytes → outcome Z) (ch : Z) : ST bytes unit :=
  writes (λ s, i ← place s; ref_write ch i s) tt.

Definition exec_std {B} (c : call B) : ST bytes B :=
  match c with
  | K_get => reads Ok
  | K_assign t | K_op_assign t => writes (string_assign max_size t) tt
  | K_set_at pos ch => stores (string_at pos) ch
  | K_at pos => reads (λ s, i ← string_at pos s; ref_read s i)
  | K_set_front ch => stores string_front ch
  | K_front => reads (λ s, i ← string_front s; ref_read s i)
  | K_set_back ch => stores string_back ch
  | K_back => reads (λ s, i ← string_back s; ref_read s i)
  | K_set pos ch => stores (string_bracket pos) ch
  | K_bracket pos => reads (λ s, i ← string_bracket pos s; ref_read s i)
  | K_c_str => reads (λ s, Ok (s ++ [0]))
  | K_begin => reads (λ _, Ok 0)
  | K_end | K_size => reads (λ s, Ok (zlen s))
  | K_empty => reads (λ s, Ok (bool_decide (s = [])))
  | K_reserve n => writes (string_reserve max_size n) tt
  | K_shrink_to_fit => writes Ok tt
  | K_clear => writes (λ _, Ok []) tt
  | K_insert i t => writes (string_insert max_size i t) tt
  | K_insert_at i t => writes (string_insert_at max_size i t) i
  | K_erase i n => writes (string_erase i n) tt
  | K_erase_at i => writes (string_erase_at i) i
  | K_erase_range i j => writes (string_erase_range i j) i
  | K_push_back ch => writes (string_push_back max_size ch) tt
  | K_pop_back => writes string_pop_back tt
  | K_append t | K_op_append t => writes (string_append max_size t) tt
  | K_compare t => reads (string_compare t)
  | K_compare_part i n t => reads (string_compare_part i n t)
  | K_starts_with t => reads (string_starts_with t)
  | K_ends_with t => reads (string_ends_with t)
  | K_replace i n t => writes (string_replace max_size i n t) tt
  | K_replace_range i j t => writes (string_replace_range max_size i j t) tt
  | K_substr i n => reads (λ s, part ← string_substr s i n; Ok (SafeString_local part))
  | K_copy dest n i => reads (string_copy dest n i)
  | K_resize n => writes (string_resize max_size n 0) tt
  | K_resize_char n ch => writes (string_resize max_size n ch) tt
  | K_find t i => reads (string_find t i)
  | K_rfind t i => reads (string_rfind t i)
  | K_find_first_of t i => reads (string_find_first_of t i)
  | K_find_first_not_of t i => reads (string_find_first_not_of t i)
  | K_find_last_of t i => reads (string_find_last_of t i)
  | K_find_last_not_of t i => reads (string_find_last_not_of t i)
  | K_op_add t => reads (λ s, x ← string_append max_size t s; Ok (SafeString_local x))
  | K_op_eq t => reads (λ s, x ← text_of t; Ok (bool_decide (s = x)))
  | K_op_lt t => reads (λ s, x ← text_of t; Ok (bytes_ltb s x))
  end.
End Exec.

(** What a contract does with a string at the end of a call: variables that
    did not register are left alone. *)
Definition settle (success : bool) (v : SafeVar bytes) : SafeVar bytes :=
  if sv_registered v then (if success then SafeString_commit v else sv_revert v) else v.

(** An owned string between two calls. *)
Definition at_rest (v : SafeVar bytes) : Prop :=
  sv_owned v = true ∧ sv_registered v = false ∧ sv_pending v = sv_value v.

(** ** Simulation *)

(** [op] does to the temporary copy what [spec] does to a string, keeps the
    committed value, and changes nothing of an owned variable it does not
    register. *)
Record simulates {B} (op : ST (SafeVar bytes) B) (spec : ST bytes B) (v : SafeVar bytes) : Prop := {
  sim_result : (op v).1 = (spec (sv_pending v)).1;
  sim_pending : sv_pending (op v).2 = (spec (sv_pending v)).2;
  sim_value : sv_value (op v).2 = sv_value v;
  sim_owned : sv_owned (op v).2 = sv_owned v;
  sim_registered : sv_registered v = true → sv_registered (op v).2 = true;
  sim_unused : sv_owned v = true → sv_registered (op v).2 = false → sv_pending (op v).2 = sv_pending v;
}.

Lemma sv_pending_check (v : SafeVar bytes) : sv_pending (sv_check v) = sv_pending v.
Proof. by destruct v as [? ? ? []]. Qed.

Ltac sim_tac v :=
  destruct v as [[] [] val [copied|]]; split; unfold sv_check, sv_set_ptr, sv_markAsUsed, sv_pending in *; simpl in *;
  repeat (case_match; simplify_eq/=); congruence.

Lemma sim_read {B} (f : bytes → outcome B) v : simulates (ss_read f) (reads f) v.
Proof. unfold ss_read, reads. sim_tac v. Qed.

Lemma sim_ref {B} (f : bytes → outcome B) v : simulates (ss_ref f) (reads f) v.
Proof. unfold ss_ref, reads. sim_tac v. Qed.

Lemma sim_update f v : simulates (sv_update f) (writes f tt) v.
Proof. unfold sv_update, writes. sim_tac v. Qed.

Lemma sim_update_ret {B} f (b : B) v : simulates (_ ← sv_update f; mret b) (writes f b) v.
Proof. unfold sv_update, writes, mbind, ST_bind. sim_tac v. Qed.

Lemma sim_store place ch v : simulates (i ← ss_ref place; ss_write ch i) (stores place ch) v.
Proof. unfold ss_ref, ss_write, stores, writes, mbind, ST_bind. sim_tac v. Qed.

Lemma sim_replace max_size pos count t v :
  simulates (SafeString_replace max_size pos count t) (writes (string_replace max_size pos count t) tt) v.
Proof. destruct t; try apply sim_update. unfold SafeString_replace, replace_then_mark, writes. sim_tac v. Qed.

#[export] Hint Resolve sim_read sim_ref sim_update sim_update_ret sim_store sim_replace : orbiter.

Lemma sim_exec max_size {B} (c : call B) v : simulates (exec_safe max_size c) (exec_std max_size c) v.
Proof. destruct c; eauto with orbiter. Qed.

Lemma sim_attempt {A B} (op : ST (SafeVar bytes) B) spec (k : B + exn → ST (SafeVar bytes) A) k' v :
  simulates op spec v → (∀ r w, simulates (k r) (k' r) w) → simulates (attempt op k) (attempt spec k') v.
Proof.
  unfold attempt. intros [R P V O G U] step.
  destruct (op v) as [r v'] eqn:E', (spec (sv_pending v)) as [r' s'] eqn:E. simpl in *. subst r' s'.
  destruct r as [b|e|]; [destruct (step (inl b) v')|destruct (step (inr e) v')|]; split; rewrite ?E', ?E; simpl;
    try congruence; auto.
  all: intros own unreg; assert (sv_owned v' = true) by congruence.
  all: destruct (sv_registered v') eqn:Hv; [intuition congruence|].
  all: transitivity (sv_pending v'); auto.
Qed.

Lemma sim_run max_size {A} (p : prog A) v :
  simulates (run (λ B, exec_safe max_size) p) (run (λ B, exec_std max_size) p) v.
Proof.
  revert v. induction p as [a|B c k IH]; intros v; [split; simpl; congruence|].
  apply sim_attempt; [apply sim_exec|done].
Qed.

(** C36: for every program over an owned string, the results are those of the
    same program over a [std::string] that holds the string's value; after a
    call that succeeds the string holds what the [std::string] ends with, after
    one that fails what it held before, and the next call starts from there. *)
Theorem safestring_transaction (max_size : Z) {A} (p : prog A) (v : SafeVar bytes) :
  at_rest v →
  let '(r, v') := run (λ B, exec_safe max_size) p v in
  let '(r', s') := run (λ B, exec_std max_size) p (sv_value v) in
  r = r' ∧
  (at_rest (settle true v') ∧ sv_value (settle true v') = s') ∧
  (at_rest (settle false v') ∧ sv_value (settle false v') = sv_value v).
Proof.
  intros (own & _ & rest). destruct (sim_run max_size p v) as [R P V O _ U]. rewrite rest in *.
  destruct (run _ p v) as [r v'], (run _ p (sv_value v)) as [r' s']. simpl in *. subst r' s'. split; [done|].
  unfold settle, at_rest. destruct (sv_registered v') eqn:reg; simpl.
  - rewrite O, V. done.
  - rewrite reg, V, U by done. rewrite O. done.
Qed.

(** Two calls: the first appends and is committed, the second catches the
    exception of an erase, cuts the string and is reverted. *)
Definition sample_grow : prog unit := Call (K_op_append (T_cstr (str "!!" ++ [0; 7]))) (λ _, Return tt).
Definition sample_cut : prog bool :=
  Call (K_erase 9 npos) (λ r, match r with
    | inr e => Call (K_replace 1 npos (T_array (str "ab") 1)) (λ _, Return (bool_decide (e = out_of_range)))
    | inl _ => Return false end).
Definition sample_string : SafeVar bytes := mkSafeVar true false (str "hey") None.

Lemma safestring_transaction_witness :
  at_rest sample_string ∧
  (let '(r, v1) := run (λ B, exec_safe 100) sample_grow sample_string in
   let '(r', s1) := run (λ B, exec_std 100) sample_grow (str "hey") in
   r = r' ∧ (at_rest (settle true v1) ∧ sv_value (settle true v1) = s1) ∧
   (at_rest (settle false v1) ∧ sv_value (settle false v1) = str "hey")) ∧
  (run (λ B, exec_std 100) sample_grow (str "hey")).2 = str "hey!!" ∧
  run (λ B, exec_std 100) sample_cut (str "hey!!") = (Ok true, str "ha").
Proof.
  assert (at_rest sample_string) as rest by done.
  split; [done|]. split; [exact (safestring_transaction 100 sample_grow sample_string rest)|].
  split; reflexivity.
Defined.

(** ** Searches *)

(** [r] is the first position from [pos] on where [P] holds, or [npos]. *)
Definition first_from (P : Z → Prop) (pos r : Z) : Prop :=
  (r = npos ∧ ∀ i, pos ≤ i → ¬ P i) ∨ (pos ≤ r ∧ P r ∧ ∀ i, pos ≤ i < r → ¬ P i).

(** [r] is the last position up to [pos] where [P] holds, or [npos]. *)
Definition last_upto (P : Z → Prop) (pos r : Z) : Prop :=
  (r = npos ∧ ∀ i, i ≤ pos → ¬ P i) ∨ (r ≤ pos ∧ P r ∧ ∀ i, r < i ≤ pos → ¬ P i).

Definition occurrence (s x : bytes) (i : Z) : Prop := ∃ pre post, s = pre ++ x ++ post ∧ zlen pre = i.
Definition char_at (s : bytes) (P : Z → Prop) (i : Z) : Prop :=
  ∃ pre c post, s = pre ++ c :: post ∧ zlen pre = i ∧ P c.

Lemma first_at_spec (p : nat → bool) from n :
  first_from (λ i, ∃ k : nat, i = Z.of_nat k ∧ (k < from + n)%nat ∧ p k = true) (Z.of_nat from) (first_at p from n).
Proof.
  revert from. induction n as [|n IH]; intros from; simpl; [left; split; [done|]; intros i Hi (k & -> & ? & _); lia|].
  destruct (p from) eqn:E.
  - right. split; [lia|]. split; [exists from; repeat split; (done || lia)|]. lia.
  - specialize (IH (S from)). rewrite (Nat.add_succ_comm from n) in IH.
    assert (∀ k, Z.of_nat from ≤ Z.of_nat k → p k = true → Z.of_nat (S from) ≤ Z.of_nat k) as skip.
    { intros k Hk Hp. destruct (decide (k = from)) as [->|]; [congruence|lia]. }
    destruct IH as [[-> H1]|(H1 & H2 & H3)]; [left|right]; (split; [done || lia|]).
    + intros i Hi (k & -> & Hk & Hp). apply (H1 (Z.of_nat k)); [by apply skip|by exists k].
    + split; [done|]. intros i Hi (k & -> & Hk & Hp). apply (H3 (Z.of_nat k)); [|by exists k].
      split; [by apply skip; [lia|]|lia].
Qed.

Lemma last_at_spec (p : nat → bool) n :
  last_upto (λ i, ∃ k : nat, i = Z.of_nat k ∧ p k = true) (Z.of_nat n - 1) (last_at p n).
Proof.
  induction n as [|n IH]; simpl; [left; split; [done|]; intros i Hi (k & -> & _); lia|].
  destruct (p n) eqn:E.
  - right. split; [lia|]. split; [by exists n|]. lia.
  - destruct IH as [[-> H1]|(H1 & H2 & H3)]; [left|right]; (split; [done || lia|]); [|split; [done|]].
    all: intros i Hi (k & -> & Hp); assert (k ≠ n) by congruence.
    + apply (H1 (Z.of_nat k)); [lia|by exists k].
    + apply (H3 (Z.of_nat k)); [lia|by exists k].
Qed.

Lemma occurs_at_spec s x k : occurs_at s x k = true ↔ occurrence s x (Z.of_nat k).
Proof.
  unfold occurs_at, has_prefix, occurrence, zlen. rewrite andb_true_iff, !bool_decide_eq_true. split.
  - intros [Hl E]. exists (take k s), (drop (k + length x) s). rewrite length_take. split; [|lia].
    rewrite <-E at 1. by rewrite <-drop_drop, !take_drop.
  - intros (pre & post & -> & Hk). assert (k = length pre) as -> by lia.
    rewrite !length_app. split; [lia|]. by rewrite drop_app_length, take_app_length.
Qed.

Lemma char_with_spec (q : Z → bool) s k : char_with q s k = true ↔ char_at s (λ c, q c = true) (Z.of_nat k).
Proof.
  unfold char_with, char_at, zlen. split.
  - case_match eqn:E; [|done]. intros. exists (take k s), z, (drop (S k) s).
    rewrite take_drop_middle by done. split_and!; [done| |done].
    rewrite length_take. apply lookup_lt_Some in E. lia.
  - intros (pre & c & post & -> & Hk & Hc). assert (k = length pre) as -> by lia.
    by rewrite list_lookup_middle.
Qed.

Lemma char_at_iff s (P Q : Z → Prop) i : (∀ c, P c ↔ Q c) → char_at s P i ↔ char_at s Q i.
Proof. intros PQ. unfold char_at. by setoid_rewrite PQ. Qed.

Lemma char_in_spec s x k : char_in s x k = true ↔ char_at s (.∈ x) (Z.of_nat k).
Proof. unfold char_in. rewrite char_with_spec. apply char_at_iff. intros c. apply bool_decide_eq_true. Qed.

Lemma char_not_in_spec s x k : char_not_in s x k = true ↔ char_at s (.∉ x) (Z.of_nat k).
Proof. unfold char_not_in. rewrite char_with_spec. apply char_at_iff. intros c. apply bool_decide_eq_true. Qed.

Lemma occurrence_range s x i : occurrence s x i → 0 ≤ i < zlen s + 1.
Proof. intros (pre & post & -> & <-). unfold zlen. rewrite !length_app. lia. Qed.

Lemma char_at_range s P i : char_at s P i → 0 ≤ i < zlen s.
Proof. intros (pre & c & post & -> & <- & _). unfold zlen. rewrite !length_app. simpl. lia. Qed.

Section Search.
Context (p : bytes → bytes → nat → bool) (limit pos : Z) (s x : bytes) (P : Z → Prop).
Hypothesis decides : ∀ k, p s x k = true ↔ P (Z.of_nat k).
Hypothesis range : ∀ i, P i → 0 ≤ i < limit.
Hypothesis pos_ok : 0 ≤ pos.

Lemma search_first_spec : first_from P pos (search_first p limit pos s x).
Proof using Type*.
  unfold search_first. destruct (Z.leb_spec limit pos).
  - left. split; [done|]. intros i Hi HP. apply range in HP. lia.
  - pose proof (first_at_spec (p s x) (Z.to_nat pos) (Z.to_nat (limit - pos))) as S. rewrite Z2Nat.id in S by lia.
    assert (∀ i, P i → ∃ k : nat, i = Z.of_nat k ∧ (k < Z.to_nat pos + Z.to_nat (limit - pos))%nat ∧ p s x k = true)
      as back.
    { intros i HP. pose proof (range _ HP). exists (Z.to_nat i). split; [lia|]. split; [lia|].
      apply decides. by rewrite Z2Nat.id by lia. }
    destruct S as [[-> H1]|(H1 & (k & Hk & _ & Hp) & H3)]; [left|right]; [naive_solver|].
    split; [done|]. split; [rewrite Hk; by apply decides|naive_solver].
Qed.

Lemma search_last_spec : last_upto P pos (search_last p limit pos s x).
Proof using Type*.
  unfold search_last. pose proof (last_at_spec (p s x) (Z.to_nat (Z.min limit (pos + 1)))) as S.
  assert (∀ i, P i → i ≤ pos → i ≤ Z.of_nat (Z.to_nat (Z.min limit (pos + 1))) - 1) as near.
  { intros i HP Hi. apply range in HP. lia. }
  assert (∀ i, P i → ∃ k : nat, i = Z.of_nat k ∧ p s x k = true) as back.
  { intros i HP. pose proof (range _ HP). exists (Z.to_nat i). split; [lia|].
    apply decides. by rewrite Z2Nat.id by lia. }
  destruct S as [[-> H1]|(H1 & (k & Hk & Hp) & H3)]; [left|right]; [naive_solver|].
  assert (P (last_at (p s x) (Z.to_nat (Z.min limit (pos + 1))))) as HP by (rewrite Hk; by apply decides).
  split; [pose proof (range _ HP); lia|]. split; [done|].
  intros i [? ?] HPi. apply (H3 i); [|by apply back]. split; [done|by apply near].
Qed.
End Search.

(** The six searches of a string find the first (or last) position from
    (or up to) [pos] where the text occurs, or where there is a character of it,
    or one that is not of it, and return [npos] exactly if there is none. *)
Theorem safestring_searches (v : SafeVar bytes) (x : bytes) (pos : Z) :
  0 ≤ pos →
  let s := sv_pending v in
  let found (op : text → Z → ST (SafeVar bytes) Z) (spec : Z → Z → Prop) :=
    ∃ r, (op (T_string x) pos v).1 = Ok r ∧ spec pos r in
  found SafeString_find (first_from (occurrence s x)) ∧
  found SafeString_rfind (last_upto (occurrence s x)) ∧
  found SafeString_find_first_of (first_from (char_at s (.∈ x))) ∧
  found SafeString_find_first_not_of (first_from (char_at s (.∉ x))) ∧
  found SafeString_find_last_of (last_upto (char_at s (.∈ x))) ∧
  found SafeString_find_last_not_of (last_upto (char_at s (.∉ x))).
Proof.
  intros Hpos s found. subst s found. split_and!; (eexists; split; [reflexivity|]).
  all: first [apply search_first_spec | apply search_last_spec]; try done.
  all: auto using occurs_at_spec, char_in_spec, char_not_in_spec.
  all: intros i; first [apply occurrence_range | apply char_at_range].
Qed.

Lemma safestring_searches_witness :
  0 ≤ 1 ∧
  (∃ r, (SafeString_find (T_string (str "na")) 1 (SafeString_local (str "banana"))).1 = Ok r ∧
        first_from (occurrence (str "banana") (str "na")) 1 r) ∧
  (SafeString_find (T_string (str "na")) 1 (SafeString_local (str "banana"))).1 = Ok 2 ∧
  (SafeString_rfind (T_string (str "na")) npos (SafeString_local (str "banana"))).1 = Ok 4 ∧
  (SafeString_find_last_not_of (T_string (str "na")) npos (SafeString_local (str "banana"))).1 = Ok 0 ∧
  (SafeString_find (T_string (str "nab")) 0 (SafeString_local (str "banana"))).1 = Ok npos.
Proof.
  split; [lia|]. split; [exact (proj1 (safestring_searches (SafeString_local (str "banana")) (str "na") 1 ltac:(lia)))|].
  repeat split.
Defined.

(** ** Swaps, comparisons and the constructor *)

(** [swap] exchanges the values of two owned strings, and both are committed
    or reverted with their contracts. *)
Lemma swap_exchanges v o :
  at_rest v → at_rest o →
  let '(r, (v', o')) := SafeString_swap (v, o) in
  r = Ok tt ∧
  (sv_value (settle true v') = sv_value o ∧ sv_value (settle true o') = sv_value v) ∧
  (sv_value (settle false v') = sv_value v ∧ sv_value (settle false o') = sv_value o).
Proof.
  destruct v as [? ? ? [?|]], o as [? ? ? [?|]]; intros (E1 & E2 & E3) (E4 & E5 & E6);
    unfold sv_pending in *; simpl in *; by subst.
Qed.

Lemma traits_compare_spec a b :
  traits_compare a b = if decide (a = b) then Eq else if bytes_ltb a b then Lt else Gt.
Proof.
  revert b. induction a as [|x a IH]; intros [|y b]; [done..|]. simpl.
  destruct (Z.compare_spec x y) as [->| |].
  - rewrite IH, Z.ltb_irrefl, Z.eqb_refl. simpl. repeat case_decide; try done; congruence.
  - rewrite decide_False by (intros [=]; lia). by rewrite (proj2 (Z.ltb_lt x y)).
  - rewrite decide_False by (intros [=]; lia). rewrite (proj2 (Z.ltb_ge x y)), (proj2 (Z.eqb_neq x y)) by lia. done.
Qed.

(** The value a contract gives its string in the constructor is not
    committed: a call that fails after any change of the string leaves it
    empty. *)
Theorem safestring_initial_value_lost (max_size : Z) (s : bytes) (t : text) (x : bytes) :
  string_append max_size t s = Ok x →
  let '(r, v) := SafeString_append max_size t (SafeString_owned s) in
  r = Ok tt ∧ sv_pending v = x ∧ sv_pending (settle false v) = [].
Proof.
  intros E. unfold SafeString_append, sv_update. simpl. unfold sv_pending. simpl. rewrite E. done.
Qed.

Lemma safestring_initial_value_lost_witness :
  let '(r, v) := SafeString_append 100 (T_char 33) (SafeString_owned (str "token")) in
  r = Ok tt ∧ sv_pending v = str "token!" ∧ sv_pending (settle false v) = [].
Proof. exact (safestring_initial_value_lost 100 (str "token") (T_char 33) (str "token!") eq_refl). Defined.
