(* ===== verification/ABI.v ===== *)
(** * ABI: the Solidity ABI (src/contract/abi.{h,cpp})

    [Encoder] packs a list of typed values behind an optional function
    selector, [Decoder] unpacks calldata of given types.  The decoder reads
    with [std::copy] between iterators, which is undefined outside the data,
    and its size checks are computed modulo [2^64].  Lengths of header strings
    are assumed to fit an [int], as the counters of the encoder do. *)

From S2P Require Import Prelude Utils Hex Strings.

(** ** Types and values *)

Inductive Types :=
  | uint256 | uint256Arr | address | addressArr | boolean | booleanArr
  | bytes_ | bytesArr | string_ | stringArr.

#[export] Instance Types_eq_dec : EqDecision Types.
Proof. solve_decision. Defined.

(** The alternatives of [EncVar]. *)
Inductive EncVar :=
  | V_uint256 (n : Z)
  | V_uint256Arr (l : list Z)
  | V_address (a : bytes)
  | V_addressArr (l : list bytes)
  | V_bool (b : bool)
  | V_boolArr (l : list bool)
  | V_string (s : bytes)
  | V_stringArr (l : list bytes).

#[export] Instance EncVar_eq_dec : EqDecision EncVar.
Proof. solve_decision. Defined.

(** ** Encoder *)

Section ABI.
Context `{Keccak}.

Definition encodeFunction (func : bytes) : bytes := take 4 (sha3 func).

Definition encodeUint256 (num : Z) : bytes := Hash_of_uint256 num.

Definition encodeAddress (add : bytes) : bytes := padLeftBytes add 32 0.

(** The literal for [false] is the empty string. *)
Definition encodeBool (b : bool) : bytes := padLeftBytes (if b then [1] else []) 32 0.

(** [do { pad += 32; } while (pad < length);] with a step for every byte. *)
Fixpoint pad_loop (fuel : nat) (pad len : Z) : Z :=
  let pad := pad + 32 in
  match fuel with
  | O => pad
  | S fuel => if pad <? len then pad_loop fuel pad len else pad
  end.

Definition pad_to (len : Z) : Z := pad_loop (Z.to_nat len) 0 len.

Definition encodeBytes (s : bytes) : bytes :=
  padLeftBytes (uintToBytes (zlen s)) 32 0 ++ padRightBytes s (pad_to (zlen s)) 0.

Definition encodeArr {A} (enc : A → bytes) (l : list A) : bytes :=
  padLeftBytes [32] 32 0 ++ padLeftBytes (uintToBytes (zlen l)) 32 0 ++ concat (enc <$> l).

Definition encodeUint256Arr (numV : list Z) : bytes := encodeArr encodeUint256 numV.
Definition encodeAddressArr (addV : list bytes) : bytes := encodeArr encodeAddress addV.
Definition encodeBoolArr (bV : list bool) : bytes := encodeArr encodeBool bV.

(** The loop of [encodeBytesArr]: the offsets, and the lengths with the data;
    inserting the empty literal into strings of odd length changes nothing. *)
Fixpoint bytesArr_loop (n : Z) (i pads : Z) (l : list bytes) : list bytes * list bytes :=
  match l with
  | [] => ([], [])
  | bS :: l =>
      let p := pad_to (zlen bS) in
      let bO := uintToBytes (32 * n + 32 * i + 32 * pads) in
      let '(offs, datas) := bytesArr_loop n (i + 1) (pads + p / 32) l in
      (padLeftBytes bO 32 0 :: offs,
       (padLeftBytes (uintToBytes (zlen bS)) 32 0 ++ padRightBytes (padRightBytes bS p 0) 32 0) :: datas)
  end.

Definition encodeBytesArr (bytesV : list bytes) : bytes :=
  let '(offs, datas) := bytesArr_loop (zlen bytesV) 0 0 bytesV in
  padLeftBytes [32] 32 0 ++ padLeftBytes (uintToBytes (zlen bytesV)) 32 0 ++ concat offs ++ concat datas.

(** [s.find(c, pos)], [None] for [npos]. *)
Fixpoint find_from (c : Z) (s : bytes) (i : Z) : option Z :=
  match s with
  | [] => None
  | x :: s => if x =? c then Some i else find_from c s (i + 1)
  end.
Definition find_char (c : Z) (s : bytes) (pos : Z) : option Z := find_from c (drop (Z.to_nat pos) s) pos.

Definition headerTypes : list (bytes * (EncVar → bool)) :=
  [ (str "uint256", λ v, if v is V_uint256 _ then true else false);
    (str "address", λ v, if v is V_address _ then true else false);
    (str "bool", λ v, if v is V_bool _ then true else false);
    (str "bytes", λ v, if v is V_string _ then true else false);
    (str "string", λ v, if v is V_string _ then true else false);
    (str "uint256[]", λ v, if v is V_uint256Arr _ then true else false);
    (str "address[]", λ v, if v is V_addressArr _ then true else false);
    (str "bool[]", λ v, if v is V_boolArr _ then true else false);
    (str "bytes[]", λ v, if v is V_stringArr _ then true else false);
    (str "string[]", λ v, if v is V_stringArr _ then true else false) ].

Definition header_type (t : bytes) : option (EncVar → bool) :=
  snd <$> List.find (λ e, bool_decide (e.1 = t)) headerTypes.

(** [while (e = funcTmp.find(",", b))]: stops at [npos], which is not zero, from
    within, and on a comma in position 0. *)
Fixpoint header_loop (fuel : nat) (data : list EncVar) (funcTmp : bytes) (b ct : Z) : outcome unit :=
  match fuel with
  | O => Ok tt
  | S fuel =>
      let e := find_char 44 funcTmp b in
      if bool_decide (e = Some 0) then Ok tt
      else
        funcType ← substr funcTmp b (match e with Some e => e - b | None => zlen funcTmp end);
        match e with
        | None => Ok tt
        | Some e =>
            holds ← of_option (runtime_error "Invalid function header type") (header_type funcType);
            arg ← at_view data ct;
            _ ← throw_if (negb (holds arg)) (runtime_error "Header and data types don't match");
            header_loop fuel data funcTmp (e + 1) (ct + 1)
        end
  end.

Definition encode_header (data : list EncVar) (func : bytes) : outcome bytes :=
  if bool_decide (func = []) then Ok []
  else
    match find_char 40 func 0, find_char 41 func 0 with
    | Some i, Some _ =>
        if zlen func - 1 <? i + 1 then Undef
        else
          let funcTmp := take (Z.to_nat (zlen func - 1 - (i + 1))) (drop (Z.to_nat (i + 1)) func) in
          _ ← throw_if (bool_decide (funcTmp = []) && negb (zlen data =? 0)) (runtime_error "Invalid function header");
          _ ← header_loop (S (length funcTmp)) data funcTmp 0 0;
          Ok (encodeFunction func)
    | _, _ => Throw (runtime_error "Invalid function header")
    end.

(** The word that the argument puts into the head, and what it appends to the
    tail. *)
Definition encode_arg (nextOffset : Z) (arg : EncVar) : bytes * bytes :=
  let offset := padLeftBytes (uintToBytes nextOffset) 32 0 in
  match arg with
  | V_uint256 n => (encodeUint256 n, [])
  | V_address a => (encodeAddress a, [])
  | V_bool b => (encodeBool b, [])
  | V_string s => (offset, encodeBytes s)
  | V_uint256Arr l => (offset, drop 32 (encodeUint256Arr l))
  | V_addressArr l => (offset, drop 32 (encodeAddressArr l))
  | V_boolArr l => (offset, drop 32 (encodeBoolArr l))
  | V_stringArr l => (offset, drop 32 (encodeBytesArr l))
  end.

(** What [nextOffset] grows by. *)
Definition arg_size (arg : EncVar) : Z :=
  match arg with
  | V_uint256 _ | V_address _ | V_bool _ => 0
  | V_string s => 32 * (zlen (encodeBytes s) / 32)
  | V_uint256Arr l => 32 + 32 * zlen l
  | V_addressArr l => 32 + 32 * zlen l
  | V_boolArr l => 32 + 32 * zlen l
  | V_stringArr l => 32 * (zlen (drop 32 (encodeBytesArr l)) / 32)
  end.

Fixpoint encode_args (nextOffset : Z) (data : list EncVar) : bytes * bytes :=
  match data with
  | [] => ([], [])
  | arg :: data =>
      let '(h, t) := encode_arg nextOffset arg in
      let '(hs, ts) := encode_args (u64 (nextOffset + arg_size arg)) data in
      (h ++ hs, t ++ ts)
  end.

Definition Encoder (data : list EncVar) (func : bytes) : outcome bytes :=
  header ← encode_header data func;
  let '(hs, ts) := encode_args (32 * zlen data) data in
  Ok (header ++ hs ++ ts).

End ABI.

(** ** Decoder *)

(** [std::copy(data.begin() + from, data.begin() + from + n, ...)] *)
Definition copy_range (data : bytes) (from n : Z) : outcome bytes :=
  if bool_decide (0 ≤ from ∧ 0 ≤ n ∧ from + n ≤ zlen data)
  then Ok (take (Z.to_nat n) (drop (Z.to_nat from) data)) else Undef.

(** [boost::lexical_cast<uint64_t>(uint256_t)] *)
Definition lexical_cast64 (n : Z) : outcome Z := if n <? 2 ^ 64 then Ok n else Throw bad_cast.

(** A word read as an offset or a length. *)
Definition read_word (data : bytes) (from : Z) : outcome Z :=
  tmp ← copy_range data from 32; n ← bytesToUint256 tmp; lexical_cast64 n.

Definition too_short : exn := runtime_error "Data too short".

Definition decodeUint256 (data : bytes) (start : Z) : outcome Z :=
  _ ← throw_if (zlen data <? u64 (start + 32)) too_short;
  tmp ← copy_range data start 32;
  bytesToUint256 tmp.

Definition decodeAddress (data : bytes) (start : Z) : outcome bytes :=
  _ ← throw_if (zlen data <? u64 (start + 32)) too_short;
  tmp ← copy_range data (start + 12) 20;
  Address_ctor tmp true.

Definition decodeBool (data : bytes) (start : Z) : outcome bool :=
  _ ← throw_if (zlen data <? u64 (start + 32)) too_short;
  b ← at_view data (u64 (start + 31));
  Ok (b =? 1).

(** The size check uses [start] where the data begins at [bytesStart]. *)
Definition decodeBytes (data : bytes) (start : Z) : outcome bytes :=
  bytesStart ← read_word data start;
  bytesLength ← read_word data bytesStart;
  _ ← throw_if (zlen data <? u64 (start + 32 + 32 + bytesLength)) too_short;
  copy_range data (bytesStart + 32) bytesLength.

(** The loop over the elements of an array; [item] reads the [i]-th. *)
Fixpoint decode_items {A} (item : Z → outcome A) (n : nat) (i : Z) : outcome (list A) :=
  match n with
  | O => Ok []
  | S n => x ← item i; xs ← decode_items item n (i + 1); Ok (x :: xs)
  end.

Definition decode_arr {A} (item : bytes → Z → outcome A) (data : bytes) (start : Z) : outcome (list A) :=
  arrayStart ← read_word data start;
  arrayLength ← read_word data arrayStart;
  _ ← throw_if (zlen data <? u64 (arrayStart + 32 + arrayLength * 32)) too_short;
  decode_items (λ i, item data (arrayStart + 32 + i * 32)) (Z.to_nat arrayLength) 0.

Definition decodeUint256Arr : bytes → Z → outcome (list Z) :=
  decode_arr (λ data pos, tmp ← copy_range data pos 32; bytesToUint256 tmp).

Definition decodeAddressArr : bytes → Z → outcome (list bytes) :=
  decode_arr (λ data pos, tmp ← copy_range data (pos + 12) 20; Address_ctor tmp true).

Definition decodeBoolArr : bytes → Z → outcome (list bool) :=
  decode_arr (λ data pos, b ← at_view data (pos + 31); Ok (b =? 1)).

Definition decodeBytesArr (data : bytes) (start : Z) : outcome (list bytes) :=
  arrayStart ← read_word data start;
  arrayLength ← read_word data arrayStart;
  decode_items (λ i,
    offset ← read_word data (arrayStart + 32 + i * 32);
    let bytesStart := u64 (offset + arrayStart + 32) in
    bytesLength ← read_word data bytesStart;
    _ ← throw_if (zlen data <? u64 (bytesStart + 32 + bytesLength)) too_short;
    copy_range data (bytesStart + 32) bytesLength) (Z.to_nat arrayLength) 0.

Definition decode_arg (t : Types) (data : bytes) (dataIdx : Z) : outcome EncVar :=
  match t with
  | uint256 => V_uint256 <$> decodeUint256 data dataIdx
  | uint256Arr => V_uint256Arr <$> decodeUint256Arr data dataIdx
  | address => V_address <$> decodeAddress data dataIdx
  | addressArr => V_addressArr <$> decodeAddressArr data dataIdx
  | boolean => V_bool <$> decodeBool data dataIdx
  | booleanArr => V_boolArr <$> decodeBoolArr data dataIdx
  | bytes_ | string_ => V_string <$> decodeBytes data dataIdx
  | bytesArr | stringArr => V_stringArr <$> decodeBytesArr data dataIdx
  end.

Fixpoint Decoder_loop (types : list Types) (data : bytes) (dataIdx : Z) : outcome (list EncVar) :=
  match types with
  | [] => Ok []
  | t :: types => v ← decode_arg t data dataIdx; vs ← Decoder_loop types data (dataIdx + 32); Ok (v :: vs)
  end.

Definition Decoder (types : list Types) (data : bytes) : outcome (list EncVar) := Decoder_loop types data 0.

(** [getData<T>(index)]. *)
Definition getData {A} (proj : EncVar → option A) (data : list EncVar) (index : nat) : outcome A :=
  match data !! index with
  | None => Throw out_of_range
  | Some v => of_option (runtime_error "Type mismatch") (proj v)
  end.
Definition as_uint256 (v : EncVar) : option Z := if v is V_uint256 n then Some n else None.
Definition as_address (v : EncVar) : option bytes := if v is V_address a then Some a else None.
Definition as_string (v : EncVar) : option bytes := if v is V_string s then Some s else None.

(** * Lemmas *)

(** ** Words *)

#[local] Opaque be_split.

Lemma padLeft_word n : is_uint 256 n → padLeftBytes (uintToBytes n) 32 0 = be_split 32 n.
Proof.
  intros Hn. unfold is_uint in Hn. unfold padLeftBytes, padding.
  rewrite uintToBytes_zlen, uintToBytes_spec by lia.
  pose proof (digits_nonneg n). pose proof (digits_le_width n 32 ltac:(lia) ltac:(done)) as Hd.
  pose proof (digits_upper n ltac:(lia)) as Hu.
  replace (if digits n <? 32 then Z.to_nat (32 - digits n) else 0%nat) with (32 - Z.to_nat (digits n))%nat
    by (zcase; lia).
  rewrite <-be_split_widen by (rewrite Z2Nat.id; lia). f_equal. lia.
Qed.

Lemma encodeUint256_spec n : is_uint 256 n → encodeUint256 n = be_split 32 n.
Proof.
  intros Hn. unfold encodeUint256, Hash_of_uint256, FixedStr_ctor.
  rewrite uint256ToBytes_spec by done. apply resize_str_id, be_split_length.
Qed.

Lemma encodeAddress_spec a : length a = 20%nat → encodeAddress a = replicate 12 0 ++ a.
Proof. intros Ha. unfold encodeAddress, padLeftBytes, padding, zlen. by rewrite Ha. Qed.

Lemma encodeBool_spec b : encodeBool b = replicate 31 0 ++ [if b then 1 else 0].
Proof. by destruct b. Qed.

Lemma word_length n : zlen (be_split 32 n) = 32.
Proof. apply be_split_zlen. Qed.

(** The padding loop ends at the first positive multiple of 32 that covers the
    length. *)
Lemma pad_loop_spec fuel pad len k :
  pad = 32 * k → 0 ≤ k → len - pad ≤ 32 * (Z.of_nat fuel + 1) →
  ∃ j, pad_loop fuel pad len = 32 * j ∧ k < j ∧ len ≤ 32 * j.
Proof.
  revert pad k. induction fuel as [|fuel IH]; intros pad k -> Hk Hl; cbn [pad_loop].
  - exists (k + 1). lia.
  - zcase; [|exists (k + 1); lia].
    destruct (IH (32 * k + 32) (k + 1)) as (j & E & ? & ?); [lia..|]. exists j. split; [done|lia].
Qed.

Lemma pad_to_spec len : 0 ≤ len → ∃ j, pad_to len = 32 * j ∧ 0 < j ∧ len ≤ 32 * j.
Proof. intros. unfold pad_to. apply (pad_loop_spec _ 0 len 0); lia. Qed.

Lemma padRight_length s n : zlen s ≤ n → zlen (padRightBytes s n 0) = n.
Proof.
  intros Hn. unfold padRightBytes, padding. rewrite zlen_app. unfold zlen at 2. rewrite length_replicate.
  zcase; lia.
Qed.

Lemma encodeBytes_spec s :
  zlen s < 2 ^ 64 →
  ∃ post j, encodeBytes s = be_split 32 (zlen s) ++ s ++ post ∧ zlen (encodeBytes s) = 32 + 32 * j ∧ 0 < j ∧ zlen s ≤ 32 * j.
Proof.
  intros Hs. pose proof (zlen_nonneg s). destruct (pad_to_spec (zlen s)) as (j & Ej & ? & ?); [done|].
  exists (padding s (pad_to (zlen s)) 0), j. unfold encodeBytes.
  rewrite padLeft_word by (unfold is_uint; lia). split_and!; [done| |done|done].
  rewrite zlen_app, word_length, padRight_length; lia.
Qed.

(** ** Reading what was written *)

Lemma copy_range_pos (d : bytes) i n mid post :
  at_pos d i (mid ++ post) → n = zlen mid → copy_range d i n = Ok mid.
Proof.
  intros (pre & -> & ->) ->. unfold copy_range. rewrite bool_decide_true.
  - unfold zlen. rewrite !Nat2Z.id. by rewrite take_drop_mid.
  - rewrite !zlen_app. pose proof (zlen_nonneg pre). pose proof (zlen_nonneg mid). pose proof (zlen_nonneg post). lia.
Qed.

Lemma bytesToUint256_word n : is_uint 256 n → bytesToUint256 (be_split 32 n) = Ok n.
Proof.
  intros Hn. rewrite bytesToUint256_spec by apply be_split_length. f_equal. by apply be_val_split_small.
Qed.

Lemma read_word_pos (d : bytes) i n post :
  at_pos d i (be_split 32 n ++ post) → is_uint 64 n → read_word d i = Ok n.
Proof.
  intros Hp Hn. unfold read_word. rewrite (copy_range_pos d i 32 (be_split 32 n) post Hp) by (by rewrite word_length).
  unfold is_uint in Hn. rewrite Ok_bind, bytesToUint256_word, Ok_bind by (unfold is_uint; lia).
  unfold lexical_cast64. zcase; [done|lia].
Qed.

(** Array elements of one word each. *)
Lemma decode_items_pos {A} (enc : A → bytes) (item : bytes → Z → outcome A) d base i0 (l : list A) post :
  (∀ x, x ∈ l → zlen (enc x) = 32) →
  (∀ x p r, x ∈ l → at_pos d p (enc x ++ r) → item d p = Ok x) →
  at_pos d (base + i0 * 32) (concat (enc <$> l) ++ post) →
  decode_items (λ i, item d (base + i * 32)) (length l) i0 = Ok l.
Proof.
  revert i0. induction l as [|x l IH]; intros i0 Hz Hi Hp; [done|].
  cbn [fmap list_fmap concat] in Hp. rewrite <-app_assoc in Hp. cbn [length decode_items].
  rewrite (Hi x _ _ ltac:(left) Hp). cbn [mbind outcome_bind]. rewrite IH; [done| | |].
  - intros y Hy. apply Hz. by right.
  - intros y p r Hy. apply Hi. by right.
  - eapply at_pos_app; [exact Hp|]. rewrite (Hz x ltac:(left)). lia.
Qed.

Lemma concat_words {A} (enc : A → bytes) l :
  (∀ x, x ∈ l → zlen (enc x) = 32) → zlen (concat (enc <$> l)) = 32 * zlen l.
Proof.
  induction l as [|x l IH]; intros Hz; [done|]. cbn [fmap list_fmap concat].
  rewrite zlen_app, zlen_cons, IH, (Hz x ltac:(left)) by (intros; apply Hz; by right). lia.
Qed.

Lemma decode_arr_pos {A} (enc : A → bytes) (item : bytes → Z → outcome A) d idx off (l : list A) r1 r2 :
  (∀ x, x ∈ l → zlen (enc x) = 32) →
  (∀ x p r, x ∈ l → at_pos d p (enc x ++ r) → item d p = Ok x) →
  zlen d < 2 ^ 63 →
  at_pos d idx (be_split 32 off ++ r1) → at_pos d off (be_split 32 (zlen l) ++ concat (enc <$> l) ++ r2) →
  decode_arr item d idx = Ok l.
Proof.
  intros Hz Hi Hd Hp1 Hp2. pose proof (at_pos_bounds _ _ _ Hp2) as [Ho Hb].
  rewrite !zlen_app, word_length, concat_words in Hb by done.
  pose proof (zlen_nonneg l). pose proof (zlen_nonneg r2).
  unfold decode_arr. rewrite (read_word_pos _ _ _ _ Hp1) by (unfold is_uint; lia). cbn [mbind outcome_bind].
  rewrite (read_word_pos _ _ _ _ Hp2) by (unfold is_uint; lia). cbn [mbind outcome_bind].
  unfold wrap. rewrite Z.mod_small by lia. rewrite (proj2 (Z.ltb_ge _ _)) by lia.
  cbn [throw_if mbind outcome_bind]. unfold zlen. rewrite Nat2Z.id.
  apply (decode_items_pos enc item d (off + 32) 0 l r2); [done|done|].
  eapply at_pos_app; [exact Hp2|]. rewrite word_length. lia.
Qed.

(** Arrays of strings: offsets first, then lengths with the data. *)
Definition string_item (d : bytes) (base i : Z) : outcome bytes :=
  offset ← read_word d (base + i * 32);
  let bytesStart := u64 (offset + (base - 32) + 32) in
  bytesLength ← read_word d bytesStart;
  _ ← throw_if (zlen d <? u64 (bytesStart + 32 + bytesLength)) too_short;
  copy_range d (bytesStart + 32) bytesLength.

Lemma string_data_spec s :
  zlen s < 2 ^ 64 →
  ∃ post j, padLeftBytes (uintToBytes (zlen s)) 32 0 ++ padRightBytes (padRightBytes s (pad_to (zlen s)) 0) 32 0
    = be_split 32 (zlen s) ++ s ++ post ∧ pad_to (zlen s) = 32 * j ∧ 0 < j ∧ zlen (s ++ post) = 32 * j.
Proof.
  intros Hs. pose proof (zlen_nonneg s). destruct (pad_to_spec (zlen s)) as (j & Ej & ? & ?); [done|].
  exists (padding s (pad_to (zlen s)) 0), j. rewrite padLeft_word by (unfold is_uint; lia).
  assert (zlen (padRightBytes s (pad_to (zlen s)) 0) = 32 * j) as Hz by (rewrite padRight_length; lia).
  split_and!; [|done|done|exact Hz]. f_equal. unfold padRightBytes at 1. unfold padding at 1.
  rewrite Hz, (proj2 (Z.ltb_ge _ _)) by lia. apply app_nil_r.
Qed.

Lemma string_item_pos d base i off s r1 r2 :
  at_pos d (base + i * 32) (be_split 32 off ++ r1) →
  at_pos d (base + off) (be_split 32 (zlen s) ++ s ++ r2) →
  0 ≤ off → 0 ≤ base → zlen d < 2 ^ 63 → string_item d base i = Ok s.
Proof.
  intros Hp1 Hp2 Ho Hb Hd. pose proof (at_pos_bounds _ _ _ Hp2) as [_ Hz].
  rewrite !zlen_app, word_length in Hz. pose proof (zlen_nonneg s). pose proof (zlen_nonneg r2).
  unfold string_item. rewrite (read_word_pos _ _ _ _ Hp1), Ok_bind by (unfold is_uint; lia). cbv zeta.
  replace (u64 (off + (base - 32) + 32)) with (base + off) by (unfold wrap; rewrite Z.mod_small by lia; lia).
  rewrite (read_word_pos _ _ _ _ Hp2), Ok_bind by (unfold is_uint; lia).
  unfold wrap. rewrite Z.mod_small by lia. rewrite (proj2 (Z.ltb_ge _ _)) by lia.
  cbn [throw_if]. rewrite Ok_bind. eapply (copy_range_pos _ _ _ _ r2); [|done].
  eapply at_pos_app; [exact Hp2|]. by rewrite word_length.
Qed.

Lemma bytesArr_sizes n i pads l :
  Forall (λ s, zlen s < 2 ^ 64) l →
  length (bytesArr_loop n i pads l).1 = length l ∧ length (bytesArr_loop n i pads l).2 = length l.
Proof.
  revert i pads. induction l as [|s l IH]; intros i pads Hl; [done|]. cbn [bytesArr_loop].
  apply Forall_cons in Hl as [_ Hl]. destruct (IH (i + 1) (pads + pad_to (zlen s) / 32) Hl) as [E1 E2].
  destruct (bytesArr_loop n (i + 1) _ l). cbn in *. lia.
Qed.

Lemma string_items_pos d base n i pads l r1 r2 :
  Forall (λ s, zlen s < 2 ^ 64) l → 0 ≤ base → 0 ≤ n → 0 ≤ i → 0 ≤ pads → zlen d < 2 ^ 63 →
  at_pos d (base + i * 32) (concat (bytesArr_loop n i pads l).1 ++ r1) →
  at_pos d (base + (32 * n + 32 * i + 32 * pads)) (concat (bytesArr_loop n i pads l).2 ++ r2) →
  decode_items (string_item d base) (length l) i = Ok l.
Proof.
  revert i pads. induction l as [|s l IH]; intros i pads Hl Hb Hn Hi Hpd Hd Hp1 Hp2; [done|].
  apply Forall_cons in Hl as [Hs Hl]. cbn [bytesArr_loop] in *.
  destruct (string_data_spec s Hs) as (post & j & Edata & Ej & Hj & Hz).
  destruct (bytesArr_loop n (i + 1) (pads + pad_to (zlen s) / 32) l) as [offs datas] eqn:El.
  cbn [fst snd concat] in Hp1, Hp2. rewrite Edata in Hp2. rewrite <-app_assoc in Hp1, Hp2.
  pose proof (at_pos_bounds _ _ _ Hp2) as [? Hz2]. rewrite zlen_app in Hz2.
  pose proof (zlen_nonneg (be_split 32 (zlen s) ++ s ++ post)). pose proof (zlen_nonneg (concat datas ++ r2)).
  rewrite padLeft_word in Hp1 by (unfold is_uint; lia).
  assert (at_pos d (base + (32 * n + 32 * i + 32 * pads)) (be_split 32 (zlen s) ++ s ++ post ++ concat datas ++ r2)) as Hp3
    by (by rewrite <-!app_assoc in Hp2).
  cbn [length decode_items].
  rewrite (string_item_pos d base i _ s _ (post ++ concat datas ++ r2) Hp1 Hp3) by lia. rewrite Ok_bind.
  rewrite (IH (i + 1) (pads + pad_to (zlen s) / 32)); [done|done|done|done|lia| |done| |].
  - rewrite Ej. replace (32 * j / 32) with j by (rewrite Z.mul_comm, Z.div_mul; lia). lia.
  - rewrite El. eapply at_pos_app; [exact Hp1|]. rewrite word_length. lia.
  - rewrite El. cbn [snd].
    eapply at_pos_app; [exact Hp2|]. rewrite zlen_app, word_length, Hz.
    rewrite Ej. replace (32 * j / 32) with j by (rewrite Z.mul_comm, Z.div_mul; lia). lia.
Qed.

(** The number of bytes after the offset word of an array of strings. *)
Lemma bytesArr_data_size n i pads l :
  Forall (λ s, zlen s < 2 ^ 64) l →
  Forall (λ o, zlen o = 32) (bytesArr_loop n i pads l).1 →
  ∃ k, zlen (concat (bytesArr_loop n i pads l).1 ++ concat (bytesArr_loop n i pads l).2) = 32 * k.
Proof.
  revert i pads. induction l as [|s l IH]; intros i pads Hl Ho; [by exists 0|].
  apply Forall_cons in Hl as [Hs Hl]. cbn [bytesArr_loop] in *.
  destruct (string_data_spec s Hs) as (post & j & Edata & Ej & Hj & Hz).
  specialize (IH (i + 1) (pads + pad_to (zlen s) / 32) Hl).
  destruct (bytesArr_loop n (i + 1) (pads + pad_to (zlen s) / 32) l) as [offs datas].
  cbn [fst snd concat] in *. apply Forall_cons in Ho as [Ho1 Ho]. destruct (IH Ho) as [k Hk].
  rewrite Edata. exists (1 + 1 + j + k). rewrite zlen_app in Hk. rewrite !zlen_app, Ho1, word_length.
  rewrite zlen_app in Hz. lia.
Qed.

Lemma decode_items_ext {A} (f g : Z → outcome A) n i : (∀ i, f i = g i) → decode_items f n i = decode_items g n i.
Proof. intros E. revert i. induction n as [|n IH]; intros i; [done|]. cbn. by rewrite E, IH. Qed.

Lemma decodeBytesArr_items d start :
  decodeBytesArr d start =
    (arrayStart ← read_word d start; arrayLength ← read_word d arrayStart;
     decode_items (string_item d (arrayStart + 32)) (Z.to_nat arrayLength) 0).
Proof.
  unfold decodeBytesArr. destruct (read_word d start) as [a| |]; [|done..]. rewrite !Ok_bind.
  destruct (read_word d a) as [len| |]; [|done..]. rewrite !Ok_bind. apply decode_items_ext. intros i.
  unfold string_item. destruct (read_word d (a + 32 + i * 32)) as [o| |]; [|done..]. rewrite !Ok_bind.
  by replace (o + (a + 32 - 32) + 32) with (o + a + 32) by lia.
Qed.

(** ** Values that fit *)

Definition has_type (t : Types) (v : EncVar) : Prop :=
  match v, t with
  | V_uint256 _, uint256 | V_uint256Arr _, uint256Arr | V_address _, address | V_addressArr _, addressArr
  | V_bool _, boolean | V_boolArr _, booleanArr
  | V_string _, bytes_ | V_string _, string_ | V_stringArr _, bytesArr | V_stringArr _, stringArr => True
  | _, _ => False
  end.

Definition arg_ok (v : EncVar) : Prop :=
  match v with
  | V_uint256 n => is_uint 256 n
  | V_uint256Arr l => Forall (is_uint 256) l ∧ zlen l < 2 ^ 32
  | V_address a => length a = 20%nat
  | V_addressArr l => Forall (λ a, length a = 20%nat) l ∧ zlen l < 2 ^ 32
  | V_bool _ => True
  | V_boolArr l => zlen l < 2 ^ 32
  | V_string s => zlen s < 2 ^ 32
  | V_stringArr l => Forall (λ s, zlen s < 2 ^ 32) l ∧ zlen l < 2 ^ 26
  end.

#[export] Instance arg_ok_dec v : Decision (arg_ok v).
Proof. destruct v; cbn; apply _. Defined.

Lemma pad_loop_le fuel pad len : pad_loop fuel pad len ≤ Z.max (pad + 32) (len + 32).
Proof.
  revert pad. induction fuel as [|fuel IH]; intros pad; cbn [pad_loop]; [lia|].
  zcase; [|lia]. specialize (IH (pad + 32)). lia.
Qed.

Lemma bytesArr_offs n i pads l :
  Forall (λ s, zlen s < 2 ^ 32) l → 0 ≤ n < 2 ^ 26 → 0 ≤ i → i + zlen l < 2 ^ 26 → 0 ≤ pads ≤ i * 2 ^ 28 →
  Forall (λ o, zlen o = 32) (bytesArr_loop n i pads l).1.
Proof.
  revert i pads. induction l as [|s l IH]; intros i pads Hl Hn Hi Hil Hp; [done|].
  apply Forall_cons in Hl as [Hs Hl]. cbn [bytesArr_loop]. rewrite zlen_cons in Hil. pose proof (zlen_nonneg l).
  pose proof (zlen_nonneg s). destruct (pad_to_spec (zlen s)) as (j & Ej & ? & ?); [done|].
  assert (pad_to (zlen s) / 32 = j) as Ep by (rewrite Ej, Z.mul_comm, Z.div_mul; lia).
  pose proof (pad_loop_le (Z.to_nat (zlen s)) 0 (zlen s)) as Hle. fold (pad_to (zlen s)) in Hle.
  specialize (IH (i + 1) (pads + pad_to (zlen s) / 32) Hl Hn). rewrite Ep in *.
  destruct (bytesArr_loop n (i + 1) (pads + j) l) as [offs datas]. cbn [fst] in *.
  constructor; [|apply IH; lia]. rewrite padLeft_word by (unfold is_uint; lia). apply word_length.
Qed.

Lemma mono_small l : Forall (λ s : bytes, zlen s < 2 ^ 32) l → Forall (λ s : bytes, zlen s < 2 ^ 64) l.
Proof. intros Hl. apply (Forall_impl _ _ _ Hl). intros s Hs. cbn in *. lia. Qed.

(** The encodings as words and data. *)
Lemma encodeArr_tail {A} (enc : A → bytes) l :
  zlen l < 2 ^ 32 → drop 32 (encodeArr enc l) = be_split 32 (zlen l) ++ concat (enc <$> l).
Proof.
  intros Hl. pose proof (zlen_nonneg l). unfold encodeArr. rewrite drop_app_length' by done.
  by rewrite padLeft_word by (unfold is_uint; lia).
Qed.

Lemma encodeBytesArr_tail l :
  zlen l < 2 ^ 26 → drop 32 (encodeBytesArr l) =
    be_split 32 (zlen l) ++ concat (bytesArr_loop (zlen l) 0 0 l).1 ++ concat (bytesArr_loop (zlen l) 0 0 l).2.
Proof.
  intros Hl. pose proof (zlen_nonneg l). unfold encodeBytesArr.
  destruct (bytesArr_loop (zlen l) 0 0 l) as [offs datas]. rewrite drop_app_length' by done.
  by rewrite padLeft_word by (unfold is_uint; lia).
Qed.

Lemma uint_words l x : Forall (is_uint 256) l → x ∈ l → zlen (encodeUint256 x) = 32.
Proof. rewrite Forall_forall. intros Hl Hx. rewrite encodeUint256_spec by auto. apply word_length. Qed.

Lemma address_words l x : Forall (λ a : bytes, length a = 20%nat) l → x ∈ l → zlen (encodeAddress x) = 32.
Proof.
  rewrite Forall_forall. intros Hl Hx. specialize (Hl _ Hx). rewrite encodeAddress_spec by done.
  unfold zlen. rewrite length_app, Hl. done.
Qed.

Lemma bool_words b : zlen (encodeBool b) = 32.
Proof. by destruct b. Qed.

(** The head of an argument is a word, and its tail has the size by which the
    offset grows. *)
Lemma encode_arg_sizes off v :
  arg_ok v → is_uint 256 off →
  zlen (encode_arg off v).1 = 32 ∧ zlen (encode_arg off v).2 = arg_size v ∧ 0 ≤ arg_size v.
Proof.
  intros Hv Ho. assert (zlen (padLeftBytes (uintToBytes off) 32 0) = 32) as Hw
    by (rewrite padLeft_word by done; apply word_length).
  destruct v as [n|l|a|l|b|l|s|l]; cbn [encode_arg arg_size fst snd arg_ok] in *; try pose proof (zlen_nonneg l).
  - rewrite encodeUint256_spec by done. by rewrite word_length.
  - destruct Hv. unfold encodeUint256Arr. rewrite encodeArr_tail, zlen_app, word_length, concat_words by eauto using uint_words.
    split_and!; [done|lia|lia].
  - by rewrite (address_words [a]) by (by repeat constructor).
  - destruct Hv. unfold encodeAddressArr. rewrite encodeArr_tail, zlen_app, word_length, concat_words by eauto using address_words.
    split_and!; [done|lia|lia].
  - by rewrite bool_words.
  - unfold encodeBoolArr. rewrite encodeArr_tail, zlen_app, word_length, concat_words by eauto using bool_words.
    split_and!; [done|lia|lia].
  - destruct (encodeBytes_spec s ltac:(lia)) as (post & j & _ & Hz & ? & ?). rewrite Hz.
    replace ((32 + 32 * j) / 32) with (1 + j) by (replace (32 + 32 * j) with ((1 + j) * 32) by lia; rewrite Z.div_mul; lia).
    split_and!; [done|lia|lia].
  - destruct Hv as [Hs Hl]. rewrite encodeBytesArr_tail by done.
    destruct (bytesArr_data_size (zlen l) 0 0 l) as [k Hk];
      [by apply mono_small|apply bytesArr_offs; try done; lia|].
    rewrite zlen_app, word_length, Hk. rewrite <-Hk in *.
    pose proof (zlen_nonneg (concat (bytesArr_loop (zlen l) 0 0 l).1 ++ concat (bytesArr_loop (zlen l) 0 0 l).2)) as Hnn.
    rewrite Hk in *.
    replace ((32 + 32 * k) / 32) with (1 + k) by (replace (32 + 32 * k) with ((1 + k) * 32) by lia; rewrite Z.div_mul; lia).
    split_and!; [done|lia|lia].
Qed.

Lemma Address_of_word d pos a r :
  length a = 20%nat → at_pos d pos (encodeAddress a ++ r) →
  (tmp ← copy_range d (pos + 12) 20; Address_ctor tmp true) = Ok a.
Proof.
  intros Ha Hp. rewrite encodeAddress_spec, <-app_assoc in Hp by done.
  rewrite (copy_range_pos d (pos + 12) 20 a r), Ok_bind;
    [|eapply at_pos_app; [exact Hp|done]|by rewrite (zlen_of_length _ _ Ha)].
  unfold Address_ctor. by rewrite (zlen_of_length _ _ Ha).
Qed.

Lemma bool_of_word d pos b r :
  at_pos d pos (encodeBool b ++ r) → (x ← at_view d (pos + 31); Ok (x =? 1)) = Ok b.
Proof.
  intros Hp. rewrite encodeBool_spec, <-app_assoc in Hp.
  apply (at_pos_app _ _ _ _ (pos + 31)) in Hp; [|done]. cbn [app] in Hp.
  apply at_view_pos in Hp as [-> _]. by destruct b.
Qed.

Lemma decodeBytes_pos d idx off s r1 r2 :
  zlen s < 2 ^ 32 → zlen d < 2 ^ 63 → 0 ≤ idx → idx + 32 ≤ off →
  at_pos d idx (be_split 32 off ++ r1) → at_pos d off (encodeBytes s ++ r2) → decodeBytes d idx = Ok s.
Proof.
  intros Hs Hd Hi Ho Hp1 Hp2. destruct (encodeBytes_spec s ltac:(lia)) as (post & j & E & Hz & Hj & Hj2).
  pose proof (at_pos_bounds _ _ _ Hp2) as [_ Hb]. rewrite zlen_app, Hz in Hb.
  pose proof (zlen_nonneg r2). pose proof (zlen_nonneg s). rewrite E, <-!app_assoc in Hp2.
  unfold decodeBytes. rewrite (read_word_pos _ _ _ _ Hp1), Ok_bind by (unfold is_uint; lia).
  rewrite (read_word_pos _ _ _ _ Hp2), Ok_bind by (unfold is_uint; lia).
  unfold wrap. rewrite Z.mod_small by lia. rewrite (proj2 (Z.ltb_ge _ _)) by lia.
  cbn [throw_if]. rewrite Ok_bind. eapply (copy_range_pos _ _ _ _ (post ++ r2)); [|done].
  eapply at_pos_app; [exact Hp2|]. by rewrite word_length.
Qed.

Lemma decodeBytesArr_pos d idx off l r1 r2 :
  Forall (λ s, zlen s < 2 ^ 32) l ∧ zlen l < 2 ^ 26 → zlen d < 2 ^ 63 → 0 ≤ idx → idx + 32 ≤ off →
  at_pos d idx (be_split 32 off ++ r1) → at_pos d off (drop 32 (encodeBytesArr l) ++ r2) →
  decodeBytesArr d idx = Ok l.
Proof.
  intros [Hs Hl] Hd Hi Ho Hp1 Hp2. rewrite encodeBytesArr_tail, <-!app_assoc in Hp2 by done.
  pose proof (at_pos_bounds _ _ _ Hp2) as [_ Hb]. rewrite zlen_app, word_length in Hb.
  set (b := bytesArr_loop (zlen l) 0 0 l) in *.
  pose proof (zlen_nonneg (concat b.1 ++ concat b.2 ++ r2)). pose proof (zlen_nonneg l).
  rewrite decodeBytesArr_items. rewrite (read_word_pos _ _ _ _ Hp1), Ok_bind by (unfold is_uint; lia).
  rewrite (read_word_pos _ _ _ _ Hp2), Ok_bind by (unfold is_uint; lia).
  unfold zlen at 1. rewrite Nat2Z.id.
  apply (string_items_pos d (off + 32) (zlen l) 0 0 l (concat b.2 ++ r2) r2); try done; try lia;
    [by apply mono_small| |].
  - eapply at_pos_app; [exact Hp2|]. rewrite word_length. lia.
  - assert (zlen (concat b.1) = 32 * zlen l) as Hoff.
    { pose proof (bytesArr_offs (zlen l) 0 0 l Hs) as Hf.
      rewrite <-(list_fmap_id b.1), concat_words.
      - destruct (bytesArr_sizes (zlen l) 0 0 l (mono_small _ Hs)) as [El _]. fold b in El.
        unfold zlen. by rewrite El.
      - intros x Hx. rewrite Forall_forall in Hf. apply Hf; try done; lia. }
    apply (at_pos_app _ _ _ _ (off + 32)) in Hp2; [|by rewrite word_length].
    eapply at_pos_app; [exact Hp2|]. rewrite Hoff. lia.
Qed.

Lemma decode_arg_pos t v d idx off r1 r2 :
  has_type t v → arg_ok v → zlen d < 2 ^ 63 → 0 ≤ idx → idx + 32 ≤ off →
  at_pos d idx ((encode_arg off v).1 ++ r1) → at_pos d off ((encode_arg off v).2 ++ r2) →
  decode_arg t d idx = Ok v.
Proof.
  intros Ht Hv Hd Hi Ho Hp1 Hp2. pose proof (at_pos_bounds _ _ _ Hp2) as [_ Hb].
  pose proof (zlen_nonneg ((encode_arg off v).2 ++ r2)).
  assert (is_uint 64 off) as Ho64 by (unfold is_uint; lia).
  destruct (encode_arg_sizes off v Hv) as (Hh & _); [unfold is_uint in *; lia|].
  pose proof (at_pos_bounds _ _ _ Hp1) as [_ Hb1]. rewrite zlen_app, Hh in Hb1. pose proof (zlen_nonneg r1).
  assert ((zlen d <? u64 (idx + 32)) = false) as Hsz.
  { unfold wrap. rewrite Z.mod_small by lia. apply Z.ltb_ge. lia. }
  destruct v as [n|l|a|l|b|l|s|l], t; try done; cbn [encode_arg fst snd arg_ok decode_arg] in *;
    rewrite ?padLeft_word in Hp1 by (unfold is_uint in *; lia).
  - unfold decodeUint256. rewrite Hsz. cbn [throw_if]. rewrite Ok_bind.
    rewrite encodeUint256_spec in Hp1 by done.
    rewrite (copy_range_pos _ _ _ _ _ Hp1), Ok_bind, bytesToUint256_word by (done || by rewrite word_length). done.
  - destruct Hv as [Hv Hl]. unfold encodeUint256Arr in Hp2. rewrite encodeArr_tail, <-app_assoc in Hp2 by done.
    unfold decodeUint256Arr. rewrite (decode_arr_pos encodeUint256 _ d idx off l r1 r2); [done| | |done|done|done].
    + eauto using uint_words.
    + intros x p r Hx Hp. rewrite Forall_forall in Hv. rewrite encodeUint256_spec in Hp by auto.
      rewrite (copy_range_pos _ _ _ _ _ Hp), Ok_bind, bytesToUint256_word by (auto || by rewrite word_length). done.
  - unfold decodeAddress. rewrite Hsz. cbn [throw_if]. rewrite Ok_bind. by rewrite (Address_of_word d idx a r1).
  - destruct Hv as [Hv Hl]. unfold encodeAddressArr in Hp2. rewrite encodeArr_tail, <-app_assoc in Hp2 by done.
    unfold decodeAddressArr. rewrite (decode_arr_pos encodeAddress _ d idx off l r1 r2); [done| | |done|done|done].
    + eauto using address_words.
    + intros x p r Hx Hp. rewrite Forall_forall in Hv. apply (Address_of_word d p x r); auto.
  - unfold decodeBool. rewrite Hsz. cbn [throw_if]. rewrite Ok_bind.
    replace (u64 (idx + 31)) with (idx + 31) by (unfold wrap; rewrite Z.mod_small; lia).
    by rewrite (bool_of_word d idx b r1).
  - unfold encodeBoolArr in Hp2. rewrite encodeArr_tail, <-app_assoc in Hp2 by done.
    unfold decodeBoolArr. rewrite (decode_arr_pos encodeBool _ d idx off l r1 r2); [done| | |done|done|done].
    + eauto using bool_words.
    + intros x p r _. apply bool_of_word.
  - by rewrite (decodeBytes_pos d idx off s r1 r2).
  - by rewrite (decodeBytes_pos d idx off s r1 r2).
  - by rewrite (decodeBytesArr_pos d idx off l r1 r2).
  - by rewrite (decodeBytesArr_pos d idx off l r1 r2).
Qed.

Lemma Decoder_loop_pos ts vs d idx off r1 r2 :
  Forall2 has_type ts vs → Forall arg_ok vs → zlen d < 2 ^ 63 → 0 ≤ idx → idx + 32 * zlen vs ≤ off →
  at_pos d idx ((encode_args off vs).1 ++ r1) → at_pos d off ((encode_args off vs).2 ++ r2) →
  Decoder_loop ts d idx = Ok vs.
Proof.
  intros Ht. revert idx off r1 r2. induction Ht as [|t v ts vs Hv Ht IH]; intros idx off r1 r2 Hok Hd Hi Ho Hp1 Hp2; [done|].
  apply Forall_cons in Hok as [Hvok Hok]. cbn [encode_args Decoder_loop] in *. rewrite zlen_cons in Ho.
  pose proof (zlen_nonneg vs). destruct (encode_arg off v) as [h t'] eqn:Ea.
  pose proof (at_pos_bounds _ _ _ Hp2) as [? Hb].
  destruct (encode_arg_sizes off v Hvok) as (Hh & Hs & Hz); [unfold is_uint; pose proof (zlen_nonneg ((let '(hs, ts) := encode_args (u64 (off + arg_size v)) vs in (h ++ hs, t' ++ ts)).2 ++ r2)); lia|].
  rewrite Ea in Hh, Hs. cbn [fst snd] in Hh, Hs.
  destruct (encode_args (u64 (off + arg_size v)) vs) as [hs tl] eqn:El. cbn [fst snd] in *.
  rewrite <-app_assoc in Hp1, Hp2. rewrite !zlen_app in Hb.
  pose proof (zlen_nonneg tl). pose proof (zlen_nonneg r2).
  assert (u64 (off + arg_size v) = off + arg_size v) as Eo by (unfold wrap; apply Z.mod_small; lia).
  rewrite Eo in El.
  rewrite (decode_arg_pos t v d idx off (hs ++ r1) (tl ++ r2)), Ok_bind; [|done|done|done|done|lia|by rewrite Ea|by rewrite Ea].
  rewrite (IH (idx + 32) (off + arg_size v) r1 r2), Ok_bind; try done; try lia; rewrite El; cbn [fst snd].
  - eapply at_pos_app; [exact Hp1|]. lia.
  - eapply at_pos_app; [exact Hp2|]. lia.
Qed.

Section RoundTrip.
Context `{Keccak}.

Lemma encode_args_heads off vs :
  Forall arg_ok vs → 0 ≤ off → zlen (encode_args off vs).2 + off < 2 ^ 63 → zlen (encode_args off vs).1 = 32 * zlen vs.
Proof.
  revert off. induction vs as [|v vs IH]; intros off Hok Ho Hb; [done|].
  apply Forall_cons in Hok as [Hv Hok]. cbn [encode_args] in *.
  destruct (encode_arg off v) as [h t] eqn:Ea. destruct (encode_args (u64 (off + arg_size v)) vs) as [hs tl] eqn:El.
  cbn [fst snd] in *. rewrite zlen_app in Hb. pose proof (zlen_nonneg t). pose proof (zlen_nonneg tl).
  destruct (encode_arg_sizes off v Hv) as (Hh & Hs & Hz); [unfold is_uint; lia|].
  rewrite Ea in Hh, Hs. cbn [fst snd] in Hh, Hs.
  assert (u64 (off + arg_size v) = off + arg_size v) as Eo by (unfold wrap; apply Z.mod_small; lia).
  rewrite Eo in El. specialize (IH (off + arg_size v) Hok). rewrite El in IH. cbn [fst snd] in IH.
  rewrite zlen_app, zlen_cons, IH; lia.
Qed.

Lemma Decoder_Encoder ts vs func data :
  Forall2 has_type ts vs → Forall arg_ok vs → zlen vs < 2 ^ 32 → Encoder vs func = Ok data → zlen data < 2 ^ 62 →
  Decoder ts (drop (if bool_decide (func = []) then 0 else 4) data) = Ok vs ∧
  (func ≠ [] → take 4 data = encodeFunction func).
Proof.
  intros Ht Hok Hn He Hd. unfold Encoder in He. apply bind_Ok in He as (header & Hh & He).
  assert (length header = (if bool_decide (func = []) then 0%nat else 4%nat) ∧ (func ≠ [] → header = encodeFunction func)) as [Hl Hf].
  { unfold encode_header in Hh. case_bool_decide; [by injection Hh as <-|].
    repeat case_match; try done. inv_ok. split; [|done]. unfold encodeFunction.
    rewrite length_take, sha3_length. done. }
  destruct (encode_args (32 * zlen vs) vs) as [hs tl] eqn:Ea. apply Ok_inj in He as <-.
  rewrite <-Hl. rewrite drop_app_length. split.
  - rewrite !zlen_app in Hd. pose proof (zlen_nonneg header). pose proof (zlen_nonneg hs). pose proof (zlen_nonneg tl).
    pose proof (zlen_nonneg vs). pose proof (encode_args_heads (32 * zlen vs) vs Hok) as Hhs.
    rewrite Ea in Hhs. cbn [fst snd] in Hhs. specialize (Hhs ltac:(lia) ltac:(lia)).
    unfold Decoder. apply (Decoder_loop_pos ts vs (hs ++ tl) 0 (32 * zlen vs) tl []); try done; try lia.
    + rewrite zlen_app. lia.
    + rewrite Ea. apply at_pos_0.
    + rewrite Ea, app_nil_r. exists hs. by rewrite Hhs.
  - intros Hne. rewrite <-(Hf Hne). rewrite bool_decide_false in Hl by done.
    by rewrite take_app_length'.
Qed.


End RoundTrip.

(** The decoder of strings reads where the calldata tells it to before it
    checks anything: a first word that points behind the end is read outside
    the buffer, which is undefined behaviour and not an exception. *)
Theorem abi_decode_outside off rest :
  is_uint 64 off → zlen rest < off →
  decodeBytes (be_split 32 off ++ rest) 0 = Undef ∧
  Decoder [string_] (be_split 32 off ++ rest) = Undef.
Proof.
  intros Ho Hr. assert (decodeBytes (be_split 32 off ++ rest) 0 = Undef) as E.
  { unfold decodeBytes. rewrite (read_word_pos _ 0 off rest), Ok_bind by (done || apply at_pos_0).
    unfold read_word, copy_range. rewrite bool_decide_false; [done|].
    rewrite zlen_app, word_length. lia. }
  split; [done|]. unfold Decoder. cbn [Decoder_loop decode_arg]. by rewrite E.
Qed.

Lemma abi_decode_outside_witness : Decoder [string_] (be_split 32 1000 ++ [1; 2; 3]) = Undef.
Proof. apply (abi_decode_outside 1000 [1; 2; 3]); [split; lia|vm_compute; reflexivity]. Defined.

Definition abi_sample : list EncVar :=
  [V_address (replicate 20 7); V_string (str "orbiter"); V_uint256Arr [1; 2]; V_bool true;
   V_stringArr [str "a"; str "bcd"]; V_uint256 5].

Definition bytes_of (o : outcome bytes) : bytes := match o with Ok b => b | _ => [] end.

