(* ===== verification/Contract.v ===== *)
(** * Contract: what all contracts share (src/contract/contract.h, dynamiccontract.h)

    The locals that the manager sets before a call, the description of a
    contract with its entries in the database, and the dispatch of a call:
    the function is found by its selector, and when it returns or throws the
    variables it used are committed or reverted. *)

From S2P Require Import Prelude Utils Hex Strings Ecdsa Tx DB.

(** ** Locals *)

Record ContractLocals := mkLocals {
  l_origin : bytes; l_caller : bytes; l_value : Z; l_commit : bool;
}.

Definition Locals_init : ContractLocals := mkLocals Address_empty Address_empty 0 false.

(** ** BaseContract *)

Record BaseContract := mkBase {
  contractName : bytes; contractAddress : bytes; contractCreator : bytes; contractChainId : Z;
}.

Section Base.
Context `{RocksDB}.

Definition contract_prefix (addr : bytes) : bytes := DBPrefix.contracts ++ addr.

(** The constructor of a new contract writes its description. *)
Definition BaseContract_new (db : rstore) (name addr creator : bytes) (chainId : Z) : BaseContract * rstore :=
  let pfx := contract_prefix addr in
  let db := (DB_put db (str "contractName") name pfx).2 in
  let db := (DB_put db (str "contractAddress") addr pfx).2 in
  let db := (DB_put db (str "contractCreator") creator pfx).2 in
  let db := (DB_put db (str "contractChainId") (uint64ToBytes chainId) pfx).2 in
  (mkBase name addr creator chainId, db).

(** The constructor that loads a contract reads it. *)
Definition BaseContract_load (db : rstore) (addr : bytes) : outcome BaseContract :=
  let pfx := contract_prefix addr in
  creator ← Address_ctor (DB_get db (str "contractCreator") pfx) true;
  chainId ← bytesToUint64 (DB_get db (str "contractChainId") pfx);
  Ok (mkBase (DB_get db (str "contractName") pfx) addr creator chainId).

End Base.

(** ** DynamicContract *)

Section Dispatch.
Context {S : Type}.

(** [ethCall]: [functions] and [payableFunctions] are the registered maps,
    [updateState] commits ([true]) or reverts the variables used. *)
Definition dyn_ethCall (functions payableFunctions : bytes → option (ethCallInfo → ST S unit))
    (updateState : bool → ST S unit) (getCommit : S → bool) (callInfo : ethCallInfo) : ST S unit :=
  let funcName := take 4 (ci_data callInfo) in
  _ ← catching
        (match payableFunctions funcName with
         | Some func => func callInfo
         | None =>
             match functions funcName with
             | Some func => func callInfo
             | None => lift (Throw (runtime_error "Functor not found"))
             end
         end)
        (λ e, _ ← updateState false; lift (Throw (runtime_error (what e))));
  commit ← gets getCommit;
  updateState commit.

(** [ethCallView]. *)
Definition dyn_ethCallView (viewFunctions : bytes → option (ethCallInfo → ST S bytes)) (callInfo : ethCallInfo)
    : ST S bytes :=
  catching
    (match viewFunctions (take 4 (ci_data callInfo)) with
     | Some func => func callInfo
     | None => lift (Throw (runtime_error "Functor not found"))
     end)
    (λ e, lift (Throw (runtime_error (what e)))).

End Dispatch.

(** A registered map, as the list of its entries. *)
Definition table {A} (l : list (Z * A)) (functor : bytes) : option A :=
  snd <$> List.find (λ e, bool_decide (be_split 4 e.1 = functor)) l.

(** * Lemmas *)

Lemma bool_decide_prefix (p a b : bytes) : bool_decide (p ++ a = p ++ b) = bool_decide (a = b).
Proof. apply bool_decide_ext. split; [by apply app_inv_head|by intros ->]. Qed.

Section BaseLemmas.
Context `{RocksDB}.

Lemma DB_put_spec db key value pfx k :
  (∀ s ops, is_Some (r_write s ops)) →
  lookup_db (DB_put db key value pfx).2 k = if bool_decide (pfx ++ key = k) then Some value else lookup_db db k.
Proof.
  intros Hw. unfold DB_put. destruct (DB_write db [WPut (pfx ++ key) value]) as [ok db'] eqn:E.
  assert (ok = true) as ->.
  { unfold DB_write in E. destruct (Hw db [WPut (pfx ++ key) value]) as [s Es]. rewrite Es in E. by injection E. }
  cbn [snd]. by rewrite (DB_write_spec _ _ _ E).
Qed.

(** A contract's description survives in the database. *)
Lemma BaseContract_roundtrip db name addr creator chainId :
  (∀ s ops, is_Some (r_write s ops)) → length creator = 20%nat → is_uint 64 chainId →
  BaseContract_load (BaseContract_new db name addr creator chainId).2 addr =
    Ok (BaseContract_new db name addr creator chainId).1.
Proof.
  intros Hw Hc Hi. unfold BaseContract_load, BaseContract_new. cbn [fst snd].
  rewrite !DB_get_spec, !DB_put_spec by done.
  rewrite !bool_decide_prefix.
  repeat first [rewrite bool_decide_true by reflexivity|rewrite bool_decide_false by discriminate].
  cbn [default from_option id].
  unfold Address_ctor. rewrite (zlen_of_length _ _ Hc). cbn [negb throw_if mbind outcome_bind Z.eqb Pos.eqb Z.of_nat Pos.of_succ_nat Pos.succ].
  by rewrite bytesToUint64_roundtrip.
Qed.

End BaseLemmas.
