(* ===== verification/ERC20.v ===== *)
(** * ERC20: the token contract (src/contract/erc20.{h,cpp})

    A token is a set of safe variables; every function runs on their pending
    values and [updateState] publishes or discards them.  [NativeWrapper]
    repeats this contract and adds two payable functions; it shares the record
    and the functions (see ContractManager). *)

From S2P Require Import Prelude Utils Hex Strings Ecdsa Tx DB SafeVars ABI Contract.

Inductive erc20_var := v_name | v_symbol | v_decimals | v_totalSupply | v_balances | v_allowed.

#[export] Instance erc20_var_eq_dec : EqDecision erc20_var.
Proof. solve_decision. Defined.

Record ERC20 := mkERC20 {
  e_base : BaseContract;
  e_locals : ContractLocals;
  e_used : list erc20_var;          (** [usedVariables] *)
  _name : SafeVar bytes;
  _symbol : SafeVar bytes;
  _decimals : SafeVar Z;
  _totalSupply : SafeVar Z;
  _balances : SafeMap Z;
  _allowed : SafeMap (gmap bytes Z);
}.

(** ** Running an operation of a variable *)

(** [registerVariableUse], when the operation turned [registered] on. *)
Definition uses (var : erc20_var) (was now : bool) (used : list erc20_var) : list erc20_var :=
  if now && negb was then used ++ [var] else used.

Definition on_name {B} (op : ST (SafeVar bytes) B) : ST ERC20 B := λ e,
  let '(r, v) := op (_name e) in
  (r, mkERC20 (e_base e) (e_locals e) (uses v_name (sv_registered (_name e)) (sv_registered v) (e_used e))
        v (_symbol e) (_decimals e) (_totalSupply e) (_balances e) (_allowed e)).

Definition on_symbol {B} (op : ST (SafeVar bytes) B) : ST ERC20 B := λ e,
  let '(r, v) := op (_symbol e) in
  (r, mkERC20 (e_base e) (e_locals e) (uses v_symbol (sv_registered (_symbol e)) (sv_registered v) (e_used e))
        (_name e) v (_decimals e) (_totalSupply e) (_balances e) (_allowed e)).

Definition on_decimals {B} (op : ST (SafeVar Z) B) : ST ERC20 B := λ e,
  let '(r, v) := op (_decimals e) in
  (r, mkERC20 (e_base e) (e_locals e) (uses v_decimals (sv_registered (_decimals e)) (sv_registered v) (e_used e))
        (_name e) (_symbol e) v (_totalSupply e) (_balances e) (_allowed e)).

Definition on_totalSupply {B} (op : ST (SafeVar Z) B) : ST ERC20 B := λ e,
  let '(r, v) := op (_totalSupply e) in
  (r, mkERC20 (e_base e) (e_locals e) (uses v_totalSupply (sv_registered (_totalSupply e)) (sv_registered v) (e_used e))
        (_name e) (_symbol e) (_decimals e) v (_balances e) (_allowed e)).

Definition on_balances {B} (op : ST (SafeMap Z) B) : ST ERC20 B := λ e,
  let '(r, m) := op (_balances e) in
  (r, mkERC20 (e_base e) (e_locals e) (uses v_balances (sm_registered (_balances e)) (sm_registered m) (e_used e))
        (_name e) (_symbol e) (_decimals e) (_totalSupply e) m (_allowed e)).

Definition on_allowed {B} (op : ST (SafeMap (gmap bytes Z)) B) : ST ERC20 B := λ e,
  let '(r, m) := op (_allowed e) in
  (r, mkERC20 (e_base e) (e_locals e) (uses v_allowed (sm_registered (_allowed e)) (sm_registered m) (e_used e))
        (_name e) (_symbol e) (_decimals e) (_totalSupply e) (_balances e) m).

Definition set_locals (e : ERC20) (l : ContractLocals) : ERC20 :=
  mkERC20 (e_base e) l (e_used e) (_name e) (_symbol e) (_decimals e) (_totalSupply e) (_balances e) (_allowed e).

(** ** updateState *)

(** [variable.get().commit()] *)
Definition commit_var (e : ERC20) (var : erc20_var) : outcome ERC20 :=
  let mk := mkERC20 (e_base e) (e_locals e) (e_used e) in
  match var with
  | v_name => Ok (mk (SafeString_commit (_name e)) (_symbol e) (_decimals e) (_totalSupply e) (_balances e) (_allowed e))
  | v_symbol => Ok (mk (_name e) (SafeString_commit (_symbol e)) (_decimals e) (_totalSupply e) (_balances e) (_allowed e))
  | v_decimals => Ok (mk (_name e) (_symbol e) (sv_commit (_decimals e)) (_totalSupply e) (_balances e) (_allowed e))
  | v_totalSupply =>
      s ← SafeUint256_commit (_totalSupply e);
      Ok (mk (_name e) (_symbol e) (_decimals e) s (_balances e) (_allowed e))
  | v_balances => Ok (mk (_name e) (_symbol e) (_decimals e) (_totalSupply e) (SafeMap_commit (_balances e)) (_allowed e))
  | v_allowed => Ok (mk (_name e) (_symbol e) (_decimals e) (_totalSupply e) (_balances e) (SafeMap_commit (_allowed e)))
  end.

(** [variable.get().revert()] *)
Definition revert_var (e : ERC20) (var : erc20_var) : ERC20 :=
  let mk := mkERC20 (e_base e) (e_locals e) (e_used e) in
  match var with
  | v_name => mk (sv_revert (_name e)) (_symbol e) (_decimals e) (_totalSupply e) (_balances e) (_allowed e)
  | v_symbol => mk (_name e) (sv_revert (_symbol e)) (_decimals e) (_totalSupply e) (_balances e) (_allowed e)
  | v_decimals => mk (_name e) (_symbol e) (sv_revert (_decimals e)) (_totalSupply e) (_balances e) (_allowed e)
  | v_totalSupply => mk (_name e) (_symbol e) (_decimals e) (sv_revert (_totalSupply e)) (_balances e) (_allowed e)
  | v_balances => mk (_name e) (_symbol e) (_decimals e) (_totalSupply e) (SafeMap_revert (_balances e)) (_allowed e)
  | v_allowed => mk (_name e) (_symbol e) (_decimals e) (_totalSupply e) (_balances e) (SafeMap_revert (_allowed e))
  end.

Definition clear_used (e : ERC20) : ERC20 :=
  mkERC20 (e_base e) (e_locals e) [] (_name e) (_symbol e) (_decimals e) (_totalSupply e) (_balances e) (_allowed e).

Definition updateState (commitToState : bool) : ST ERC20 unit := λ e,
  if commitToState then
    match foldM commit_var e (e_used e) with
    | Ok e' => (Ok tt, clear_used e')
    | Throw x => (Throw x, e)
    | Undef => (Undef, e)
    end
  else (Ok tt, clear_used (foldl revert_var e (e_used e))).

(** ** The contract's functions *)

Section ERC20.
Context `{Keccak} `{!CheckedLeft}.

Definition getCaller (e : ERC20) : bytes := l_caller (e_locals e).

Definition _mintValue (addr : bytes) (value : Z) : ST ERC20 unit :=
  _ ← on_balances (SafeMap_bracket 0 addr (λ b, add_assign b value));
  on_totalSupply (SafeUint_add_assign 256 value).

Definition transfer (_to : bytes) (_value : Z) : ST ERC20 unit :=
  caller ← gets getCaller;
  _ ← on_balances (SafeMap_bracket 0 caller (λ b, sub_assign b _value));
  on_balances (SafeMap_bracket 0 _to (λ b, add_assign b _value)).

Definition approve (_spender : bytes) (_value : Z) : ST ERC20 unit :=
  caller ← gets getCaller;
  on_allowed (SafeMap_bracket ∅ caller (λ m, (Ok tt, <[_spender := _value]> m))).

(** [m[key] -= value] on the inner map. *)
Definition sub_entry (key : bytes) (value : Z) (m : gmap bytes Z) : outcome unit * gmap bytes Z :=
  let '(r, x) := sub_assign (default 0 (m !! key)) value in (r, <[key := x]> m).

Definition transferFrom (_from _to : bytes) (_value : Z) : ST ERC20 unit :=
  caller ← gets getCaller;
  _ ← on_allowed (SafeMap_bracket ∅ _from (sub_entry caller _value));
  _ ← on_balances (SafeMap_bracket 0 _from (λ b, sub_assign b _value));
  on_balances (SafeMap_bracket 0 _to (λ b, add_assign b _value)).

(** Views; [Encoder({0})] encodes the number zero. *)
Definition encode_uint (n : Z) : ST ERC20 bytes := lift (Encoder [V_uint256 n] []).
Definition name : ST ERC20 bytes := s ← on_name sv_get; lift (Encoder [V_string s] []).
Definition symbol : ST ERC20 bytes := s ← on_symbol sv_get; lift (Encoder [V_string s] []).
Definition decimals : ST ERC20 bytes := n ← on_decimals sv_get; encode_uint n.
Definition totalSupply : ST ERC20 bytes := n ← on_totalSupply sv_get; encode_uint n.

Definition balanceOf (_owner : bytes) : ST ERC20 bytes :=
  it ← on_balances (SafeMap_find _owner);
  encode_uint (default 0 it).

Definition allowance (_owner _spender : bytes) : ST ERC20 bytes :=
  it ← on_allowed (SafeMap_find _owner);
  match it with
  | None => encode_uint 0
  | Some m => encode_uint (default 0 (m !! _spender))
  end.

(** ** registerContractFunctions *)

(** [ABI::Decoder decoder(types, std::get<5>(callInfo).substr(4))]. *)
Definition decode_args (types : list Types) (callInfo : ethCallInfo) : outcome (list EncVar) :=
  data ← substr (ci_data callInfo) 4 (zlen (ci_data callInfo));
  Decoder types data.

Definition call_transfer (callInfo : ethCallInfo) : ST ERC20 unit :=
  vs ← lift (decode_args [address; uint256] callInfo);
  to ← lift (getData as_address vs 0);
  value ← lift (getData as_uint256 vs 1);
  transfer to value.

Definition call_approve (callInfo : ethCallInfo) : ST ERC20 unit :=
  vs ← lift (decode_args [address; uint256] callInfo);
  spender ← lift (getData as_address vs 0);
  value ← lift (getData as_uint256 vs 1);
  approve spender value.

Definition call_transferFrom (callInfo : ethCallInfo) : ST ERC20 unit :=
  vs ← lift (decode_args [address; address; uint256] callInfo);
  from ← lift (getData as_address vs 0);
  to ← lift (getData as_address vs 1);
  value ← lift (getData as_uint256 vs 2);
  transferFrom from to value.

Definition erc20_functions : bytes → option (ethCallInfo → ST ERC20 unit) := table
  [(0xa9059cbb, call_transfer); (0x095ea7b3, call_approve); (0x23b872dd, call_transferFrom)].

Definition erc20_views : bytes → option (ethCallInfo → ST ERC20 bytes) := table
  [(0x06fdde03, λ _, name); (0x95d89b41, λ _, symbol); (0x313ce567, λ _, decimals); (0x18160ddd, λ _, totalSupply);
   (0x70a08231, λ callInfo,
      vs ← lift (decode_args [address] callInfo); a ← lift (getData as_address vs 0); balanceOf a);
   (0xdd62ed3e, λ callInfo,
      vs ← lift (decode_args [address; address] callInfo);
      a ← lift (getData as_address vs 0); b ← lift (getData as_address vs 1); allowance a b)].

(** [ERC20::ethCall], that is [DynamicContract::ethCall] with the functions
    above; an ERC20 contract has no payable function. *)
Definition ERC20_ethCall (callInfo : ethCallInfo) : ST ERC20 unit :=
  dyn_ethCall erc20_functions (λ _, None) updateState (λ e, l_commit (e_locals e)) callInfo.

Definition ERC20_ethCallView (callInfo : ethCallInfo) : ST ERC20 bytes := dyn_ethCallView erc20_views callInfo.

(** ** Construction and destruction *)

Definition ERC20_blank (base : BaseContract) : ERC20 :=
  mkERC20 base Locals_init [] (SafeString_owned []) (SafeString_owned []) (SafeUint_owned 0) (SafeUint_owned 0)
    (SafeMap_owned ∅) (SafeMap_owned ∅).

Definition of_state {A} (r : outcome A * ERC20) : outcome ERC20 :=
  match r with (Ok _, e) => Ok e | (Throw x, _) => Throw x | (Undef, _) => Undef end.

Section Persistence.
Context `{RocksDB} `{!HashMapOrder}.

Definition ERC20_new (db : rstore) (erc20_name erc20_symbol : bytes) (erc20_decimals mintValue : Z)
    (addr creator : bytes) (chainId : Z) : outcome ERC20 * rstore :=
  let '(base, db) := BaseContract_new db (str "ERC20") addr creator chainId in
  (of_state ((_ ← on_name (sv_assign erc20_name);
              _ ← on_symbol (sv_assign erc20_symbol);
              _ ← on_decimals (sv_assign erc20_decimals);
              _ ← _mintValue creator mintValue;
              updateState true) (ERC20_blank base)), db).

(** An entry of a map of maps: the outer key, the inner key and the number;
    the right-hand side of the assignment is evaluated first. *)
Definition nested_entry (entry : DBEntry) : outcome (bytes * bytes * Z) :=
  n ← (x ← substr (e_value entry) 20 (zlen (e_value entry)); fromBigEndian256 x);
  a ← Address_ctor (e_key entry) true;
  s ← (x ← substr (e_value entry) 0 20; Address_ctor x true);
  Ok (a, s, n).

(** The constructor that loads the contract. *)
Definition ERC20_load (db : rstore) (addr : bytes) : outcome ERC20 :=
  let pfx := contract_prefix addr in
  base ← BaseContract_load db addr;
  of_state ((_ ← on_name (sv_assign (DB_get db (str "_name") pfx));
             _ ← on_symbol (sv_assign (DB_get db (str "_symbol") pfx));
             d ← lift (bytesToUint8 (DB_get db (str "_decimals") pfx));
             _ ← on_decimals (sv_assign d);
             t ← lift (bytesToUint256 (DB_get db (str "_totalSupply") pfx));
             _ ← on_totalSupply (sv_assign t);
             _ ← each (λ entry,
                   n ← lift (fromBigEndian256 (e_value entry));
                   a ← lift (Address_ctor (e_key entry) true);
                   on_balances (SafeMap_bracket 0 a (λ _, (Ok tt, n))))
                 (DB_getBatch db (pfx ++ str "_balances") []);
             _ ← each (λ entry,
                   '(a, s, n) ← lift (nested_entry entry);
                   on_allowed (SafeMap_bracket ∅ a (λ m, (Ok tt, <[s := n]> m))))
                 (DB_getBatch db (pfx ++ str "_allowed") []);
             updateState true) (ERC20_blank base)).

Definition balance_entries (m : gmap bytes Z) : list DBEntry :=
  (λ e, mkDBEntry e.1 (uintToBytes e.2)) <$> iter_map m.

Definition allowance_entries (m : gmap bytes (gmap bytes Z)) : list DBEntry :=
  flat_map (λ e, (λ e2, mkDBEntry e.1 (e2.1 ++ uintToBytes e2.2)) <$> iter_map e.2) (iter_map m).

(** The destructor saves what is committed; [get()] of the simple variables is
    their pending value. *)
Definition ERC20_dtor (e : ERC20) (db : rstore) : rstore :=
  let pfx := contract_prefix (contractAddress (e_base e)) in
  let db := (DB_put db (str "_name") (sv_pending (_name e)) pfx).2 in
  let db := (DB_put db (str "_symbol") (sv_pending (_symbol e)) pfx).2 in
  let db := (DB_put db (str "_decimals") (uint8ToBytes (sv_pending (_decimals e))) pfx).2 in
  let db := (DB_put db (str "_totalSupply") (uint256ToBytes (sv_pending (_totalSupply e))) pfx).2 in
  let db := (DB_putBatch db (mkDBBatch (balance_entries (sm_map (_balances e))) []) (pfx ++ str "_balances")).2 in
  (DB_putBatch db (mkDBBatch (allowance_entries (sm_map (_allowed e))) []) (pfx ++ str "_allowed")).2.

End Persistence.

End ERC20.

(** * Lemmas *)

(** ** The specification *)

(** A token as a ledger: balances, allowances by owner and spender, supply. *)
Record token := mkToken {
  t_bal : gmap bytes Z; t_allow : gmap bytes (gmap bytes Z); t_supply : Z;
}.

Inductive erc20_call :=
  | CTransfer (to : bytes) (value : Z)
  | CApprove (spender : bytes) (value : Z)
  | CTransferFrom (from to : bytes) (value : Z).

(** Moving [v] between balances, [None] when it cannot be paid or held. *)
Definition move (m : gmap bytes Z) (from to : bytes) (v : Z) : option (gmap bytes Z) :=
  let b := default 0 (m !! from) in
  let m1 := <[from := b - v]> m in
  let c := default 0 (m1 !! to) in
  if bool_decide (0 ≤ b - v < 2 ^ 256 ∧ 0 ≤ c + v < 2 ^ 256) then Some (<[to := c + v]> m1) else None.

Definition spec_call (caller : bytes) (c : erc20_call) (t : token) : option token :=
  match c with
  | CTransfer to v => m ← move (t_bal t) caller to v; Some (mkToken m (t_allow t) (t_supply t))
  | CApprove spender v =>
      Some (mkToken (t_bal t) (<[caller := <[spender := v]> (default ∅ (t_allow t !! caller))]> (t_allow t)) (t_supply t))
  | CTransferFrom from to v =>
      let inner := default ∅ (t_allow t !! from) in
      let a := default 0 (inner !! caller) in
      if bool_decide (0 ≤ a - v < 2 ^ 256) then
        m ← move (t_bal t) from to v;
        Some (mkToken m (<[from := <[caller := a - v]> inner]> (t_allow t)) (t_supply t))
      else None
  end.

(** The committed token of a contract, and the one its running call sees. *)
Definition committed (e : ERC20) : token := mkToken (sm_map (_balances e)) (sm_map (_allowed e)) (sv_value (_totalSupply e)).
Definition seen (e : ERC20) : token := mkToken (sm_view (_balances e)) (sm_view (_allowed e)) (sv_pending (_totalSupply e)).

(** ** The invariant *)

(** A simple variable with nothing pending. *)
Definition quiet {A} (v : SafeVar A) : Prop := sv_owned v = true ∧ sv_registered v = false ∧ sv_pending v = sv_value v.

(** A map of the contract during a call: no key erased, and nothing pending
    unless it is registered. *)
Definition live_map {T} (m : SafeMap T) : Prop :=
  sm_owned m = true ∧ sm_whole m ∧ (sm_registered m = false → sm_view m = sm_map m).

Record live (e : ERC20) : Prop := {
  lv_name : quiet (_name e); lv_symbol : quiet (_symbol e);
  lv_decimals : quiet (_decimals e); lv_supply : quiet (_totalSupply e);
  lv_balances : live_map (_balances e); lv_allowed : live_map (_allowed e);
  lv_used : e_used e = filter (λ v, v = v_balances ∨ v = v_allowed) (e_used e);
  lv_nodup : NoDup (e_used e);
  lv_reg_balances : v_balances ∈ e_used e ↔ sm_registered (_balances e) = true;
  lv_reg_allowed : v_allowed ∈ e_used e ↔ sm_registered (_allowed e) = true;
}.

(** Between calls. *)
Definition idle (e : ERC20) : Prop := live e ∧ e_used e = [].

Lemma used_cases (e : ERC20) :
  live e → e_used e = [] ∨ e_used e = [v_balances] ∨ e_used e = [v_allowed] ∨
    e_used e = [v_balances; v_allowed] ∨ e_used e = [v_allowed; v_balances].
Proof.
  intros Hl. pose proof (lv_used _ Hl) as Hu. pose proof (lv_nodup _ Hl) as Hn.
  assert (∀ v, v ∈ e_used e → v = v_balances ∨ v = v_allowed) as Hin.
  { intros v Hv. rewrite Hu in Hv. by apply list_elem_of_filter in Hv as [? _]. }
  clear -Hin Hn. destruct (e_used e) as [|x [|y [|z l]]]; [by left| | |].
  - destruct (Hin x ltac:(left)); subst; auto.
  - apply NoDup_cons in Hn as [Hx _]. rewrite list_elem_of_singleton in Hx.
    destruct (Hin x ltac:(left)), (Hin y ltac:(right; left)); subst; try done; auto.
  - apply NoDup_cons in Hn as [Hx Hn]. apply NoDup_cons in Hn as [Hy _].
    destruct (Hin x ltac:(left)), (Hin y ltac:(right; left)), (Hin z ltac:(right; right; left)); subst;
      exfalso; set_solver.
Qed.

(** The registered variables, and the flags of the two maps. *)
Definition used_is (e : ERC20) (used : list erc20_var) (b a : bool) : Prop :=
  e_used e = used ∧ sm_registered (_balances e) = b ∧ sm_registered (_allowed e) = a.

Lemma used_flags e :
  live e → used_is e [] false false ∨ used_is e [v_balances] true false ∨ used_is e [v_allowed] false true ∨
    used_is e [v_balances; v_allowed] true true ∨ used_is e [v_allowed; v_balances] true true.
Proof.
  intros Hl. pose proof (lv_reg_balances _ Hl) as Rb. pose proof (lv_reg_allowed _ Hl) as Ra.
  unfold used_is. destruct (used_cases e Hl) as [Eu|[Eu|[Eu|[Eu|Eu]]]]; rewrite Eu in *;
    rewrite ?elem_of_cons, elem_of_nil in Rb, Ra;
    destruct (sm_registered (_balances e)), (sm_registered (_allowed e)); naive_solver.
Qed.

(** The maps after the registered ones are committed or reverted. *)
Lemma live_map_commit {T} (m : SafeMap T) :
  live_map m → live_map (SafeMap_commit m) ∧ sm_map (SafeMap_commit m) = sm_view m ∧ sm_registered (SafeMap_commit m) = false.
Proof.
  intros (Ho & Hw & Hc). destruct (SafeMap_commit_whole m Hw) as (E1 & E2 & E3 & E4).
  split; [|done]. split; [done|]. split; [done|]. intros _. congruence.
Qed.

Lemma live_map_revert {T} (m : SafeMap T) :
  live_map m → live_map (SafeMap_revert m) ∧ sm_map (SafeMap_revert m) = sm_map m ∧ sm_registered (SafeMap_revert m) = false.
Proof.
  intros (Ho & Hw & Hc). destruct (SafeMap_revert_spec m) as (E1 & E2 & E3). split; [|done].
  split; [done|]. split; [done|]. intros _. by rewrite E1.
Qed.

Lemma idle_seen e : idle e → seen e = committed e.
Proof.
  intros [Hl Hu]. destruct Hl as [_ _ _ (_ & _ & Hs) (_ & _ & Hb) (_ & _ & Ha) _ _ Rb Ra].
  rewrite Hu in *. unfold seen, committed. f_equal; [apply Hb|apply Ha|done].
  - destruct (sm_registered (_balances e)); [|done]. by destruct (not_elem_of_nil _ (proj2 Rb eq_refl)).
  - destruct (sm_registered (_allowed e)); [|done]. by destruct (not_elem_of_nil _ (proj2 Ra eq_refl)).
Qed.

(** The two maps are finished and nothing is left registered. *)
Lemma finish e e' :
  live e → e_used e' = [] → quiet (_name e') → quiet (_symbol e') → quiet (_decimals e') → quiet (_totalSupply e') →
  live_map (_balances e') → live_map (_allowed e') →
  sm_registered (_balances e') = false → sm_registered (_allowed e') = false → idle e'.
Proof.
  intros Hl Hu ? ? ? ? ? ? Rb Ra. split; [|done]. split; try done; rewrite Hu, ?Rb, ?Ra; try done; [constructor|..];
    (split; [by intros ?%elem_of_nil|done]).
Qed.

Lemma update_false e :
  live e → ∃ e', updateState false e = (Ok tt, e') ∧ idle e' ∧ committed e' = committed e ∧
    e_locals e' = e_locals e ∧ e_base e' = e_base e.
Proof.
  intros Hl. pose proof Hl as [Hn Hs Hd Ht Hb Ha _ _ _ _].
  destruct (live_map_revert _ Hb) as (Lb & Mb & Gb), (live_map_revert _ Ha) as (La & Ma & Ga).
  unfold updateState. eexists. split; [done|].
  destruct (used_flags e Hl) as [(Eu & Rb & Ra)|[(Eu & Rb & Ra)|[(Eu & Rb & Ra)|[(Eu & Rb & Ra)|(Eu & Rb & Ra)]]]];
    rewrite Eu; cbn [foldl revert_var clear_used]; (split; [by apply (finish e)|done]).
Qed.

Lemma update_true e :
  live e → ∃ e', updateState true e = (Ok tt, e') ∧ idle e' ∧ committed e' = seen e ∧
    e_locals e' = e_locals e ∧ e_base e' = e_base e.
Proof.
  intros Hl. pose proof Hl as [Hn Hs Hd Ht Hb Ha _ _ _ _]. pose proof Ht as (_ & _ & Et).
  destruct (live_map_commit _ Hb) as (Lb & Mb & Gb), (live_map_commit _ Ha) as (La & Ma & Ga).
  unfold updateState, seen, committed. rewrite Et.
  destruct (used_flags e Hl) as [(Eu & Rb & Ra)|[(Eu & Rb & Ra)|[(Eu & Rb & Ra)|[(Eu & Rb & Ra)|(Eu & Rb & Ra)]]]];
    rewrite Eu; cbn [foldM commit_var mbind outcome_bind]; eexists; (split; [done|]);
    (split; [by apply (finish e)|]); cbn [clear_used _balances _allowed _totalSupply e_locals e_base];
    rewrite ?Mb, ?Ma; try rewrite (proj2 (proj2 Hb) Rb); try rewrite (proj2 (proj2 Ha) Ra); done.
Qed.

(** ** One operation on a map *)

Lemma on_balances_spec {B} (key : bytes) (f : Z → outcome B * Z) e :
  live e → let r := f (default 0 (sm_view (_balances e) !! key)) in
  ∃ e', on_balances (SafeMap_bracket 0 key f) e = (r.1, e') ∧ live e' ∧ committed e' = committed e ∧
    seen e' = mkToken (<[key := r.2]> (t_bal (seen e))) (t_allow (seen e)) (t_supply (seen e)) ∧
    e_locals e' = e_locals e ∧ e_base e' = e_base e.
Proof.
  intros Hl r. destruct Hl as [Hn Hs Hd Ht (Ob & Wb & Cb) Ha Hu Hnd Rb Ra].
  destruct (SafeMap_bracket_spec 0 key f (_balances e)) as (m & E & Hv & Hm & Hg & Ho & Hr). fold r in E, Hv.
  unfold on_balances. rewrite E. eexists. split; [done|]. rewrite Ob in *. cbn [orb] in Hr.
  unfold committed, seen. cbn [_balances _allowed _totalSupply e_locals e_base]. rewrite Hm, Hv. split; [|done].
  assert (live_map m) as Lm by (split; [done|]; split; [unfold sm_whole; by rewrite Hg|by rewrite Hr]).
  rewrite Hr. unfold uses. cbn [andb].
  destruct (sm_registered (_balances e)) eqn:Er; cbn [negb]; split; try done; cbn [e_used _balances _allowed].
  - rewrite Hr. tauto.
  - rewrite filter_app, <-Hu. by rewrite filter_cons_True by (by left).
  - apply NoDup_app. split_and!; [done| |apply NoDup_singleton]. intros v Hv' ->%list_elem_of_singleton. apply Rb in Hv'. done.
  - rewrite Hr. set_solver.
  - rewrite <-Ra. set_solver.
Qed.

Lemma on_allowed_spec {B} (key : bytes) (f : gmap bytes Z → outcome B * gmap bytes Z) e :
  live e → let r := f (default ∅ (sm_view (_allowed e) !! key)) in
  ∃ e', on_allowed (SafeMap_bracket ∅ key f) e = (r.1, e') ∧ live e' ∧ committed e' = committed e ∧
    seen e' = mkToken (t_bal (seen e)) (<[key := r.2]> (t_allow (seen e))) (t_supply (seen e)) ∧
    e_locals e' = e_locals e ∧ e_base e' = e_base e.
Proof.
  intros Hl r. destruct Hl as [Hn Hs Hd Ht Hb (Oa & Wa & Ca) Hu Hnd Rb Ra].
  destruct (SafeMap_bracket_spec ∅ key f (_allowed e)) as (m & E & Hv & Hm & Hg & Ho & Hr). fold r in E, Hv.
  unfold on_allowed. rewrite E. eexists. split; [done|]. rewrite Oa in *. cbn [orb] in Hr.
  unfold committed, seen. cbn [_balances _allowed _totalSupply e_locals e_base]. rewrite Hm, Hv. split; [|done].
  assert (live_map m) as Lm by (split; [done|]; split; [unfold sm_whole; by rewrite Hg|by rewrite Hr]).
  rewrite Hr. unfold uses. cbn [andb].
  destruct (sm_registered (_allowed e)) eqn:Er; cbn [negb]; split; try done; cbn [e_used _balances _allowed].
  - rewrite Hr. tauto.
  - rewrite filter_app, <-Hu. by rewrite filter_cons_True by (by right).
  - apply NoDup_app. split_and!; [done| |apply NoDup_singleton]. intros v Hv' ->%list_elem_of_singleton. apply Ra in Hv'. done.
  - rewrite <-Rb. set_solver.
  - rewrite Hr. set_solver.
Qed.

(** ** The functions against their specification *)

Section Spec.
Context `{Keccak} `{!CheckedLeft}.

Lemma checked_cases w x :
  (0 ≤ x < 2 ^ w ∧ checked w x = Ok x) ∨ (¬ (0 ≤ x < 2 ^ w) ∧ ∃ e, checked w x = Throw e).
Proof. unfold checked. repeat zcase; [right|left|right]; (split; [lia|]); eauto. Qed.

Lemma sub_assign_cases x y :
  (0 ≤ x - y < 2 ^ 256 ∧ sub_assign x y = (Ok tt, x - y)) ∨
  (¬ (0 ≤ x - y < 2 ^ 256) ∧ ∃ e z, sub_assign x y = (Throw e, z)).
Proof.
  unfold sub_assign, sub256. destruct (checked_cases 256 (x - y)) as [[? ->]|[? [e ->]]]; [left|right]; eauto.
Qed.

Lemma add_assign_cases x y :
  (0 ≤ x + y < 2 ^ 256 ∧ add_assign x y = (Ok tt, x + y)) ∨
  (¬ (0 ≤ x + y < 2 ^ 256) ∧ ∃ e z, add_assign x y = (Throw e, z)).
Proof.
  unfold add_assign, add256. destruct (checked_cases 256 (x + y)) as [[? ->]|[? [e ->]]]; [left|right]; eauto.
Qed.

(** A function of the contract does what the specification says, on the values
    the call sees; what is committed does not change. *)
Definition implements (op : ST ERC20 unit) (spec : bytes → token → option token) : Prop :=
  ∀ e, live e → ∃ r e', op e = (r, e') ∧ live e' ∧ committed e' = committed e ∧
    e_locals e' = e_locals e ∧ e_base e' = e_base e ∧
    match spec (getCaller e) (seen e) with
    | Some t => r = Ok tt ∧ seen e' = t
    | None => ∃ x, r = Throw x
    end.

(** The two balance changes that transfers share. *)
Definition move_op (from to : bytes) (v : Z) : ST ERC20 unit :=
  _ ← on_balances (SafeMap_bracket 0 from (λ b, sub_assign b v));
  on_balances (SafeMap_bracket 0 to (λ b, add_assign b v)).

Lemma move_op_spec from to v :
  implements (move_op from to v)
    (λ _ t, m ← move (t_bal t) from to v; Some (mkToken m (t_allow t) (t_supply t))).
Proof.
  intros e Hl. unfold move_op, move. cbv zeta.
  destruct (on_balances_spec from (λ b, sub_assign b v) e Hl) as (e1 & E1 & L1 & C1 & S1 & Lo1 & B1).
  change (sm_view (_balances e)) with (t_bal (seen e)) in *.
  unfold mbind at 1, ST_bind. rewrite E1.
  destruct (sub_assign_cases (default 0 (t_bal (seen e) !! from)) v) as [[Hr Er]|[Hr (x & z & Er)]];
    rewrite Er in *; cbn [fst snd] in *.
  2: { rewrite bool_decide_false by tauto. exists (Throw x), e1. split_and!; try done. by eexists. }
  destruct (on_balances_spec to (λ b, add_assign b v) e1 L1) as (e2 & E2 & L2 & C2 & S2 & Lo2 & B2).
  change (sm_view (_balances e1)) with (t_bal (seen e1)) in *. rewrite E2.
  rewrite S1 in E2, S2 |- *. cbn [t_bal t_allow t_supply] in *.
  destruct (add_assign_cases (default 0 (<[from:=default 0 (t_bal (seen e) !! from) - v]> (t_bal (seen e)) !! to)) v)
    as [[Ha Ea]|[Ha (x & z & Ea)]]; rewrite Ea in *; cbn [fst snd] in *.
  - rewrite bool_decide_true by done. exists (Ok tt), e2. split_and!; try done; congruence.
  - rewrite bool_decide_false by tauto. exists (Throw x), e2. split_and!; try done; try congruence. by eexists.
Qed.

Lemma transfer_implements to v : implements (transfer to v) (λ caller, spec_call caller (CTransfer to v)).
Proof. intros e Hl. apply (move_op_spec (getCaller e) to v e Hl). Qed.

Lemma approve_implements spender v : implements (approve spender v) (λ caller, spec_call caller (CApprove spender v)).
Proof.
  intros e Hl. destruct (on_allowed_spec (getCaller e) (λ m, (Ok tt, <[spender := v]> m)) e Hl) as (e1 & E1 & L1 & C1 & S1 & Lo1 & B1).
  exists (Ok tt), e1. split_and!; try done.
Qed.

Lemma transferFrom_implements from to v :
  implements (transferFrom from to v) (λ caller, spec_call caller (CTransferFrom from to v)).
Proof.
  intros e Hl. cbn [spec_call]. cbv zeta.
  destruct (on_allowed_spec from (sub_entry (getCaller e) v) e Hl) as (e1 & E1 & L1 & C1 & S1 & Lo1 & B1).
  change (sm_view (_allowed e)) with (t_allow (seen e)) in *.
  change (transferFrom from to v e) with
    ((_ ← on_allowed (SafeMap_bracket ∅ from (sub_entry (getCaller e) v)); move_op from to v) e).
  unfold mbind at 1, ST_bind. rewrite E1. set (inner := default ∅ (t_allow (seen e) !! from)) in *.
  unfold sub_entry in S1 |- *.
  destruct (sub_assign_cases (default 0 (inner !! getCaller e)) v) as [[Hr Er]|[Hr (x & z & Er)]];
    rewrite Er in *; cbn [fst snd] in *.
  - rewrite bool_decide_true by done. destruct (move_op_spec from to v e1 L1) as (r & e2 & E2 & L2 & C2 & Lo2 & B2 & S2).
    rewrite S1 in S2. cbn [t_bal t_allow t_supply] in S2. exists r, e2. split_and!; try done; congruence.
  - rewrite bool_decide_false by done. exists (Throw x), e1. split_and!; try done. by eexists.
Qed.

(** ** Calls *)

(** The call that the calldata asks for. *)
Definition parse_call (callInfo : ethCallInfo) : outcome erc20_call :=
  let f := take 4 (ci_data callInfo) in
  if bool_decide (be_split 4 0xa9059cbb = f) then
    vs ← decode_args [address; uint256] callInfo;
    a ← getData as_address vs 0; v ← getData as_uint256 vs 1; Ok (CTransfer a v)
  else if bool_decide (be_split 4 0x095ea7b3 = f) then
    vs ← decode_args [address; uint256] callInfo;
    a ← getData as_address vs 0; v ← getData as_uint256 vs 1; Ok (CApprove a v)
  else if bool_decide (be_split 4 0x23b872dd = f) then
    vs ← decode_args [address; address; uint256] callInfo;
    a ← getData as_address vs 0; b ← getData as_address vs 1; v ← getData as_uint256 vs 2; Ok (CTransferFrom a b v)
  else Throw (runtime_error "Functor not found").

Definition run_parsed (c : erc20_call) : ST ERC20 unit :=
  match c with
  | CTransfer to v => transfer to v
  | CApprove spender v => approve spender v
  | CTransferFrom from to v => transferFrom from to v
  end.

Lemma run_parsed_implements c : implements (run_parsed c) (λ caller, spec_call caller c).
Proof. destruct c; [apply transfer_implements|apply approve_implements|apply transferFrom_implements]. Qed.

(** Dispatching is parsing and then running. *)
Lemma dispatch_parse callInfo e :
  match erc20_functions (take 4 (ci_data callInfo)) with
  | Some func => func callInfo
  | None => lift (Throw (runtime_error "Functor not found"))
  end e = match parse_call callInfo with
          | Ok c => run_parsed c e
          | Throw x => (Throw x, e)
          | Undef => (Undef, e)
          end.
Proof.
  unfold erc20_functions, table, parse_call. cbn [List.find fst snd].
  repeat (case_bool_decide; [cbn [fmap option_fmap option_map snd]|]); [| | |done];
    unfold call_transfer, call_approve, call_transferFrom; rewrite lift_bind;
    destruct (decode_args _ callInfo) as [vs| |]; try done; cbn [mbind outcome_bind];
    repeat (rewrite lift_bind; match goal with |- context [getData ?p vs ?i] => destruct (getData p vs i) end; try done);
    done.
Qed.

(** Decoding fixed-size arguments is checked. *)
Definition is_static (t : Types) : bool := match t with address | uint256 => true | _ => false end.

Lemma decode_static t d i :
  is_static t = true → 0 ≤ i < 2 ^ 32 → decode_arg t d i ≠ Undef.
Proof.
  intros Ht Hi. assert (u64 (i + 32) = i + 32) as E by (unfold wrap; apply Z.mod_small; lia).
  destruct t; try done; cbn [decode_arg]; unfold decodeAddress, decodeUint256; rewrite E.
  - destruct (Z.ltb_spec (zlen d) (i + 32)); [done|]. cbn [throw_if mbind outcome_bind]. unfold copy_range.
    rewrite bool_decide_true by lia. cbn [mbind outcome_bind]. unfold bytesToUint256, throw_if.
    repeat case_match; by cbn.
  - destruct (Z.ltb_spec (zlen d) (i + 32)); [done|]. cbn [throw_if mbind outcome_bind]. unfold copy_range.
    rewrite bool_decide_true by lia. cbn [mbind outcome_bind]. unfold Address_ctor, throw_if. by case_match.
Qed.

Lemma Decoder_static ts d i :
  Forall (λ t, is_static t = true) ts → 0 ≤ i → i + 32 * zlen ts < 2 ^ 32 → Decoder_loop ts d i ≠ Undef.
Proof.
  intros Ht. revert i. induction Ht as [|t ts Ht Hts IH]; intros i Hi Hb; [done|]. rewrite zlen_cons in Hb.
  pose proof (zlen_nonneg ts). cbn [Decoder_loop].
  pose proof (decode_static t d i Ht ltac:(lia)). destruct (decode_arg t d i); [|done..]. cbn [mbind outcome_bind].
  pose proof (IH (i + 32) ltac:(lia) ltac:(lia)). by destruct (Decoder_loop ts d (i + 32)).
Qed.

Lemma getData_defined {A} (p : EncVar → option A) vs i : getData p vs i ≠ Undef.
Proof. unfold getData. repeat case_match; try done. by destruct (p _). Qed.

Lemma parse_call_defined callInfo : parse_call callInfo ≠ Undef.
Proof.
  assert (∀ ts, Forall (λ t, is_static t = true) ts → zlen ts < 8 → decode_args ts callInfo ≠ Undef) as Hd.
  { intros ts Ht Hz. unfold decode_args, substr. case_match; [|done]. cbn [mbind outcome_bind].
    apply Decoder_static; [done|lia|lia]. }
  unfold parse_call. repeat case_bool_decide; try done;
    match goal with |- context [decode_args ?ts ?ci] =>
      pose proof (Hd ts ltac:(repeat constructor) ltac:(reflexivity)); destruct (decode_args ts ci) as [vs| |]; try done
    end; cbn [mbind outcome_bind];
    repeat match goal with |- context [getData ?p ?vs ?i] =>
      pose proof (getData_defined p vs i); destruct (getData p vs i); try done; cbn [mbind outcome_bind]
    end.
Qed.

Lemma ERC20_call_spec callInfo e :
  idle e → ∃ r e', ERC20_ethCall callInfo e = (r, e') ∧ idle e' ∧ e_locals e' = e_locals e ∧ e_base e' = e_base e ∧
    match (c ← parse_call callInfo;
           of_option (runtime_error "rejected") (spec_call (getCaller e) c (committed e))) with
    | Ok t => r = Ok tt ∧ committed e' = if l_commit (e_locals e) then t else committed e
    | _ => (∃ x, r = Throw (runtime_error x)) ∧ committed e' = committed e
    end.
Proof.
  intros Hi. pose proof Hi as [Hl _]. pose proof (idle_seen _ Hi) as Hs. unfold ERC20_ethCall, dyn_ethCall. cbv zeta.
  unfold mbind at 1, ST_bind at 1, catching. rewrite dispatch_parse.
  pose proof (parse_call_defined callInfo) as Hd.
  destruct (parse_call callInfo) as [c|x|]; [| |done].
  - cbn [mbind outcome_bind]. destruct (run_parsed_implements c e Hl) as (r & e1 & E1 & L1 & C1 & Lo1 & B1 & S1).
    rewrite E1, Hs in *. destruct (spec_call (getCaller e) c (committed e)) as [t|]; cbn [of_option].
    + destruct S1 as [-> S1]. unfold mbind at 1, ST_bind at 1, gets. rewrite Lo1.
      destruct (l_commit (e_locals e)).
      * destruct (update_true e1 L1) as (e2 & E2 & I2 & C2 & Lo2 & B2). rewrite E2.
        exists (Ok tt), e2. split_and!; try done; congruence.
      * destruct (update_false e1 L1) as (e2 & E2 & I2 & C2 & Lo2 & B2). rewrite E2.
        exists (Ok tt), e2. split_and!; try done; congruence.
    + destruct S1 as [x ->]. destruct (update_false e1 L1) as (e2 & E2 & I2 & C2 & Lo2 & B2).
      unfold mbind at 1, ST_bind at 1. rewrite E2. cbn [lift].
      exists (Throw (runtime_error (what x))), e2. split_and!; try done; try congruence. by eexists.
  - cbn [mbind outcome_bind]. destruct (update_false e Hl) as (e2 & E2 & I2 & C2 & Lo2 & B2).
    unfold mbind at 1, ST_bind at 1. rewrite E2. cbn [lift].
    exists (Throw (runtime_error (what x))), e2. split_and!; try done; try congruence. by eexists.
Qed.

(** C14: a call of an ERC20 contract is a transaction on the ledger: on any
    calldata it returns or throws a [runtime_error]; when it returns with the
    commit flag set the committed balances and allowances are those of the
    specification, and in every other case (an unknown selector, malformed
    arguments, insufficient funds or allowance, a simulated call) they are
    what they were.  The contract is ready for the next call either way. *)
Theorem erc20_call_atomic callInfo e :
  idle e → ∃ r e', ERC20_ethCall callInfo e = (r, e') ∧ idle e' ∧
    match (c ← parse_call callInfo;
           of_option (runtime_error "rejected") (spec_call (getCaller e) c (committed e))) with
    | Ok t => r = Ok tt ∧ committed e' = if l_commit (e_locals e) then t else committed e
    | _ => (∃ x, r = Throw (runtime_error x)) ∧ committed e' = committed e
    end.
Proof.
  intros Hi. destruct (ERC20_call_spec callInfo e Hi) as (r & e' & E & Hi' & _ & _ & Hm). by exists r, e'.
Qed.

(** ** The supply *)

Definition tsum (m : gmap bytes Z) : Z := map_fold (λ _ b s, b + s) 0 m.

Lemma tsum_insert m k x : tsum (<[k := x]> m) = tsum m - default 0 (m !! k) + x.
Proof.
  assert (∀ m k x, m !! k = None → tsum (<[k := x]> m) = x + tsum m) as Hf.
  { intros m' k' x' E. unfold tsum. rewrite (map_fold_insert_L _ _ k' x' m'); [done| |done]. intros. lia. }
  destruct (m !! k) as [y|] eqn:E.
  - rewrite <-(insert_delete_id m k y) at 2 by done.
    rewrite <-insert_delete_eq, !Hf by apply lookup_delete_eq. cbn. lia.
  - rewrite Hf by done. cbn. lia.
Qed.

Lemma move_sum m from to v m' : move m from to v = Some m' → tsum m' = tsum m.
Proof.
  unfold move. case_bool_decide; [|done]. intros [= <-]. rewrite !tsum_insert. lia.
Qed.

Lemma move_ok m from to v m' :
  map_Forall (λ _, is_uint 256) m → move m from to v = Some m' → map_Forall (λ _, is_uint 256) m'.
Proof.
  intros Hm. unfold move. case_bool_decide as Hd; [|done]. intros [= <-].
  apply map_Forall_insert_2; [unfold is_uint; lia|]. apply map_Forall_insert_2; [unfold is_uint; lia|done].
Qed.

(** Balances are numbers of their type and add up to the supply. *)
Definition balanced (t : token) : Prop := map_Forall (λ _, is_uint 256) (t_bal t) ∧ tsum (t_bal t) = t_supply t.

Lemma spec_call_balanced caller c t t' :
  balanced t → spec_call caller c t = Some t' → balanced t' ∧ t_supply t' = t_supply t.
Proof.
  intros [Hb Hs] E. destruct c as [to v|sp v|from to v]; cbn [spec_call] in E.
  - destruct (move (t_bal t) caller to v) eqn:Em; [|done]. injection E as <-.
    split; [|done]. split; cbn; [by eapply move_ok|]. by rewrite (move_sum _ _ _ _ _ Em).
  - injection E as <-. done.
  - case_bool_decide; [|done]. destruct (move (t_bal t) from to v) eqn:Em; [|done]. injection E as <-.
    split; [|done]. split; cbn; [by eapply move_ok|]. by rewrite (move_sum _ _ _ _ _ Em).
Qed.

(** Calls of a contract: the manager sets the locals and calls. *)
Inductive erc20_step : ERC20 → ERC20 → Prop :=
  | es_call e locals callInfo r e' :
      ERC20_ethCall callInfo (set_locals e locals) = (r, e') → erc20_step e e'.

Lemma set_locals_idle e l : idle e → idle (set_locals e l).
Proof. intros [Hl Hu]. split; [|done]. by destruct Hl. Qed.

Lemma erc20_step_balanced e e' :
  erc20_step e e' → idle e → balanced (committed e) →
  idle e' ∧ balanced (committed e') ∧ t_supply (committed e') = t_supply (committed e).
Proof.
  intros [e0 l ci r e1 E] Hi Hb. pose proof (set_locals_idle e0 l Hi) as Hi'.
  destruct (ERC20_call_spec ci _ Hi') as (r' & e2 & E2 & Hi2 & _ & _ & Hm). rewrite E in E2. injection E2 as -> ->.
  change (committed (set_locals e0 l)) with (committed e0) in Hm. split; [done|].
  destruct (parse_call ci) as [c| |]; cbn [mbind outcome_bind] in Hm; [|by destruct Hm as [_ ->]..].
  destruct (spec_call _ c (committed e0)) as [t|] eqn:Es; cbn [of_option] in Hm; [|by destruct Hm as [_ ->]].
  destruct Hm as [_ ->]. case_match; [|done]. by eapply spec_call_balanced.
Qed.

(** C13: no sequence of calls, by any callers with any calldata, successful,
    failed or simulated, changes the total supply of a token, and the balances
    always add up to it. *)
Theorem erc20_supply_conserved e e' :
  idle e → balanced (committed e) → rtc erc20_step e e' →
  tsum (sm_map (_balances e')) = sv_value (_totalSupply e) ∧ sv_value (_totalSupply e') = sv_value (_totalSupply e) ∧
  map_Forall (λ _, is_uint 256) (sm_map (_balances e')).
Proof.
  intros Hi Hb Hr. assert (idle e' ∧ balanced (committed e') ∧ t_supply (committed e') = t_supply (committed e))
    as (_ & [H1' H2'] & H3').
  { induction Hr as [|e e1 e2 Hs Hr IH]; [done|].
    destruct (erc20_step_balanced _ _ Hs Hi Hb) as (Hi1 & Hb1 & Hs1).
    destruct (IH Hi1 Hb1) as (? & ? & ?). split_and!; congruence || done. }
  cbn in *. split_and!; [congruence|done|done].
Qed.

End Spec.

(** ** New tokens *)

Section New.
Context `{Keccak} `{!CheckedLeft} `{RocksDB} `{!HashMapOrder}.

(** A new token is ready for calls; its creator holds the whole supply. *)
Lemma ERC20_new_spec db n s d mint addr creator chainId :
  is_uint 256 mint →
  ∃ e, (ERC20_new db n s d mint addr creator chainId).1 = Ok e ∧ idle e ∧
    committed e = mkToken {[ creator := mint ]} ∅ mint ∧ sv_value (_decimals e) = d ∧
    e_base e = mkBase (str "ERC20") addr creator chainId.
Proof.
  intros Hm. unfold is_uint in Hm.
  assert (add_assign 0 mint = (Ok tt, mint)) as Ea.
  { unfold add_assign. by rewrite add256_Ok by lia. }
  assert (uint_add 256 0 mint = Ok mint) as Eu.
  { rewrite uint_add_spec by (unfold is_uint; lia). by rewrite (proj2 (Z.ltb_lt _ _)) by lia. }
  destruct (SafeMap_bracket_spec 0 creator (λ b, add_assign b mint) (SafeMap_owned ∅)) as (m & E & Hv & Hmap & Hg & Ho & Hr).
  assert (sm_view (SafeMap_owned (∅ : gmap bytes Z)) = ∅) as Hv0 by (rewrite sm_view_whole by done; apply map_empty_union).
  rewrite Hv0, lookup_empty in E, Hv. change (default 0 (@None Z)) with 0 in E, Hv. rewrite Ea in E, Hv. cbn [fst snd] in E, Hv.
  assert (live_map m) as Lm by (split; [done|]; split; [done|by rewrite Hr]).
  destruct (live_map_commit m Lm) as (Lc & Mc & Rc).
  assert (live_map (SafeMap_owned (∅ : gmap bytes (gmap bytes Z)))) as La
    by (split; [done|]; split; [done|]; intros _; rewrite sm_view_whole by done; apply map_empty_union).
  unfold ERC20_new, BaseContract_new. cbn [fst].
  set (base := mkBase (str "ERC20") addr creator chainId).
  set (sn := mkSafeVar true true [] (Some n)). set (ss := mkSafeVar true true [] (Some s)).
  set (sd := mkSafeVar true true 0 (Some d)). set (st := mkSafeVar true true 0 (Some mint)).
  set (al := SafeMap_owned (∅ : gmap bytes (gmap bytes Z))).
  exists (mkERC20 base Locals_init [] (mkSafeVar true false n (Some n)) (mkSafeVar true false s (Some s))
            (mkSafeVar true false d None) (mkSafeVar true false mint None) (SafeMap_commit m) al).
  split; [|split; [|split; [|done]]].
  - pose (e1 := mkERC20 base Locals_init [v_name] sn (SafeString_owned []) (SafeUint_owned 0) (SafeUint_owned 0) (SafeMap_owned ∅) al).
    pose (e2 := mkERC20 base Locals_init [v_name; v_symbol] sn ss (SafeUint_owned 0) (SafeUint_owned 0) (SafeMap_owned ∅) al).
    pose (e3 := mkERC20 base Locals_init [v_name; v_symbol; v_decimals] sn ss sd (SafeUint_owned 0) (SafeMap_owned ∅) al).
    pose (e4 := mkERC20 base Locals_init [v_name; v_symbol; v_decimals; v_balances] sn ss sd (SafeUint_owned 0) m al).
    pose (e5 := mkERC20 base Locals_init [v_name; v_symbol; v_decimals; v_balances; v_totalSupply] sn ss sd st m al).
    unfold mbind, ST_bind, _mintValue.
    assert (on_name (sv_assign n) (ERC20_blank base) = (Ok tt, e1)) as -> by reflexivity.
    assert (on_symbol (sv_assign s) e1 = (Ok tt, e2)) as -> by reflexivity.
    assert (on_decimals (sv_assign d) e2 = (Ok tt, e3)) as -> by reflexivity.
    unfold mbind, ST_bind.
    assert (on_balances (SafeMap_bracket 0 creator (λ b, add_assign b mint)) e3 = (Ok tt, e4)) as ->.
    { unfold on_balances. change (_balances e3) with (SafeMap_owned (∅ : gmap bytes Z)). rewrite E, Hr. reflexivity. }
    assert (on_totalSupply (SafeUint_add_assign 256 mint) e4 = (Ok tt, e5)) as ->.
    { unfold on_totalSupply, SafeUint_add_assign. change (_totalSupply e4) with (SafeUint_owned 0). rewrite sv_update_spec.
      change (sv_pending (SafeUint_owned 0)) with 0. by rewrite Eu. }
    reflexivity.
  - split; [|done]. split; try done; [constructor|..]; cbn [e_used _balances _allowed];
      rewrite ?Rc; (split; [by intros ?%elem_of_nil|done]).
  - unfold committed. cbn [_balances _allowed _totalSupply]. by rewrite Mc, Hv.
Qed.

End New.

(** * Examples *)

Definition token_of (o : outcome ERC20) (base : BaseContract) : ERC20 :=
  match o with Ok e => e | _ => ERC20_blank base end.

Lemma token_of_Ok o base e : o = Ok e → token_of o base = e.
Proof. by intros ->. Qed.

Definition holder : bytes := replicate 20 1.
Definition receiver : bytes := replicate 20 2.

Definition sample_token : ERC20 :=
  token_of (@ERC20_new toy_left toy_rocks [] (str "Orbiter") (str "ORB") 18 1000 (replicate 20 9) holder 8080).1
    (mkBase [] [] [] 0).

Lemma sample_token_ok : idle sample_token ∧ committed sample_token = mkToken {[ holder := 1000 ]} ∅ 1000.
Proof.
  destruct (@ERC20_new_spec toy_left toy_rocks [] (str "Orbiter") (str "ORB") 18 1000 (replicate 20 9) holder 8080)
    as (e & E & Hi & Hc & _); [split; lia|].
  assert (sample_token = e) as -> by exact (token_of_Ok _ _ _ E). split; [exact Hi|exact Hc].
Qed.

(** [transfer(receiver, 300)]. *)
Definition transfer_300 : ethCallInfo :=
  mkCallInfo holder (replicate 20 9) 0 0 0
    (be_split 4 0xa9059cbb ++ encodeAddress receiver ++ encodeUint256 300).

Lemma erc20_call_atomic_witness :
  ∃ e', @ERC20_ethCall toy_left transfer_300 (set_locals sample_token (mkLocals holder holder 0 true)) = (Ok tt, e') ∧
    idle e' ∧ sm_map (_balances e') = <[ receiver := 300 ]> {[ holder := 700 ]}.
Proof.
  pose proof sample_token_ok as [Hi Hc]. revert Hi Hc. generalize sample_token. intros e Hi Hc.
  destruct (@erc20_call_atomic toy_left transfer_300 (set_locals e (mkLocals holder holder 0 true))) as (r & e' & E & Hi' & Hm).
  - apply set_locals_idle. exact Hi.
  - assert (parse_call transfer_300 = Ok (CTransfer receiver 300)) as Ep by (vm_compute; reflexivity).
    rewrite Ep in Hm. change (committed (set_locals e _)) with (committed e) in Hm. rewrite Hc in Hm.
    destruct Hm as [-> Hm]. exists e'. split; [exact E|]. split; [exact Hi'|].
    etransitivity; [exact (f_equal t_bal Hm)|]. vm_compute. reflexivity.
Defined.

Lemma erc20_supply_conserved_witness :
  ∃ e', rtc (@erc20_step toy_left) sample_token e' ∧ tsum (sm_map (_balances e')) = 1000.
Proof.
  pose proof sample_token_ok as [Hi Hc]. revert Hi Hc. generalize sample_token. intros e Hi Hc.
  set (r := @ERC20_ethCall toy_left transfer_300 (set_locals e (mkLocals holder holder 0 true))).
  assert (rtc (@erc20_step toy_left) e r.2) as Hr.
  { apply rtc_once. apply (es_call e (mkLocals holder holder 0 true) transfer_300 r.1). apply surjective_pairing. }
  exists r.2. split; [exact Hr|].
  assert (balanced (committed e)) as Hb.
  { rewrite Hc. split; [apply map_Forall_singleton; split; lia|reflexivity]. }
  destruct (@erc20_supply_conserved toy_left e r.2 Hi Hb Hr) as (Ht & _).
  rewrite Ht. exact (f_equal t_supply Hc).
Defined.
