(* ===== verification/ContractManager.v ===== *)
(** * ContractManager: deployed contracts and the calls between them
      (src/contract/contractmanager.{h,cpp}, erc20wrapper, nativewrapper)

    The manager owns the contracts, the temporary balances of payable calls
    and its own locals.  Contracts reach each other and the native balances
    through it, so their functions run on the whole manager.  The addresses of
    [State]'s accounts are read during a call and change only through the
    function that [State] passes in.  Calls to the rdPoS contract always throw,
    because it does not override [ethCall]. *)

From S2P Require Import Prelude Utils Hex Strings Ecdsa Tx Block DB Storage State SafeVars ABI Contract ERC20.

(** ** Data *)

Record ERC20Wrapper := mkWrapper {
  w_base : BaseContract;
  w_locals : ContractLocals;
  w_used : bool;                   (** its only variable is in [usedVariables] *)
  _tokensAndBalances : SafeMap (gmap bytes Z);
}.

(** [NativeWrapper] has the variables of [ERC20]. *)
Inductive DynamicContract :=
  | D_ERC20 (e : ERC20)
  | D_ERC20Wrapper (w : ERC20Wrapper)
  | D_NativeWrapper (e : ERC20).

Record Manager := mkManager {
  m_locals : ContractLocals;
  balances : gmap bytes Z;
  contracts : gmap bytes DynamicContract;
}.

Definition rdPoS_address : bytes := be_split 20 0xb23aa52dbeda59277ab8a962c69f5971f22904cf.
Definition manager_address : bytes := be_split 20 0x0001cb47ea6d8b55fe44fdd6b1bdb579efb43e61.
Definition manager_creator : bytes := be_split 20 0x00dead00665771855a34155f5e7405489df2c3c6.
Definition ProtocolContractAddresses : list bytes := [rdPoS_address; manager_address].

Definition set_mlocals (m : Manager) (l : ContractLocals) : Manager := mkManager l (balances m) (contracts m).
Definition set_balances (m : Manager) (b : gmap bytes Z) : Manager := mkManager (m_locals m) b (contracts m).
Definition set_contracts (m : Manager) (c : gmap bytes DynamicContract) : Manager := mkManager (m_locals m) (balances m) c.

Definition with_commit (l : ContractLocals) (b : bool) : ContractLocals := mkLocals (l_origin l) (l_caller l) (l_value l) b.

Definition dc_locals (d : DynamicContract) : ContractLocals :=
  match d with D_ERC20 e | D_NativeWrapper e => e_locals e | D_ERC20Wrapper w => w_locals w end.

Definition dc_set_locals (d : DynamicContract) (l : ContractLocals) : DynamicContract :=
  match d with
  | D_ERC20 e => D_ERC20 (set_locals e l)
  | D_NativeWrapper e => D_NativeWrapper (set_locals e l)
  | D_ERC20Wrapper w => D_ERC20Wrapper (mkWrapper (w_base w) l (w_used w) (_tokensAndBalances w))
  end.

Definition dc_base (d : DynamicContract) : BaseContract :=
  match d with D_ERC20 e | D_NativeWrapper e => e_base e | D_ERC20Wrapper w => w_base w end.

(** Changes the locals of the contract at [addr]. *)
Definition on_locals (addr : bytes) (f : ContractLocals → ContractLocals) : ST Manager unit := modify (λ m,
  set_contracts m (alter (λ d, dc_set_locals d (f (dc_locals d))) addr (contracts m))).

Definition getCommit_at (addr : bytes) (m : Manager) : bool :=
  match contracts m !! addr with Some d => l_commit (dc_locals d) | None => false end.

(** [isPayableFunction]: [deposit] and [withdraw] of a [NativeWrapper]. *)
Definition isPayableFunction (d : DynamicContract) (functor : bytes) : bool :=
  match d with
  | D_NativeWrapper _ => bool_decide (functor = be_split 4 0xd0e30db0 ∨ functor = be_split 4 0x2e1a7d4d)
  | _ => false
  end.

Section Manager.
Context `{Keccak} `{!CheckedLeft}.
Context (accts : gmap bytes Account).   (** [state->accounts] *)

(** ** ContractManagerInterface *)

Definition populateBalance (addr : bytes) : ST Manager unit := modify (λ m,
  match balances m !! addr with
  | Some _ => m
  | None => set_balances m (<[addr := match accts !! addr with Some acc => balance acc | None => 0 end]> (balances m))
  end).

Definition getBalanceFromAddress (addr : bytes) : ST Manager Z :=
  _ ← populateBalance addr; gets (λ m, default 0 (balances m !! addr)).

(** A compound assignment to [balances[addr]]. *)
Definition assign_balance (op : Z → Z → outcome unit * Z) (addr : bytes) (x : Z) : ST Manager unit := λ m,
  let '(r, v) := op (default 0 (balances m !! addr)) x in (r, set_balances m (<[addr := v]> (balances m))).

(** The check compares the balance of the recipient. *)
Definition sendTokens (from to : bytes) (amount : Z) : ST Manager unit :=
  _ ← populateBalance from;
  _ ← populateBalance to;
  b ← gets (λ m, default 0 (balances m !! to));
  if b <? amount then lift (Throw (runtime_error "Not enough balance"))
  else
    _ ← assign_balance sub_assign from amount;
    assign_balance add_assign to amount.

(** ** The contracts in place *)

(** Runs an operation of the token at [addr]. *)
Definition on_token {B} (addr : bytes) (op : ST ERC20 B) : ST Manager B := λ m,
  match contracts m !! addr with
  | Some (D_ERC20 e) => let '(r, e) := op e in (r, set_contracts m (<[addr := D_ERC20 e]> (contracts m)))
  | Some (D_NativeWrapper e) => let '(r, e) := op e in (r, set_contracts m (<[addr := D_NativeWrapper e]> (contracts m)))
  | _ => (Undef, m)
  end.

(** Runs an operation of the wrapper's variable. *)
Definition on_tokens {B} (addr : bytes) (op : ST (SafeMap (gmap bytes Z)) B) : ST Manager B := λ m,
  match contracts m !! addr with
  | Some (D_ERC20Wrapper w) =>
      let '(r, v) := op (_tokensAndBalances w) in
      (r, set_contracts m (<[addr := D_ERC20Wrapper (mkWrapper (w_base w) (w_locals w)
            (w_used w || (sm_registered v && negb (sm_registered (_tokensAndBalances w)))) v)]> (contracts m)))
  | _ => (Undef, m)
  end.

Definition wrapper_updateState (addr : bytes) (commitToState : bool) : ST Manager unit := modify (λ m,
  match contracts m !! addr with
  | Some (D_ERC20Wrapper w) =>
      let v := _tokensAndBalances w in
      let v := if w_used w then (if commitToState then SafeMap_commit v else SafeMap_revert v) else v in
      set_contracts m (<[addr := D_ERC20Wrapper (mkWrapper (w_base w) (w_locals w) false v)]> (contracts m))
  | _ => m
  end).

(** ** NativeWrapper *)

Definition native_deposit (self : bytes) : ST Manager unit :=
  on_token self (caller ← gets getCaller; value ← gets (λ e, l_value (e_locals e));
                 on_balances (SafeMap_bracket 0 caller (λ b, add_assign b value))).

Definition native_withdraw (self : bytes) (_value : Z) : ST Manager unit :=
  _ ← on_token self (caller ← gets getCaller; on_balances (SafeMap_bracket 0 caller (λ b, sub_assign b _value)));
  caller ← on_token self (gets getCaller);
  sendTokens self caller _value.

(** The payable functions. *)
Definition native_payable (self : bytes) : bytes → option (ethCallInfo → ST Manager unit) := table
  [(0xd0e30db0, λ _, native_deposit self);
   (0x2e1a7d4d, λ callInfo,
      vs ← lift (decode_args [uint256] callInfo);
      value ← lift (getData as_uint256 vs 0);
      native_withdraw self value)].

Definition native_functions (self : bytes) (functor : bytes) : option (ethCallInfo → ST Manager unit) :=
  (λ f callInfo, on_token self (f callInfo)) <$> erc20_functions functor.

(** ** ERC20Wrapper *)

Definition no_token : exn := runtime_error "Token not found".
Definition no_user : exn := runtime_error "User not found".
Definition no_funds : exn := runtime_error "Not enough balance".

(** The user's balance of a token is reduced through the iterators; a balance
    equal to the value is refused. *)
Definition take_balance (user : bytes) (value : Z) (m : gmap bytes Z) : outcome unit * gmap bytes Z :=
  match m !! user with
  | None => (Throw no_user, m)
  | Some b => if b <=? value then (Throw no_funds, m)
              else let '(r, x) := sub_assign b value in (r, <[user := x]> m)
  end.

Definition add_entry (key : bytes) (value : Z) (m : gmap bytes Z) : outcome unit * gmap bytes Z :=
  let '(r, x) := add_assign (default 0 (m !! key)) value in (r, <[key := x]> m).

Definition wrapper_caller (self : bytes) : ST Manager bytes := gets (λ m,
  match contracts m !! self with Some d => l_caller (dc_locals d) | None => Address_empty end).

Section Wrapper.
(** [interface.callContract]. *)
Context (iface_callContract : ethCallInfo → ST Manager unit).

(** [DynamicContract::callContract(address, encoder)]. *)
Definition callContract_enc (self to : bytes) (enc : outcome bytes) : ST Manager unit :=
  data ← lift enc;
  iface_callContract (mkCallInfo self to 0 0 0 data).

Definition wrapper_send (self token to : bytes) (value : Z) : ST Manager unit :=
  caller ← wrapper_caller self;
  _ ← on_tokens self (SafeMap_find_update token (Throw no_token) (take_balance caller value));
  callContract_enc self token (Encoder [V_address to; V_uint256 value] (str "transfer(address,uint256)")).

Definition wrapper_withdraw (self token : bytes) (value : Z) : ST Manager unit :=
  caller ← wrapper_caller self; wrapper_send self token caller value.

Definition wrapper_transferTo (self token to : bytes) (value : Z) : ST Manager unit := wrapper_send self token to value.

Definition wrapper_deposit (self token : bytes) (value : Z) : ST Manager unit :=
  caller ← wrapper_caller self;
  _ ← callContract_enc self token
        (Encoder [V_address caller; V_address self; V_uint256 value] (str "transferFrom(address,address,uint256)"));
  on_tokens self (SafeMap_bracket ∅ token (add_entry caller value)).

Definition wrapper_functions (self : bytes) : bytes → option (ethCallInfo → ST Manager unit) := table
  [(0xf3fef3a3, λ callInfo,
      vs ← lift (decode_args [address; uint256] callInfo);
      a ← lift (getData as_address vs 0); v ← lift (getData as_uint256 vs 1); wrapper_withdraw self a v);
   (0xa5f2a152, λ callInfo,
      vs ← lift (decode_args [address; address; uint256] callInfo);
      a ← lift (getData as_address vs 0); b ← lift (getData as_address vs 1); v ← lift (getData as_uint256 vs 2);
      wrapper_transferTo self a b v);
   (0x47e7ef24, λ callInfo,
      vs ← lift (decode_args [address; uint256] callInfo);
      a ← lift (getData as_address vs 0); v ← lift (getData as_uint256 vs 1); wrapper_deposit self a v)].

(** [contract->ethCall(callInfo)] on the contract at [self]. *)
Definition contract_ethCall (self : bytes) (callInfo : ethCallInfo) : ST Manager unit := λ m,
  match contracts m !! self with
  | Some (D_ERC20 _) => on_token self (ERC20_ethCall callInfo) m
  | Some (D_NativeWrapper _) =>
      dyn_ethCall (native_functions self) (native_payable self) (λ b, on_token self (updateState b))
        (getCommit_at self) callInfo m
  | Some (D_ERC20Wrapper _) =>
      dyn_ethCall (wrapper_functions self) (λ _, None) (wrapper_updateState self) (getCommit_at self) callInfo m
  | None => (Undef, m)
  end.

(** [ContractManagerInterface::callContract]; the recursion through
    [contract->ethCall] is the argument. *)
Definition callContract_body (callInfo : ethCallInfo) : ST Manager unit :=
  let to := ci_to callInfo in
  _ ← (if ci_value callInfo =? 0 then mret tt else sendTokens (ci_from callInfo) to (ci_value callInfo));
  present ← gets (λ m, bool_decide (is_Some (contracts m !! to)));
  if negb present then lift (Throw (runtime_error "Contract does not exist"))
  else
    commit ← gets (λ m, l_commit (m_locals m));
    _ ← on_locals to (λ l, mkLocals (l_origin l) (ci_from callInfo) (ci_value callInfo) commit);
    catching (contract_ethCall to callInfo)
      (λ e, _ ← on_locals to (λ l, with_commit l false); lift (Throw (runtime_error (what e)))).

End Wrapper.

(** Calls nest at most once: only wrappers call other contracts, and the
    functions they call are not functions of a wrapper.  Deeper nesting is out
    of the model. *)
Fixpoint iface_callContract (fuel : nat) (callInfo : ethCallInfo) : ST Manager unit :=
  match fuel with
  | O => lift Undef
  | S fuel => callContract_body (iface_callContract fuel) callInfo
  end.

Definition ethCall_at (self : bytes) (callInfo : ethCallInfo) : ST Manager unit :=
  contract_ethCall (iface_callContract 2) self callInfo.

End Manager.

(** ** The manager as a contract *)

(** The manager and the database, into which new contracts write themselves. *)
Definition mdb `{RocksDB} : Type := Manager * rstore.

Definition on_manager `{RocksDB} {B} (op : ST Manager B) : ST mdb B := λ s,
  let '(r, m) := op s.1 in (r, (m, s.2)).

Section Create.
Context `{Keccak} `{!CheckedLeft} `{RocksDB} `{!HashMapOrder}.
Context (chainID : Z).   (** [options->getChainID()] *)

(** The number of contracts stands for the nonce; from 128 on only its length
    is written. *)
Definition deriveContractAddress (m : Manager) : outcome bytes :=
  let n := Z.of_nat (size (contracts m)) in
  let caller := l_caller (m_locals m) in
  let rlpSize := u8 (192 + zlen caller + (if n <? 128 then 1 else 1 + bytesRequired n)) in
  let rlp := [rlpSize] ++ caller ++ [if n <? 128 then u8 n else u8 (128 + bytesRequired n)] in
  Address_ctor (drop 12 (sha3 rlp)) true.

Definition already_exists : exn := runtime_error "Contract already exists".

(** What the six creation functions check first. *)
Definition creation_address (m : Manager) : outcome bytes :=
  _ ← throw_if (negb (bool_decide (l_caller (m_locals m) = manager_creator)))
        (runtime_error "Only contract creator can create new contracts");
  derived ← deriveContractAddress m;
  _ ← throw_if (bool_decide (is_Some (contracts m !! derived))) already_exists;
  _ ← throw_if (bool_decide (derived ∈ ProtocolContractAddresses)) already_exists;
  Ok derived.

(** The constructor arguments of a token; [extra] are those after decimals. *)
Definition decode_token (types : list Types) (callInfo : ethCallInfo) : outcome (list EncVar * Z) :=
  vs ← decode_args types callInfo;
  d ← getData as_uint256 vs 2;
  _ ← throw_if (255 <? d) (runtime_error "Decimals must be between 0 and 255");
  Ok (vs, d).

Definition erc20_types : list Types := [string_; string_; uint256; uint256].
Definition native_types : list Types := [string_; string_; uint256].

Definition insert_contract (addr : bytes) (d : DynamicContract) : ST Manager unit := modify (λ m,
  set_contracts m (match contracts m !! addr with Some _ => contracts m | None => <[addr := d]> (contracts m) end)).

Definition createNewERC20Contract (callInfo : ethCallInfo) : ST mdb unit := λ s,
  match (derived ← creation_address s.1;
         '(vs, d) ← decode_token erc20_types callInfo;
         name ← getData as_string vs 0; symbol ← getData as_string vs 1; supply ← getData as_uint256 vs 3;
         Ok (derived, name, symbol, d, supply)) with
  | Ok (derived, name, symbol, d, supply) =>
      let '(r, db) := ERC20_new s.2 name symbol (u8 d) supply derived (l_caller (m_locals s.1)) chainID in
      match r with
      | Ok e => on_manager (insert_contract derived (D_ERC20 e)) (s.1, db)
      | Throw x => (Throw x, (s.1, db))
      | Undef => (Undef, (s.1, db))
      end
  | Throw e => (Throw e, s)
  | Undef => (Undef, s)
  end.

Definition validateCreateNewERC20Contract (callInfo : ethCallInfo) (m : Manager) : outcome unit :=
  _ ← creation_address m; _ ← decode_token erc20_types callInfo; Ok tt.

(** [ERC20Wrapper(interface, address, creator, chainId, db)]. *)
Definition Wrapper_new (db : rstore) (addr creator : bytes) : ERC20Wrapper * rstore :=
  let '(base, db) := BaseContract_new db (str "ERC20Wrapper") addr creator chainID in
  (mkWrapper base Locals_init false (SafeMap_owned ∅), db).

Definition createNewERC20WrapperContract : ST mdb unit := λ s,
  match creation_address s.1 with
  | Ok derived =>
      let '(w, db) := Wrapper_new s.2 derived (l_caller (m_locals s.1)) in
      on_manager (insert_contract derived (D_ERC20Wrapper w)) (s.1, db)
  | Throw e => (Throw e, s)
  | Undef => (Undef, s)
  end.

Definition validateCreateNewERC20WrapperContract (m : Manager) : outcome unit :=
  _ ← creation_address m; Ok tt.

(** [NativeWrapper(interface, name, symbol, decimals, ...)]: nothing is minted. *)
Definition NativeWrapper_new (db : rstore) (name symbol : bytes) (decimals : Z) (addr creator : bytes)
    : outcome ERC20 * rstore :=
  let '(base, db) := BaseContract_new db (str "NativeWrapper") addr creator chainID in
  (of_state ((_ ← on_name (sv_assign name);
              _ ← on_symbol (sv_assign symbol);
              _ ← on_decimals (sv_assign decimals);
              updateState true) (ERC20_blank base)), db).

Definition createNewERC20NativeWrapperContract (callInfo : ethCallInfo) : ST mdb unit := λ s,
  match (derived ← creation_address s.1;
         '(vs, d) ← decode_token native_types callInfo;
         name ← getData as_string vs 0; symbol ← getData as_string vs 1;
         Ok (derived, name, symbol, d)) with
  | Ok (derived, name, symbol, d) =>
      let '(r, db) := NativeWrapper_new s.2 name symbol (u8 d) derived (l_caller (m_locals s.1)) in
      match r with
      | Ok e => on_manager (insert_contract derived (D_NativeWrapper e)) (s.1, db)
      | Throw x => (Throw x, (s.1, db))
      | Undef => (Undef, (s.1, db))
      end
  | Throw e => (Throw e, s)
  | Undef => (Undef, s)
  end.

Definition validateCreateNewERC20NativeWrapperContract (callInfo : ethCallInfo) (m : Manager) : outcome unit :=
  _ ← creation_address m; _ ← decode_token native_types callInfo; Ok tt.

Definition invalid_call : exn := runtime_error "Invalid function call".

(** [ContractManager::ethCall]. *)
Definition manager_ethCall (callInfo : ethCallInfo) : ST mdb unit := λ s,
  let functor := take 4 (ci_data callInfo) in
  if l_commit (m_locals s.1) then
    if bool_decide (functor = be_split 4 0xb74e5ed5) then createNewERC20Contract callInfo s
    else if bool_decide (functor = be_split 4 0x97aa51a3) then createNewERC20WrapperContract s
    else if bool_decide (functor = be_split 4 0x9f90f4c7) then createNewERC20NativeWrapperContract callInfo s
    else (Throw invalid_call, s)
  else
    if bool_decide (functor = be_split 4 0xb74e5ed5) then (validateCreateNewERC20Contract callInfo s.1, s)
    else if bool_decide (functor = be_split 4 0x97aa51a3) then (validateCreateNewERC20WrapperContract s.1, s)
    else if bool_decide (functor = be_split 4 0x9f90f4c7) then (validateCreateNewERC20NativeWrapperContract callInfo s.1, s)
    else (Throw invalid_call, s).

(** ** Transactions *)

Definition clear_balances : ST Manager unit := modify (λ m, set_balances m ∅).

Definition set_caller (from : bytes) (value : Z) (commit : bool) (_ : ContractLocals) : ContractLocals :=
  mkLocals from from value commit.

(** [try { m } catch (std::exception& e) { cleanup; throw std::runtime_error(e.what()); } cleanup] *)
Definition with_cleanup {B} (m : ST mdb B) (cleanup : ST mdb unit) : ST mdb B :=
  r ← catching m (λ e, _ ← cleanup; lift (Throw (runtime_error (what e))));
  _ ← cleanup;
  mret r.

(** [callContract(const TxBlock&)]. *)
Definition callContract (pcp : gmap bytes Z → outcome (gmap bytes Account)) (accts : gmap bytes Account) (tx : TxBlock)
    : ST mdb (gmap bytes Account) :=
  let callInfo := txToCallInfo tx in
  let to := tb_to tx in
  _ ← on_manager (modify (λ m, set_mlocals m (with_commit (m_locals m) true)));
  if bool_decide (to = manager_address) then
    _ ← on_manager (modify (λ m, set_mlocals m (mkLocals (tb_from tx) (tb_from tx) (tb_value tx) (l_commit (m_locals m)))));
    _ ← with_cleanup (manager_ethCall callInfo)
          (on_manager (_ ← modify (λ m, set_mlocals m (with_commit (m_locals m) false)); clear_balances));
    mret accts
  else if bool_decide (to = rdPoS_address) then
    _ ← on_manager clear_balances;
    lift (Throw (runtime_error "Derived Class from Contract does not override ethCall()"))
  else
    present ← gets (λ s, bool_decide (is_Some (contracts s.1 !! to)));
    if negb present then
      _ ← on_manager clear_balances;
      lift (Throw (runtime_error "Contract does not exist"))
    else
      _ ← on_manager (on_locals to (set_caller (tb_from tx) (tb_value tx) true));
      _ ← catching (on_manager (ethCall_at accts to callInfo))
            (λ e, _ ← on_manager (_ ← on_locals to (λ l, with_commit l false); clear_balances);
                  lift (Throw (runtime_error (what e))));
      payable ← gets (λ s, match contracts s.1 !! to with
                           | Some d => isPayableFunction d (take 4 (tb_data tx)) | None => false end);
      a ← (if (payable : bool) then b ← gets (λ s, balances s.1); lift (pcp b) else mret accts);
      _ ← on_manager (_ ← clear_balances; on_locals to (λ l, with_commit l false));
      mret a.

Definition isPayable (m : Manager) (callInfo : ethCallInfo) : bool :=
  match contracts m !! ci_to callInfo with
  | None => false
  | Some d => isPayableFunction d (take 4 (ci_data callInfo))
  end.

(** [validateCallContractWithTx]: neither [commit] nor, for a dynamic contract,
    [balances] is reset. *)
Definition validateCallContractWithTx (accts : gmap bytes Account) (callInfo : ethCallInfo) : ST mdb bool :=
  let from := ci_from callInfo in
  let to := ci_to callInfo in
  catching
    (v ← gets (λ s, l_value (m_locals s.1));
     _ ← (if v =? 0 then mret tt
          else on_manager (_ ← populateBalance accts to; assign_balance add_assign to (ci_value callInfo)));
     if bool_decide (to = manager_address) then
       _ ← on_manager (modify (λ m, set_mlocals m (mkLocals from from (ci_value callInfo) (l_commit (m_locals m)))));
       _ ← manager_ethCall callInfo;
       _ ← on_manager clear_balances;
       mret true
     else if bool_decide (to = rdPoS_address) then
       lift (Throw (runtime_error "Derived Class from Contract does not override ethCall()"))
     else
       present ← gets (λ s, bool_decide (is_Some (contracts s.1 !! to)));
       if negb present then _ ← on_manager clear_balances; mret false
       else
         _ ← on_manager (on_locals to (set_caller from (ci_value callInfo) false));
         _ ← on_manager (ethCall_at accts to callInfo);
         mret true)
    (λ e, _ ← on_manager clear_balances; lift (Throw (runtime_error (what e)))).

(** ** Views *)

Definition getContractBalance (self token : bytes) : ST Manager bytes :=
  d ← gets (λ m, contracts m !! token);
  match d with
  | None => lift (Throw (runtime_error "ContractManager::getContract: contract not found."))
  | Some (D_ERC20 _) => on_token token (balanceOf self)
  | Some _ => lift (Throw (runtime_error "ContractManager::getContract: Contract is not of the requested type"))
  end.

Definition getUserBalance (self token user : bytes) : ST Manager bytes :=
  it ← on_tokens self (SafeMap_find token);
  match it with
  | None => lift (Encoder [V_uint256 0] [])
  | Some m => lift (Encoder [V_uint256 (default 0 (m !! user))] [])
  end.

Definition wrapper_views (self : bytes) : bytes → option (ethCallInfo → ST Manager bytes) := table
  [(0x43ab265f, λ callInfo,
      vs ← lift (decode_args [address] callInfo); a ← lift (getData as_address vs 0); getContractBalance self a);
   (0x6805d6ad, λ callInfo,
      vs ← lift (decode_args [address; address] callInfo);
      a ← lift (getData as_address vs 0); b ← lift (getData as_address vs 1); getUserBalance self a b)].

Definition dc_name (d : DynamicContract) : bytes := contractName (dc_base d).

Definition getDeployedContracts (m : Manager) : outcome bytes :=
  Encoder [V_stringArr ((λ e, dc_name e.2) <$> iter_map (contracts m)); V_addressArr (iter_map (contracts m)).*1] [].

(** [ContractManager::ethCallView]. *)
Definition manager_ethCallView (callInfo : ethCallInfo) (m : Manager) : outcome bytes :=
  if bool_decide (take 4 (ci_data callInfo) = be_split 4 0xaa9a068f) then getDeployedContracts m
  else Throw invalid_call.

(** [callContract(const ethCallInfo&) const]. *)
Definition callView (callInfo : ethCallInfo) : ST Manager bytes := λ m,
  let to := ci_to callInfo in
  if bool_decide (to = manager_address) then (manager_ethCallView callInfo m, m)
  else if bool_decide (to = rdPoS_address) then
    (Throw (runtime_error "Derived Class from Contract does not override ethCall()"), m)
  else
    match contracts m !! to with
    | None => (Throw (runtime_error "Contract does not exist"), m)
    | Some (D_ERC20Wrapper _) => dyn_ethCallView (wrapper_views to) callInfo m
    | Some _ => on_token to (ERC20_ethCallView callInfo) m
    end.

Definition isContractCall (m : Manager) (tx : TxBlock) : bool :=
  bool_decide (tb_to tx = manager_address) || bool_decide (tb_to tx ∈ ProtocolContractAddresses) ||
  bool_decide (is_Some (contracts m !! tb_to tx)).

Definition isContractAddress (m : Manager) (addr : bytes) : bool :=
  bool_decide (addr ∈ ProtocolContractAddresses) || bool_decide (is_Some (contracts m !! addr)).

Definition getContracts (m : Manager) : list (bytes * bytes) :=
  (λ e, (dc_name e.2, e.1)) <$> iter_map (contracts m).

(** ** Construction and destruction *)

Definition Wrapper_load (db : rstore) (addr : bytes) : outcome ERC20Wrapper :=
  base ← BaseContract_load db addr;
  match each (λ entry,
          '(a, s, n) ← lift (nested_entry entry);
          SafeMap_bracket ∅ a (λ m, (Ok tt, <[s := n]> m)))
        (DB_getBatch db (contract_prefix addr ++ str "_tokensAndBalances") []) (SafeMap_owned (∅ : gmap bytes (gmap bytes Z))) with
  | (Ok _, v) => Ok (mkWrapper base Locals_init false (if sm_registered v then SafeMap_commit v else v))
  | (Throw e, _) => Throw e
  | (Undef, _) => Undef
  end.

Definition Wrapper_dtor (w : ERC20Wrapper) (db : rstore) : rstore :=
  (DB_putBatch db (mkDBBatch (allowance_entries (sm_map (_tokensAndBalances w))) [])
     (contract_prefix (contractAddress (w_base w)) ++ str "_tokensAndBalances")).2.

(** The body of the constructor's loop. *)
Definition load_contract (db : rstore) (cs : gmap bytes DynamicContract) (entry : DBEntry)
    : outcome (gmap bytes DynamicContract) :=
  let name := e_value entry in
  if bool_decide (name = str "ERC20") then
    a ← Address_ctor (e_key entry) true; e ← ERC20_load db a; Ok (map_emplace a (D_ERC20 e) cs)
  else if bool_decide (name = str "ERC20Wrapper") then
    a ← Address_ctor (e_key entry) true; w ← Wrapper_load db a; Ok (map_emplace a (D_ERC20Wrapper w) cs)
  else if bool_decide (name = str "NativeWrapper") then
    a ← Address_ctor (e_key entry) true; e ← ERC20_load db a; Ok (map_emplace a (D_NativeWrapper e) cs)
  else Throw (runtime_error "Unknown contract").

Definition ContractManager_ctor (db : rstore) : outcome (Manager * rstore) :=
  let '(_, db) := BaseContract_new db (str "ContractManager") manager_address manager_creator 0 in
  cs ← foldM (load_contract db) ∅ (DB_getBatch db DBPrefix.contractManager []);
  Ok (mkManager Locals_init ∅ cs, db).

(** A contract's destructor; those of [ERC20] and [NativeWrapper] write the
    same entries. *)
Definition contract_dtor (d : DynamicContract) (db : rstore) : rstore :=
  match d with D_ERC20 e | D_NativeWrapper e => ERC20_dtor e db | D_ERC20Wrapper w => Wrapper_dtor w db end.

(** The destructor, then the contracts, which are members. *)
Definition ContractManager_dtor (m : Manager) (db : rstore) : rstore :=
  let contractsBatch := (λ e, mkDBEntry e.1 (dc_name e.2)) <$> iter_map (contracts m) in
  let db := (DB_putBatch db (mkDBBatch contractsBatch []) DBPrefix.contractManager).2 in
  foldl (λ db e, contract_dtor e.2 db) db (iter_map (contracts m)).

End Create.
