(* ===== verification/Host.v ===== *)
(** * Host: the contract manager as State's host

    [ContractManager] provides what [State] asks for in [ContractHost]: the
    operations, and the three laws on the accounts and on their entries in the
    database. *)

From S2P Require Import Prelude Utils Hex Strings Ecdsa Tx Block DB Storage State SafeVars ABI Contract ERC20 ContractManager.

Section Frame.
Context `{RocksDB}.

(** Writes to other keys. *)
Lemma DB_write_other db ops k :
  Forall (λ op, match op with WPut k' _ | WDelete k' => k' ≠ k end) ops →
  lookup_db (DB_write db ops).2 k = lookup_db db k.
Proof.
  intros Ho. destruct (DB_write db ops) as [[] db'] eqn:E; cbn [snd].
  - rewrite (DB_write_spec _ _ _ E). by apply foldl_other.
  - by rewrite (DB_write_fail _ _ _ E).
Qed.

Lemma DB_put_frame db key value pfx k : pfx ++ key ≠ k → lookup_db (DB_put db key value pfx).2 k = lookup_db db k.
Proof. intros. apply DB_write_other. by constructor. Qed.

Lemma DB_puts_frame db l pfx k :
  (∀ key, pfx ++ key ≠ k) → lookup_db (DB_putBatch db (mkDBBatch l []) pfx).2 k = lookup_db db k.
Proof. intros Hk. apply DB_write_other. apply Forall_fmap, Forall_forall. intros e _. apply Hk. Qed.

(** The keys of contracts are not keys of accounts. *)
Lemma contract_key addr key k : contract_prefix addr ++ key ≠ DBPrefix.nativeAccounts ++ k.
Proof. done. Qed.

Lemma contract_key' addr name key k : (contract_prefix addr ++ name) ++ key ≠ DBPrefix.nativeAccounts ++ k.
Proof. done. Qed.

Context `{!HashMapOrder}.

Lemma ERC20_dtor_frame e db k :
  lookup_db (ERC20_dtor e db) (DBPrefix.nativeAccounts ++ k) = lookup_db db (DBPrefix.nativeAccounts ++ k).
Proof.
  unfold ERC20_dtor. rewrite !DB_puts_frame by (intros; apply contract_key').
  by rewrite !DB_put_frame by apply contract_key.
Qed.

Lemma contract_dtor_frame d db k :
  lookup_db (contract_dtor d db) (DBPrefix.nativeAccounts ++ k) = lookup_db db (DBPrefix.nativeAccounts ++ k).
Proof.
  destruct d; cbn [contract_dtor]; [apply ERC20_dtor_frame| |apply ERC20_dtor_frame].
  unfold Wrapper_dtor. by rewrite DB_puts_frame by (intros; apply contract_key').
Qed.

Lemma manager_save_frame m db k :
  lookup_db (ContractManager_dtor m db) (DBPrefix.nativeAccounts ++ k) = lookup_db db (DBPrefix.nativeAccounts ++ k).
Proof.
  unfold ContractManager_dtor. cbv zeta. generalize (iter_map (contracts m)) at 2. intros l.
  match goal with |- lookup_db (foldl _ ?d l) _ = _ => assert (lookup_db d (DBPrefix.nativeAccounts ++ k) =
    lookup_db db (DBPrefix.nativeAccounts ++ k)) as E by (by apply DB_puts_frame); revert E; generalize d end.
  induction l as [|d l IH]; intros db' E; [done|]. cbn [foldl]. apply IH. by rewrite contract_dtor_frame.
Qed.

Lemma manager_load_frame `{Keccak} db m db' k :
  ContractManager_ctor db = Ok (m, db') →
  lookup_db db' (DBPrefix.nativeAccounts ++ k) = lookup_db db (DBPrefix.nativeAccounts ++ k).
Proof.
  unfold ContractManager_ctor, BaseContract_new. intros Hc. apply bind_Ok in Hc as (cs & _ & Hc). apply Ok_inj in Hc as [= _ <-].
  by rewrite !DB_put_frame by apply contract_key.
Qed.

End Frame.

Section Host.
Context `{Keccak} `{!CheckedLeft} `{RocksDB} `{!HashMapOrder} (chainID : Z).

(** A call that returns has passed the balances on or left the accounts. *)
Lemma callContract_accounts pcp a tx (s : Manager * rstore) a' s' :
  callContract chainID pcp a tx s = (Ok a', s') → a' = a ∨ ∃ b, pcp b = Ok a'.
Proof.
  unfold callContract, with_cleanup, mbind, ST_bind, mret, ST_ret, gets, lift.
  repeat case_match; intros; simplify_eq; eauto.
Qed.

#[export] Instance manager_host : ContractHost := {|
  cm := Manager;
  cm_load := ContractManager_ctor;
  cm_save := ContractManager_dtor;
  cm_isContractCall := isContractCall;
  cm_isContractAddress := isContractAddress;
  cm_isPayable := isPayable;
  cm_callContract := callContract chainID;
  cm_callView callInfo := on_manager (callView callInfo);
  cm_validateCall := validateCallContractWithTx chainID;
  cm_getContracts := getContracts;
  cm_load_accounts db c db' key := manager_load_frame db c db' key;
  cm_save_accounts c db key := manager_save_frame c db key;
  cm_callContract_frame := callContract_accounts;
|}.

End Host.
