(* ===== verification/Wrapping.v ===== *)
(** * Wrapping: calls between contracts, and what backs a native wrapper

    Facts about the contract manager: nested calls end, a call on a
    [NativeWrapper] does what its specification says on the wrapped and the
    native balances, and a wrapper stays backed by the native balance of its
    account as long as no gas is estimated. *)

From S2P Require Import Prelude Utils Hex Strings Ecdsa Tx Block DB Storage State SafeVars ABI Contract ERC20 ContractManager.

(** The selectors of the two functions that a wrapper calls: the first bytes
    of the Keccak-256 hashes of their signatures. *)
Class Selectors `{Keccak} := {
  transfer_selector : encodeFunction (str "transfer(address,uint256)") = be_split 4 0xa9059cbb;
  transferFrom_selector : encodeFunction (str "transferFrom(address,address,uint256)") = be_split 4 0x23b872dd;
}.

(** ** Kinds of contracts *)

Inductive kind := K_ERC20 | K_ERC20Wrapper | K_NativeWrapper.

Definition dc_kind (d : DynamicContract) : kind :=
  match d with D_ERC20 _ => K_ERC20 | D_ERC20Wrapper _ => K_ERC20Wrapper | D_NativeWrapper _ => K_NativeWrapper end.

Lemma kind_set_locals d l : dc_kind (dc_set_locals d l) = dc_kind d.
Proof. by destruct d. Qed.

Lemma payable_kind d d' f : dc_kind d = dc_kind d' → isPayableFunction d f = isPayableFunction d' f.
Proof. by destruct d, d'. Qed.

(** Replacing a contract by one of its kind. *)
Lemma kinds_insert (cs : gmap bytes DynamicContract) a d d' :
  cs !! a = Some d → dc_kind d' = dc_kind d → dc_kind <$> <[a := d']> cs = dc_kind <$> cs.
Proof.
  intros E Hk. rewrite fmap_insert, Hk. apply insert_id. by rewrite lookup_fmap, E.
Qed.

Lemma alter_is_insert (cs : gmap bytes DynamicContract) f a d : cs !! a = Some d → alter f a cs = <[a := f d]> cs.
Proof.
  intros E. apply map_eq. intros k. destruct (decide (k = a)) as [->|].
  - by rewrite lookup_alter_eq, lookup_insert_eq, E.
  - by rewrite lookup_alter_ne, lookup_insert_ne.
Qed.

Lemma alter_absent (cs : gmap bytes DynamicContract) f a : cs !! a = None → alter f a cs = cs.
Proof.
  intros E. apply map_eq. intros k. destruct (decide (k = a)) as [->|]; [by rewrite lookup_alter_eq, E|by rewrite lookup_alter_ne].
Qed.

Section Calls.
Context `{Keccak} `{!CheckedLeft} (accts : gmap bytes Account).
Implicit Types (P : Manager → Prop) (a : bytes).

(** ** What calls leave alone *)

(** A property of managers that survives every change of the token, of the
    wrapper and of the locals at [a] and, with [bal], of the temporary
    balances. *)
Record stable (P : Manager → Prop) (a : bytes) : Prop := {
  st_contract : ∀ m d d', P m → contracts m !! a = Some d → dc_kind d' = dc_kind d →
    P (set_contracts m (<[a := d']> (contracts m)));
}.

Definition stable_balances (P : Manager → Prop) : Prop := ∀ m b, P m → P (set_balances m b).

Lemma keeps_on_token {B} P (a : bytes) (op : ST ERC20 B) : stable P a → keeps P (on_token a op) any.
Proof.
  intros [Hs] m Hm. split; [|done]. unfold on_token.
  destruct (contracts m !! a) as [[e|x|e]|] eqn:E; [|done| |done]; destruct (op e); by eapply Hs.
Qed.

Lemma keeps_on_tokens {B} P (a : bytes) (op : ST (SafeMap (gmap bytes Z)) B) : stable P a → keeps P (on_tokens a op) any.
Proof.
  intros [Hs] m Hm. split; [|done]. unfold on_tokens.
  destruct (contracts m !! a) as [[e|x|e]|] eqn:E; [done| |done|done]. destruct (op (_tokensAndBalances x)); by eapply Hs.
Qed.

Lemma keeps_on_locals P a f : stable P a → keeps P (on_locals a f) any.
Proof.
  intros [Hs]. apply keeps_modify. intros m Hm. destruct (contracts m !! a) as [d|] eqn:E.
  - rewrite (alter_is_insert _ _ _ _ E). eapply Hs; eauto using kind_set_locals.
  - rewrite alter_absent by done. by destruct m.
Qed.

Lemma keeps_wrapper_updateState P a b : stable P a → keeps P (wrapper_updateState a b) any.
Proof.
  intros [Hs]. apply keeps_modify. intros m Hm.
  destruct (contracts m !! a) as [[e|x|e]|] eqn:E; [done| |done|done]. by eapply Hs.
Qed.

Lemma keeps_sendTokens P from to v : stable_balances P → keeps P (sendTokens accts from to v) any.
Proof.
  intros Hs. assert (∀ a, keeps P (populateBalance accts a) any) as Hp.
  { intros a. apply keeps_modify. intros m Hm. case_match; [done|]. by apply Hs. }
  assert (∀ op a x, keeps P (assign_balance op a x) any) as Ha.
  { intros op a x m Hm. split; [|done]. unfold assign_balance. case_match. by apply Hs. }
  unfold sendTokens. keep_tac.
Qed.

(** ** Dispatch *)

(** After the function that was found, [updateState] runs. *)
Lemma dyn_ethCall_after {S} (P : S → Prop) functions payableFunctions update getCommit callInfo s :
  (∀ f, payableFunctions (take 4 (ci_data callInfo)) = Some f → P (f callInfo s).2) →
  (∀ f, payableFunctions (take 4 (ci_data callInfo)) = None →
        functions (take 4 (ci_data callInfo)) = Some f → P (f callInfo s).2) →
  P s → (∀ b, keeps P (update b) any) →
  P (dyn_ethCall functions payableFunctions update getCommit callInfo s).2.
Proof.
  intros Hp Hf Hs Hu. unfold dyn_ethCall. cbv zeta.
  match goal with |- context [catching ?b _] => set (body := b) end.
  assert (P (body s).2) as Hb.
  { unfold body. destruct (payableFunctions _); [by apply Hp|]. destruct (functions _); [by apply Hf|done]. }
  unfold mbind, ST_bind, catching, gets. destruct (body s) as [[[]|x|] s']; cbn in Hb; [| |done].
  - by apply Hu.
  - pose proof (Hu false s' Hb) as [Hu' _]. by destruct (update false s') as [[[]| |] s''].
Qed.

(** A function of the table is one of its entries. *)
Lemma table_elem {A} (l : list (Z * A)) functor f :
  table l functor = Some f → ∃ k, (k, f) ∈ l ∧ be_split 4 k = functor.
Proof.
  unfold table. intros (e & E & ->)%fmap_Some. destruct e as [k f']. apply List.find_some in E as [Hi Hb].
  exists k. split; [by apply list_elem_of_In|]. by apply bool_decide_eq_true in Hb.
Qed.

(** ** What every call leaves alone *)

Lemma keeps_callContract_enc P iface self to enc :
  (∀ ci, keeps P (iface ci) any) → keeps P (callContract_enc iface self to enc) any.
Proof. intros Hi. unfold callContract_enc. eapply keeps_bind; [apply keeps_lift|intros ? _; apply Hi]. Qed.

Lemma keeps_wrapper_functions P iface a functor f callInfo :
  stable P a →
  (∀ to vs func, func = str "transfer(address,uint256)" ∨ func = str "transferFrom(address,address,uint256)" →
     keeps P (callContract_enc iface a to (Encoder vs func)) any) →
  wrapper_functions iface a functor = Some f → keeps P (f callInfo) any.
Proof.
  intros Hs Hc Hf. apply table_elem in Hf as (k & Hin & _).
  assert (∀ token to v, keeps P (wrapper_send iface a token to v) any) as Hsend.
  { intros. unfold wrapper_send. eapply keeps_bind; [apply keeps_gets|intros c _].
    eapply keeps_bind; [by apply keeps_on_tokens|intros _ _]. apply Hc; auto. }
  repeat (apply elem_of_cons in Hin as [[= -> ->]|Hin]); [| | |by apply elem_of_nil in Hin].
  - unfold wrapper_withdraw. keep_tac.
  - unfold wrapper_transferTo. keep_tac.
  - unfold wrapper_deposit. do 3 (eapply keeps_bind; [apply keeps_lift|intros ? _]).
    eapply keeps_bind; [apply keeps_gets|intros c _]. eapply keeps_bind; [apply Hc; auto|intros _ _].
    by apply keeps_on_tokens.
Qed.

Lemma keeps_contract_ethCall P iface a callInfo :
  (∀ a, stable P a) → stable_balances P → (∀ ci, keeps P (iface ci) any) →
  keeps P (contract_ethCall accts iface a callInfo) any.
Proof.
  intros Hs Hb Hi m Hm. split; [|done]. unfold contract_ethCall.
  destruct (contracts m !! a) as [[e|x|e]|]; [by apply keeps_on_token| | |done].
  - apply dyn_ethCall_after; [done| |done|by intros; apply keeps_wrapper_updateState].
    intros f _ Hf. eapply keeps_wrapper_functions; eauto. intros. by apply keeps_callContract_enc.
  - apply dyn_ethCall_after; [| |done|by intros; apply keeps_on_token].
    + intros f (k & Hin & _)%table_elem. repeat (apply elem_of_cons in Hin as [[= -> ->]|Hin]); [| |by apply elem_of_nil in Hin].
      * unfold native_deposit. by apply keeps_on_token.
      * assert (∀ v, keeps P (native_withdraw accts a v) any) as Hw.
        { intros v. unfold native_withdraw. do 2 (eapply keeps_bind; [by apply keeps_on_token|intros ? _]). by apply keeps_sendTokens. }
        rewrite lift_bind. destruct (decode_args _ _); [|done..]. rewrite lift_bind. destruct (getData _ _ _); [|done..]. by apply Hw.
    + intros f _ Hf. apply fmap_Some in Hf as (g & _ & ->). by apply keeps_on_token.
Qed.

Lemma keeps_iface P n callInfo :
  (∀ a, stable P a) → stable_balances P → keeps P (iface_callContract accts n callInfo) any.
Proof.
  intros Hs Hb. revert callInfo. induction n as [|n IH]; intros callInfo; [apply keeps_lift|].
  cbn [iface_callContract]. unfold callContract_body.
  eapply keeps_bind; [case_match; [apply keeps_ret|by apply keeps_sendTokens]|intros _ _].
  eapply keeps_bind; [apply keeps_gets|intros p _]. destruct (negb p); [apply keeps_lift|].
  eapply keeps_bind; [apply keeps_gets|intros c _]. eapply keeps_bind; [by apply keeps_on_locals|intros _ _].
  apply keeps_catching; [by apply keeps_contract_ethCall|]. intros x.
  eapply keeps_bind; [by apply keeps_on_locals|intros _ _; apply keeps_lift].
Qed.

(** ** A native wrapper in place *)

(** The manager with the native wrapper at [a] replaced. *)
Definition put_native (m : Manager) (a : bytes) (e : ERC20) : Manager :=
  set_contracts m (<[a := D_NativeWrapper e]> (contracts m)).

Definition native_at (m : Manager) (a : bytes) (e : ERC20) : Prop := contracts m !! a = Some (D_NativeWrapper e).

Lemma native_at_put m a e : native_at (put_native m a e) a e.
Proof. unfold native_at, put_native. cbn. by rewrite lookup_insert_eq. Qed.

Lemma put_put m a e e' : put_native (put_native m a e) a e' = put_native m a e'.
Proof. unfold put_native, set_contracts. cbn. by rewrite insert_insert_eq. Qed.

Lemma put_same m a e : native_at m a e → put_native m a e = m.
Proof. intros E. unfold put_native, set_contracts. rewrite insert_id by done. by destruct m. Qed.

Lemma on_token_native {B} a (op : ST ERC20 B) m e :
  native_at m a e → on_token a op m = ((op e).1, put_native m a (op e).2).
Proof. intros E. unfold on_token. rewrite E. by destruct (op e). Qed.

Lemma getCommit_native m a e : native_at m a e → getCommit_at a m = l_commit (e_locals e).
Proof. intros E. unfold getCommit_at. by rewrite E. Qed.

(** Calls of the functions it shares with [ERC20] are those of [ERC20]. *)
Lemma native_as_token a m e iface callInfo :
  native_at m a e → native_payable accts a (take 4 (ci_data callInfo)) = None →
  contract_ethCall accts iface a callInfo m = on_token a (ERC20_ethCall callInfo) m.
Proof.
  intros E Hp. rewrite (on_token_native _ _ _ _ E). unfold contract_ethCall. rewrite E.
  unfold ERC20_ethCall, dyn_ethCall. cbv zeta. rewrite Hp. unfold native_functions.
  unfold mbind, ST_bind, catching, gets.
  set (f := take 4 (ci_data callInfo)).
  assert (match (λ g ci, on_token a (g ci)) <$> erc20_functions f with
          | Some func => func callInfo
          | None => lift (Throw (runtime_error "Functor not found"))
          end m = on_token a (match erc20_functions f with
          | Some func => func callInfo
          | None => lift (Throw (runtime_error "Functor not found"))
          end) m) as ->.
  { destruct (erc20_functions f); [done|]. cbn. rewrite (on_token_native _ _ _ _ E). cbn. by rewrite (put_same _ _ _ E). }
  rewrite (on_token_native _ _ _ _ E). set (op := match erc20_functions f with Some func => _ | None => _ end).
  destruct (op e) as [[[]|x|] e1]; cbn [fst snd]; [| |done].
  - rewrite (getCommit_native _ _ _ (native_at_put m a e1)).
    by rewrite (on_token_native _ _ _ _ (native_at_put m a e1)), put_put.
  - rewrite (on_token_native _ _ _ _ (native_at_put m a e1)), put_put.
    by destruct (updateState false e1) as [[[]| |] e2].
Qed.

(** ** Native balances during a call *)

(** The balance of an address as the running call sees it. *)
Definition native (bal : gmap bytes Z) (a : bytes) : Z := default (balance (account_at accts a)) (bal !! a).

Definition populated (bal : gmap bytes Z) (a : bytes) : gmap bytes Z :=
  match bal !! a with Some _ => bal | None => <[a := balance (account_at accts a)]> bal end.

Lemma populateBalance_eq a m :
  populateBalance accts a m = (Ok tt, set_balances m (populated (balances m) a)).
Proof.
  unfold populateBalance, populated, modify, account_at. destruct (balances m !! a); [by destruct m|].
  by destruct (accts !! a).
Qed.

Lemma native_populated bal a k : native (populated bal a) k = native bal k.
Proof.
  unfold native, populated. destruct (bal !! a) eqn:E; [done|].
  destruct (decide (k = a)) as [->|]; [by rewrite lookup_insert_eq, E|by rewrite lookup_insert_ne].
Qed.

Lemma populated_lookup bal a k : k ≠ a → populated bal a !! k = bal !! k.
Proof. intros. unfold populated. case_match; [done|]. by rewrite lookup_insert_ne. Qed.

Lemma populated_here bal a : populated bal a !! a = Some (native bal a).
Proof. unfold native, populated. destruct (bal !! a) eqn:E; [by rewrite E|by rewrite lookup_insert_eq]. Qed.

Lemma populated_some bal a k : is_Some (bal !! k) → is_Some (populated bal a !! k).
Proof. intros. unfold populated. case_match; [done|]. rewrite lookup_insert_is_Some'. auto. Qed.

(** Sending [v] between two balances, both of which must stay numbers. *)
Definition sendable (L : bytes → Z) (from to : bytes) (v : Z) : Prop :=
  v ≤ L to ∧ 0 ≤ L from - v < 2 ^ 256 ∧ 0 ≤ L to - (if decide (to = from) then v else 0) + v < 2 ^ 256.

#[local] Instance sendable_dec L from to v : Decision (sendable L from to v).
Proof. unfold sendable. apply _. Defined.

Definition sent (L : bytes → Z) (from to : bytes) (v : Z) : bytes → Z := λ a,
  L a - (if decide (a = from) then v else 0) + (if decide (a = to) then v else 0).

Lemma sendTokens_spec from to v m :
  let L := native (balances m) in
  ∃ r b, sendTokens accts from to v m = (r, set_balances m b) ∧
    (∀ a, a ≠ from → a ≠ to → b !! a = balances m !! a) ∧
    if decide (sendable L from to v) then r = Ok tt ∧ ∀ a, native b a = sent L from to v a
    else ∃ x, r = Throw x.
Proof.
  intros L. unfold sendTokens, mbind, ST_bind, gets. rewrite !populateBalance_eq. cbn [balances set_balances].
  set (b2 := populated (populated (balances m) from) to).
  assert (b2 !! to = Some (L to)) as Et by (unfold b2; by rewrite populated_here, native_populated).
  assert (b2 !! from = Some (L from)) as Ef.
  { unfold b2. destruct (decide (from = to)) as [->|].
    - by rewrite populated_here, native_populated.
    - by rewrite populated_lookup, populated_here. }
  assert (∀ a, native b2 a = L a) as Hn by (intros; unfold b2; by rewrite !native_populated).
  assert (∀ a, a ≠ from → a ≠ to → b2 !! a = balances m !! a) as Hb
    by (intros; unfold b2; by rewrite !populated_lookup).
  rewrite Et. cbn [default from_option id]. destruct (Z.ltb_spec (L to) v) as [Hlt|Hge].
  { exists (Throw (runtime_error "Not enough balance")), b2. split; [done|]. split; [done|].
    rewrite decide_False by (unfold sendable; lia). by eexists. }
  unfold assign_balance. cbn [balances set_balances]. rewrite Ef. cbn [default from_option id].
  destruct (sub_assign_cases (L from) v) as [[Hs ->]|[Hs (x & z & ->)]].
  2: { exists (Throw x), (<[from := z]> b2). split; [done|]. split.
       - intros. rewrite lookup_insert_ne by done. by apply Hb.
       - rewrite decide_False by (unfold sendable; lia). by eexists. }
  cbn [balances set_balances].
  assert (default 0 (<[from := L from - v]> b2 !! to) = L to - (if decide (to = from) then v else 0)) as ->.
  { case_decide; subst; [by rewrite lookup_insert_eq|]. rewrite lookup_insert_ne, Et by done. cbn. lia. }
  destruct (add_assign_cases (L to - (if decide (to = from) then v else 0)) v) as [[Ha ->]|[Ha (x & z & ->)]].
  - exists (Ok tt), (<[to := L to - (if decide (to = from) then v else 0) + v]> (<[from := L from - v]> b2)).
    split; [done|]. split; [intros; rewrite !lookup_insert_ne by done; by apply Hb|].
    rewrite decide_True by (unfold sendable; lia). split; [done|]. intros a. unfold native, sent.
    specialize (Hn a). unfold native in Hn.
    destruct (decide (a = to)) as [->|]; [rewrite lookup_insert_eq; cbn; case_decide; subst; lia|].
    rewrite lookup_insert_ne by done. destruct (decide (a = from)) as [->|]; [rewrite lookup_insert_eq; cbn; lia|].
    rewrite lookup_insert_ne by done. lia.
  - exists (Throw x), (<[to := z]> (<[from := L from - v]> b2)).
    split; [done|]. split; [intros; rewrite !lookup_insert_ne by done; by apply Hb|].
    rewrite decide_False by (unfold sendable; lia). by eexists.
Qed.

(** ** Calls of a native wrapper *)

Inductive native_call := NDeposit | NWithdraw (v : Z) | NToken (c : erc20_call).

(** The call that the calldata asks for. *)
Definition parse_native (callInfo : ethCallInfo) : outcome native_call :=
  let f := take 4 (ci_data callInfo) in
  if bool_decide (be_split 4 0xd0e30db0 = f) then Ok NDeposit
  else if bool_decide (be_split 4 0x2e1a7d4d = f) then
    vs ← decode_args [uint256] callInfo; v ← getData as_uint256 vs 0; Ok (NWithdraw v)
  else c ← parse_call callInfo; Ok (NToken c).

(** What it does to the wrapped tokens and the native balances. *)
Definition native_spec (self caller : bytes) (value : Z) (c : native_call) (t : token) (L : bytes → Z)
    : option (token * (bytes → Z)) :=
  let b := default 0 (t_bal t !! caller) in
  match c with
  | NDeposit =>
      if decide (0 ≤ b + value < 2 ^ 256)
      then Some (mkToken (<[caller := b + value]> (t_bal t)) (t_allow t) (t_supply t), L) else None
  | NWithdraw v =>
      if decide (0 ≤ b - v < 2 ^ 256 ∧ sendable L self caller v)
      then Some (mkToken (<[caller := b - v]> (t_bal t)) (t_allow t) (t_supply t), sent L self caller v) else None
  | NToken c => t' ← spec_call caller c t; Some (t', L)
  end.

Definition with_native (m : Manager) (a : bytes) (e : ERC20) (b : gmap bytes Z) : Manager :=
  set_balances (put_native m a e) b.

Lemma with_native_id m a e : native_at m a e → with_native m a e (balances m) = m.
Proof. intros E. unfold with_native. rewrite (put_same _ _ _ E). by destruct m. Qed.

Lemma native_at_with m a e b : native_at (with_native m a e b) a e.
Proof. apply (native_at_put m a e). Qed.

Lemma put_with m a e b e' : put_native (with_native m a e b) a e' = with_native m a e' b.
Proof. unfold with_native, put_native, set_balances, set_contracts. cbn. by rewrite insert_insert_eq. Qed.

(** A payable function has run on the pending values; the call commits or
    reverts them. *)
Lemma native_finish iface m a e callInfo func r e1 b :
  native_at m a e → native_payable accts a (take 4 (ci_data callInfo)) = Some func →
  func callInfo m = (r, with_native m a e1 b) → live e1 → committed e1 = committed e →
  e_locals e1 = e_locals e → e_base e1 = e_base e → r ≠ Undef →
  ∃ r' e', contract_ethCall accts iface a callInfo m = (r', with_native m a e' b) ∧ idle e' ∧
    e_locals e' = e_locals e ∧ e_base e' = e_base e ∧
    match r with
    | Ok _ => r' = Ok tt ∧ committed e' = if l_commit (e_locals e) then seen e1 else committed e
    | _ => (∃ x, r' = Throw (runtime_error x)) ∧ committed e' = committed e
    end.
Proof.
  intros E Hf Hr L1 C1 Lo1 B1 Hu. unfold contract_ethCall. rewrite E. unfold dyn_ethCall. cbv zeta. rewrite Hf.
  unfold mbind, ST_bind, catching, gets. rewrite Hr. destruct r as [[]|x|]; [| |done].
  - rewrite (getCommit_native _ _ _ (native_at_with m a e1 b)), (on_token_native _ _ _ _ (native_at_with m a e1 b)), put_with, Lo1.
    destruct (l_commit (e_locals e)).
    + destruct (update_true e1 L1) as (e2 & -> & I2 & C2 & Lo2 & B2). exists (Ok tt), e2. split_and!; try done; congruence.
    + destruct (update_false e1 L1) as (e2 & -> & I2 & C2 & Lo2 & B2). exists (Ok tt), e2. split_and!; try done; congruence.
  - rewrite (on_token_native _ _ _ _ (native_at_with m a e1 b)), put_with.
    destruct (update_false e1 L1) as (e2 & -> & I2 & C2 & Lo2 & B2). cbn [fst snd lift].
    exists (Throw (runtime_error (what x))), e2. split_and!; try done; try congruence. by eexists.
Qed.

Lemma native_payable_None a callInfo :
  be_split 4 0xd0e30db0 ≠ take 4 (ci_data callInfo) → be_split 4 0x2e1a7d4d ≠ take 4 (ci_data callInfo) →
  native_payable accts a (take 4 (ci_data callInfo)) = None.
Proof. intros. unfold native_payable, table. cbn [List.find fst]. by rewrite !bool_decide_false. Qed.

(** The result of a call, against the specification. *)
Definition native_meets (m : Manager) (a : bytes) (e : ERC20) (c : outcome native_call) (res : outcome unit * Manager) : Prop :=
  ∃ r e' b, res = (r, with_native m a e' b) ∧ idle e' ∧ e_locals e' = e_locals e ∧ e_base e' = e_base e ∧
    (∀ k, k ≠ a → k ≠ getCaller e → b !! k = balances m !! k) ∧
    match (c ← c; of_option (runtime_error "rejected")
             (native_spec a (getCaller e) (l_value (e_locals e)) c (committed e) (native (balances m)))) with
    | Ok (t, L) => r = Ok tt ∧ committed e' = (if l_commit (e_locals e) then t else committed e) ∧ ∀ k, native b k = L k
    | _ => (∃ x, r = Throw (runtime_error x)) ∧ committed e' = committed e
    end.

(** [deposit()]. *)
Lemma native_deposit_meets iface m a e callInfo :
  native_at m a e → idle e → be_split 4 0xd0e30db0 = take 4 (ci_data callInfo) →
  native_meets m a e (Ok NDeposit) (contract_ethCall accts iface a callInfo m).
Proof.
  intros E Hi Hf. pose proof Hi as [Hl _]. pose proof (idle_seen _ Hi) as Hs.
  assert (native_payable accts a (take 4 (ci_data callInfo)) = Some (λ _, native_deposit a)) as Hp.
  { unfold native_payable, table. cbn [List.find fst]. by rewrite bool_decide_true. }
  destruct (on_balances_spec (getCaller e) (λ b, add_assign b (l_value (e_locals e))) e Hl) as (e1 & E1 & L1 & C1 & S1 & Lo1 & B1).
  change (sm_view (_balances e)) with (t_bal (seen e)) in *. rewrite Hs in *.
  set (x := default 0 (t_bal (committed e) !! getCaller e)) in *.
  assert (native_deposit a m = ((add_assign x (l_value (e_locals e))).1, with_native m a e1 (balances m))) as Hd.
  { unfold native_deposit. rewrite (on_token_native _ _ _ _ E). unfold mbind, ST_bind, gets. by rewrite E1. }
  cbn [mbind outcome_bind]. unfold native_meets. cbn [mbind outcome_bind native_spec]. fold x.
  destruct (add_assign_cases x (l_value (e_locals e))) as [[Hx Ex]|[Hx (y & z & Ex)]]; rewrite Ex in *; cbn [fst snd] in *.
  - destruct (native_finish iface _ _ _ _ _ _ _ _ E Hp Hd L1 C1 Lo1 B1 ltac:(done)) as (r' & e' & -> & I' & Lo' & B' & -> & C').
    exists (Ok tt), e', (balances m). rewrite decide_True by done. cbn [of_option]. rewrite S1 in C'.
    split_and!; try done.
  - destruct (native_finish iface _ _ _ _ _ _ _ _ E Hp Hd L1 C1 Lo1 B1 ltac:(done)) as (r' & e' & -> & I' & Lo' & B' & Hr & C').
    exists r', e', (balances m). rewrite decide_False by done. cbn [of_option]. split_and!; try done.
Qed.

(** [withdraw(v)]. *)
Lemma native_withdraw_run m a e v :
  native_at m a e → idle e →
  let x := default 0 (t_bal (committed e) !! getCaller e) in
  ∃ r e1 b, native_withdraw accts a v m = (r, with_native m a e1 b) ∧ live e1 ∧ committed e1 = committed e ∧
    e_locals e1 = e_locals e ∧ e_base e1 = e_base e ∧ (∀ k, k ≠ a → k ≠ getCaller e → b !! k = balances m !! k) ∧
    if decide (0 ≤ x - v < 2 ^ 256 ∧ sendable (native (balances m)) a (getCaller e) v)
    then r = Ok tt ∧ seen e1 = mkToken (<[getCaller e := x - v]> (t_bal (committed e))) (t_allow (committed e)) (t_supply (committed e)) ∧
         ∀ k, native b k = sent (native (balances m)) a (getCaller e) v k
    else ∃ y, r = Throw y.
Proof.
  intros E Hi x. pose proof Hi as [Hl _]. pose proof (idle_seen _ Hi) as Hs.
  destruct (on_balances_spec (getCaller e) (λ b, sub_assign b v) e Hl) as (e1 & E1 & L1 & C1 & S1 & Lo1 & B1).
  change (sm_view (_balances e)) with (t_bal (seen e)) in *. rewrite Hs in *. fold x in E1, S1.
  assert (on_token a (caller ← gets getCaller; on_balances (SafeMap_bracket 0 caller (λ b, sub_assign b v))) m
          = ((sub_assign x v).1, put_native m a e1)) as Ho.
  { rewrite (on_token_native _ _ _ _ E). unfold mbind, ST_bind, gets. by rewrite E1. }
  unfold native_withdraw. unfold mbind at 1, ST_bind at 1. rewrite Ho. clear Ho E1.
  destruct (sub_assign_cases x v) as [[Hx Ex]|[Hx (y & z & Ex)]]; rewrite Ex in *; cbn [fst snd] in *.
  2: { exists (Throw y), e1, (balances m). split_and!; try done.
       rewrite decide_False by tauto. by eexists. }
  unfold mbind, ST_bind. rewrite (on_token_native _ _ _ _ (native_at_put m a e1)). cbn [gets fst snd].
  assert (getCaller e1 = getCaller e) as -> by (unfold getCaller; by rewrite Lo1). rewrite put_put.
  destruct (sendTokens_spec a (getCaller e) v (put_native m a e1)) as (r & b & -> & Hb & Hr).
  cbn [balances put_native set_contracts] in Hb, Hr.
  exists r, e1, b. split_and!; try done. destruct (decide (sendable _ _ _ _)).
  - rewrite decide_True by done. destruct Hr as [-> Hr]. split_and!; try done.
  - rewrite decide_False by tauto. done.
Qed.

Lemma native_withdraw_meets iface m a e callInfo :
  native_at m a e → idle e → be_split 4 0x2e1a7d4d = take 4 (ci_data callInfo) →
  native_meets m a e (vs ← decode_args [uint256] callInfo; v ← getData as_uint256 vs 0; Ok (NWithdraw v))
    (contract_ethCall accts iface a callInfo m).
Proof.
  intros E Hi Hf. pose proof Hi as [Hl _].
  set (func := λ callInfo : ethCallInfo, vs ← lift (decode_args [uint256] callInfo); value ← lift (getData as_uint256 vs 0);
                 native_withdraw accts a value).
  assert (native_payable accts a (take 4 (ci_data callInfo)) = Some func) as Hp.
  { unfold native_payable, table. cbn [List.find fst]. rewrite bool_decide_false by (by rewrite <-Hf).
    by rewrite bool_decide_true. }
  assert (∀ x, func callInfo m = (Throw x, m) →
    ∃ r' e', contract_ethCall accts iface a callInfo m = (r', with_native m a e' (balances m)) ∧ idle e' ∧
      e_locals e' = e_locals e ∧ e_base e' = e_base e ∧ (∃ x, r' = Throw (runtime_error x)) ∧ committed e' = committed e) as Hbad.
  { intros x Hx. apply (native_finish iface m a e callInfo func (Throw x) e (balances m)); try done.
    by rewrite (with_native_id _ _ _ E). }
  assert (decode_args [uint256] callInfo ≠ Undef) as Hu.
  { unfold decode_args, substr. case_match; [|done]. rewrite Ok_bind. apply Decoder_static; [by repeat constructor|lia|done]. }
  assert (func callInfo m = match (vs ← decode_args [uint256] callInfo; getData as_uint256 vs 0) with
    Ok v => native_withdraw accts a v m | Throw x => (Throw x, m) | Undef => (Undef, m) end) as Hfm.
  { unfold func. rewrite lift_bind. destruct (decode_args [uint256] callInfo); [|done..]. by rewrite lift_bind. }
  unfold native_meets. destruct (decode_args [uint256] callInfo) as [vs|x|]; [rewrite Ok_bind| |done].
  2: { destruct (Hbad x Hfm) as (r' & e' & -> & ? & ? & ? & ? & ?). exists r', e', (balances m). split_and!; done. }
  rewrite Ok_bind in Hfm. pose proof (getData_defined as_uint256 vs 0) as Hg.
  destruct (getData as_uint256 vs 0) as [v|x|]; [| |done].
  2: { destruct (Hbad x Hfm) as (r' & e' & -> & ? & ? & ? & ? & ?). exists r', e', (balances m). split_and!; done. }
  rewrite !Ok_bind. cbn [native_spec].
  destruct (native_withdraw_run m a e v E Hi) as (r & e1 & b & Hr & L1 & C1 & Lo1 & B1 & Hb & Hm). rewrite <-Hfm in Hr.
  assert (r ≠ Undef) as Hur. { destruct (decide _); [by destruct Hm as [-> _]|by destruct Hm as [y ->]]. }
  destruct (native_finish iface _ _ _ _ _ _ _ _ E Hp Hr L1 C1 Lo1 B1 Hur) as (r' & e' & -> & I' & Lo' & B' & C').
  exists r', e', b. split_and!; try done. destruct (decide _).
  - destruct Hm as (-> & Hs & Hn). cbn [of_option]. destruct C' as [-> C']. rewrite Hs in C'. done.
  - destruct Hm as [y ->]. done.
Qed.

(** A call of a native wrapper meets its specification. *)
Lemma native_call_meets iface m a e callInfo :
  native_at m a e → idle e → native_meets m a e (parse_native callInfo) (contract_ethCall accts iface a callInfo m).
Proof.
  intros E Hi. unfold parse_native. cbv zeta. case_bool_decide as H1'; [by apply native_deposit_meets|].
  case_bool_decide as H2'; [by apply native_withdraw_meets|].
  rewrite (native_as_token _ _ _ _ _ E (native_payable_None _ _ H1' H2')), (on_token_native _ _ _ _ E).
  destruct (ERC20_call_spec callInfo e Hi) as (r & e' & -> & I' & Lo' & B' & Hm). cbn [fst snd].
  exists r, e', (balances m). split_and!; try done.
  destruct (parse_call callInfo) as [c| |]; [|done..]. rewrite !Ok_bind. cbn [native_spec]. cbn [mbind outcome_bind] in Hm.
  destruct (spec_call (getCaller e) c (committed e)); cbn in *; [|done]. by destruct Hm.
Qed.

(** C21: a call of a native wrapper refines its specification: it returns or
    throws on any calldata; a deposit, a withdrawal or a token call that the
    specification allows has exactly its effect on the wrapped tokens (when the
    commit flag is set; they are reverted in a simulation) and on the native
    balances that the call sees; every other call throws and leaves the tokens
    as they were. *)
Theorem native_call_refines m a e callInfo :
  contracts m !! a = Some (D_NativeWrapper e) → idle e →
  ∃ r e' b, ethCall_at accts a callInfo m = (r, with_native m a e' b) ∧ idle e' ∧
    match (c ← parse_native callInfo; of_option (runtime_error "rejected")
             (native_spec a (getCaller e) (l_value (e_locals e)) c (committed e) (native (balances m)))) with
    | Ok (t, L) => r = Ok tt ∧ committed e' = (if l_commit (e_locals e) then t else committed e) ∧ ∀ k, native b k = L k
    | _ => (∃ x, r = Throw (runtime_error x)) ∧ committed e' = committed e
    end.
Proof.
  intros E Hi. destruct (native_call_meets (iface_callContract accts 2) m a e callInfo E Hi) as (r & e' & b & Hc & Hi' & _ & _ & _ & Hm).
  by exists r, e', b.
Qed.

(** ** Nested calls end *)

(** The calls that wrappers make. *)
Definition wrapper_call (callInfo : ethCallInfo) : Prop :=
  take 4 (ci_data callInfo) = be_split 4 0xa9059cbb ∨ take 4 (ci_data callInfo) = be_split 4 0x23b872dd.

Lemma Encoder_selector vs func data : Encoder vs func = Ok data → func ≠ [] → take 4 data = encodeFunction func.
Proof.
  intros He Hf. unfold Encoder in He. apply bind_Ok in He as (header & Hh & He).
  destruct (encode_args (32 * zlen vs) vs) as [hs tl]. apply Ok_inj in He as <-.
  assert (header = encodeFunction func ∧ length header = 4%nat) as [-> Hl].
  { unfold encode_header in Hh. rewrite bool_decide_false in Hh by done.
    repeat case_match; try done. inv_ok. split; [done|]. unfold encodeFunction. rewrite length_take, sha3_length. done. }
  by rewrite take_app_le, take_ge by lia.
Qed.

Lemma ST_bind_ext {S A B} (op : ST S A) (f g : A → ST S B) s :
  (∀ x s, f x s = g x s) → (op ≫= f) s = (op ≫= g) s.
Proof. intros Hfg. unfold mbind, ST_bind. destruct (op s) as [[] ?]; by rewrite ?Hfg. Qed.

Section Nested.
Context `{!Selectors}.
#[local] Set Default Proof Using "Type*".

Lemma enc_wrapper_call self to vs func data :
  func = str "transfer(address,uint256)" ∨ func = str "transferFrom(address,address,uint256)" →
  Encoder vs func = Ok data → wrapper_call (mkCallInfo self to 0 0 0 data).
Proof.
  intros Hf E. unfold wrapper_call. cbn [ci_data].
  destruct Hf as [->| ->]; rewrite (Encoder_selector _ _ _ E) by done; [left; apply transfer_selector|right; apply transferFrom_selector].
Qed.

Lemma callContract_enc_ext i1 i2 self to vs func m :
  func = str "transfer(address,uint256)" ∨ func = str "transferFrom(address,address,uint256)" →
  (∀ ci m, wrapper_call ci → i1 ci m = i2 ci m) →
  callContract_enc i1 self to (Encoder vs func) m = callContract_enc i2 self to (Encoder vs func) m.
Proof.
  intros Hf Hi. unfold callContract_enc. rewrite !lift_bind. destruct (Encoder vs func) as [data| |] eqn:E; [|done..].
  by apply Hi, (enc_wrapper_call self to vs func data).
Qed.

Lemma wrapper_functions_ext i1 i2 self functor :
  (∀ ci m, wrapper_call ci → i1 ci m = i2 ci m) →
  match wrapper_functions i1 self functor, wrapper_functions i2 self functor with
  | Some f, Some g => ∀ ci m, f ci m = g ci m
  | None, None => True
  | _, _ => False
  end.
Proof.
  intros Hi. unfold wrapper_functions, table. cbn [List.find fst snd].
  assert (∀ token to v m, wrapper_send i1 self token to v m = wrapper_send i2 self token to v m) as Hs.
  { intros. unfold wrapper_send. do 2 (apply ST_bind_ext; intros). apply callContract_enc_ext; auto. }
  repeat (case_bool_decide; [cbn [fmap option_fmap option_map snd]; intros ci m|]); [| | |done].
  - do 3 (apply ST_bind_ext; intros). unfold wrapper_withdraw. apply ST_bind_ext. intros. apply Hs.
  - do 4 (apply ST_bind_ext; intros). apply Hs.
  - do 3 (apply ST_bind_ext; intros). unfold wrapper_deposit. apply ST_bind_ext. intros c m'.
    unfold mbind, ST_bind. by rewrite (callContract_enc_ext i1 i2) by auto.
Qed.

Lemma contract_ethCall_ext i1 i2 self callInfo m :
  (∀ ci m, wrapper_call ci → i1 ci m = i2 ci m) →
  contract_ethCall accts i1 self callInfo m = contract_ethCall accts i2 self callInfo m.
Proof.
  intros Hi. unfold contract_ethCall. destruct (contracts m !! self) as [[]|]; try done.
  unfold dyn_ethCall, mbind, ST_bind, catching.
  pose proof (wrapper_functions_ext i1 i2 self (take 4 (ci_data callInfo)) Hi) as Hf.
  destruct (wrapper_functions i1 self _), (wrapper_functions i2 self _); try done. by rewrite Hf.
Qed.

(** The functions that wrappers call are not functions of wrappers. *)
Lemma callContract_body_leaf i1 i2 callInfo m :
  wrapper_call callInfo → callContract_body accts i1 callInfo m = callContract_body accts i2 callInfo m.
Proof.
  intros Hw.
  assert (∀ i self, wrapper_functions i self (take 4 (ci_data callInfo)) = None) as Hn.
  { intros i self. unfold wrapper_functions, table. cbn [List.find fst]. by destruct Hw as [-> | ->]. }
  assert (∀ self m, contract_ethCall accts i1 self callInfo m = contract_ethCall accts i2 self callInfo m) as He.
  { intros self m'. unfold contract_ethCall, dyn_ethCall. cbv zeta. by rewrite !Hn. }
  unfold callContract_body. do 2 (apply ST_bind_ext; intros). case_match; [done|]. do 2 (apply ST_bind_ext; intros).
  unfold catching. by rewrite He.
Qed.

(** Calls between contracts end: only wrappers call other contracts, and
    the functions they call make no further calls, so that a call has the same
    result at every depth the model allows it. *)
Theorem nested_calls_end n self callInfo m :
  contract_ethCall accts (iface_callContract accts (S n)) self callInfo m = ethCall_at accts self callInfo m.
Proof. apply contract_ethCall_ext. intros ci m' Hw. by apply callContract_body_leaf. Qed.

(** ** What a call leaves alone at a native wrapper *)

Section Calm.
Context (w : bytes) (K : gmap bytes kind) (l : ContractLocals) (T : Z).

(** The wrapper at [w] holds [T] tokens in all, is idle, and its native balance
    is not among the temporary ones. *)
Record calm (m : Manager) : Prop := {
  cl_kinds : dc_kind <$> contracts m = K;
  cl_locals : m_locals m = l;
  cl_native : ∃ e, native_at m w e ∧ idle e ∧ tsum (sm_map (_balances e)) = T;
  cl_balance : balances m !! w = None;
}.

Lemma calm_stable a : a ≠ w → stable calm a.
Proof.
  intros Hne. split. intros m d d' [Hk Hl (e & He & Hi & Ht) Hb] Ed Hd. split; cbn; try done.
  - by rewrite (kinds_insert _ _ _ _ Ed Hd).
  - exists e. split; [|done]. unfold native_at. cbn. by rewrite lookup_insert_ne.
Qed.

Lemma calm_put m e : calm m → idle e → tsum (sm_map (_balances e)) = T → calm (put_native m w e).
Proof.
  intros [Hk Hl (e0 & He & Hi & Ht) Hb] Hi' Ht'. split; cbn; try done.
  - by rewrite (kinds_insert _ _ _ _ He).
  - exists e. split; [apply native_at_put|done].
Qed.

Lemma calm_on_locals a f : keeps calm (on_locals a f) any.
Proof.
  destruct (decide (a = w)) as [->|]; [|by apply keeps_on_locals, calm_stable].
  apply keeps_modify. intros m Hm. destruct (cl_native _ Hm) as (e & He & Hi & Ht).
  rewrite (alter_is_insert _ _ _ _ He). apply (calm_put m (set_locals e (f (e_locals e))) Hm); [|done].
  by apply set_locals_idle.
Qed.

Lemma spec_call_sum caller c t t' : spec_call caller c t = Some t' → tsum (t_bal t') = tsum (t_bal t).
Proof.
  intros E. destruct c as [to v|sp v|from to v]; cbn [spec_call] in E.
  - destruct (move _ _ _ _) eqn:Em; [|done]. injection E as <-. exact (move_sum _ _ _ _ _ Em).
  - by injection E as <-.
  - case_bool_decide; [|done]. destruct (move _ _ _ _) eqn:Em; [|done]. injection E as <-. exact (move_sum _ _ _ _ _ Em).
Qed.

(** Token calls of the wrapper move tokens between holders. *)
Lemma token_call_sum callInfo e :
  idle e → idle (ERC20_ethCall callInfo e).2 ∧
    tsum (sm_map (_balances (ERC20_ethCall callInfo e).2)) = tsum (sm_map (_balances e)).
Proof.
  intros Hi. destruct (ERC20_call_spec callInfo e Hi) as (r & e' & -> & Hi' & _ & _ & Hm). split; [done|]. cbn [snd].
  change (tsum (t_bal (committed e')) = tsum (t_bal (committed e))).
  destruct (parse_call callInfo) as [c| |]; cbn [mbind outcome_bind] in Hm; [|by destruct Hm as [_ ->]..].
  destruct (spec_call _ c _) eqn:Es; cbn [of_option] in Hm; [|by destruct Hm as [_ ->]].
  destruct Hm as [_ ->]. case_match; [|done]. exact (spec_call_sum _ _ _ _ Es).
Qed.

Lemma calm_token_call callInfo m : calm m → calm (on_token w (ERC20_ethCall callInfo) m).2.
Proof.
  intros Hm. destruct (cl_native _ Hm) as (e & He & Hi & Ht). rewrite (on_token_native _ _ _ _ He). cbn [snd].
  destruct (token_call_sum callInfo e Hi) as [Hi' Ht']. apply (calm_put _ _ Hm); [done|congruence].
Qed.

Lemma wrapper_call_token a callInfo : wrapper_call callInfo → native_payable accts a (take 4 (ci_data callInfo)) = None.
Proof. intros [E|E]; apply native_payable_None; by rewrite E. Qed.

(** A call that a wrapper makes. *)
Lemma calm_nested_ethCall iface a callInfo m :
  wrapper_call callInfo → calm m → calm (contract_ethCall accts iface a callInfo m).2.
Proof.
  intros Hw Hm. pose proof (wrapper_call_token a callInfo Hw) as Hp. destruct (decide (a = w)) as [->|Hne].
  - destruct (cl_native _ Hm) as (e & He & _). rewrite (native_as_token _ _ _ _ _ He Hp). by apply calm_token_call.
  - pose proof (calm_stable a Hne) as Hs. destruct (contracts m !! a) as [[e|x|e]|] eqn:E.
    + unfold contract_ethCall. rewrite E. by apply keeps_on_token.
    + unfold contract_ethCall. rewrite E. apply dyn_ethCall_after; [done| |done|by intros; apply keeps_wrapper_updateState].
      intros f _ Hf. unfold wrapper_functions, table in Hf. cbn [List.find fst] in Hf. by destruct Hw as [Ew|Ew]; rewrite Ew in Hf.
    + rewrite (native_as_token _ _ _ _ _ E Hp). by apply keeps_on_token.
    + unfold contract_ethCall. by rewrite E.
Qed.

Lemma calm_nested_call iface callInfo :
  wrapper_call callInfo → ci_value callInfo = 0 → keeps calm (callContract_body accts iface callInfo) any.
Proof.
  intros Hw Hv. unfold callContract_body. rewrite Hv. cbn [Z.eqb].
  eapply keeps_bind; [apply keeps_ret|intros _ _]. eapply keeps_bind; [apply keeps_gets|intros p _].
  destruct (negb p); [apply keeps_lift|]. eapply keeps_bind; [apply keeps_gets|intros c _].
  eapply keeps_bind; [apply calm_on_locals|intros _ _]. apply keeps_catching.
  - intros m Hm. split; [by apply calm_nested_ethCall|done].
  - intros x. eapply keeps_bind; [apply calm_on_locals|intros _ _; apply keeps_lift].
Qed.

Lemma calm_callContract_enc n self to vs func :
  func = str "transfer(address,uint256)" ∨ func = str "transferFrom(address,address,uint256)" →
  keeps calm (callContract_enc (iface_callContract accts (S n)) self to (Encoder vs func)) any.
Proof.
  intros Hf m Hm. unfold callContract_enc. rewrite lift_bind. destruct (Encoder vs func) as [data| |] eqn:E; [|done..].
  apply calm_nested_call; [|done|done]. by apply (enc_wrapper_call self to vs func data).
Qed.

(** A call of another contract by an account that is not the wrapper. *)
Lemma calm_wrapper_functions n a functor f callInfo :
  a ≠ w → wrapper_functions (iface_callContract accts (S n)) a functor = Some f → keeps calm (f callInfo) any.
Proof.
  intros Hne. apply keeps_wrapper_functions; [by apply calm_stable|]. intros. by apply calm_callContract_enc.
Qed.

Lemma calm_native_withdraw a v m e :
  a ≠ w → native_at m a e → getCaller e ≠ w → calm m → calm (native_withdraw accts a v m).2.
Proof.
  intros Hne E Hc Hm. pose proof (calm_stable a Hne) as [Hs].
  set (op := caller ← gets getCaller; on_balances (SafeMap_bracket 0 caller (λ b, sub_assign b v))).
  assert (getCaller (op e).2 = getCaller e) as Ec.
  { unfold op, mbind, ST_bind, gets, on_balances, getCaller. by destruct (SafeMap_bracket _ _ _ _). }
  unfold native_withdraw. fold op. unfold mbind at 1, ST_bind at 1. rewrite (on_token_native _ _ _ _ E).
  assert (∀ e', calm (put_native m a e')) as Hput by (intros; by eapply Hs).
  destruct (op e) as [[[]|x|] e1]; cbn [fst snd] in *; [|by apply Hput..].
  unfold mbind, ST_bind. rewrite (on_token_native _ _ _ _ (native_at_put m a e1)). cbn [gets fst snd]. rewrite put_put, Ec.
  destruct (sendTokens_spec a (getCaller e) v (put_native m a e1)) as (r & b & -> & Hb & _). cbn [snd].
  pose proof (Hput e1) as [? ? ? Hbal]. split; try done. cbn. by rewrite Hb.
Qed.

Lemma calm_other_call n a callInfo m :
  a ≠ w → (∀ d, contracts m !! a = Some d → l_caller (dc_locals d) ≠ w) →
  calm m → calm (contract_ethCall accts (iface_callContract accts (S n)) a callInfo m).2.
Proof.
  intros Hne Hc Hm. pose proof (calm_stable a Hne) as Hs. unfold contract_ethCall.
  destruct (contracts m !! a) as [[e|x|e]|] eqn:E.
  - by apply keeps_on_token.
  - apply dyn_ethCall_after; [done| |done|by intros; apply keeps_wrapper_updateState].
    intros f _ Hf. by apply (calm_wrapper_functions _ _ _ _ _ Hne Hf).
  - apply dyn_ethCall_after; [| |done|by intros; apply keeps_on_token].
    + intros f (k & Hin & _)%table_elem. repeat (apply elem_of_cons in Hin as [[= -> ->]|Hin]); [| |by apply elem_of_nil in Hin].
      * unfold native_deposit. by apply keeps_on_token.
      * rewrite lift_bind. destruct (decode_args _ _); [|done..]. rewrite lift_bind. destruct (getData _ _ _); [|done..].
        apply (calm_native_withdraw a _ m e); try done. by apply (Hc (D_NativeWrapper e)).
    + intros f _ Hf. apply fmap_Some in Hf as (g & _ & ->). by apply keeps_on_token.
  - done.
Qed.

End Calm.

End Nested.

End Calls.

(** * Examples *)

(** A hash with the two selectors. *)
#[refine] Definition sel_keccak : Keccak := {|
  keccak256 m :=
    if bool_decide (m = str "transfer(address,uint256)") then be_split 4 0xa9059cbb ++ be_split 28 0
    else if bool_decide (m = str "transferFrom(address,address,uint256)") then be_split 4 0x23b872dd ++ be_split 28 0
    else be_split 32 0
|}.
Proof.
  - intros m. repeat case_match; reflexivity.
  - intros m. repeat case_match; rewrite ?Forall_app; eauto using be_split_ok.
Defined.

Lemma sel_keccak_selectors : @Selectors sel_keccak.
Proof. split; vm_compute; reflexivity. Qed.

Definition W : bytes := replicate 20 9.

Definition sample_native (bal : gmap bytes Z) : ERC20 :=
  mkERC20 (mkBase (str "NativeWrapper") W alice 8080) Locals_init [] (mkSafeVar true false [] None) (mkSafeVar true false [] None)
    (mkSafeVar true false 18 None) (mkSafeVar true false 0 None) (SafeMap_owned bal) (SafeMap_owned ∅).

Lemma sample_native_idle bal : idle (sample_native bal).
Proof.
  assert (∀ T (m : gmap bytes T), live_map (SafeMap_owned m)) as Hm.
  { intros T m. split; [done|]. split; [done|]. intros _. rewrite sm_view_whole by done. apply map_empty_union. }
  split; [|done]. split; try done; try apply Hm; [constructor|..]; cbn; (split; [by intros ?%elem_of_nil|done]).
Qed.

Definition sample_manager : Manager := mkManager Locals_init ∅ {[ W := D_NativeWrapper (sample_native {[ alice := 100 ]}) ]}.

Definition withdraw_call (v : Z) : bytes := be_split 4 0x2e1a7d4d ++ encodeUint256 v.

Lemma nested_calls_end_witness :
  @contract_ethCall sel_keccak toy_left ∅ (@iface_callContract sel_keccak toy_left ∅ 9) W (mkCallInfo alice W 0 0 0 (withdraw_call 40)) sample_manager
  = @ethCall_at sel_keccak toy_left ∅ W (mkCallInfo alice W 0 0 0 (withdraw_call 40)) sample_manager.
Proof. apply (@nested_calls_end sel_keccak toy_left ∅ sel_keccak_selectors 8). Defined.

Definition native_funds : gmap bytes Account := <[ W := mkAccount 100 0 ]> {[ alice := mkAccount 1000 0 ]}.

Lemma native_call_refines_witness :
  let e := set_locals (sample_native {[ alice := 100 ]}) (mkLocals alice alice 0 true) in
  let m := mkManager Locals_init ∅ {[ W := D_NativeWrapper e ]} in
  ∃ e' b, @ethCall_at sel_keccak toy_left native_funds W (mkCallInfo alice W 0 0 0 (withdraw_call 40)) m = (Ok tt, with_native m W e' b) ∧
    sm_map (_balances e') = {[ alice := 60 ]} ∧ native native_funds b W = 60 ∧ native native_funds b alice = 1040.
Proof.
  intros e m.
  destruct (@native_call_refines sel_keccak toy_left native_funds m W e
              (mkCallInfo alice W 0 0 0 (withdraw_call 40))) as (r & e' & b & E & _ & Hm).
  - vm_compute. reflexivity.
  - apply set_locals_idle, sample_native_idle.
  - assert (parse_native (mkCallInfo alice W 0 0 0 (withdraw_call 40)) = Ok (NWithdraw 40)) as Ep by (vm_compute; reflexivity).
    rewrite Ep in Hm. cbn [mbind outcome_bind native_spec] in Hm. rewrite decide_True in Hm.
    2: { apply (bool_decide_unpack _). vm_compute. exact I. }
    cbn [of_option] in Hm. destruct Hm as (-> & Hc & Hn). exists e', b. split; [exact E|]. split_and!.
    + etransitivity; [exact (f_equal t_bal Hc)|]. vm_compute. reflexivity.
    + rewrite Hn. vm_compute. reflexivity.
    + rewrite Hn. vm_compute. reflexivity.
Defined.
