(* ===== verification/Backing.v ===== *)
(** * Backing: native wrappers under transactions

    With the contract manager as its host, [State] executes transactions.  The
    tokens of a native wrapper stay backed by the native balance of its account
    under every sequence of transactions; a gas estimate in between breaks it,
    because it leaves its temporary balances and the commit flag behind. *)

From S2P Require Import Prelude Utils Hex Strings Ecdsa Tx Block DB Storage State SafeVars ABI Contract ERC20 ContractManager Host Wrapping.

(** ** Settling the temporary balances *)

Section Settle.
Context `{!HashMapOrder}.

Lemma settle_other a (l : list (bytes * Z)) k :
  k ∉ l.*1 → account_at (foldl (λ a e, <[e.1 := mkAccount e.2 (nonce (account_at a e.1))]> a) a l) k = account_at a k.
Proof.
  revert a. induction l as [|[k' v] l IH]; intros a Hk; [done|]. cbn in Hk. apply not_elem_of_cons in Hk as [Hne Hk].
  cbn [foldl]. rewrite IH by done. cbn [fst snd]. rewrite account_at_insert, decide_False by done. done.
Qed.

Lemma settle_elem a (l : list (bytes * Z)) k v :
  NoDup l.*1 → (k, v) ∈ l →
  balance (account_at (foldl (λ a e, <[e.1 := mkAccount e.2 (nonce (account_at a e.1))]> a) a l) k) = v.
Proof.
  revert a. induction l as [|[k' v'] l IH]; intros a Hnd Hin; [by apply elem_of_nil in Hin|].
  cbn in Hnd. apply NoDup_cons in Hnd as [Hni Hnd]. cbn [foldl]. apply elem_of_cons in Hin as [[= <- <-]|Hin].
  - rewrite settle_other by done. cbn [fst snd]. by rewrite account_at_insert, decide_True.
  - by apply IH.
Qed.

(** The accounts get the balances that the call has seen. *)
Lemma processContractPayable_spec a b :
  ∃ a', processContractPayable true a b = Ok a' ∧ ∀ k, balance (account_at a' k) = native a b k.
Proof.
  unfold processContractPayable. cbn [negb]. eexists. split; [done|]. intros k. unfold native.
  destruct (b !! k) as [v|] eqn:E; cbn [default from_option id].
  - apply settle_elem; [apply iter_map_NoDup|by apply iter_map_elem].
  - rewrite settle_other; [done|]. intros Hin. apply list_elem_of_fmap in Hin as ([k' v] & -> & Hin).
    apply iter_map_elem in Hin. cbn in E. congruence.
Qed.

End Settle.

Section Backing.
Context `{Keccak} `{!CheckedLeft} `{RocksDB} `{!HashMapOrder} (chainID : Z).
Context `{!Selectors}.

(** ** Creating contracts *)

Lemma insert_contract_native w e a d : keeps (λ m, native_at m w e) (insert_contract a d) any.
Proof.
  apply keeps_modify. intros m E. unfold native_at. cbn. destruct (contracts m !! a) eqn:Ea; [done|].
  rewrite lookup_insert_ne; [done|]. intros ->. congruence.
Qed.

Lemma manager_ethCall_native w e callInfo s :
  native_at s.1 w e → native_at (manager_ethCall chainID callInfo s).2.1 w e.
Proof.
  intros E. assert (∀ a d db, native_at (on_manager (insert_contract a d) (s.1, db)).2.1 w e) as Hi
    by (intros a d db; apply (insert_contract_native w e a d _ E)).
  unfold manager_ethCall, createNewERC20Contract, createNewERC20WrapperContract, createNewERC20NativeWrapperContract.
  repeat case_match; try done; apply Hi.
Qed.

(** ** Transactions on deployed contracts *)

(** The manager when the contract at [to] is called, and after it. *)
Definition before_call (m : Manager) (tx : TxBlock) : Manager :=
  (on_locals (tb_to tx) (set_caller (tb_from tx) (tb_value tx) true)
     (set_mlocals m (with_commit (m_locals m) true))).2.

Definition after_call (m : Manager) (to : bytes) : Manager :=
  (on_locals to (λ l, with_commit l false) (set_balances m ∅)).2.

(** How the transaction ends when the call has ended. *)
Definition settle (pcp : gmap bytes Z → outcome (gmap bytes Account)) (accts : gmap bytes Account) (tx : TxBlock) (db : rstore)
    (res : outcome unit * Manager) : outcome (gmap bytes Account) * (Manager * rstore) :=
  match res.1 with
  | Ok _ =>
      if isPayable res.2 (txToCallInfo tx) then
        match pcp (balances res.2) with
        | Ok a => (Ok a, (after_call res.2 (tb_to tx), db))
        | Throw e => (Throw e, (res.2, db))
        | Undef => (Undef, (res.2, db))
        end
      else (Ok accts, (after_call res.2 (tb_to tx), db))
  | Throw e => (Throw (runtime_error (what e)), (after_call res.2 (tb_to tx), db))
  | Undef => (Undef, (res.2, db))
  end.

Lemma callContract_dynamic pcp accts tx m db d :
  tb_to tx ≠ manager_address → tb_to tx ≠ rdPoS_address → contracts m !! tb_to tx = Some d →
  callContract chainID pcp accts tx (m, db) =
    settle pcp accts tx db (ethCall_at accts (tb_to tx) (txToCallInfo tx) (before_call m tx)).
Proof.
  intros H1' H2' Ed. unfold callContract, settle. rewrite !bool_decide_false by done.
  unfold mbind, ST_bind, on_manager, modify, gets, lift, catching. cbn [fst snd contracts set_mlocals].
  rewrite bool_decide_true by (by rewrite Ed). cbn [negb].
  unfold before_call, on_locals, modify. cbn [fst snd].
  destruct (ethCall_at _ _ _ _) as [[[]|e|] m2]; cbn [fst snd]; [|done|done].
  change (isPayable m2 (txToCallInfo tx)) with
    (match contracts m2 !! tb_to tx with Some d => isPayableFunction d (take 4 (tb_data tx)) | None => false end).
  destruct (match contracts m2 !! tb_to tx with Some d => _ | None => _ end); [|done].
  cbn [fst snd]. by destruct (pcp (balances m2)).
Qed.

(** The native wrapper at [w] with [T] tokens, between transactions. *)
Definition holds (m : Manager) (w : bytes) (T : Z) : Prop :=
  ∃ e, native_at m w e ∧ idle e ∧ tsum (sm_map (_balances e)) = T ∧ balances m = ∅.

Lemma after_call_holds m to w e :
  native_at m w e → idle e → holds (after_call m to) w (tsum (sm_map (_balances e))).
Proof.
  intros E Hi. unfold after_call, on_locals, modify, holds, native_at. cbn.
  destruct (decide (to = w)) as [->|].
  - exists (set_locals e (with_commit (e_locals e) false)). rewrite lookup_alter_eq, E. split_and!; try done. by apply set_locals_idle.
  - exists e. rewrite lookup_alter_ne by done. done.
Qed.

Lemma before_call_native m tx e :
  native_at m (tb_to tx) e →
  before_call m tx = put_native (set_mlocals m (with_commit (m_locals m) true)) (tb_to tx)
                       (set_locals e (mkLocals (tb_from tx) (tb_from tx) (tb_value tx) true)).
Proof.
  intros E. unfold before_call, on_locals, modify. cbn [fst snd]. unfold put_native. cbn [contracts set_mlocals].
  by rewrite (alter_is_insert _ _ _ _ E).
Qed.

(** What a transaction leaves: the wrapper, and enough on its account. *)
Definition covered (w : bytes) (accts : gmap bytes Account) (res : outcome (gmap bytes Account) * (Manager * rstore)) : Prop :=
  ∃ T, holds res.2.1 w T ∧ T ≤ balance (account_at (match res.1 with Ok a => a | _ => accts end) w).

Lemma payable_same m m' tx :
  dc_kind <$> contracts m' = dc_kind <$> contracts m → isPayable m' (txToCallInfo tx) = isPayable m (txToCallInfo tx).
Proof.
  intros Hk. unfold isPayable. apply (f_equal (.!! ci_to (txToCallInfo tx))) in Hk. rewrite !lookup_fmap in Hk.
  destruct (contracts m' !! _), (contracts m !! _); try done. cbn in Hk. injection Hk as Hk. by apply payable_kind.
Qed.

Lemma settle_covered w accts tx db flag res e :
  native_at res.2 w e → idle e → (isPayable res.2 (txToCallInfo tx) = true → flag = true) →
  (res.1 = Ok tt → tsum (sm_map (_balances e)) ≤
     if isPayable res.2 (txToCallInfo tx) then native accts (balances res.2) w else balance (account_at accts w)) →
  (∀ x, res.1 = Throw x → tsum (sm_map (_balances e)) ≤ balance (account_at accts w)) →
  res.1 ≠ Undef → covered w accts (settle (processContractPayable flag accts) accts tx db res).
Proof.
  intros E Hi Hflag Hok Hth Hu. destruct res as [r m]. cbn [fst snd] in *. unfold settle. cbn [fst snd].
  exists (tsum (sm_map (_balances e))). pose proof (after_call_holds m (tb_to tx) w e E Hi) as Ha.
  destruct r as [[]|x|]; [|by specialize (Hth x eq_refl)|done]. specialize (Hok eq_refl).
  destruct (isPayable m (txToCallInfo tx)); [|done]. rewrite (Hflag eq_refl).
  destruct (processContractPayable_spec accts (balances m)) as (a & -> & Hn). split; [done|]. cbn [fst]. by rewrite Hn.
Qed.

(** A call of another contract. *)
Lemma covered_other w accts tx m db T flag d :
  holds m w T → (isPayable m (txToCallInfo tx) = true → flag = true) → tb_from tx ≠ w → tb_to tx ≠ w →
  tb_to tx ≠ manager_address → tb_to tx ≠ rdPoS_address → contracts m !! tb_to tx = Some d →
  T ≤ balance (account_at accts w) →
  let res := callContract chainID (processContractPayable flag accts) accts tx (m, db) in
  res.1 ≠ Undef → covered w accts res.
Proof using Type*.
  intros (e & E & Hi & Ht & Hb) Hflag Hfrom Hto Hm Hr Ed HT res Hu. unfold res in *. clear res.
  rewrite (callContract_dynamic _ _ _ _ _ _ Hm Hr Ed) in *.
  set (K := dc_kind <$> contracts m). set (l := with_commit (m_locals m) true).
  assert (calm w K l T (before_call m tx)) as Hc.
  { apply (keeps_on_locals _ _ _ (calm_stable w K l T (tb_to tx) Hto)). split; try done; [by exists e|]. cbn. by rewrite Hb. }
  assert (calm w K l T (ethCall_at accts (tb_to tx) (txToCallInfo tx) (before_call m tx)).2) as [Hk2 Hl2 (e2 & E2 & Hi2 & Ht2) Hb2].
  { apply (calm_other_call accts w K l T 1 (tb_to tx)); [done| |done]. intros d' Hd'. unfold before_call, on_locals, modify in Hd'.
    cbn in Hd'. rewrite lookup_alter_eq, Ed in Hd'. injection Hd' as <-. by destruct d. }
  eapply settle_covered; eauto.
  - by rewrite (payable_same m _ tx Hk2).
  - intros _. rewrite Ht2. case_match; [|done]. unfold native. by rewrite Hb2.
  - intros x _. by rewrite Ht2.
  - intros Hx. apply Hu. unfold settle. by rewrite Hx.
Qed.

(** [deposit] and [withdraw] are the payable functions. *)
Lemma parse_native_payable m e callInfo c :
  native_at m (ci_to callInfo) e → parse_native callInfo = Ok c →
  isPayable m callInfo = match c with NToken _ => false | _ => true end.
Proof.
  intros E Hc. unfold isPayable. rewrite E. cbn [isPayableFunction]. unfold parse_native in Hc. cbv zeta in Hc.
  case_bool_decide as H1'; [apply Ok_inj in Hc as <-; apply bool_decide_true; by left|].
  case_bool_decide as H2'; [apply bind_Ok in Hc as (vs & _ & Hc); apply bind_Ok in Hc as (v & _ & Hc); apply Ok_inj in Hc as <-;
    apply bool_decide_true; by right|].
  apply bind_Ok in Hc as (c' & _ & Hc). apply Ok_inj in Hc as <-. apply bool_decide_false.
  intros [|]; congruence.
Qed.

(** The tokens a call of the wrapper leaves against the balance it leaves. *)
Lemma native_spec_covers w caller value c t L t' L' :
  caller ≠ w → 0 ≤ value → native_spec w caller value c t L = Some (t', L') → tsum (t_bal t) + value ≤ L w →
  tsum (t_bal t') ≤ L' w ∧ (∀ x, c = NToken x → L' = L).
Proof.
  intros Hc Hv Hs HT. destruct c as [|v|x]; cbn [native_spec] in Hs; cbv zeta in Hs.
  - case_decide; [|done]. injection Hs as <- <-. cbn [t_bal]. rewrite tsum_insert. split; [lia|done].
  - case_decide; [|done]. injection Hs as <- <-. cbn [t_bal]. rewrite tsum_insert. unfold sent.
    rewrite decide_True, decide_False by done. split; [lia|done].
  - destruct (spec_call caller x t) as [t1|] eqn:Es; [|done]. injection Hs as <- <-.
    rewrite (spec_call_sum _ _ _ _ Es). split; [lia|done].
Qed.

(** A call of the wrapper itself; the value has been credited before. *)
Lemma covered_self w accts tx m db T flag :
  holds m w T → (isPayable m (txToCallInfo tx) = true → flag = true) → tb_from tx ≠ w → tb_to tx = w →
  w ≠ manager_address → w ≠ rdPoS_address → 0 ≤ tb_value tx →
  T + tb_value tx ≤ balance (account_at accts w) →
  let res := callContract chainID (processContractPayable flag accts) accts tx (m, db) in
  res.1 ≠ Undef → covered w accts res.
Proof.
  intros (e & E & Hi & Ht & Hb) Hflag Hfrom <- Hm Hr Hv HT res Hu. unfold res in *. clear res.
  rewrite (callContract_dynamic _ _ _ _ _ _ Hm Hr E) in *. set (w := tb_to tx) in *.
  set (e0 := set_locals e (mkLocals (tb_from tx) (tb_from tx) (tb_value tx) true)).
  assert (native_at (before_call m tx) w e0) as E0 by (rewrite (before_call_native _ _ _ E); apply native_at_put).
  destruct (native_call_meets accts (iface_callContract accts 2) _ _ _ (txToCallInfo tx) E0 (set_locals_idle _ _ Hi))
    as (r & e' & b & Hc & Hi' & _ & _ & _ & Hs).
  assert (ethCall_at accts w (txToCallInfo tx) (before_call m tx) = (r, with_native (before_call m tx) w e' b)) as Hc' by exact Hc.
  rewrite Hc' in *. clear Hc Hc'.
  assert (isPayable (with_native (before_call m tx) w e' b) (txToCallInfo tx) = isPayable m (txToCallInfo tx)) as Hpay.
  { apply payable_same. unfold with_native. cbn [contracts set_balances]. unfold put_native. cbn [contracts set_contracts].
    rewrite (kinds_insert _ _ _ _ E0) by done. rewrite (before_call_native _ _ _ E). cbn.
    by rewrite (kinds_insert _ _ _ _ E). }
  change (native accts (balances (before_call m tx))) with (native accts (balances m)) in Hs. rewrite Hb in Hs.
  change (getCaller e0) with (tb_from tx) in Hs. change (l_value (e_locals e0)) with (tb_value tx) in Hs.
  change (l_commit (e_locals e0)) with true in Hs. change (committed e0) with (committed e) in Hs.
  assert (native accts ∅ w = balance (account_at accts w)) as Hn0 by (unfold native; by rewrite lookup_empty).
  eapply (settle_covered w accts tx db flag _ e'); cbn [fst snd]; [apply native_at_with|done|by rewrite Hpay| | |].
  - intros ->. rewrite Hpay. change (balances (with_native (before_call m tx) w e' b)) with b.
    change (tsum (t_bal (committed e')) ≤ if isPayable m (txToCallInfo tx) then native accts b w else balance (account_at accts w)).
    destruct (parse_native (txToCallInfo tx)) as [c|x|] eqn:Ep; cbn [mbind outcome_bind] in Hs; [|by destruct Hs as [[? ?] _]..].
    destruct (native_spec w _ _ c _ _) as [[t' L']|] eqn:Es; cbn [of_option] in Hs; [|by destruct Hs as [[? ?] _]].
    destruct Hs as (_ & -> & Hn). rewrite (parse_native_payable m e (txToCallInfo tx) _ E Ep), Hn.
    destruct (native_spec_covers _ _ _ _ _ _ _ _ Hfrom Hv Es) as [Hcov Htok]; [rewrite Hn0; cbn; lia|].
    destruct c as [|v|y]; [done..|]. rewrite (Htok y eq_refl) in Hcov. lia.
  - intros x ->. change (tsum (t_bal (committed e')) ≤ balance (account_at accts w)).
    assert (committed e' = committed e) as ->; [|cbn; lia].
    destruct (_ ≫= _) as [[]| |]; [by destruct Hs|by destruct Hs..].
  - intros ->. apply Hu. done.
Qed.

(** A creation, or a call that no contract answers. *)
Lemma covered_manager w accts tx m db T pcp :
  holds m w T → tb_to tx = manager_address → T ≤ balance (account_at accts w) →
  let res := callContract chainID pcp accts tx (m, db) in
  res.1 ≠ Undef → covered w accts res.
Proof.
  intros (e & E & Hi & Ht & Hb) Hto HT res Hu. unfold res in *. clear res. unfold callContract in *.
  rewrite bool_decide_true in * by done. unfold with_cleanup, mbind, ST_bind, catching, on_manager, modify in *.
  cbn [fst snd] in *.
  match type of Hu with context [manager_ethCall chainID ?ci ?s] =>
    pose proof (manager_ethCall_native w e ci s E) as En; destruct (manager_ethCall chainID ci s) as [[[]|x|] [m' db']] end;
    cbn in *; [| |done]; exists T; (split; [by exists e|done]).
Qed.

Lemma covered_absent w accts tx m db T pcp :
  holds m w T → tb_to tx ≠ manager_address → tb_to tx = rdPoS_address ∨ contracts m !! tb_to tx = None →
  T ≤ balance (account_at accts w) →
  covered w accts (callContract chainID pcp accts tx (m, db)).
Proof.
  intros (e & E & Hi & Ht & Hb) Hm Ha HT. unfold callContract. rewrite bool_decide_false by done.
  unfold mbind, ST_bind, on_manager, modify, gets, lift. cbn [fst snd].
  case_bool_decide; [exists T; split; [by exists e|done]|]. destruct Ha as [|Ha]; [done|]. cbn [contracts set_mlocals].
  rewrite bool_decide_false by (cbn; rewrite Ha; by intros []). exists T. split; [by exists e|done].
Qed.

Lemma callContract_covered w accts tx m db T flag :
  holds m w T → (isPayable m (txToCallInfo tx) = true → flag = true) → tb_from tx ≠ w → 0 ≤ tb_value tx →
  T + (if decide (tb_to tx = w) then tb_value tx else 0) ≤ balance (account_at accts w) →
  let res := callContract chainID (processContractPayable flag accts) accts tx (m, db) in
  res.1 ≠ Undef → covered w accts res.
Proof using Type*.
  intros Hh Hflag Hfrom Hv HT res Hu. assert (T ≤ balance (account_at accts w)) as HT' by (case_decide; lia).
  destruct (decide (tb_to tx = manager_address)) as [|Hm]; [by eapply covered_manager|].
  destruct (decide (tb_to tx = rdPoS_address)) as [|Hr]; [eapply covered_absent; eauto|].
  destruct (contracts m !! tb_to tx) as [d|] eqn:Ed; [|eapply covered_absent; eauto].
  case_decide as Hw; [eapply covered_self; eauto; congruence|by eapply covered_other].
Qed.

(** ** Transactions *)

#[local] Instance host : ContractHost := manager_host chainID.

(** The tokens of the native wrapper at [w] do not exceed the native balance of
    its account. *)
Definition backed (w : bytes) (st : State) : Prop :=
  ∃ T, holds (contractManager st) w T ∧ T ≤ getNativeBalance st w.

(** A change of other accounts. *)
Lemma backed_accounts w st a :
  backed w st → balance (account_at a w) = getNativeBalance st w → backed w (set_accounts st a).
Proof. intros (T & Hh & HT) Ha. exists T. split; [done|]. unfold getNativeBalance. cbn [accounts set_accounts]. by rewrite Ha. Qed.

Lemma backed_assign w st op addr x :
  addr ≠ w → backed w st → backed w (balance_assign op addr x st).2.
Proof.
  intros Hne Hb. unfold balance_assign. destruct (op _ _) as [r v]. cbn [snd]. apply backed_accounts; [done|].
  rewrite account_at_insert, decide_False by done. done.
Qed.

Lemma backed_nonce w st addr : addr ≠ w → backed w st → backed w (incr_nonce addr st).2.
Proof.
  intros Hne Hb. unfold incr_nonce, modify. cbn [snd]. apply backed_accounts; [done|].
  rewrite account_at_insert, decide_False by done. done.
Qed.

(** [contractManager->callContract(tx)] with the value already credited. *)
Lemma host_call_backed w tx st T :
  holds (contractManager st) w T → tb_from tx ≠ w → 0 ≤ tb_value tx →
  (isPayable (contractManager st) (txToCallInfo tx) = true → processingPayable st = true) →
  T + (if decide (tb_to tx = w) then tb_value tx else 0) ≤ getNativeBalance st w →
  (host_call tx st).1 ≠ Undef → backed w (host_call tx st).2.
Proof using Type*.
  intros Hh Hfrom Hv Hflag HT Hu. unfold host_call in *. cbv zeta in *. cbn [cm_callContract host manager_host] in *.
  pose proof (callContract_covered w (accounts st) tx (contractManager st) (st_db st) T (processingPayable st)
                Hh Hflag Hfrom Hv HT) as Hc. cbv zeta in Hc.
  destruct (callContract _ _ _ _ _) as [[a|x|] [m' db']]; cbn [fst snd] in *; [| |done];
    destruct (Hc ltac:(done)) as (T' & Hh' & HT'); by exists T'.
Qed.

Lemma process_body_backed w tx t st :
  backed w st → can_pay (accounts st) tx t → tb_from tx ≠ w →
  (process_body tx st).1 ≠ Undef → backed w (process_body tx st).2.
Proof using Type*.
  intros (T & Hh & HT) Hp Hfrom. rewrite (process_body_paid _ _ _ Hp).
  set (st1 := set_accounts st _).
  assert (T + (if decide (tb_to tx = w) then tb_value tx else 0) ≤ getNativeBalance st1 w) as HT1.
  { unfold getNativeBalance, st1. cbn [accounts set_accounts]. rewrite moved_spec. cbn [balance].
    rewrite (decide_False (P := tb_from tx = w)) by done. unfold getNativeBalance in HT. lia. }
  pose proof (cp_value _ _ _ Hp) as Hv.
  unfold mbind, ST_bind, gets, modify, mret, ST_ret.
  destruct (cm_isContractCall (contractManager st1) tx).
  2: { intros _. cbn [snd]. exists T. split; [done|]. case_decide; lia. }
  destruct (cm_isPayable (contractManager st1) (txToCallInfo tx)) eqn:Ep.
  - pose proof (host_call_backed w tx (set_payable st1 true) T Hh Hfrom Hv ltac:(done) HT1) as Hc.
    destruct (host_call tx (set_payable st1 true)) as [[[]|x|] st2]; cbn [fst snd] in *; intros Hu; [| |done].
    + destruct (Hc ltac:(done)) as (T' & ? & ?). by exists T'.
    + by apply Hc.
  - pose proof (host_call_backed w tx st1 T Hh Hfrom Hv) as Hc.
    destruct (host_call tx st1) as [[[]|x|] st2]; cbn [fst snd] in *; intros Hu; [| |done].
    + destruct Hc as (T' & ? & ?); [|done|done|by exists T']. intros Hx. exfalso. change (isPayable (contractManager st1) (txToCallInfo tx) = false) in Ep. congruence.
    + apply Hc; [|done|done]. intros Hx. change (isPayable (contractManager st1) (txToCallInfo tx) = false) in Ep. congruence.
Qed.

Lemma processTransaction_backed w tx t st :
  backed w st → can_pay (accounts st) tx t → tb_from tx ≠ w →
  (processTransaction tx st).1 ≠ Undef → backed w (processTransaction tx st).2.
Proof using Type*.
  intros Hb Hp Hfrom. unfold processTransaction. destruct (cp_sender _ _ _ Hp) as [acc ->].
  pose proof (process_body_backed w tx t st Hb Hp Hfrom) as Hbody.
  unfold mbind at 1 2, ST_bind at 1 2, catching. destruct (process_body tx st) as [[[]|x|] st2]; cbn [fst snd] in Hbody; [| |done].
  - intros _. apply backed_nonce; [done|]. by apply Hbody.
  - pose proof (backed_assign w st2 add_assign (tb_from tx) (tb_value tx) Hfrom (Hbody ltac:(done))) as Ha.
    destruct (balance_assign _ _ _ st2) as [[[]|y|] st3]; cbn [fst snd] in Ha; [|done..].
    intros _. by apply backed_nonce.
Qed.

(** Executing transactions that their senders can pay. *)
Inductive tx_step (w : bytes) : State → State → Prop :=
  | ts_tx tx t r st st' :
      can_pay (accounts st) tx t → tb_from tx ≠ w → processTransaction tx st = (r, st') → r ≠ Undef → tx_step w st st'.

(** C2: a native wrapper stays backed: however many transactions are executed,
    transfers, creations, calls of the wrapper or of any other contract,
    directly or through an [ERC20Wrapper], successful or failed, the wrapped
    tokens never exceed the native balance of the wrapper's account, so that
    every holder can withdraw. *)
Theorem native_wrapper_backed w st st' :
  backed w st → rtc (tx_step w) st st' →
  ∃ e, contracts (contractManager st') !! w = Some (D_NativeWrapper e) ∧ idle e ∧
    tsum (sm_map (_balances e)) ≤ getNativeBalance st' w.
Proof using Type*.
  intros Hb Hr. assert (backed w st') as (T & (e & E & Hi & <- & _) & HT).
  { induction Hr as [|st1 st2 st3 Hs _ IH]; [done|]. apply IH. destruct Hs as [tx t r st1 st2 Hp Hf E Hu].
    pose proof (processTransaction_backed w tx t st1 Hb Hp Hf) as Hstep. rewrite E in Hstep. by apply Hstep. }
  by exists e.
Qed.

(** ** Gas estimates *)

(** [validateCallContractWithTx] on a deployed contract. *)
Lemma validate_dynamic accts callInfo m db d :
  ci_to callInfo ≠ manager_address → ci_to callInfo ≠ rdPoS_address → contracts m !! ci_to callInfo = Some d →
  l_value (m_locals m) = 0 →
  let m0 := (on_locals (ci_to callInfo) (set_caller (ci_from callInfo) (ci_value callInfo) false) m).2 in
  validateCallContractWithTx chainID accts callInfo (m, db) =
    match ethCall_at accts (ci_to callInfo) callInfo m0 with
    | (Ok _, m1) => (Ok true, (m1, db))
    | (Throw e, m1) => (Throw (runtime_error (what e)), (set_balances m1 ∅, db))
    | (Undef, m1) => (Undef, (m1, db))
    end.
Proof.
  intros H1' H2' Ed Hv. cbv zeta. unfold validateCallContractWithTx, catching, mbind, ST_bind, gets, on_manager, modify, mret, ST_ret.
  cbn [fst snd]. rewrite Hv. cbn [Z.eqb]. rewrite !bool_decide_false by done. rewrite bool_decide_true by (cbn; by rewrite Ed). cbn [negb fst snd].
  unfold on_locals, modify. cbn [fst snd]. by destruct (ethCall_at _ _ _ _) as [[[]|x|] m1].
Qed.

(** A withdrawal that succeeds. *)
Lemma withdraw_succeeds accts w m e callInfo v :
  native_at m w e → idle e → parse_native callInfo = Ok (NWithdraw v) →
  let x := default 0 (sm_map (_balances e) !! getCaller e) in
  0 ≤ x - v < 2 ^ 256 → sendable (native accts (balances m)) w (getCaller e) v →
  ∃ e' b, ethCall_at accts w callInfo m = (Ok tt, with_native m w e' b) ∧ idle e' ∧ e_locals e' = e_locals e ∧
    sm_map (_balances e') = (if l_commit (e_locals e) then <[getCaller e := x - v]> (sm_map (_balances e)) else sm_map (_balances e)) ∧
    ∀ k, native accts b k = sent (native accts (balances m)) w (getCaller e) v k.
Proof.
  intros E Hi Hp x Hx Hs.
  destruct (native_call_meets accts (iface_callContract accts 2) m w e callInfo E Hi) as (r & e' & b & Hc & Hi' & Lo & _ & _ & Hm).
  rewrite Hp in Hm. cbn [mbind outcome_bind native_spec] in Hm. change (t_bal (committed e)) with (sm_map (_balances e)) in Hm. fold x in Hm.
  rewrite decide_True in Hm by done. cbn [of_option] in Hm. destruct Hm as (-> & Hce & Hn). exists e', b. split; [exact Hc|]. split_and!; try done.
  apply (f_equal t_bal) in Hce. cbn in Hce. rewrite Hce. by case_match.
Qed.

(** Estimating the gas of a withdrawal leaves its temporary balances in the
    manager, although the tokens are reverted; the next withdrawal starts from
    them and settles both.  The account of the wrapper pays [v1 + v2] for [v2]
    tokens, so that it no longer backs the remaining ones. *)
Theorem estimate_leaks_balances accts w m db e callInfo tx v1 v2 :
  let c := tb_from tx in let x := default 0 (sm_map (_balances e) !! c) in
  let B := balance (account_at accts w) in let C := balance (account_at accts c) in
  contracts m !! w = Some (D_NativeWrapper e) → idle e → balances m = ∅ → l_value (m_locals m) = 0 →
  w ≠ manager_address → w ≠ rdPoS_address → c ≠ w → ci_to callInfo = w → ci_from callInfo = c → tb_to tx = w →
  parse_native callInfo = Ok (NWithdraw v1) → parse_native (txToCallInfo tx) = Ok (NWithdraw v2) →
  0 ≤ v1 ≤ x → 0 ≤ v2 ≤ x → x < 2 ^ 256 → v1 ≤ C → v2 ≤ C + v1 → C + v1 + v2 < 2 ^ 256 → v1 + v2 ≤ B < 2 ^ 256 →
  ∃ m1 m2 e2 a, validateCallContractWithTx chainID accts callInfo (m, db) = (Ok true, (m1, db)) ∧
    callContract chainID (processContractPayable true accts) accts tx (m1, db) = (Ok a, (m2, db)) ∧
    contracts m2 !! w = Some (D_NativeWrapper e2) ∧
    tsum (sm_map (_balances e2)) = tsum (sm_map (_balances e)) - v2 ∧
    balance (account_at a w) = B - v1 - v2 ∧ balance (account_at a c) = C + v1 + v2.
Proof.
  intros c x B C E Hi Hb Hval Hwm Hwr Hcw Hto Hfrom Htx Hp1 Hp2 Hv1 Hv2 Hx HC1 HC2 HC3 HB.
  set (e0 := set_locals e (mkLocals c c (ci_value callInfo) false)).
  set (m0 := put_native m w e0).
  assert ((on_locals (ci_to callInfo) (set_caller (ci_from callInfo) (ci_value callInfo) false) m).2 = m0) as Hm0.
  { unfold on_locals, modify. cbn [snd]. rewrite Hto, Hfrom, (alter_is_insert _ _ _ _ E). done. }
  assert (∀ k, native accts (balances m) k = balance (account_at accts k)) as Hn0 by (intros; unfold native; by rewrite Hb, lookup_empty).
  destruct (withdraw_succeeds accts w m0 e0 callInfo v1 (native_at_put m w e0) (set_locals_idle _ _ Hi) Hp1)
    as (e1 & b1 & Hc1 & Hi1 & Lo1 & Hm1 & Hn1).
  { change (0 ≤ x - v1 < 2 ^ 256). lia. }
  { change (sendable (native accts (balances m)) w c v1). unfold sendable. rewrite !Hn0, decide_False by done. fold B C. lia. }
  change (sm_map (_balances e1) = sm_map (_balances e)) in Hm1.
  set (m1 := with_native m0 w e1 b1) in *.
  assert (validateCallContractWithTx chainID accts callInfo (m, db) = (Ok true, (m1, db))) as Hval1.
  { rewrite <-Hto in E, Hwm, Hwr. rewrite (validate_dynamic _ _ _ _ _ Hwm Hwr E Hval), Hm0, Hto, Hc1. done. }
  assert (native_at m1 w e1) as E1 by apply native_at_with. rewrite <-Htx in E1.
  set (e1' := set_locals e1 (mkLocals c c (tb_value tx) true)).
  assert (native_at (before_call m1 tx) w e1') as E1' by (rewrite (before_call_native _ _ _ E1), Htx; apply native_at_put).
  assert (∀ k, native accts b1 k = sent (native accts (balances m)) w c v1 k) as Hn1' by exact Hn1.
  assert (native accts b1 c = C + v1 ∧ native accts b1 w = B - v1) as [Hn1c Hn1w].
  { rewrite !Hn1'. unfold sent. rewrite !Hn0, !(decide_True (P := w = w)), !(decide_True (P := c = c)), !decide_False by done. unfold B, C. lia. }
  destruct (withdraw_succeeds accts w (before_call m1 tx) e1' (txToCallInfo tx) v2 E1' (set_locals_idle _ _ Hi1) Hp2)
    as (e2 & b2 & Hc2 & Hi2 & Lo2 & Hm2 & Hn2).
  { change (sm_map (_balances e1')) with (sm_map (_balances e1)). rewrite Hm1. change (0 ≤ x - v2 < 2 ^ 256). lia. }
  { change (sendable (native accts b1) w c v2). unfold sendable. rewrite Hn1c, Hn1w, decide_False by done. lia. }
  change (∀ k, native accts b2 k = sent (native accts b1) w c v2 k) in Hn2.
  change (sm_map (_balances e2) = <[c := default 0 (sm_map (_balances e1) !! c) - v2]> (sm_map (_balances e1))) in Hm2. rewrite Hm1 in Hm2.
  fold x in Hm2. pose proof (native_at_with (before_call m1 tx) w e2 b2) as E2.
  destruct (processContractPayable_spec accts b2) as (a & Ha & Hna).
  destruct (after_call_holds _ (tb_to tx) w e2 E2 Hi2) as (e3 & E3 & _ & Ht3 & _).
  exists m1, (after_call (with_native (before_call m1 tx) w e2 b2) (tb_to tx)), e3, a. split; [done|]. split.
  { rewrite (callContract_dynamic _ _ _ m1 db (D_NativeWrapper e1)); [|congruence|congruence|done].
    rewrite Htx, Hc2. unfold settle. cbn [fst snd].
    rewrite (parse_native_payable _ e2 (txToCallInfo tx) (NWithdraw v2)); [|change (native_at (with_native (before_call m1 tx) w e2 b2) (tb_to tx) e2); by rewrite Htx|done].
    change (balances (with_native (before_call m1 tx) w e2 b2)) with b2. by rewrite Ha, Htx. }
  split; [done|]. split; [rewrite Ht3, Hm2, tsum_insert; fold x; lia|]. rewrite !Hna, !Hn2. unfold sent.
  rewrite Hn1c, Hn1w, !(decide_True (P := w = w)), !(decide_True (P := c = c)), !decide_False by done. lia.
Qed.

(** The manager's own locals are not touched by calls of contracts. *)
Lemma ethCall_mlocals accts a callInfo m : m_locals (ethCall_at accts a callInfo m).2 = m_locals m.
Proof.
  set (P := λ m', m_locals m' = m_locals m).
  assert (∀ a, stable P a) as Hs by (by split). assert (stable_balances P) as Hb by (by intros m' b).
  apply (keeps_contract_ethCall accts P); [done|done| |done]. intros ci. by apply keeps_iface.
Qed.

Lemma commit_sticks pcp accts tx m db d r s :
  tb_to tx ≠ manager_address → tb_to tx ≠ rdPoS_address → contracts m !! tb_to tx = Some d →
  callContract chainID pcp accts tx (m, db) = (r, s) → m_locals s.1 = with_commit (m_locals m) true.
Proof.
  intros H1' H2' Ed. rewrite (callContract_dynamic _ _ _ _ _ _ H1' H2' Ed).
  pose proof (ethCall_mlocals accts (tb_to tx) (txToCallInfo tx) (before_call m tx)) as Hl.
  change (m_locals (before_call m tx)) with (with_commit (m_locals m) true) in Hl.
  destruct (ethCall_at _ _ _ _) as [o m2]. unfold settle. cbn [fst snd] in *.
  destruct o; [|intros [= <- <-]; exact Hl..]. destruct (isPayable _ _); [|intros [= <- <-]; exact Hl].
  destruct (pcp _); intros [= <- <-]; exact Hl.
Qed.

(** A transaction on a deployed contract, whether the call succeeds or
    not, leaves the manager's own commit flag set; a gas estimate that follows
    it, with the creator's address as the claimed sender, does not simulate the
    creation of a contract but performs it. *)
Theorem estimate_creates_contract pcp accts tx m db d r s accts' callInfo addr :
  tb_to tx ≠ manager_address → tb_to tx ≠ rdPoS_address → contracts m !! tb_to tx = Some d →
  l_value (m_locals m) = 0 → callContract chainID pcp accts tx (m, db) = (r, s) →
  ci_to callInfo = manager_address → ci_from callInfo = manager_creator → take 4 (ci_data callInfo) = be_split 4 0x97aa51a3 →
  deriveContractAddress (set_mlocals s.1 (mkLocals manager_creator manager_creator (ci_value callInfo) true)) = Ok addr →
  contracts s.1 !! addr = None → addr ∉ ProtocolContractAddresses →
  ∃ s' x, validateCallContractWithTx chainID accts' callInfo s = (Ok true, s') ∧
    contracts s'.1 !! addr = Some (D_ERC20Wrapper x) ∧ size (contracts s'.1) = S (size (contracts s.1)).
Proof.
  intros H1' H2' Ed Hv Hc Hto Hfrom Hf Ha Hn Hp. pose proof (commit_sticks _ _ _ _ _ _ _ _ H1' H2' Ed Hc) as Hl. clear Hc.
  destruct s as [m1 db1]. cbn [fst] in *.
  unfold validateCallContractWithTx, catching, mbind, ST_bind, gets, on_manager, modify, mret, ST_ret. cbn [fst snd].
  rewrite Hl, Hto, Hfrom. cbn [with_commit l_value]. rewrite Hv. cbn [Z.eqb]. rewrite bool_decide_true by done.
  cbn [l_commit]. unfold manager_ethCall. cbn [fst set_mlocals m_locals l_commit]. rewrite Hf.
  rewrite bool_decide_false by done. rewrite bool_decide_true by done. unfold createNewERC20WrapperContract, creation_address.
  cbn [fst set_mlocals m_locals l_caller contracts]. rewrite bool_decide_true by done. cbn [negb]. cbn [throw_if]. rewrite Ok_bind.
  rewrite Hl. cbn [with_commit l_commit]. rewrite Ha, Ok_bind, Hn.
  rewrite (bool_decide_false (is_Some None)) by (by intros [? ?]). cbn [throw_if].
  rewrite Ok_bind, bool_decide_false by done. cbn [throw_if]. rewrite Ok_bind.
  unfold Wrapper_new, BaseContract_new, on_manager, insert_contract, modify. eexists _, _. split; [reflexivity|].
  cbn. rewrite Hn. split; [by rewrite lookup_insert_eq|by rewrite map_size_insert_None].
Qed.

End Backing.

(** * Examples *)

Definition native_state : @State toy_rocks (@manager_host sel_keccak toy_left toy_rocks toy_order 8080) :=
  @mkState toy_rocks (@manager_host sel_keccak toy_left toy_rocks toy_order 8080) [] native_funds ∅ false sample_manager.

(** Alice calls the wrapper; the fee is 10. *)
Definition native_tx (value : Z) (data : bytes) : TxBlock := mkTxBlock W alice data 8080 0 value 1 2 5 0 1 1.

Lemma native_funds_pay data : can_pay native_funds (native_tx 300 data) 310.
Proof.
  split; try done. apply map_Forall_insert_2; [by split|]. apply map_Forall_singleton. by split.
Qed.

Lemma native_wrapper_backed_witness :
  ∃ st', rtc (@tx_step sel_keccak toy_left toy_rocks toy_order 8080 W) native_state st' ∧
    ∃ e, contracts (@contractManager toy_rocks _ st') !! W = Some (D_NativeWrapper e) ∧
      tsum (sm_map (_balances e)) ≤ @getNativeBalance toy_rocks _ st' W.
Proof.
  set (host := @manager_host sel_keccak toy_left toy_rocks toy_order 8080).
  set (r := @processTransaction toy_rocks host toy_left toy_order (native_tx 300 (be_split 4 0xd0e30db0)) native_state).
  assert (rtc (@tx_step sel_keccak toy_left toy_rocks toy_order 8080 W) native_state r.2) as Hr.
  { apply rtc_once. apply (ts_tx 8080 W (native_tx 300 (be_split 4 0xd0e30db0)) 310 r.1).
    - apply native_funds_pay.
    - vm_compute. discriminate.
    - apply surjective_pairing.
    - vm_compute. discriminate. }
  exists r.2. split; [exact Hr|].
  destruct (@native_wrapper_backed sel_keccak toy_left toy_rocks toy_order 8080 sel_keccak_selectors W native_state r.2) as (e & E & _ & HT).
  - exists 100. split; [|vm_compute; discriminate]. exists (sample_native {[ alice := 100 ]}).
    split; [vm_compute; reflexivity|]. split; [apply sample_native_idle|]. split; vm_compute; reflexivity.
  - exact Hr.
  - exists e. split; [exact E|exact HT].
Defined.

Lemma estimate_leaks_balances_witness :
  ∃ m1 m2 e2 a,
    @validateCallContractWithTx sel_keccak toy_left toy_rocks 8080 native_funds
      (mkCallInfo alice W 0 0 0 (withdraw_call 60)) (sample_manager, []) = (Ok true, (m1, [])) ∧
    @callContract sel_keccak toy_left toy_rocks 8080 (@processContractPayable toy_order true native_funds) native_funds
      (native_tx 0 (withdraw_call 40)) (m1, []) = (Ok a, (m2, [])) ∧
    contracts m2 !! W = Some (D_NativeWrapper e2) ∧
    tsum (sm_map (_balances e2)) = 60 ∧ balance (account_at a W) = 0.
Proof.
  destruct (@estimate_leaks_balances sel_keccak toy_left toy_rocks toy_order 8080 native_funds W sample_manager []
              (sample_native {[ alice := 100 ]}) (mkCallInfo alice W 0 0 0 (withdraw_call 60)) (native_tx 0 (withdraw_call 40)) 60 40)
    as (m1 & m2 & e2 & a & E1 & E2 & E3 & E4 & E5 & _).
  - vm_compute. reflexivity.
  - apply sample_native_idle.
  - reflexivity.
  - reflexivity.
  - vm_compute. discriminate.
  - vm_compute. discriminate.
  - vm_compute. discriminate.
  - reflexivity.
  - reflexivity.
  - reflexivity.
  - vm_compute. reflexivity.
  - vm_compute. reflexivity.
  - apply (bool_decide_unpack _). vm_compute. exact I.
  - apply (bool_decide_unpack _). vm_compute. exact I.
  - apply (bool_decide_unpack _). vm_compute. exact I.
  - apply (bool_decide_unpack _). vm_compute. exact I.
  - apply (bool_decide_unpack _). vm_compute. exact I.
  - apply (bool_decide_unpack _). vm_compute. exact I.
  - apply (bool_decide_unpack _). vm_compute. exact I.
  - exists m1, m2, e2, a. split; [exact E1|]. split; [exact E2|]. split; [exact E3|]. split.
    + rewrite E4. vm_compute. reflexivity.
    + rewrite E5. vm_compute. reflexivity.
Defined.

(** Bob's transaction fails; the estimate that follows creates a contract. *)
Lemma estimate_creates_contract_witness :
  let tx := native_tx 0 (be_split 4 0x12345678) in
  let s := (@callContract sel_keccak toy_left toy_rocks 8080 (λ _, Ok native_funds) native_funds tx (sample_manager, [])).2 in
  ∃ s' x, @validateCallContractWithTx sel_keccak toy_left toy_rocks 8080 native_funds
      (mkCallInfo manager_creator manager_address 0 0 0 (be_split 4 0x97aa51a3)) s = (Ok true, s') ∧
    contracts s'.1 !! be_split 20 0 = Some (D_ERC20Wrapper x) ∧ size (contracts s'.1) = 2%nat.
Proof.
  intros tx s.
  destruct (@estimate_creates_contract sel_keccak toy_left toy_rocks 8080 (λ _, Ok native_funds) native_funds tx sample_manager []
              (D_NativeWrapper (sample_native {[ alice := 100 ]}))
              (@callContract sel_keccak toy_left toy_rocks 8080 (λ _, Ok native_funds) native_funds tx (sample_manager, [])).1 s
              native_funds (mkCallInfo manager_creator manager_address 0 0 0 (be_split 4 0x97aa51a3)) (be_split 20 0)) as (s' & x & E1 & E2 & E3).
  - vm_compute. discriminate.
  - vm_compute. discriminate.
  - vm_compute. reflexivity.
  - reflexivity.
  - apply surjective_pairing.
  - reflexivity.
  - reflexivity.
  - vm_compute. reflexivity.
  - vm_compute. reflexivity.
  - vm_compute. reflexivity.
  - apply (bool_decide_unpack _). vm_compute. exact I.
  - exists s', x. split; [exact E1|]. split; [exact E2|]. rewrite E3. vm_compute. reflexivity.
Defined.
