(* ===== verification/P2PEncoding.v ===== *)
(** * P2PEncoding: the messages of the P2P protocol
      (src/net/p2p/p2pencoding.{h,cpp})

    A message is one byte of request type, eight bytes of id, two bytes of
    command and the data.  The encoders draw the id of a request from
    [randBytes(8)] and the time from the system clock: both are arguments.  The
    id of a broadcast is the FNV hash of its data.  Boost's address parser is a
    parameter, with the texts it must and must not accept. *)

From stdpp Require Import pretty.
From S2P Require Import Prelude Utils Hex Strings SafeHash Ecdsa Tx Block.

(** ** Types *)

Inductive ConnectionType := SERVER | CLIENT.
Inductive NodeType := NORMAL_NODE | DISCOVERY_NODE.

(** The enumerations of the source, with the one value past the last name that
    [getRequestType] and [getCommandType] let through. *)
Inductive RequestType := Requesting | Answering | Broadcasting | RequestType_3.
Inductive CommandType :=
  | Ping | Info | RequestNodes | RequestValidatorTxs
  | BroadcastValidatorTx | BroadcastTx | BroadcastBlock | CommandType_7.

#[export] Instance ConnectionType_eq_dec : EqDecision ConnectionType.
Proof. solve_decision. Defined.
#[export] Instance NodeType_eq_dec : EqDecision NodeType.
Proof. solve_decision. Defined.
#[export] Instance RequestType_eq_dec : EqDecision RequestType.
Proof. solve_decision. Defined.
#[export] Instance CommandType_eq_dec : EqDecision CommandType.
Proof. solve_decision. Defined.

Definition RequestType_index (t : RequestType) : Z :=
  match t with Requesting => 0 | Answering => 1 | Broadcasting => 2 | RequestType_3 => 3 end.
Definition CommandType_index (c : CommandType) : Z :=
  match c with
  | Ping => 0 | Info => 1 | RequestNodes => 2 | RequestValidatorTxs => 3
  | BroadcastValidatorTx => 4 | BroadcastTx => 5 | BroadcastBlock => 6 | CommandType_7 => 7
  end.
Definition NodeType_index (t : NodeType) : Z :=
  match t with NORMAL_NODE => 0 | DISCOVERY_NODE => 1 end.

(** [static_cast] of a number to an enumeration: a value outside the range of
    the enumeration is undefined. *)
Definition RequestType_cast (n : Z) : outcome RequestType :=
  if n =? 0 then Ok Requesting else if n =? 1 then Ok Answering
  else if n =? 2 then Ok Broadcasting else if n =? 3 then Ok RequestType_3 else Undef.
Definition CommandType_cast (n : Z) : outcome CommandType :=
  if n =? 0 then Ok Ping else if n =? 1 then Ok Info
  else if n =? 2 then Ok RequestNodes else if n =? 3 then Ok RequestValidatorTxs
  else if n =? 4 then Ok BroadcastValidatorTx else if n =? 5 then Ok BroadcastTx
  else if n =? 6 then Ok BroadcastBlock else if n =? 7 then Ok CommandType_7 else Undef.
Definition NodeType_cast (n : Z) : outcome NodeType :=
  if n =? 0 then Ok NORMAL_NODE else if n =? 1 then Ok DISCOVERY_NODE else Undef.

Definition typePrefixes : list bytes := [[0]; [1]; [2]].
Definition commandPrefixes : list bytes :=
  [[0; 0]; [0; 1]; [0; 2]; [0; 3]; [0; 4]; [0; 5]; [0; 6]].

Definition getCommandType (message : bytes) : outcome CommandType :=
  _ ← throw_if (negb (zlen message =? 2))
        (runtime_error ("Invalid Command Type size." ++ pretty (zlen message))%string);
  commandType ← bytesToUint16 message;
  _ ← throw_if (zlen commandPrefixes <? commandType) (runtime_error "Invalid command type.");
  CommandType_cast commandType.

Definition getCommandPrefix (commType : CommandType) : outcome bytes :=
  at_view commandPrefixes (CommandType_index commType).

Definition getRequestType (message : bytes) : outcome RequestType :=
  _ ← throw_if (negb (zlen message =? 1))
        (runtime_error ("Invalid Request Type size. " ++ pretty (zlen message))%string);
  requestType ← bytesToUint8 message;
  _ ← throw_if (zlen typePrefixes <? requestType) (runtime_error "Invalid request type.");
  RequestType_cast requestType.

Definition getRequestTypePrefix (type : RequestType) : outcome bytes :=
  at_view typePrefixes (RequestType_index type).

(** [RequestID]: eight bytes; from a number, and back. *)
Definition RequestID_of_uint64 (value : Z) : bytes := uint64ToBytes value.
Definition RequestID_toUint64 (id : bytes) : outcome Z := bytesToUint64 id.
Definition RequestID_random (randBytes : bytes) : bytes := FixedStr_ctor 8 randBytes.

Record NodeInfo := mkNodeInfo {
  nodeVersion : Z;
  currentTimestamp : Z;
  latestBlockHeight : Z;
  latestBlockHash : bytes;
}.

#[export] Instance NodeInfo_eq_dec : EqDecision NodeInfo.
Proof. solve_decision. Defined.

(** [NodeInfo()], [operator==]. *)
Definition NodeInfo_empty : NodeInfo := mkNodeInfo 0 0 0 Hash_zero.
Definition NodeInfo_eq (a b : NodeInfo) : bool :=
  (nodeVersion a =? nodeVersion b) && (currentTimestamp a =? currentTimestamp b) &&
  (latestBlockHeight a =? latestBlockHeight b) &&
  bool_decide (latestBlockHash a = latestBlockHash b).

(** ** Message *)

(** The raw bytes; the constructor demands eleven of them. *)
Abbreviation Message := bytes.

Definition Message_ctor (raw : bytes) : outcome Message :=
  _ ← throw_if (zlen raw <? 11) (runtime_error "Invalid message size.");
  Ok raw.

Definition Message_type (m : Message) : outcome RequestType :=
  s ← substr m 0 1; getRequestType s.
Definition Message_id (m : Message) : outcome bytes :=
  s ← substr m 1 8; Ok (FixedStr_ctor 8 s).
Definition Message_command (m : Message) : outcome CommandType :=
  s ← substr m 9 2; getCommandType s.
Definition Message_message (m : Message) : outcome bytes := substr m 11 (zlen m).

(** [boost::asio::ip::address]: the bytes of a version 4 or 6 address. *)
Inductive address := ip_v4 (b : bytes) | ip_v6 (b : bytes).

#[export] Instance address_eq_dec : EqDecision address.
Proof. solve_decision. Defined.

Definition to_bytes (a : address) : bytes := match a with ip_v4 b | ip_v6 b => b end.
Definition is_v4 (a : address) : bool := match a with ip_v4 _ => true | ip_v6 _ => false end.

(** The value of the maps of nodes: type, address and port. *)
Abbreviation peer := (NodeType * address * Z)%type.

(** [ip += std::to_string(uint8_t(byte)); ip += sep;] for every byte, then
    [ip.pop_back()], which is undefined on an empty string. *)
Definition join_bytes (sep : Z) (l : bytes) : bytes :=
  flat_map (λ b, str (pretty b) ++ [sep]) l.
Definition ip_text (sep : Z) (l : bytes) : outcome bytes :=
  match l with [] => Undef | _ => Ok (removelast (join_bytes sep l)) end.

(** [boost::asio::ip::address::from_string]: reads dotted decimal; a text with
    more than eight colons is no address; an exception otherwise. *)
Class BoostIp := {
  from_string : bytes → outcome address;
  from_string_v4 : ∀ l s, length l = 4%nat → bytes_ok l → ip_text 46 l = Ok s →
    from_string s = Ok (ip_v4 l);
  from_string_colons : ∀ s, (8 < length (List.filter (Z.eqb 58) s))%nat → ∃ e, from_string s = Throw e;
  from_string_defined : ∀ s, from_string s ≠ Undef;
}.

(** ** The encoders and decoders *)

(** Type, id, command, data. *)
Definition build_message (type : RequestType) (id : bytes) (command : CommandType) (data : bytes)
    : outcome Message :=
  t ← getRequestTypePrefix type;
  c ← getCommandPrefix command;
  Message_ctor (t ++ id ++ c ++ data).

Section Encoding.
Context `{Keccak, Secp256k1Lib, HashMapOrder, BoostIp}.
Implicit Types (request message : Message) (randBytes : bytes).

Definition RequestEncoder_ping (randBytes : bytes) : outcome Message :=
  build_message Requesting randBytes Ping [].
Definition RequestEncoder_requestNodes (randBytes : bytes) : outcome Message :=
  build_message Requesting randBytes RequestNodes [].
Definition RequestEncoder_requestValidatorTxs (randBytes : bytes) : outcome Message :=
  build_message Requesting randBytes RequestValidatorTxs [].

(** The version of the options, the clock in microseconds, the height and hash
    of the latest block. *)
Definition info_data (version currentEpoch : Z) (latestBlock : Block) : bytes :=
  uint64ToBytes version ++ uint64ToBytes currentEpoch ++
  uint64ToBytes (b_nHeight latestBlock) ++ Block_hash latestBlock.

Definition RequestEncoder_info (randBytes : bytes) (version currentEpoch : Z) (latestBlock : Block)
    : outcome Message :=
  build_message Requesting randBytes Info (info_data version currentEpoch latestBlock).

Definition is_plain (command : CommandType) (message : Message) : outcome bool :=
  if negb (zlen message =? 11) then Ok false
  else c ← Message_command message; Ok (bool_decide (c = command)).

Definition RequestDecoder_ping (message : Message) : outcome bool := is_plain Ping message.
Definition RequestDecoder_requestNodes (message : Message) : outcome bool :=
  is_plain RequestNodes message.
Definition RequestDecoder_requestValidatorTxs (message : Message) : outcome bool :=
  is_plain RequestValidatorTxs message.

(** The four fields of an Info message. *)
Definition read_info (message : Message) : outcome NodeInfo :=
  data ← Message_message message;
  nodeVersion ← (s ← substr data 0 8; bytesToUint64 s);
  nodeEpoch ← (s ← substr data 8 8; bytesToUint64 s);
  nodeHeight ← (s ← substr data 16 8; bytesToUint64 s);
  nodeHash ← (s ← substr data 24 32; Hash_of_view s);
  Ok (mkNodeInfo nodeVersion nodeEpoch nodeHeight nodeHash).

Definition RequestDecoder_info (message : Message) : outcome NodeInfo :=
  _ ← throw_if (negb (zlen message =? 67)) (runtime_error "Invalid Info message size.");
  c ← Message_command message;
  _ ← throw_if (negb (bool_decide (c = Info))) (runtime_error "Invalid Info message command.");
  read_info message.

Definition AnswerEncoder_ping (request : Message) : outcome Message :=
  id ← Message_id request; build_message Answering id Ping [].

Definition AnswerEncoder_info (request : Message) (version currentEpoch : Z) (latestBlock : Block)
    : outcome Message :=
  id ← Message_id request;
  build_message Answering id Info (info_data version currentEpoch latestBlock).

(** One node: type, id, version of the address, address, port. *)
Definition node_bytes (entry : bytes * peer) : bytes :=
  let '(nodeId, (nodeType, addr, port)) := entry in
  uint8ToBytes (NodeType_index nodeType) ++ nodeId ++
  uint8ToBytes (if is_v4 addr then 0 else 1) ++ to_bytes addr ++ uint16ToBytes port.

Definition AnswerEncoder_requestNodes (request : Message) (nodes : gmap bytes peer)
    : outcome Message :=
  id ← Message_id request;
  build_message Answering id RequestNodes (flat_map node_bytes (iter_map nodes)).

Definition AnswerEncoder_requestValidatorTxs (request : Message) (txs : gmap bytes TxValidator)
    : outcome Message :=
  id ← Message_id request;
  build_message Answering id RequestValidatorTxs
    (serialize_items (λ tx, TxValidator_rlpSerialize tx true) (iter_map txs).*2).

Definition expect_type (type : RequestType) (message : Message) : outcome unit :=
  t ← Message_type message;
  throw_if (negb (bool_decide (t = type))) (runtime_error "Invalid message type.").
Definition expect_command (command : CommandType) (message : Message) : outcome unit :=
  c ← Message_command message;
  throw_if (negb (bool_decide (c = command))) (runtime_error "Invalid command.").

Definition AnswerDecoder_ping (message : Message) : outcome bool :=
  if negb (zlen message =? 11) then Ok false
  else
    t ← Message_type message;
    if negb (bool_decide (t = Answering)) then Ok false
    else c ← Message_command message; Ok (bool_decide (c = Ping)).

Definition AnswerDecoder_info (message : Message) : outcome NodeInfo :=
  _ ← expect_type Answering message;
  _ ← expect_command Info message;
  read_info message.

(** The address after its version byte, and the index after it. *)
Definition read_address (data : bytes) (ipVersion index : Z) : outcome (address * Z) :=
  if ipVersion =? 0 then
    ipBytes ← substr data index 4;
    ip ← ip_text 46 ipBytes;
    a ← from_string ip;
    Ok (a, index + 4)
  else if ipVersion =? 1 then
    ipBytes ← substr data index 16;
    ip ← ip_text 58 ipBytes;
    a ← from_string ip;
    Ok (a, index + 16)
  else Throw (runtime_error "Invalid ip version.").

(** One round of the loop: the node and the index after it. *)
Definition read_node (data : bytes) (index : Z) : outcome (bytes * peer * Z) :=
  _ ← throw_if (zlen data <? 40) (runtime_error "Invalid data size.");
  t ← (s ← substr data index 1; bytesToUint8 s);
  nodeType ← NodeType_cast t;
  nodeId ← (s ← substr data (index + 1) 32; Ok (FixedStr_ctor 32 s));
  ipVersion ← (s ← substr data (index + 33) 1; bytesToUint8 s);
  '(addr, index) ← read_address data ipVersion (index + 34);
  port ← (s ← substr data index 2; bytesToUint16 s);
  Ok (nodeId, (nodeType, addr, port), index + 2).

(** [while (index < data.size())].  Running out of fuel is [Undef]; the index
    grows in every round, so that the size of the data is enough. *)
Fixpoint nodes_loop (fuel : nat) (data : bytes) (index : Z) (nodes : gmap bytes peer)
    : outcome (gmap bytes peer) :=
  match fuel with
  | O => Undef
  | S fuel =>
      if index <? zlen data then
        '(nodeId, n, index) ← read_node data index;
        nodes_loop fuel data index (<[nodeId := n]> nodes)
      else Ok nodes
  end.

Definition AnswerDecoder_requestNodes (message : Message) : outcome (gmap bytes peer) :=
  _ ← expect_type Answering message;
  _ ← expect_command RequestNodes message;
  data ← Message_message message;
  nodes_loop (S (length data)) data 0 ∅.

Fixpoint validatorTxs_loop (fuel : nat) (data : bytes) (index requiredChainId : Z)
    (txs : list TxValidator) : outcome (list TxValidator) :=
  match fuel with
  | O => Undef
  | S fuel =>
      if index <? zlen data then
        _ ← throw_if (zlen data <? 4) (runtime_error "Invalid data size.");
        txSize ← (s ← substr data index 4; bytesToUint32 s);
        let index := index + 4 in
        _ ← throw_if (zlen data <? txSize) (runtime_error "Invalid data size.");
        txData ← substr data index txSize;
        let index := index + txSize in
        tx ← TxValidator_parse txData requiredChainId;
        validatorTxs_loop fuel data index requiredChainId (txs ++ [tx])
      else Ok txs
  end.

Definition AnswerDecoder_requestValidatorTxs (message : Message) (requiredChainId : Z)
    : outcome (list TxValidator) :=
  _ ← expect_type Answering message;
  _ ← expect_command RequestValidatorTxs message;
  data ← Message_message message;
  validatorTxs_loop (S (length data)) data 0 requiredChainId [].

Definition build_broadcast (command : CommandType) (data : bytes) : outcome Message :=
  build_message Broadcasting (uint64ToBytes (FNVHash data)) command data.

Definition BroadcastEncoder_broadcastValidatorTx (tx : TxValidator) : outcome Message :=
  build_broadcast BroadcastValidatorTx (TxValidator_rlpSerialize tx true).
Definition BroadcastEncoder_broadcastTx (tx : TxBlock) : outcome Message :=
  build_broadcast BroadcastTx (TxBlock_rlpSerialize tx true).
Definition BroadcastEncoder_broadcastBlock (block : Block) : outcome Message :=
  build_broadcast BroadcastBlock (serializeBlock block).

(** The checks every broadcast passes before its data is parsed. *)
Definition broadcast_data (command : CommandType) (bad_id : string) (message : Message)
    : outcome bytes :=
  _ ← expect_type Broadcasting message;
  id ← Message_id message;
  n ← RequestID_toUint64 id;
  data ← Message_message message;
  _ ← throw_if (negb (n =? FNVHash data)) (runtime_error bad_id);
  _ ← expect_command command message;
  Ok data.

Definition BroadcastDecoder_broadcastValidatorTx (message : Message) (requiredChainId : Z)
    : outcome TxValidator :=
  data ← broadcast_data BroadcastValidatorTx "Invalid message id." message;
  TxValidator_parse data requiredChainId.
Definition BroadcastDecoder_broadcastTx (message : Message) (requiredChainId : Z)
    : outcome TxBlock :=
  data ← broadcast_data BroadcastTx "Invalid message id." message;
  TxBlock_parse data requiredChainId.
Definition BroadcastDecoder_broadcastBlock (thrNum : nat) (message : Message) (requiredChainId : Z)
    : outcome Block :=
  data ← broadcast_data BroadcastBlock "Invalid message id. " message;
  Block_parse thrNum data requiredChainId.

(** * Lemmas *)

(** ** Headers *)

Definition named_type (t : RequestType) : bool := negb (bool_decide (t = RequestType_3)).
Definition named_command (c : CommandType) : bool := negb (bool_decide (c = CommandType_7)).

Definition header (t : RequestType) (id : bytes) (c : CommandType) : bytes :=
  [RequestType_index t] ++ id ++ [0; CommandType_index c].

(** A message that an encoder builds, and what every getter reads from it. *)
Lemma build_message_spec t id c data :
  named_type t = true → named_command c = true → length id = 8%nat →
  ∃ m, build_message t id c data = Ok m ∧ m = header t id c ++ data ∧
    Message_type m = Ok t ∧ Message_id m = Ok id ∧ Message_command m = Ok c ∧
    Message_message m = Ok data ∧ zlen m = 11 + zlen data.
Proof.
  intros Ht Hc Hid. exists (header t id c ++ data).
  assert (zlen (header t id c ++ data) = 11 + zlen data) as Hl.
  { unfold header. rewrite !zlen_app, (zlen_of_length id 8 Hid). done. }
  assert (at_pos (header t id c ++ data) 0 ([RequestType_index t] ++ id ++ [0; CommandType_index c] ++ data)) as Hp0.
  { unfold header. rewrite <-!app_assoc. apply at_pos_0. }
  destruct (substr_pos _ 0 1 _ _ Hp0 eq_refl) as [S0 Hp1].
  destruct (substr_pos _ 1 8 _ _ Hp1) as [S1 Hp2]; [by rewrite (zlen_of_length id 8 Hid)|].
  destruct (substr_pos _ 9 2 _ _ Hp2 eq_refl) as [S2 Hp3].
  assert (at_pos (header t id c ++ data) 11 (data ++ [])) as Hp4 by by rewrite app_nil_r.
  split_and!; try done.
  - unfold build_message.
    assert (getRequestTypePrefix t = Ok [RequestType_index t]) as -> by by destruct t.
    assert (getCommandPrefix c = Ok [0; CommandType_index c]) as -> by by destruct c.
    rewrite !Ok_bind. unfold Message_ctor. pose proof (zlen_nonneg data).
    change ([RequestType_index t] ++ id ++ [0; CommandType_index c] ++ data) with
      (RequestType_index t :: (id ++ [0; CommandType_index c] ++ data)).
    replace (RequestType_index t :: id ++ [0; CommandType_index c] ++ data)
      with (header t id c ++ data) by (unfold header; by rewrite <-!app_assoc).
    by rewrite Hl, (proj2 (Z.ltb_ge _ _)) by lia.
  - unfold Message_type. rewrite S0, Ok_bind. by destruct t.
  - unfold Message_id. rewrite S1, Ok_bind. unfold FixedStr_ctor. by rewrite resize_str_id.
  - unfold Message_command. rewrite S2, Ok_bind. by destruct c.
  - unfold Message_message. unfold substr. pose proof (zlen_nonneg data).
    rewrite Hl, (proj2 (Z.leb_le _ _)) by lia. f_equal.
    replace (drop (Z.to_nat 11) (header t id c ++ data)) with data.
    + apply take_ge. unfold zlen. lia.
    + rewrite drop_app_length'; [done|]. unfold header. rewrite !length_app, Hid. done.
Qed.

Lemma zlen_be n v : zlen (be_split n v) = Z.of_nat n.
Proof. apply be_split_zlen. Qed.

Lemma expect_type_Ok t m : Message_type m = Ok t → expect_type t m = Ok tt.
Proof. intros Ht. unfold expect_type. rewrite Ht, Ok_bind. by rewrite bool_decide_true. Qed.

Lemma expect_command_Ok c m : Message_command m = Ok c → expect_command c m = Ok tt.
Proof. intros Hc. unfold expect_command. rewrite Hc, Ok_bind. by rewrite bool_decide_true. Qed.

(** ** Info messages *)

Lemma read_info_data m v t blk :
  is_uint 64 v → is_uint 64 t → is_uint 64 (b_nHeight blk) →
  Message_message m = Ok (info_data v t blk) →
  read_info m = Ok (mkNodeInfo v t (b_nHeight blk) (Block_hash blk)).
Proof.
  intros Hv Ht Hh Hm. unfold read_info. rewrite Hm, Ok_bind.
  pose proof (at_pos_0 (info_data v t blk)) as Hp. unfold info_data in Hp at 2.
  destruct (substr_pos _ 0 8 _ _ Hp) as [S0 Hp1]; [by rewrite uint64ToBytes_zlen|].
  destruct (substr_pos _ 8 8 _ _ Hp1) as [S1 Hp2]; [by rewrite uint64ToBytes_zlen|].
  destruct (substr_pos _ 16 8 _ _ Hp2) as [S2 Hp3]; [by rewrite uint64ToBytes_zlen|].
  rewrite <-(app_nil_r (Block_hash blk)) in Hp3.
  destruct (substr_pos _ 24 32 _ _ Hp3) as [S3 _];
    [by rewrite (zlen_of_length _ 32) by apply sha3_length|].
  rewrite S0, Ok_bind, bytesToUint64_roundtrip, Ok_bind by done.
  rewrite S1, Ok_bind, bytesToUint64_roundtrip, Ok_bind by done.
  rewrite S2, Ok_bind, bytesToUint64_roundtrip, Ok_bind by done.
  by rewrite S3, Ok_bind, Hash_of_view_id, Ok_bind by apply sha3_length.
Qed.

Lemma info_data_zlen v t blk : zlen (info_data v t blk) = 56.
Proof.
  unfold info_data. rewrite !zlen_app, !uint64ToBytes_zlen.
  by rewrite (zlen_of_length _ 32) by apply sha3_length.
Qed.

(** ** Lists of nodes *)

Lemma uint8_roundtrip x : is_byte x → bytesToUint8 (uint8ToBytes x) = Ok x.
Proof.
  intros Hx. unfold uint8ToBytes. cbn [le_split]. unfold is_byte in Hx.
  rewrite Z.mod_small by lia. done.
Qed.

Lemma bytesToUint16_roundtrip i : is_uint 16 i → bytesToUint16 (uint16ToBytes i) = Ok i.
Proof.
  intros Hi. rewrite uint16ToBytes_spec, bytesToUint16_spec by (apply be_split_ok || apply be_split_length).
  f_equal. by apply be_val_split_small.
Qed.

Lemma uint8ToBytes_zlen x : zlen (uint8ToBytes x) = 1.
Proof. done. Qed.

Lemma uint16ToBytes_zlen x : zlen (uint16ToBytes x) = 2.
Proof. rewrite uint16ToBytes_spec. apply be_split_zlen. Qed.

(** The fields of a node have the sizes of their types. *)
Definition node_ok (entry : bytes * peer) : Prop :=
  let '(nodeId, (_, addr, port)) := entry in
  length nodeId = 32%nat ∧ bytes_ok (to_bytes addr) ∧
  length (to_bytes addr) = (if is_v4 addr then 4 else 16)%nat ∧ is_uint 16 port.

Lemma node_bytes_zlen nodeId t addr port :
  node_ok (nodeId, (t, addr, port)) →
  zlen (node_bytes (nodeId, (t, addr, port))) = if is_v4 addr then 40 else 52.
Proof.
  intros (Hid & _ & Hl & _). unfold node_bytes.
  rewrite !zlen_app, !uint8ToBytes_zlen, uint16ToBytes_zlen, (zlen_of_length _ _ Hid),
    (zlen_of_length _ _ Hl). by destruct (is_v4 addr).
Qed.

(** Reads the header of a node: everything before the address. *)
Lemma read_node_header data i nodeId t addr port post :
  node_ok (nodeId, (t, addr, port)) →
  at_pos data i (node_bytes (nodeId, (t, addr, port)) ++ post) →
  at_pos data (i + 34) (to_bytes addr ++ uint16ToBytes port ++ post) ∧
  read_node data i =
    ('(a, j) ← read_address data (if is_v4 addr then 0 else 1) (i + 34);
     p ← (s ← substr data j 2; bytesToUint16 s);
     Ok (nodeId, (t, a, p), j + 2)).
Proof.
  intros Hok Hp. pose proof (at_pos_bounds _ _ _ Hp) as [Hi0 Hb].
  rewrite zlen_app, (node_bytes_zlen _ _ _ _ Hok) in Hb. pose proof (zlen_nonneg post).
  destruct Hok as (Hid & Hbytes & Hl & Hport).
  unfold node_bytes in Hp. rewrite <-!app_assoc in Hp.
  destruct (substr_pos _ i 1 _ _ Hp eq_refl) as [S0 Hp1].
  destruct (substr_pos _ (i + 1) 32 _ _ Hp1) as [S1 Hp2]; [by rewrite (zlen_of_length _ _ Hid)|].
  replace (i + 1 + 32) with (i + 33) in Hp2 by lia.
  destruct (substr_pos _ (i + 33) 1 _ _ Hp2 eq_refl) as [S2 Hp3].
  replace (i + 33 + 1) with (i + 34) in Hp3 by lia. split; [done|].
  unfold read_node. rewrite (proj2 (Z.ltb_ge _ _)) by (destruct (is_v4 addr); lia).
  cbn [throw_if]. rewrite Ok_bind, S0, Ok_bind, uint8_roundtrip by (by destruct t).
  rewrite Ok_bind. assert (NodeType_cast (NodeType_index t) = Ok t) as -> by by destruct t.
  rewrite Ok_bind, S1, !Ok_bind, S2, Ok_bind, uint8_roundtrip by (by destruct (is_v4 addr)).
  rewrite Ok_bind. unfold FixedStr_ctor. by rewrite resize_str_id by done.
Qed.

(** A node with a version 4 address reads back. *)
Lemma read_node_v4 data i nodeId t b port post :
  node_ok (nodeId, (t, ip_v4 b, port)) →
  at_pos data i (node_bytes (nodeId, (t, ip_v4 b, port)) ++ post) →
  read_node data i = Ok (nodeId, (t, ip_v4 b, port), i + 40) ∧ at_pos data (i + 40) post.
Proof using Type*.
  intros Hok Hp. destruct (read_node_header _ _ _ _ _ _ _ Hok Hp) as [Hp1 Hr].
  split; [|eapply at_pos_app; [exact Hp|by rewrite node_bytes_zlen]].
  destruct Hok as (Hid & Hbytes & Hl & Hport). rewrite Hr. cbn [is_v4 to_bytes] in *.
  destruct (substr_pos _ (i + 34) 4 _ _ Hp1) as [S0 Hp2]; [by rewrite (zlen_of_length _ _ Hl)|].
  replace (i + 34 + 4) with (i + 38) in Hp2 by lia.
  destruct (substr_pos _ (i + 38) 2 _ _ Hp2) as [S1 _]; [by rewrite uint16ToBytes_zlen|].
  unfold read_address. cbn [Z.eqb]. rewrite S0, Ok_bind.
  destruct (ip_text 46 b) as [s| |] eqn:E; [|by destruct b..].
  rewrite Ok_bind, (from_string_v4 b s Hl Hbytes E), Ok_bind. cbn beta iota.
  rewrite Ok_bind. replace (i + 34 + 4) with (i + 38) by lia. rewrite S1, Ok_bind, bytesToUint16_roundtrip, Ok_bind by done.
  do 2 f_equal. lia.
Qed.

(** The text made of a version 6 address has fifteen colons. *)
Lemma join_colons l : (length l ≤ length (List.filter (Z.eqb 58) (join_bytes 58 l)))%nat.
Proof.
  induction l as [|b l IH]; [done|]. unfold join_bytes in *. cbn [flat_map].
  rewrite !List.filter_app, !length_app. cbn [List.filter Z.eqb Pos.eqb length]. lia.
Qed.

Lemma filter_removelast (l : bytes) :
  (length (List.filter (Z.eqb 58) l) ≤ 1 + length (List.filter (Z.eqb 58) (removelast l)))%nat.
Proof.
  destruct l as [|x l]; [simpl; lia|].
  rewrite (app_removelast_last 0 (l := x :: l)) at 1 by done.
  rewrite List.filter_app, length_app. cbn [List.filter]. case_match; simpl; lia.
Qed.

Lemma read_node_v6 data i nodeId t b port post :
  node_ok (nodeId, (t, ip_v6 b, port)) →
  at_pos data i (node_bytes (nodeId, (t, ip_v6 b, port)) ++ post) →
  ∃ e, read_node data i = Throw e.
Proof using Type*.
  intros Hok Hp. destruct (read_node_header _ _ _ _ _ _ _ Hok Hp) as [Hp1 ->].
  destruct Hok as (Hid & Hbytes & Hl & Hport). cbn [is_v4 to_bytes] in *.
  destruct (substr_pos _ (i + 34) 16 _ _ Hp1) as [S0 _]; [by rewrite (zlen_of_length _ _ Hl)|].
  unfold read_address. cbn [Z.eqb]. rewrite S0, Ok_bind.
  destruct b as [|b0 b]; [done|]. unfold ip_text. rewrite Ok_bind.
  pose proof (join_colons (b0 :: b)) as Hc. pose proof (filter_removelast (join_bytes 58 (b0 :: b))) as Hr.
  destruct (from_string_colons (removelast (join_bytes 58 (b0 :: b)))) as [e He]; [rewrite Hl in Hc; lia|].
  exists e. by rewrite He.
Qed.

(** The loop reads a run of version 4 nodes and goes on after it. *)
Lemma nodes_loop_skip l data i nodes rest fuel :
  Forall node_ok l → Forall (λ e : bytes * peer, is_v4 e.2.1.2 = true) l →
  at_pos data i (flat_map node_bytes l ++ rest) →
  ∃ j, at_pos data j rest ∧
    nodes_loop (length l + fuel) data i nodes =
    nodes_loop fuel data j (foldl (λ m e, <[e.1 := e.2]> m) nodes l).
Proof using Type*.
  intros Hl. revert i nodes. induction Hl as [|[k [[t a] p]] l Hok Hl IH]; intros i nodes H4 Hp.
  - by exists i.
  - apply Forall_cons in H4 as [H4 H4']. cbn [fst snd] in H4. destruct a as [b|b]; [|done].
    cbn [flat_map] in Hp. rewrite <-app_assoc in Hp. pose proof (at_pos_bounds _ _ _ Hp) as [Hi Hb].
    rewrite zlen_app, node_bytes_zlen in Hb by done. cbn [is_v4] in Hb.
    pose proof (zlen_nonneg (flat_map node_bytes l ++ rest)).
    destruct (read_node_v4 _ _ _ _ _ _ _ Hok Hp) as [Hr Hp1].
    destruct (IH (i + 40) (<[k := (t, ip_v4 b, p)]> nodes) H4' Hp1) as (j & Hj & Hloop).
    exists j. split; [done|]. cbn [Nat.add length nodes_loop].
    rewrite (proj2 (Z.ltb_lt _ _)) by lia. by rewrite Hr, Ok_bind.
Qed.

Lemma nodes_loop_end fuel data i nodes : at_pos data i [] → nodes_loop (S fuel) data i nodes = Ok nodes.
Proof.
  intros Hp. apply at_pos_bounds in Hp as [_ Hp]. rewrite zlen_nil in Hp. cbn [nodes_loop].
  by rewrite (proj2 (Z.ltb_ge _ _)) by lia.
Qed.

(** ... and stops with an exception at the first node of version 6. *)
Lemma nodes_loop_v6 l data i nodes fuel :
  Forall node_ok l → Exists (λ e : bytes * peer, is_v4 e.2.1.2 = false) l →
  at_pos data i (flat_map node_bytes l) → (length l ≤ fuel)%nat →
  ∃ e, nodes_loop fuel data i nodes = Throw e.
Proof using Type*.
  intros Hl. revert i nodes fuel. induction Hl as [|[k [[t a] p]] l Hok Hl IH]; intros i nodes fuel H6 Hp Hf.
  { by apply Exists_nil in H6. }
  destruct fuel as [|fuel]; [cbn [length] in Hf; lia|]. cbn [nodes_loop length] in *.
  cbn [flat_map] in Hp. pose proof (at_pos_bounds _ _ _ Hp) as [Hi Hb].
  rewrite zlen_app, node_bytes_zlen in Hb by done. pose proof (zlen_nonneg (flat_map node_bytes l)).
  rewrite (proj2 (Z.ltb_lt _ _)) by (destruct (is_v4 a); lia). destruct a as [b|b].
  - apply Exists_cons in H6 as [H6|H6]; [done|].
    destruct (read_node_v4 _ _ _ _ _ _ _ Hok Hp) as [-> Hp1]. rewrite Ok_bind. cbn beta iota.
    apply (IH (i + 40)); [done..|lia].
  - destruct (read_node_v6 _ _ _ _ _ _ _ Hok Hp) as [e ->]. by exists e.
Qed.

(** The loops make progress: beyond the size of the data, more fuel changes
    nothing. *)
Lemma read_address_after data v i a j : read_address data v i = Ok (a, j) → i < j.
Proof. unfold read_address. intros Hr. repeat case_match; inv_ok; lia. Qed.

Lemma read_node_after data i e j : read_node data i = Ok (e, j) → i < j.
Proof.
  intros Hr. unfold read_node in Hr. inv_ok.
  match goal with Ha : read_address _ _ _ = Ok _ |- _ => apply read_address_after in Ha end. lia.
Qed.

Lemma nodes_loop_fuel f1 f2 data i nodes :
  0 ≤ i → zlen data - i < Z.of_nat f1 → zlen data - i < Z.of_nat f2 → (0 < f1)%nat → (0 < f2)%nat →
  nodes_loop f1 data i nodes = nodes_loop f2 data i nodes.
Proof.
  revert f2 i nodes. induction f1 as [|f1 IH]; intros f2 i nodes Hi H1' H2' H3' H4'; [lia|].
  destruct f2 as [|f2]; [lia|]. cbn [nodes_loop]. destruct (i <? zlen data) eqn:E; [|done].
  apply Z.ltb_lt in E. destruct (read_node data i) as [[[k n] j]| |] eqn:Hr; [|done..].
  rewrite !Ok_bind. cbn beta iota. apply read_node_after in Hr. apply IH; lia.
Qed.

Lemma validatorTxs_loop_fuel f1 f2 data i cid txs :
  bytes_ok data → 0 ≤ i → zlen data - i < Z.of_nat f1 → zlen data - i < Z.of_nat f2 →
  (0 < f1)%nat → (0 < f2)%nat →
  validatorTxs_loop f1 data i cid txs = validatorTxs_loop f2 data i cid txs.
Proof.
  intros Hd. revert f2 i txs. induction f1 as [|f1 IH]; intros f2 i txs Hi H1' H2' H3' H4'; [lia|].
  destruct f2 as [|f2]; [lia|]. cbn [validatorTxs_loop]. destruct (i <? zlen data) eqn:E; [|done].
  apply Z.ltb_lt in E. destruct (throw_if (zlen data <? 4) _); [|done..]. rewrite !Ok_bind.
  change (s ← substr data i 4; bytesToUint32 s) with (read_size data i).
  destruct (read_size data i) as [n| |] eqn:Hr; [|done..]. apply read_size_Ok in Hr as [Hn _]; [|done..].
  rewrite !Ok_bind. destruct (throw_if (zlen data <? n) _); [|done..]. rewrite !Ok_bind.
  destruct (substr data (i + 4) n); [|done..]. rewrite !Ok_bind.
  destruct (TxValidator_parse _ _); [|done..]. rewrite !Ok_bind. apply IH; lia.
Qed.

(** The transactions of an answer read back in the order they were written. *)
Lemma validatorTxs_loop_read l data i cid txs fuel :
  Forall (λ tx, zlen (TxValidator_rlpSerialize tx true) < 2 ^ 32 ∧
                TxValidator_parse (TxValidator_rlpSerialize tx true) cid = Ok tx) l →
  at_pos data i (serialize_items (λ tx, TxValidator_rlpSerialize tx true) l) → (length l < fuel)%nat →
  validatorTxs_loop fuel data i cid txs = Ok (txs ++ l).
Proof.
  intros Hl. revert i txs fuel. induction Hl as [|x l [Hx Hpx] Hl IH]; intros i txs fuel Hp Hf;
    (destruct fuel as [|fuel]; [cbn [length] in Hf; lia|]); cbn [validatorTxs_loop].
  - apply at_pos_bounds in Hp as [_ Hp]. unfold serialize_items in Hp. cbn [flat_map] in Hp.
    rewrite zlen_nil in Hp. by rewrite (proj2 (Z.ltb_ge _ _)), app_nil_r by lia.
  - rewrite serialize_items_cons, <-!app_assoc in Hp. pose proof (at_pos_bounds _ _ _ Hp) as [Hi Hb].
    rewrite !zlen_app, uint32ToBytes_zlen in Hb. set (rlp := TxValidator_rlpSerialize x true) in *.
    pose proof (zlen_nonneg rlp) as Hr0.
    pose proof (zlen_nonneg (serialize_items (λ tx, TxValidator_rlpSerialize tx true) l)).
    rewrite (proj2 (Z.ltb_lt _ _)), (proj2 (Z.ltb_ge _ 4)) by lia. cbn [throw_if]. rewrite Ok_bind.
    change (s ← substr data i 4; bytesToUint32 s) with (read_size data i).
    rewrite (read_size_at data i (zlen rlp) _ ltac:(unfold is_uint; lia) Hp), Ok_bind. cbv zeta.
    rewrite (proj2 (Z.ltb_ge _ _)) by lia. cbn [throw_if]. rewrite Ok_bind.
    assert (at_pos data (i + 4) (rlp ++ serialize_items (λ tx, TxValidator_rlpSerialize tx true) l)) as Hp1
      by (eapply at_pos_app; [exact Hp|by rewrite uint32ToBytes_zlen]).
    destruct (substr_pos _ (i + 4) (zlen rlp) _ _ Hp1 eq_refl) as [-> Hp2]. rewrite Ok_bind, Hpx, Ok_bind.
    cbn [length] in Hf. rewrite (IH _ _ _ Hp2) by lia. by rewrite <-app_assoc.
Qed.

Lemma flat_map_nodes_length l :
  Forall node_ok l → (length l ≤ length (flat_map node_bytes l))%nat.
Proof.
  induction 1 as [|[k [[t a] p]] l Hok Hl IH]; [done|]. cbn [flat_map]. rewrite length_app.
  pose proof (node_bytes_zlen _ _ _ _ Hok) as Hz. unfold zlen in Hz. cbn [length].
  destruct (is_v4 a); lia.
Qed.

Lemma nodes_entries (nodes : gmap bytes peer) :
  map_Forall (λ k n, node_ok (k, n)) nodes →
  Forall node_ok (iter_map nodes) ∧
  (length (iter_map nodes) ≤ length (flat_map node_bytes (iter_map nodes)))%nat.
Proof.
  intros Hok. assert (Forall node_ok (iter_map nodes)) as Hf.
  { apply Forall_forall. intros [k n] Hin. apply iter_map_elem in Hin. by apply (Hok k n). }
  split; [done|]. by apply flat_map_nodes_length.
Qed.

(** ** Broadcasts *)

Lemma build_broadcast_spec c data :
  named_command c = true → bytes_ok data →
  ∃ m, build_broadcast c data = Ok m ∧ m = header Broadcasting (uint64ToBytes (FNVHash data)) c ++ data ∧
    ∀ bad, broadcast_data c bad m = Ok data.
Proof.
  intros Hc Hd. destruct (build_message_spec Broadcasting (uint64ToBytes (FNVHash data)) c data)
    as (m & Hm & Heq & Ht & Hi & Hcm & Hda & _); [done..|by rewrite uint64ToBytes_spec, be_split_length|].
  exists m. split_and!; [done..|]. intros bad. unfold broadcast_data.
  rewrite (expect_type_Ok _ _ Ht), Ok_bind, Hi, Ok_bind. unfold RequestID_toUint64.
  rewrite bytesToUint64_roundtrip by (by apply FNVHash_uint). rewrite Ok_bind, Hda, Ok_bind, Z.eqb_refl.
  cbn [negb throw_if]. by rewrite Ok_bind, (expect_command_Ok _ _ Hcm), Ok_bind.
Qed.

(** What the getters of type and command make of any bytes. *)
Lemma Message_type_total t m :
  is_byte t →
  (t ≤ 3 → ∃ ty, Message_type (t :: m) = Ok ty ∧ RequestType_index ty = t) ∧
  (3 < t → Message_type (t :: m) = Throw (runtime_error "Invalid request type.")).
Proof.
  intros [Ht0 Ht].
  assert (Message_type (t :: m) = (_ ← throw_if (3 <? t) (runtime_error "Invalid request type."); RequestType_cast t)) as ->.
  { unfold Message_type, substr. pose proof (zlen_nonneg (t :: m)).
    rewrite (proj2 (Z.leb_le _ _)) by lia. done. }
  split; intros Hle.
  - rewrite (proj2 (Z.ltb_ge _ _)) by lia. cbn [throw_if]. rewrite Ok_bind.
    assert (t = 0 ∨ t = 1 ∨ t = 2 ∨ t = 3) as [->|[->|[->| ->]]] by lia; by eexists.
  - by rewrite (proj2 (Z.ltb_lt _ _)) by lia.
Qed.

Lemma Message_command_total m :
  bytes_ok m → 11 ≤ zlen m → let c := be_val (take 2 (drop 9 m)) in
  (c ≤ 7 → ∃ cm, Message_command m = Ok cm ∧ CommandType_index cm = c) ∧
  (7 < c → Message_command m = Throw (runtime_error "Invalid command type.")).
Proof.
  intros Hm Hl. cbv zeta. set (s := take 2 (drop 9 m)).
  assert (length s = 2%nat) as Hs by (subst s; rewrite length_take, length_drop; unfold zlen in Hl; lia).
  assert (bytes_ok s) as Hso by (subst s; by apply Forall_take, Forall_drop).
  pose proof (be_val_bound s Hso) as Hv.
  assert (Message_command m = (_ ← throw_if (7 <? be_val s) (runtime_error "Invalid command type."); CommandType_cast (be_val s))) as ->.
  { unfold Message_command, substr. rewrite (proj2 (Z.leb_le _ _)) by lia. rewrite Ok_bind.
    change (take (Z.to_nat 2) (drop (Z.to_nat 9) m)) with s. unfold getCommandType.
    rewrite (zlen_of_length s 2 Hs). change (negb (Z.of_nat 2 =? 2)) with false.
    cbn [throw_if]. rewrite Ok_bind, bytesToUint16_spec by done. by rewrite Ok_bind. }
  generalize dependent (be_val s). intros c Hc. split; intros Hle.
  - rewrite (proj2 (Z.ltb_ge _ _)) by lia. cbn [throw_if]. rewrite Ok_bind.
    assert (c = 0 ∨ c = 1 ∨ c = 2 ∨ c = 3 ∨ c = 4 ∨ c = 5 ∨ c = 6 ∨ c = 7)
      as [->|[->|[->|[->|[->|[->|[->| ->]]]]]]] by lia; by eexists.
  - by rewrite (proj2 (Z.ltb_lt _ _)) by lia.
Qed.

(** * Properties *)

(** An Info exchange carries the state of both nodes: the request the
    encoder makes from a node's version, clock and latest block decodes to
    exactly these values, the answer made from the request has its id, and
    decodes to the answering node's values. *)
Theorem info_exchange rnd v t blk v' t' blk' :
  length rnd = 8%nat → is_uint 64 v → is_uint 64 t → is_uint 64 (b_nHeight blk) →
  is_uint 64 v' → is_uint 64 t' → is_uint 64 (b_nHeight blk') →
  ∃ request answer,
    RequestEncoder_info rnd v t blk = Ok request ∧
    RequestDecoder_info request = Ok (mkNodeInfo v t (b_nHeight blk) (Block_hash blk)) ∧
    AnswerEncoder_info request v' t' blk' = Ok answer ∧
    Message_id answer = Message_id request ∧
    AnswerDecoder_info answer = Ok (mkNodeInfo v' t' (b_nHeight blk') (Block_hash blk')).
Proof.
  intros Hr Hv Ht Hh Hv' Ht' Hh'.
  destruct (build_message_spec Requesting rnd Info (info_data v t blk))
    as (m & Hm & _ & _ & Hi & Hc & Hd & Hl); [done..|].
  destruct (build_message_spec Answering rnd Info (info_data v' t' blk'))
    as (a & Ha & _ & Hta & Hia & Hca & Hda & _); [done..|].
  exists m, a. split_and!; [done| | |congruence|].
  - unfold RequestDecoder_info. rewrite Hl, info_data_zlen. change (11 + 56 =? 67) with true. cbn [throw_if negb].
    rewrite Ok_bind, Hc, Ok_bind, bool_decide_true by done. cbn [throw_if negb]. rewrite Ok_bind.
    by apply read_info_data.
  - unfold AnswerEncoder_info. by rewrite Hi, Ok_bind.
  - unfold AnswerDecoder_info. rewrite (expect_type_Ok _ _ Hta), Ok_bind, (expect_command_Ok _ _ Hca), Ok_bind.
    by apply read_info_data.
Qed.

(** The list of nodes a peer answers with reads back as the same map,
    whatever the order of the hash map, when every address is of version 4. *)
Theorem nodes_roundtrip request (id : bytes) nodes :
  Message_id request = Ok id → length id = 8%nat →
  map_Forall (λ k n, node_ok (k, n)) nodes → map_Forall (λ _ n, is_v4 n.1.2 = true) nodes →
  ∃ answer, AnswerEncoder_requestNodes request nodes = Ok answer ∧
    AnswerDecoder_requestNodes answer = Ok nodes.
Proof using Type*.
  intros Hid Hl Hok H4. unfold AnswerEncoder_requestNodes. rewrite Hid, Ok_bind.
  destruct (build_message_spec Answering id RequestNodes (flat_map node_bytes (iter_map nodes)))
    as (a & -> & _ & Hta & _ & Hca & Hda & _); [done..|].
  exists a. split; [done|]. unfold AnswerDecoder_requestNodes.
  rewrite (expect_type_Ok _ _ Hta), Ok_bind, (expect_command_Ok _ _ Hca), Ok_bind, Hda, Ok_bind.
  destruct (nodes_entries nodes Hok) as [Hok' Hlen].
  set (data := flat_map node_bytes (iter_map nodes)) in *.
  replace (S (length data)) with (length (iter_map nodes) + S (length data - length (iter_map nodes)))%nat by lia.
  destruct (nodes_loop_skip (iter_map nodes) data 0 ∅ [] (S (length data - length (iter_map nodes))) Hok')
    as (j & Hj & ->).
  - apply Forall_forall. intros [k n] Hin. apply iter_map_elem in Hin. by apply (H4 k n).
  - rewrite app_nil_r. apply at_pos_0.
  - rewrite (nodes_loop_end _ _ _ _ Hj). by rewrite foldl_insert_iter.
Qed.

(** One version 6 address loses the whole list: the encoder writes its
    sixteen bytes, the decoder prints them as sixteen decimal groups, which are
    no IPv6 text, and the answer is rejected with an exception. *)
Theorem nodes_v6_rejected request (id : bytes) nodes k n :
  Message_id request = Ok id → length id = 8%nat →
  map_Forall (λ k n, node_ok (k, n)) nodes → nodes !! k = Some n → is_v4 n.1.2 = false →
  ∃ answer e, AnswerEncoder_requestNodes request nodes = Ok answer ∧
    AnswerDecoder_requestNodes answer = Throw e.
Proof using Type*.
  intros Hid Hl Hok Hk H6. unfold AnswerEncoder_requestNodes. rewrite Hid, Ok_bind.
  destruct (build_message_spec Answering id RequestNodes (flat_map node_bytes (iter_map nodes)))
    as (a & -> & _ & Hta & _ & Hca & Hda & _); [done..|].
  destruct (nodes_entries nodes Hok) as [Hok' Hlen].
  destruct (nodes_loop_v6 (iter_map nodes) (flat_map node_bytes (iter_map nodes)) 0 ∅
    (S (length (flat_map node_bytes (iter_map nodes)))) Hok') as [e He];
    [|apply at_pos_0|lia|].
  { apply Exists_exists. exists (k, n). split; [by apply iter_map_elem|done]. }
  exists a, e. split; [done|]. unfold AnswerDecoder_requestNodes.
  by rewrite (expect_type_Ok _ _ Hta), Ok_bind, (expect_command_Ok _ _ Hca), Ok_bind, Hda, Ok_bind.
Qed.

(** The decoder of the list of nodes compares the size of the whole data,
    not of the rest, with the 40 bytes of a node: when a node is cut after the
    version of its address, the text of the address is empty and its last
    character is removed, which is undefined. *)
Theorem nodes_truncated_undefined message e0 nodes id :
  Message_type message = Ok Answering → Message_command message = Ok RequestNodes →
  Forall node_ok (e0 :: nodes) → Forall (λ e : bytes * peer, is_v4 e.2.1.2 = true) (e0 :: nodes) →
  length id = 32%nat →
  Message_message message = Ok (flat_map node_bytes (e0 :: nodes) ++ [0] ++ id ++ [0]) →
  AnswerDecoder_requestNodes message = Undef.
Proof using Type*.
  intros Ht Hc Hok H4 Hid Hm. unfold AnswerDecoder_requestNodes.
  rewrite (expect_type_Ok _ _ Ht), Ok_bind, (expect_command_Ok _ _ Hc), Ok_bind, Hm, Ok_bind.
  set (data := flat_map node_bytes (e0 :: nodes) ++ [0] ++ id ++ [0]).
  assert (40 ≤ zlen data) as H40.
  { subst data. destruct e0 as [k [[t a] p]]. apply Forall_cons in Hok as [Hok _]. apply Forall_cons in H4 as [H4 _]. cbn [fst snd] in H4.
    cbn [flat_map]. rewrite !zlen_app, (node_bytes_zlen _ _ _ _ Hok), H4.
    pose proof (zlen_nonneg (flat_map node_bytes nodes)). pose proof (zlen_nonneg id). rewrite !zlen_cons, zlen_nil. lia. }
  pose proof (flat_map_nodes_length (e0 :: nodes) Hok) as Hlen.
  assert (length (e0 :: nodes) ≤ length data)%nat as Hlen' by (subst data; rewrite length_app; lia).
  replace (S (length data)) with (length (e0 :: nodes) + S (length data - length (e0 :: nodes)))%nat by lia.
  destruct (nodes_loop_skip (e0 :: nodes) data 0 ∅ ([0] ++ id ++ [0]) (S (length data - length (e0 :: nodes))) Hok H4)
    as (j & Hj & ->); [apply at_pos_0|].
  pose proof (at_pos_bounds _ _ _ Hj) as [Hj0 Hjb]. rewrite !zlen_app, (zlen_of_length _ _ Hid) in Hjb.
  change (zlen [0]) with 1 in Hjb. cbn [nodes_loop]. rewrite (proj2 (Z.ltb_lt _ _)) by lia.
  destruct (substr_pos _ j 1 _ _ Hj eq_refl) as [S0 Hp1].
  destruct (substr_pos _ (j + 1) 32 _ _ Hp1) as [S1 Hp2]; [by rewrite (zlen_of_length _ _ Hid)|].
  replace (j + 1 + 32) with (j + 33) in Hp2 by lia. change [0] with ([0] ++ []) in Hp2.
  destruct (substr_pos _ (j + 33) 1 _ _ Hp2 eq_refl) as [S2 Hp3].
  replace (j + 33 + 1) with (j + 34) in Hp3 by lia. change [] with ([] ++ [] : bytes) in Hp3.
  unfold read_node. rewrite (proj2 (Z.ltb_ge _ _)) by lia. cbn [throw_if]. rewrite Ok_bind, S0, Ok_bind.
  change (bytesToUint8 [0]) with (Ok 0). rewrite Ok_bind. change (NodeType_cast 0) with (Ok NORMAL_NODE).
  rewrite Ok_bind, S1, !Ok_bind, S2, Ok_bind. change (bytesToUint8 [0]) with (Ok 0). rewrite Ok_bind.
  assert (substr data (j + 34) 4 = Ok []) as S3.
  { unfold substr. rewrite (proj2 (Z.leb_le _ _)) by lia. f_equal. rewrite drop_ge; [by rewrite take_nil|unfold zlen in *; lia]. }
  unfold read_address. cbn [Z.eqb]. by rewrite S3.
Qed.

(** A peer's mempool of Validator transactions reads back: the decoder
    returns every transaction of the answer once, in the order of the sender's
    hash map, provided each transaction reads back by itself. *)
Theorem validatorTxs_roundtrip request (id : bytes) (txs : gmap bytes TxValidator) cid :
  Message_id request = Ok id → length id = 8%nat →
  map_Forall (λ _ tx, zlen (TxValidator_rlpSerialize tx true) < 2 ^ 32 ∧
    TxValidator_parse (TxValidator_rlpSerialize tx true) cid = Ok tx) txs →
  ∃ answer l, AnswerEncoder_requestValidatorTxs request txs = Ok answer ∧
    AnswerDecoder_requestValidatorTxs answer cid = Ok l ∧ l ≡ₚ (map_to_list txs).*2.
Proof.
  intros Hid Hl Hok. unfold AnswerEncoder_requestValidatorTxs. rewrite Hid, Ok_bind.
  set (data := serialize_items (λ tx, TxValidator_rlpSerialize tx true) (iter_map txs).*2).
  destruct (build_message_spec Answering id RequestValidatorTxs data)
    as (a & -> & _ & Hta & _ & Hca & Hda & _); [done..|].
  exists a, (iter_map txs).*2. split_and!; [done| |by rewrite iter_map_perm].
  unfold AnswerDecoder_requestValidatorTxs.
  rewrite (expect_type_Ok _ _ Hta), Ok_bind, (expect_command_Ok _ _ Hca), Ok_bind, Hda, Ok_bind.
  pose proof (serialize_items_length (λ tx, TxValidator_rlpSerialize tx true) (iter_map txs).*2) as Hlen.
  fold data in Hlen. unfold zlen in Hlen.
  rewrite (validatorTxs_loop_read (iter_map txs).*2); [done| |apply at_pos_0|lia].
  apply Forall_fmap, Forall_forall. intros [k tx] Hin. apply iter_map_elem in Hin. by apply (Hok k tx).
Qed.

(** The decoding loops of answers end on every input: past the size of the
    data more rounds change nothing, so that the result is the one of the
    unbounded loops. *)
Theorem answer_loops_end data cid fuel :
  bytes_ok data → (S (length data) ≤ fuel)%nat →
  nodes_loop fuel data 0 ∅ = nodes_loop (S (length data)) data 0 ∅ ∧
  validatorTxs_loop fuel data 0 cid [] = validatorTxs_loop (S (length data)) data 0 cid [].
Proof.
  intros Hd Hf. split; [apply nodes_loop_fuel|apply validatorTxs_loop_fuel]; unfold zlen; try done; lia.
Qed.

(** A broadcast transaction or block that a node encodes decodes to itself
    at the receiver, which recomputes the FNV id from the data; the hypotheses
    are those under which the transaction or block reads back by itself. *)
Theorem broadcast_roundtrip thr cid tv tb blk :
  bytes_ok (TxValidator_rlpSerialize tv true) → TxValidator_parse (TxValidator_rlpSerialize tv true) cid = Ok tv →
  bytes_ok (TxBlock_rlpSerialize tb true) → TxBlock_parse (TxBlock_rlpSerialize tb true) cid = Ok tb →
  bytes_ok (serializeBlock blk) → Block_parse thr (serializeBlock blk) cid = Ok blk →
  (m ← BroadcastEncoder_broadcastValidatorTx tv; BroadcastDecoder_broadcastValidatorTx m cid) = Ok tv ∧
  (m ← BroadcastEncoder_broadcastTx tb; BroadcastDecoder_broadcastTx m cid) = Ok tb ∧
  (m ← BroadcastEncoder_broadcastBlock blk; BroadcastDecoder_broadcastBlock thr m cid) = Ok blk.
Proof.
  intros Hv Hpv Hb Hpb Hk Hpk. split_and!.
  - destruct (build_broadcast_spec BroadcastValidatorTx _ eq_refl Hv) as (m & Hm & _ & Hd).
    unfold BroadcastEncoder_broadcastValidatorTx. rewrite Hm, Ok_bind.
    unfold BroadcastDecoder_broadcastValidatorTx. by rewrite Hd, Ok_bind.
  - destruct (build_broadcast_spec BroadcastTx _ eq_refl Hb) as (m & Hm & _ & Hd).
    unfold BroadcastEncoder_broadcastTx. rewrite Hm, Ok_bind.
    unfold BroadcastDecoder_broadcastTx. by rewrite Hd, Ok_bind.
  - destruct (build_broadcast_spec BroadcastBlock _ eq_refl Hk) as (m & Hm & _ & Hd).
    unfold BroadcastEncoder_broadcastBlock. rewrite Hm, Ok_bind.
    unfold BroadcastDecoder_broadcastBlock. by rewrite Hd, Ok_bind.
Qed.

(** A broadcast whose data was changed in one byte on the way is rejected
    by the check of the id: FNV-1 over 64 bits is injective in every byte. *)
Theorem broadcast_corruption_detected c pre b b' post m bad :
  named_command c = true → bytes_ok pre → bytes_ok post → is_byte b → is_byte b' → b ≠ b' →
  build_broadcast c (pre ++ b :: post) = Ok m →
  broadcast_data c bad (take 11 m ++ pre ++ b' :: post) = Throw (runtime_error bad).
Proof.
  intros Hc Hpre Hpost Hb Hb' Hne Hm.
  set (id := uint64ToBytes (FNVHash (pre ++ b :: post))).
  assert (length id = 8%nat) as Hid by (subst id; by rewrite uint64ToBytes_spec, be_split_length).
  destruct (build_broadcast_spec c (pre ++ b :: post) Hc) as (m' & Hm' & Heq & _).
  { apply Forall_app; split; [done|by apply Forall_cons]. }
  rewrite Hm in Hm'. apply Ok_inj in Hm' as <-. fold id in Heq.
  destruct (build_message_spec Broadcasting id c (pre ++ b' :: post)) as (m2 & _ & Heq2 & Ht & Hi & _ & Hd & _); [done..|].
  assert (take 11 m ++ pre ++ b' :: post = m2) as ->.
  { subst m m2. rewrite take_app_length'; [done|]. unfold header. by rewrite !length_app, Hid. }
  unfold broadcast_data. rewrite (expect_type_Ok _ _ Ht), Ok_bind, Hi, Ok_bind. unfold RequestID_toUint64, id.
  rewrite bytesToUint64_roundtrip by (apply FNVHash_uint, Forall_app; split; [done|by apply Forall_cons]).
  rewrite Ok_bind, Hd, Ok_bind. rewrite (proj2 (Z.eqb_neq _ _)); [done|].
  intros Hf. by apply FNVHash_one_byte in Hf.
Qed.

(** The getters of a message of at least eleven bytes: the type is the
    first byte when it is at most three, one more than there are types, and an
    exception otherwise; the command likewise up to seven. *)
Theorem message_header_total m :
  bytes_ok m → 11 ≤ zlen m →
  Message_ctor m = Ok m ∧
  (∃ t, m !! 0%nat = Some t ∧
    (t ≤ 3 → ∃ ty, Message_type m = Ok ty ∧ RequestType_index ty = t) ∧
    (3 < t → Message_type m = Throw (runtime_error "Invalid request type."))) ∧
  (∃ id, Message_id m = Ok id ∧ length id = 8%nat) ∧
  (∃ c, c = be_val (take 2 (drop 9 m)) ∧
    (c ≤ 7 → ∃ cm, Message_command m = Ok cm ∧ CommandType_index cm = c) ∧
    (7 < c → Message_command m = Throw (runtime_error "Invalid command type."))).
Proof.
  intros Hm Hl. split_and!.
  - unfold Message_ctor. by rewrite (proj2 (Z.ltb_ge _ _)) by lia.
  - destruct m as [|t m]; [done|]. exists t. split; [done|]. apply Message_type_total.
    by apply Forall_cons in Hm as [? _].
  - unfold Message_id, substr. rewrite (proj2 (Z.leb_le _ _)) by lia. rewrite Ok_bind.
    eexists. split; [done|]. apply resize_str_length.
  - eexists. split; [done|]. by apply Message_command_total.
Qed.

End Encoding.

(** ** An address parser that reads dotted decimal *)

Definition dotted_step (st : list Z * Z) (c : Z) : list Z * Z :=
  if c =? 46 then (st.1 ++ [st.2], 0) else (st.1, st.2 * 10 + (c - 48)).

Definition toy_from_string (s : bytes) : outcome address :=
  let '(l, last) := foldl dotted_step ([], 0) s in
  if bool_decide (58 ∈ s) || negb (length l =? 3)%nat then Throw (runtime_error "invalid address")
  else Ok (ip_v4 (l ++ [last])).

Lemma pretty_byte : Forall (λ b, (∀ l : list Z, foldl dotted_step (l, 0) (str (pretty b)) = (l, b)) ∧
    58 ∉ str (pretty b) ∧ str (pretty b) ≠ []) (seqZ 0 256).
Proof.
  apply Forall_forall. intros b Hb%elem_of_seqZ.
  assert (Forall (λ b, foldl (λ n c, n * 10 + (c - 48)) 0 (str (pretty b)) = b ∧
    Forall (λ c, c ≠ 46) (str (pretty b)) ∧ 58 ∉ str (pretty b) ∧ str (pretty b) ≠ []) (seqZ 0 256)) as Hall.
  { apply (bool_decide_unpack _). vm_compute. exact I. }
  rewrite Forall_forall in Hall. destruct (Hall b) as (Hv & Hd & Hc & Hne); [by apply elem_of_seqZ|].
  split_and!; [|done..]. intros l. rewrite <-Hv at 2. clear Hv Hc Hne.
  generalize 0. induction Hd as [|c s Hcs Hs IH]; intros n; [done|]. cbn [foldl].
  unfold dotted_step at 2. rewrite (proj2 (Z.eqb_neq _ _)) by done. apply IH.
Qed.

Lemma dotted_join l acc :
  bytes_ok l → foldl dotted_step (acc, 0) (join_bytes 46 l) = (acc ++ l, 0) ∧ 58 ∉ join_bytes 46 l.
Proof.
  intros Hl. revert acc. induction Hl as [|b l Hb Hl IH]; intros acc.
  - rewrite app_nil_r. split; [done|]. apply not_elem_of_nil.
  - pose proof pretty_byte as Hp. rewrite Forall_forall in Hp.
    destruct (Hp b) as (Hf & Hc & _); [apply elem_of_seqZ; unfold is_byte in Hb; lia|].
    unfold join_bytes in *. cbn [flat_map]. rewrite <-app_assoc, foldl_app, Hf. cbn [app foldl].
    change (dotted_step (acc, b) 46) with (acc ++ [b], 0). split.
    + rewrite (proj1 (IH (acc ++ [b]))). by rewrite <-app_assoc.
    + rewrite not_elem_of_app, not_elem_of_cons. split_and!; [done|done|apply (IH [])].
Qed.

Lemma toy_from_string_v4 l s :
  length l = 4%nat → bytes_ok l → ip_text 46 l = Ok s → toy_from_string s = Ok (ip_v4 l).
Proof.
  intros Hl Hb Hs. induction l as [|b l' _] using rev_ind; [done|].
  unfold ip_text in Hs. destruct (l' ++ [b]) eqn:E; [by destruct l'|]. rewrite <-E in *. clear E.
  apply Ok_inj in Hs as <-. apply Forall_app in Hb as [Hb1 [Hb2 _]%Forall_cons].
  unfold join_bytes. rewrite flat_map_app. cbn [flat_map]. rewrite app_nil_r, app_assoc, removelast_last.
  fold (join_bytes 46 l'). unfold toy_from_string. rewrite foldl_app.
  destruct (dotted_join l' [] Hb1) as [-> Hc]. pose proof pretty_byte as Hp. rewrite Forall_forall in Hp.
  destruct (Hp b) as (-> & Hcb & _); [apply elem_of_seqZ; unfold is_byte in Hb2; lia|].
  rewrite length_app in Hl. cbn [length] in Hl. cbn [app].
  rewrite bool_decide_false by (by rewrite not_elem_of_app). replace (length l') with 3%nat by lia. done.
Qed.

Definition toy_boost : BoostIp.
Proof.
  refine {| from_string := toy_from_string; from_string_v4 := toy_from_string_v4 |}.
  - intros s Hs. unfold toy_from_string. destruct (foldl dotted_step ([], 0) s) as [l z].
    rewrite bool_decide_true; [by eexists|].
    destruct (List.filter (Z.eqb 58) s) as [|c r] eqn:E; [cbn [length] in Hs; lia|].
    assert (List.In c (List.filter (Z.eqb 58) s)) as Hin by (rewrite E; by left).
    apply filter_In in Hin as [Hin Hc]. apply Z.eqb_eq in Hc as <-. by apply list_elem_of_In.
  - intros s. unfold toy_from_string. destruct (foldl dotted_step ([], 0) s) as [l z]. by case_match.
Defined.

(** ** Witnesses *)

Definition sample_ping : Message := [0; 1; 2; 3; 4; 5; 6; 7; 8; 0; 0].
Definition sample_id : bytes := [1; 2; 3; 4; 5; 6; 7; 8].
Definition node_a : bytes * peer := (replicate 32 10, (NORMAL_NODE, ip_v4 [127; 0; 0; 1], 8080)).
Definition node_b : bytes * peer := (replicate 32 11, (DISCOVERY_NODE, ip_v4 [10; 255; 0; 33], 443)).
Definition node_6 : bytes * peer := (replicate 32 12, (NORMAL_NODE, ip_v6 (replicate 15 0 ++ [1]), 8081)).

Lemma info_exchange_witness :
  ∃ request answer,
    @RequestEncoder_info toy_keccak sample_id 1 1700000000000000 sample_value = Ok request ∧
    RequestDecoder_info request =
      Ok (mkNodeInfo 1 1700000000000000 1 (@Block_hash toy_keccak sample_value)) ∧
    @AnswerEncoder_info toy_keccak request 2 1700000000000005 plain_block = Ok answer ∧
    Message_id answer = Message_id request ∧
    AnswerDecoder_info answer =
      Ok (mkNodeInfo 2 1700000000000005 1 (@Block_hash toy_keccak plain_block)).
Proof.
  refine (@info_exchange toy_keccak sample_id 1 1700000000000000 sample_value 2 1700000000000005 plain_block _ _ _ _ _ _ _);
    [reflexivity|apply (bool_decide_unpack _); vm_compute; exact I..].
Defined.

Lemma nodes_roundtrip_witness :
  ∃ answer,
    @AnswerEncoder_requestNodes toy_order sample_ping (list_to_map [node_a; node_b]) = Ok answer ∧
    @AnswerDecoder_requestNodes toy_boost answer = Ok (list_to_map [node_a; node_b]).
Proof.
  refine (@nodes_roundtrip toy_order toy_boost sample_ping sample_id (list_to_map [node_a; node_b]) _ _ _ _);
    [reflexivity..| |]; apply (bool_decide_unpack _); vm_compute; exact I.
Defined.

Lemma nodes_v6_rejected_witness :
  ∃ answer e,
    @AnswerEncoder_requestNodes toy_order sample_ping (list_to_map [node_a; node_6]) = Ok answer ∧
    @AnswerDecoder_requestNodes toy_boost answer = Throw e.
Proof.
  refine (@nodes_v6_rejected toy_order toy_boost sample_ping sample_id (list_to_map [node_a; node_6])
    (replicate 32 12) node_6.2 _ _ _ _ _); [reflexivity..| | |].
  - apply (bool_decide_unpack _). vm_compute. exact I.
  - vm_compute. reflexivity.
  - reflexivity.
Defined.

Definition truncated_answer : Message :=
  header Answering sample_id RequestNodes ++ flat_map node_bytes [node_a] ++ [0] ++ replicate 32 13 ++ [0].

Lemma nodes_truncated_undefined_witness :
  @AnswerDecoder_requestNodes toy_boost truncated_answer = Undef.
Proof.
  refine (@nodes_truncated_undefined toy_boost truncated_answer node_a [] (replicate 32 13) _ _ _ _ _ _).
  - vm_compute. reflexivity.
  - vm_compute. reflexivity.
  - apply (bool_decide_unpack _). vm_compute. exact I.
  - apply (bool_decide_unpack _). vm_compute. exact I.
  - reflexivity.
  - vm_compute. reflexivity.
Defined.

Definition parsed {T} (d : T) (o : outcome T) : T := match o with Ok t => t | _ => d end.
Definition plain_vtx : TxValidator := mkTxValidator [] [] 0 0 0 0 0.
Definition vtx_a : TxValidator := parsed plain_vtx (sample_TxValidator (randomHashHash ++ replicate 32 5)).
Definition vtx_b : TxValidator := parsed plain_vtx (sample_TxValidator (randomSeedHash ++ replicate 32 6)).
Definition btx_a : TxBlock := parsed plain_tx (sample_TxBlock [1; 2; 3]).

Lemma validatorTxs_roundtrip_witness :
  ∃ answer l,
    @AnswerEncoder_requestValidatorTxs toy_order sample_ping (list_to_map [([1], vtx_a); ([2], vtx_b)]) = Ok answer ∧
    @AnswerDecoder_requestValidatorTxs toy_keccak toy_secp answer 8080 = Ok l ∧
    l ≡ₚ (map_to_list (list_to_map (M := gmap bytes TxValidator) [([1], vtx_a); ([2], vtx_b)])).*2.
Proof.
  refine (@validatorTxs_roundtrip toy_keccak toy_secp toy_order sample_ping sample_id
    (list_to_map [([1], vtx_a); ([2], vtx_b)]) 8080 _ _ _); [reflexivity..|].
  apply (bool_decide_unpack _). vm_compute. exact I.
Defined.

Lemma answer_loops_end_witness :
  @nodes_loop toy_boost 100 (replicate 9 0) 0 ∅ = @nodes_loop toy_boost 10 (replicate 9 0) 0 ∅ ∧
  @validatorTxs_loop toy_keccak toy_secp 100 (replicate 9 0) 0 8080 [] =
    @validatorTxs_loop toy_keccak toy_secp 10 (replicate 9 0) 0 8080 [].
Proof.
  refine (@answer_loops_end toy_keccak toy_secp toy_boost (replicate 9 0) 8080 100 _ _).
  - apply (bool_decide_unpack _). vm_compute. exact I.
  - simpl. lia.
Defined.

Lemma broadcast_roundtrip_witness :
  (m ← BroadcastEncoder_broadcastValidatorTx vtx_a;
   @BroadcastDecoder_broadcastValidatorTx toy_keccak toy_secp m 8080) = Ok vtx_a ∧
  (m ← BroadcastEncoder_broadcastTx btx_a;
   @BroadcastDecoder_broadcastTx toy_keccak toy_secp m 8080) = Ok btx_a ∧
  (m ← BroadcastEncoder_broadcastBlock sample_value;
   @BroadcastDecoder_broadcastBlock toy_keccak toy_secp 4 m 8080) = Ok sample_value.
Proof.
  refine (@broadcast_roundtrip toy_keccak toy_secp 4 8080 vtx_a btx_a sample_value _ _ _ _ _ _).
  - apply (bool_decide_unpack _). vm_compute. exact I.
  - vm_compute. reflexivity.
  - apply (bool_decide_unpack _). vm_compute. exact I.
  - vm_compute. reflexivity.
  - apply (bool_decide_unpack _). vm_compute. exact I.
  - vm_compute. reflexivity.
Defined.

Lemma broadcast_corruption_detected_witness :
  broadcast_data BroadcastTx "Invalid message id."
    (header Broadcasting (uint64ToBytes (FNVHash [7; 8; 9])) BroadcastTx ++ [7; 88; 9]) =
  Throw (runtime_error "Invalid message id.").
Proof.
  refine (@broadcast_corruption_detected BroadcastTx [7] 8 88 [9]
    (header Broadcasting (uint64ToBytes (FNVHash [7; 8; 9])) BroadcastTx ++ [7; 8; 9])
    "Invalid message id." _ _ _ _ _ _ _).
  - reflexivity.
  - apply (bool_decide_unpack _). vm_compute. exact I.
  - apply (bool_decide_unpack _). vm_compute. exact I.
  - split; lia.
  - split; lia.
  - lia.
  - vm_compute. reflexivity.
Defined.

Lemma message_header_total_witness :
  Message_type [3; 1; 2; 3; 4; 5; 6; 7; 8; 0; 7] = Ok RequestType_3 ∧
  Message_type [4; 1; 2; 3; 4; 5; 6; 7; 8; 0; 0] = Throw (runtime_error "Invalid request type.").
Proof.
  split; [reflexivity|].
  destruct (@message_header_total [4; 1; 2; 3; 4; 5; 6; 7; 8; 0; 0]) as (_ & (t & Ht & _ & Hbad) & _).
  - apply (bool_decide_unpack _). vm_compute. exact I.
  - vm_compute. discriminate.
  - apply Hbad. injection Ht as <-. lia.
Defined.
