(* ===== verification/P2PManager.v ===== *)
(** * P2PManager: sessions, requests and broadcasts of a node
      (src/net/p2p/p2pmanagerbase.{h,cpp}, p2pmanagernormal.{h,cpp},
      p2pmanagerdiscovery.{h,cpp}; [handleError] and [close] of the sessions in
      p2pserver.cpp and p2pclient.cpp)

    The manager keeps a map of sessions by node id, a map of requests by
    message id and a counter per broadcast id.  What it asks of the chain is
    the interface [ChainNode].  Sessions are objects shared by pointer: their
    fields do not change after the handshake, except [closed_], which is the
    set [m_closedSessions] of pointers here.  What is written to a session,
    closed or connected to is recorded in [m_events].  Every function runs
    alone: the locks are not modelled. *)

From S2P Require Import Prelude Utils Hex Strings SafeHash Ecdsa Tx Block State P2PEncoding.

(** ** The interface to the chain *)

Class ChainNode `{Keccak} := {
  ledger : Type;
  ch_latest : ledger → outcome Block;
  ch_getMempool : ledger → gmap bytes TxValidator;
  ch_blockExists : ledger → bytes → bool;
  ch_addValidatorTx : TxValidator → ST ledger bool;
  ch_addTx : TxBlock → ST ledger TxInvalid;
  ch_validateNextBlock : ledger → Block → outcome bool;
  ch_processNextBlock : Block → ST ledger unit;
  (** A processed block is the latest one and is found by its hash. *)
  ch_processed : ∀ b n n', ch_processNextBlock b n = (Ok tt, n') →
    ch_latest n' = Ok b ∧ ch_blockExists n' (Block_hash b) = true;
}.

(** ** Data *)

(** What a session object holds after the handshake, and its address in
    memory. *)
Record Session := mkSession {
  s_ptr : Z;
  s_connectionType : ConnectionType;
  s_hostNodeId : bytes;
  s_hostType : NodeType;
  s_address : address;
  s_hostServerPort : Z;
}.

Record Request := mkRequest {
  r_command : CommandType;
  r_id : bytes;
  r_nodeId : bytes;
  r_answer : option Message;
  r_isAnswered : bool;
}.

Definition Request_new (command : CommandType) (id nodeId : bytes) : Request :=
  mkRequest command id nodeId None false.

(** [std::promise::set_value] throws when the value is set already. *)
Definition setAnswer (r : Request) (answer : Message) : outcome Request :=
  match r_answer r with
  | Some _ => Throw future_error
  | None => Ok (mkRequest (r_command r) (r_id r) (r_nodeId r) (Some answer) true)
  end.

Inductive event :=
  | Write (s : Session) (m : Message)
  | Close (s : Session)
  | Connect (host : bytes) (port : Z).

Section Manager.
Context `{Keccak, Secp256k1Lib, HashMapOrder, BoostIp, !ChainNode}.

(** Constants of the process: options, hardware threads, the node's own text
    address and port, and the limit of the manager. *)
Context (version chainID : Z) (thrNum : nat) (hostIpText : bytes) (hostPort maxConnections : Z).

Record Manager := mkManager {
  m_closed : bool;
  m_sessions : gmap bytes Session;
  m_requests : gmap bytes Request;
  m_clientSessionsCount : Z;
  m_broadcastedMessages : gmap Z Z;
  m_closedSessions : gset Z;
  m_ledger : ledger;
  m_events : list event;
}.

Definition set_m_closed (m : Manager) (b : bool) : Manager :=
  mkManager b (m_sessions m) (m_requests m) (m_clientSessionsCount m) (m_broadcastedMessages m)
    (m_closedSessions m) (m_ledger m) (m_events m).
Definition set_m_sessions (m : Manager) (x : gmap bytes Session) (clients : Z) : Manager :=
  mkManager (m_closed m) x (m_requests m) clients (m_broadcastedMessages m)
    (m_closedSessions m) (m_ledger m) (m_events m).
Definition set_m_requests (m : Manager) (x : gmap bytes Request) : Manager :=
  mkManager (m_closed m) (m_sessions m) x (m_clientSessionsCount m) (m_broadcastedMessages m)
    (m_closedSessions m) (m_ledger m) (m_events m).
Definition set_m_broadcasted (m : Manager) (x : gmap Z Z) : Manager :=
  mkManager (m_closed m) (m_sessions m) (m_requests m) (m_clientSessionsCount m) x
    (m_closedSessions m) (m_ledger m) (m_events m).
Definition set_m_closedSessions (m : Manager) (x : gset Z) : Manager :=
  mkManager (m_closed m) (m_sessions m) (m_requests m) (m_clientSessionsCount m) (m_broadcastedMessages m)
    x (m_ledger m) (m_events m).
Definition set_m_ledger (m : Manager) (x : ledger) : Manager :=
  mkManager (m_closed m) (m_sessions m) (m_requests m) (m_clientSessionsCount m) (m_broadcastedMessages m)
    (m_closedSessions m) x (m_events m).
Definition add_event (m : Manager) (e : event) : Manager :=
  mkManager (m_closed m) (m_sessions m) (m_requests m) (m_clientSessionsCount m) (m_broadcastedMessages m)
    (m_closedSessions m) (m_ledger m) (m_events m ++ [e]).

(** [ManagerBase(...)]: closed, no sessions, no requests. *)
Definition Manager_ctor (l : ledger) : Manager := mkManager true ∅ ∅ 0 ∅ ∅ l [].

(** ** Sessions *)

(** [session->write(message)]. *)
Definition session_write (s : Session) (message : Message) : ST Manager unit :=
  modify (λ m : Manager, add_event m (Write s message)).

(** [ServerSession::close], [ClientSession::close]. *)
Definition session_close (s : Session) : ST Manager unit :=
  modify (λ m : Manager, add_event (set_m_closedSessions m ({[ s_ptr s ]} ∪ m_closedSessions m)) (Close s)).

Definition registerSession (s : Session) : ST Manager bool := λ m,
  if m_closed m then (Ok false, m)
  else if bool_decide (is_Some (m_sessions m !! s_hostNodeId s)) then (Ok false, m)
  else
    let clients := if bool_decide (s_connectionType s = CLIENT)
      then u32 (m_clientSessionsCount m + 1) else m_clientSessionsCount m in
    (Ok true, set_m_sessions m (<[s_hostNodeId s := s]> (m_sessions m)) clients).

Definition unregisterSession (s : Session) : ST Manager bool := λ m,
  if negb (bool_decide (is_Some (m_sessions m !! s_hostNodeId s))) then (Ok false, m)
  else
    let clients := if bool_decide (s_connectionType s = CLIENT)
      then u32 (m_clientSessionsCount m - 1) else m_clientSessionsCount m in
    (Ok true, set_m_sessions m (delete (s_hostNodeId s) (m_sessions m)) clients).

Definition disconnectSession (nodeId : bytes) : ST Manager bool :=
  o ← gets (λ m : Manager, m_sessions m !! nodeId);
  match o with
  | None => mret false
  | Some s =>
      _ ← session_close s;
      _ ← modify (λ m : Manager, set_m_sessions m (delete nodeId (m_sessions m)) (m_clientSessionsCount m));
      mret true
  end.

(** [ServerSession::handleError], [ClientSession::handleError]. *)
Definition handleError (s : Session) : ST Manager unit :=
  closed ← gets (λ m : Manager, bool_decide (s_ptr s ∈ m_closedSessions m));
  if (closed : bool) then mret tt
  else
    _ ← unregisterSession s;
    modify (λ m : Manager, set_m_closedSessions m ({[ s_ptr s ]} ∪ m_closedSessions m)).

Definition getSessionsIDs (m : Manager) : list bytes := (iter_map (m_sessions m)).*1.

(** [startServer]; the listening sockets are not modelled. *)
Definition startServer : ST Manager unit := modify (λ m : Manager, set_m_closed m false).

(** The check of [connectToServer]; the thread it starts runs the session. *)
Definition connectToServer (host : bytes) (port : Z) : ST Manager unit := λ m,
  if m_closed m then (Ok tt, m)
  else if bool_decide (hostIpText = host) && (hostPort =? port) then (Ok tt, m)
  else if maxConnections <=? m_clientSessionsCount m then (Ok tt, m)
  else (Ok tt, add_event m (Connect host port)).

(** [stop]: a session no other thread holds is gone before it can be closed. *)
Definition stop (alive : Session → bool) : ST Manager unit :=
  _ ← modify (λ m : Manager, set_m_closed m true);
  l ← gets (λ m : Manager, iter_map (m_sessions m));
  _ ← each (λ e : bytes * Session,
        _ ← modify (λ m : Manager, set_m_sessions m (delete e.1 (m_sessions m)) (m_clientSessionsCount m));
        if alive e.2 then session_close e.2 else mret tt) l;
  modify (λ m : Manager, set_m_sessions m ∅ (m_clientSessionsCount m)).

(** ** Requests *)

(** The id of the request that was entered, or none ([nullptr]). *)
Definition sendMessageTo (nodeId : bytes) (message : Message) : ST Manager (option bytes) :=
  closed ← gets m_closed;
  if (closed : bool) then mret None
  else
    o ← gets (λ m : Manager, m_sessions m !! nodeId);
    match o with
    | None => mret None
    | Some s =>
        command ← lift (Message_command message);
        if bool_decide (s_hostType s = DISCOVERY_NODE) &&
           (bool_decide (command = Info) || bool_decide (command = RequestValidatorTxs))
        then mret None
        else
          id ← lift (Message_id message);
          _ ← modify (λ m : Manager, set_m_requests m
                (<[id := Request_new command id (s_hostNodeId s)]> (m_requests m)));
          _ ← session_write s message;
          mret (Some id)
    end.

Definition answerSession (s : Session) (message : Message) : ST Manager unit :=
  closed ← gets m_closed;
  if (closed : bool) then mret tt else session_write s message.

(** The functions that wait for an answer, in two halves: the request, and
    what is made of the answer, [None] being the timeout. *)
Definition ping (randBytes nodeId : bytes) : ST Manager bytes :=
  request ← lift (RequestEncoder_ping randBytes);
  o ← sendMessageTo nodeId request;
  match o with
  | None => lift (_ ← FixedStr_hex nodeId false;
                  Throw (runtime_error "Failed to send ping to "))
  | Some id => mret id
  end.

Definition requestNodes_send (randBytes nodeId : bytes) : ST Manager (option bytes) :=
  request ← lift (RequestEncoder_requestNodes randBytes);
  sendMessageTo nodeId request.
Definition requestNodes_answer (answer : option Message) : outcome (gmap bytes peer) :=
  match answer with
  | None => Ok ∅
  | Some a => try_catch (AnswerDecoder_requestNodes a) (λ _, Ok ∅)
  end.

Definition requestValidatorTxs_send (randBytes nodeId : bytes) : ST Manager (option bytes) :=
  request ← lift (RequestEncoder_requestValidatorTxs randBytes);
  sendMessageTo nodeId request.
Definition requestValidatorTxs_answer (answer : option Message) : outcome (list TxValidator) :=
  match answer with
  | None => Ok []
  | Some a => try_catch (AnswerDecoder_requestValidatorTxs a chainID) (λ _, Ok [])
  end.

Definition requestNodeInfo_send (randBytes : bytes) (clock : Z) (nodeId : bytes)
    : ST Manager (option bytes) :=
  latestBlock ← (l ← gets m_ledger; lift (ch_latest l));
  request ← lift (RequestEncoder_info randBytes version clock latestBlock);
  sendMessageTo nodeId request.
Definition requestNodeInfo_answer (answer : option Message) : outcome NodeInfo :=
  match answer with
  | None => Ok NodeInfo_empty
  | Some a => try_catch (AnswerDecoder_info a) (λ _, Ok NodeInfo_empty)
  end.

(** ** Handlers of requests and answers *)

(** [this->disconnectSession(session->hostNodeId())]. *)
Definition drop_session (s : Session) : ST Manager unit :=
  _ ← disconnectSession (s_hostNodeId s); mret tt.

Definition handlePingRequest (s : Session) (message : Message) : ST Manager unit :=
  ok ← lift (RequestDecoder_ping message);
  if negb (ok : bool) then drop_session s
  else a ← lift (AnswerEncoder_ping message); answerSession s a.

Definition handleInfoRequest (clock : Z) (s : Session) (message : Message) : ST Manager unit :=
  _ ← lift (RequestDecoder_info message);
  l ← gets m_ledger;
  latestBlock ← lift (ch_latest l);
  a ← lift (AnswerEncoder_info message version clock latestBlock);
  answerSession s a.

Definition session_nodes (m : Manager) : gmap bytes peer :=
  foldl (λ nodes e, <[s_hostNodeId e.2 :=
      (s_hostType e.2, s_address e.2, s_hostServerPort e.2)]> nodes) ∅ (iter_map (m_sessions m)).

Definition handleRequestNodesRequest (s : Session) (message : Message) : ST Manager unit :=
  ok ← lift (RequestDecoder_requestNodes message);
  if negb (ok : bool) then drop_session s
  else
    nodes ← gets session_nodes;
    a ← lift (AnswerEncoder_requestNodes message nodes);
    answerSession s a.

Definition handleTxValidatorRequest (s : Session) (message : Message) : ST Manager unit :=
  ok ← lift (RequestDecoder_requestValidatorTxs message);
  if negb (ok : bool) then drop_session s
  else
    txs ← gets (λ m : Manager, ch_getMempool (m_ledger m));
    a ← lift (AnswerEncoder_requestValidatorTxs message txs);
    answerSession s a.

(** The body of the four handlers of answers. *)
Definition answer_request (s : Session) (message : Message) : ST Manager unit :=
  id ← lift (Message_id message);
  o ← gets (λ m : Manager, m_requests m !! id);
  match o with
  | None => drop_session s
  | Some r =>
      r ← lift (setAnswer r message);
      modify (λ m : Manager, set_m_requests m (<[id := r]> (m_requests m)))
  end.

Definition handlePingAnswer (s : Session) (message : Message) : ST Manager unit := answer_request s message.
Definition handleInfoAnswer (s : Session) (message : Message) : ST Manager unit := answer_request s message.
Definition handleRequestNodesAnswer (s : Session) (message : Message) : ST Manager unit := answer_request s message.
Definition handleTxValidatorAnswer (s : Session) (message : Message) : ST Manager unit := answer_request s message.

Definition handleRequest (clock : Z) (s : Session) (message : Message) : ST Manager unit :=
  command ← lift (Message_command message);
  match command with
  | Ping => handlePingRequest s message
  | Info => handleInfoRequest clock s message
  | RequestNodes => handleRequestNodesRequest s message
  | RequestValidatorTxs => handleTxValidatorRequest s message
  | _ => drop_session s
  end.

Definition handleAnswer (s : Session) (message : Message) : ST Manager unit :=
  command ← lift (Message_command message);
  match command with
  | Ping => handlePingAnswer s message
  | Info => handleInfoAnswer s message
  | RequestNodes => handleRequestNodesAnswer s message
  | RequestValidatorTxs => handleTxValidatorAnswer s message
  | _ => drop_session s
  end.

(** ** Broadcasts *)

(** [message.id().toUint64()]. *)
Definition message_number (message : Message) : outcome Z :=
  id ← Message_id message; RequestID_toUint64 id.

Definition broadcastMessage (message : Message) : ST Manager unit :=
  closed ← gets m_closed;
  if (closed : bool) then mret tt
  else
    n ← lift (message_number message);
    count ← gets (λ m : Manager, default 0 (m_broadcastedMessages m !! n));
    if 0 <? count then mret tt
    else
      _ ← modify (λ m : Manager, set_m_broadcasted m (<[n := u32 (count + 1)]> (m_broadcastedMessages m)));
      l ← gets (λ m : Manager, iter_map (m_sessions m));
      each (λ e : bytes * Session,
        if bool_decide (s_hostType e.2 = NORMAL_NODE) then session_write e.2 message else mret tt) l.

(** Runs a call on the chain. *)
Definition on_ledger {A} (op : ST ledger A) : ST Manager A := λ m,
  let '(r, l) := op (m_ledger m) in (r, set_m_ledger m l).

Definition handleTxValidatorBroadcast (s : Session) (message : Message) : ST Manager unit :=
  catching (
    tx ← lift (BroadcastDecoder_broadcastValidatorTx message chainID);
    added ← on_ledger (ch_addValidatorTx tx);
    if (added : bool) then broadcastMessage message else mret tt)
    (λ _, drop_session s).

(** [!addTx(tx)]: [NotInvalid] is zero. *)
Definition handleTxBroadcast (s : Session) (message : Message) : ST Manager unit :=
  catching (
    tx ← lift (BroadcastDecoder_broadcastTx message chainID);
    r ← on_ledger (ch_addTx tx);
    if bool_decide (r = NotInvalid) then broadcastMessage message else mret tt)
    (λ _, drop_session s).

(** The [try] block gives [None] when it returns from the function, and
    [shouldRebroadcast] otherwise. *)
Definition handleBlockBroadcast (s : Session) (message : Message) : ST Manager unit :=
  shouldRebroadcast ← catching (
    block ← lift (BroadcastDecoder_broadcastBlock thrNum message chainID);
    l ← gets m_ledger;
    if ch_blockExists l (Block_hash block) then
      _ ← lift (ch_latest l);
      mret None
    else
      valid ← lift (ch_validateNextBlock l block);
      if (valid : bool) then
        _ ← on_ledger (ch_processNextBlock block);
        _ ← broadcastMessage message;
        mret (Some true)
      else mret (Some false))
    (λ _, _ ← drop_session s; mret (Some false));
  match shouldRebroadcast with
  | Some true => broadcastMessage message
  | _ => mret tt
  end.

Definition handleBroadcast (s : Session) (message : Message) : ST Manager unit :=
  closed ← gets m_closed;
  if (closed : bool) then mret tt
  else
    n ← lift (message_number message);
    count ← gets (λ m : Manager, default 0 (m_broadcastedMessages m !! n));
    if 0 <? count then mret tt
    else
      command ← lift (Message_command message);
      match command with
      | BroadcastValidatorTx => handleTxValidatorBroadcast s message
      | BroadcastTx => handleTxBroadcast s message
      | BroadcastBlock => handleBlockBroadcast s message
      | _ => drop_session s
      end.

Definition broadcastTxValidator (tx : TxValidator) : ST Manager unit :=
  b ← lift (BroadcastEncoder_broadcastValidatorTx tx); broadcastMessage b.
Definition broadcastTxBlock (tx : TxBlock) : ST Manager unit :=
  b ← lift (BroadcastEncoder_broadcastTx tx); broadcastMessage b.
Definition broadcastBlock (block : Block) : ST Manager unit :=
  b ← lift (BroadcastEncoder_broadcastBlock block); broadcastMessage b.

(** [ManagerNormal::handleMessage]: a task of the thread pool.  A throw
    leaves the task, and the thread pool calls tasks outside any [try]. *)
Definition handleMessage (clock : Z) (s : Session) (message : Message) : ST Manager unit :=
  closed ← gets m_closed;
  if (closed : bool) then mret tt
  else
    type ← lift (Message_type message);
    match type with
    | Requesting => handleRequest clock s message
    | Answering => handleAnswer s message
    | Broadcasting => handleBroadcast s message
    | _ => drop_session s
    end.

(** ** ManagerDiscovery *)

Definition Discovery_handleRequest (s : Session) (message : Message) : ST Manager unit :=
  command ← lift (Message_command message);
  match command with
  | Ping => handlePingRequest s message
  | RequestNodes => handleRequestNodesRequest s message
  | _ => drop_session s
  end.

Definition Discovery_handleAnswer (s : Session) (message : Message) : ST Manager unit :=
  command ← lift (Message_command message);
  match command with
  | Ping => handlePingAnswer s message
  | Info => mret tt
  | RequestNodes => handleRequestNodesAnswer s message
  | _ => drop_session s
  end.

Definition Discovery_handleMessage (s : Session) (message : Message) : ST Manager unit :=
  closed ← gets m_closed;
  if (closed : bool) then mret tt
  else
    type ← lift (Message_type message);
    match type with
    | Requesting => Discovery_handleRequest s message
    | Answering => Discovery_handleAnswer s message
    | _ => drop_session s
    end.

(** * Lemmas *)

(** ** The invariant of the manager *)

(** The broadcasts in the record of events: the session and the id. *)
Definition broadcast_to (e : event) : option (Session * bytes) :=
  match e with
  | Write s m =>
      match Message_type m, Message_id m with
      | Ok Broadcasting, Ok id => Some (s, id)
      | _, _ => None
      end
  | _ => None
  end.
Definition broadcast_log (m : Manager) : list (Session * bytes) := omap broadcast_to (m_events m).

Record Manager_wf (m : Manager) : Prop := {
  wf_sessions : map_Forall (λ k s, s_hostNodeId s = k) (m_sessions m);
  wf_requests : map_Forall (λ k r, r_id r = k ∧ length k = 8%nat ∧
    r_isAnswered r = bool_decide (is_Some (r_answer r))) (m_requests m);
  wf_clients : is_uint 32 (m_clientSessionsCount m);
  wf_counts : map_Forall (λ _ c, c = 1) (m_broadcastedMessages m);
  wf_log : NoDup (broadcast_log m);
  wf_logged : ∀ s id, (s, id) ∈ broadcast_log m →
    ∃ n, RequestID_toUint64 id = Ok n ∧ m_broadcastedMessages m !! n = Some 1;
}.

Lemma u32_uint x : is_uint 32 (u32 x).
Proof. unfold is_uint, wrap. apply Z.mod_pos_bound. lia. Qed.

Lemma Message_id_length message id : Message_id message = Ok id → length id = 8%nat.
Proof. unfold Message_id. intros Hi. inv_ok. apply resize_str_length. Qed.

(** What the encoders make is of the type they say. *)
Lemma build_message_type t id c data m :
  build_message t id c data = Ok m → named_type t = true → named_command c = true → length id = 8%nat →
  Message_type m = Ok t.
Proof.
  intros Hm Ht Hc Hid. destruct (build_message_spec t id c data Ht Hc Hid) as (m' & Hm' & _ & Hty & _).
  rewrite Hm in Hm'. by apply Ok_inj in Hm' as ->.
Qed.

Definition is_answer (m : Message) : Prop := Message_type m = Ok Answering.

Lemma build_answer_type request c data a :
  (id ← Message_id request; build_message Answering id c data) = Ok a → named_command c = true → is_answer a.
Proof.
  intros Ha Hc. apply bind_Ok in Ha as (id & Hid & Ha). apply Message_id_length in Hid.
  by eapply build_message_type.
Qed.

Lemma no_broadcast s message t :
  Message_type message = Ok t → t ≠ Broadcasting → broadcast_to (Write s message) = None.
Proof. intros Ht Hne. cbn [broadcast_to]. rewrite Ht. by destruct t. Qed.

(** ** Every operation keeps it *)

Lemma keeps_event e : broadcast_to e = None → keeps Manager_wf (modify (λ m : Manager, add_event m e)) any.
Proof.
  intros He. apply keeps_modify. intros m [Hs Hr Hc Hn Hl Hg].
  assert (broadcast_log (add_event m e) = broadcast_log m) as Hlog.
  { unfold broadcast_log, add_event. cbn [m_events]. rewrite omap_app. cbn [omap list_omap].
    rewrite He. by rewrite app_nil_r. }
  constructor; [done..|by rewrite Hlog|by rewrite Hlog].
Qed.

Lemma keeps_close s : keeps Manager_wf (session_close s) any.
Proof.
  intros m Hm. apply (keeps_event (Close s)); [done|]. by destruct Hm.
Qed.

Lemma keeps_write s message t :
  Message_type message = Ok t → t ≠ Broadcasting → keeps Manager_wf (session_write s message) any.
Proof. intros Ht Hne. eapply keeps_event, no_broadcast; eauto. Qed.

Lemma keeps_set_sessions (f : Manager → gmap bytes Session) (g : Manager → Z) :
  (∀ m, Manager_wf m → map_Forall (λ k s, s_hostNodeId s = k) (f m) ∧ is_uint 32 (g m)) →
  keeps Manager_wf (modify (λ m : Manager, set_m_sessions m (f m) (g m))) any.
Proof.
  intros Hf. apply keeps_modify. intros m Hm. destruct (Hf m Hm) as [Hs Hc]. by destruct Hm.
Qed.

Lemma keeps_delete_session id :
  keeps Manager_wf (modify (λ m : Manager, set_m_sessions m (delete id (m_sessions m)) (m_clientSessionsCount m))) any.
Proof.
  apply keeps_set_sessions. intros m [Hs _ Hc _ _ _]. split; [by apply map_Forall_delete|done].
Qed.

Lemma keeps_disconnect id : keeps Manager_wf (disconnectSession id) any.
Proof.
  unfold disconnectSession. eapply keeps_bind; [apply keeps_gets|]. intros [s|] _; [|apply keeps_ret].
  eapply keeps_bind; [apply keeps_close|]. intros _ _.
  eapply keeps_bind; [apply keeps_delete_session|]. intros _ _. apply keeps_ret.
Qed.

Lemma keeps_drop s : keeps Manager_wf (drop_session s) any.
Proof. eapply keeps_bind; [apply keeps_disconnect|]. intros _ _. apply keeps_ret. Qed.

Lemma keeps_register s : keeps Manager_wf (registerSession s) any.
Proof.
  intros m Hm. unfold registerSession. case_match; [done|]. case_match; [done|]. split; [|done].
  destruct Hm as [Hs Hr Hc Hn Hl Hg]. constructor; cbn [snd set_m_sessions m_sessions m_requests m_clientSessionsCount]; [|exact Hr| |exact Hn|exact Hl|exact Hg].
  - apply map_Forall_insert_2; done.
  - cbn [m_clientSessionsCount set_m_sessions snd]. case_match; [apply u32_uint|done].
Qed.

Lemma keeps_unregister s : keeps Manager_wf (unregisterSession s) any.
Proof.
  intros m Hm. unfold unregisterSession. case_match; [done|]. split; [|done].
  destruct Hm as [Hs Hr Hc Hn Hl Hg]. constructor; cbn [snd set_m_sessions m_sessions m_requests m_clientSessionsCount]; [|exact Hr| |exact Hn|exact Hl|exact Hg].
  - by apply map_Forall_delete.
  - cbn [m_clientSessionsCount set_m_sessions snd]. case_match; [apply u32_uint|done].
Qed.

Lemma keeps_closed_sessions (f : Manager → gset Z) :
  keeps Manager_wf (modify (λ m : Manager, set_m_closedSessions m (f m))) any.
Proof. apply keeps_modify. by intros m []. Qed.

Lemma keeps_set_closed b : keeps Manager_wf (modify (λ m : Manager, set_m_closed m b)) any.
Proof. apply keeps_modify. by intros m []. Qed.

Lemma keeps_ledger {A} (op : ST ledger A) : keeps Manager_wf (on_ledger op) any.
Proof. intros m Hm. unfold on_ledger. destruct (op (m_ledger m)) as [r l]. by destruct Hm. Qed.

Lemma keeps_set_request id r :
  r_id r = id → length id = 8%nat → r_isAnswered r = bool_decide (is_Some (r_answer r)) →
  keeps Manager_wf (modify (λ m : Manager, set_m_requests m (<[id := r]> (m_requests m)))) any.
Proof.
  intros Hi Hl Ha. apply keeps_modify. intros m [Hs Hr Hc Hn Hlog Hg]. constructor; [done| |done..].
  by apply map_Forall_insert_2.
Qed.

End Manager.

#[export] Hint Resolve keeps_close keeps_disconnect keeps_drop keeps_register keeps_unregister
  keeps_delete_session keeps_closed_sessions keeps_set_closed keeps_ledger : keep.

Section ManagerProperties.
Context `{Keccak, Secp256k1Lib, HashMapOrder, BoostIp, !ChainNode}.
Context (version chainID : Z) (thrNum : nat) (hostIpText : bytes) (hostPort maxConnections : Z).
Implicit Types (m : Manager) (s : Session) (message : Message).

Lemma keeps_answer s a : is_answer a → keeps Manager_wf (answerSession s a) any.
Proof.
  intros Ha. unfold answerSession. eapply keeps_bind; [apply keeps_gets|]. intros [] _; [apply keeps_ret|].
  by eapply keeps_write.
Qed.

(** An answer made by one of the encoders. *)
Ltac keep_answer :=
  eapply keeps_bind; [apply keeps_lift_eq|]; intros ? Ha; cbv beta in Ha;
  apply keeps_answer; eapply build_answer_type; [exact Ha|done].

Lemma keeps_ping_request s message : keeps Manager_wf (handlePingRequest s message) any.
Proof.
  unfold handlePingRequest. eapply keeps_bind; [apply keeps_lift|]. intros [] _; [keep_answer|apply keeps_drop].
Qed.

Lemma keeps_info_request clock s message : keeps Manager_wf (handleInfoRequest version clock s message) any.
Proof.
  unfold handleInfoRequest. eapply keeps_bind; [apply keeps_lift|]. intros ? _.
  eapply keeps_bind; [apply keeps_gets|]. intros ? _. eapply keeps_bind; [apply keeps_lift|]. intros ? _.
  keep_answer.
Qed.

Lemma keeps_nodes_request s message : keeps Manager_wf (handleRequestNodesRequest s message) any.
Proof.
  unfold handleRequestNodesRequest. eapply keeps_bind; [apply keeps_lift|]. intros [] _; [|apply keeps_drop].
  eapply keeps_bind; [apply keeps_gets|]. intros ? _. keep_answer.
Qed.

Lemma keeps_txs_request s message : keeps Manager_wf (handleTxValidatorRequest s message) any.
Proof.
  unfold handleTxValidatorRequest. eapply keeps_bind; [apply keeps_lift|]. intros [] _; [|apply keeps_drop].
  eapply keeps_bind; [apply keeps_gets|]. intros ? _. keep_answer.
Qed.

Lemma keeps_answer_request s message : keeps Manager_wf (answer_request s message) any.
Proof.
  intros m Hm. unfold answer_request. rewrite lift_bind. destruct (Message_id message) as [id| |] eqn:Hid; [|done..].
  rewrite gets_bind. destruct (m_requests m !! id) as [r|] eqn:Hr; [|by apply keeps_drop].
  rewrite lift_bind. unfold setAnswer. destruct (r_answer r) eqn:Ha; [done|].
  destruct (wf_requests m Hm id r Hr) as (Hri & Hl & _). by apply keeps_set_request.
Qed.

(** One write of a broadcast to a session that has not received it. *)
Lemma wf_broadcast_write m s message id n :
  Message_type message = Ok Broadcasting → Message_id message = Ok id → RequestID_toUint64 id = Ok n →
  Manager_wf m → m_broadcastedMessages m !! n = Some 1 → (s, id) ∉ broadcast_log m →
  Manager_wf (add_event m (Write s message)) ∧
  broadcast_log (add_event m (Write s message)) = broadcast_log m ++ [(s, id)].
Proof.
  intros Ht Hid Hn [Hs Hr Hc Hcn Hl Hg] Hb Hfr.
  assert (broadcast_log (add_event m (Write s message)) = broadcast_log m ++ [(s, id)]) as Hlog.
  { unfold broadcast_log, add_event. cbn [m_events]. rewrite omap_app. cbn [omap list_omap broadcast_to].
    by rewrite Ht, Hid. }
  split; [|done]. constructor; [done..| |]; rewrite Hlog.
  - apply NoDup_app. split_and!; [done| |apply NoDup_singleton].
    intros x Hx ->%list_elem_of_singleton. done.
  - intros s' id' [Hin|[= -> ->]%list_elem_of_singleton]%elem_of_app; [by apply (Hg s' id')|by exists n].
Qed.

Definition write_normal message (e : bytes * Session) : ST Manager unit :=
  if bool_decide (s_hostType e.2 = NORMAL_NODE) then session_write e.2 message else mret tt.

Lemma wf_write_all message id n l m :
  Message_type message = Ok Broadcasting → Message_id message = Ok id → RequestID_toUint64 id = Ok n →
  NoDup l.*2 → Manager_wf m → m_broadcastedMessages m !! n = Some 1 →
  Forall (λ e, (e.2, id) ∉ broadcast_log m) l → Manager_wf (each (write_normal message) l m).2.
Proof.
  intros Ht Hid Hn. revert m. induction l as [|[k s] l IH]; intros m Hnd Hm Hb Hfr; [done|].
  cbn [fmap list_fmap snd] in Hnd. apply NoDup_cons in Hnd as [Hnin Hnd].
  apply Forall_cons in Hfr as [Hf Hfr]. cbn [each]. unfold mbind at 1, ST_bind at 1, write_normal at 1.
  cbn [snd] in *. case_bool_decide; [|by apply IH]. unfold session_write at 1, modify at 1.
  destruct (wf_broadcast_write m s message id n) as [Hwf Hlog]; [done..|]. apply IH; [done..|].
  apply Forall_forall. intros [k' s'] Hin. cbn [snd]. rewrite Hlog. intros [Hin'|[= ->]%list_elem_of_singleton]%elem_of_app.
  - rewrite Forall_forall in Hfr. by apply (Hfr (k', s') Hin).
  - apply Hnin, list_elem_of_fmap. by exists (k', s).
Qed.

(** Entering a fresh id in the counters. *)
Lemma wf_count m n :
  Manager_wf m → m_broadcastedMessages m !! n = None →
  Manager_wf (set_m_broadcasted m (<[n := 1]> (m_broadcastedMessages m))).
Proof.
  intros [Hs Hr Hc Hcn Hl Hg] Hn. constructor; [done..| |done|].
  - by apply map_Forall_insert_2.
  - intros s' id' Hin. destruct (Hg s' id' Hin) as (n' & Hn' & Hb'). exists n'. split; [done|].
    cbn [m_broadcastedMessages set_m_broadcasted]. destruct (decide (n' = n)) as [->|]; [congruence|].
    by rewrite lookup_insert_ne.
Qed.

Lemma wf_sessions_NoDup m : Manager_wf m → NoDup (iter_map (m_sessions m)).*2.
Proof.
  intros Hm. apply (NoDup_fmap_1 s_hostNodeId). rewrite <-list_fmap_compose.
  rewrite (list_fmap_ext _ fst (iter_map (m_sessions m))); [apply iter_map_NoDup|].
  intros i [k s] Hi. apply list_elem_of_lookup_2, iter_map_elem in Hi. cbn. by apply (wf_sessions m Hm k s).
Qed.

Lemma count_fresh m n :
  Manager_wf m → (0 <? default 0 (m_broadcastedMessages m !! n)) = false →
  m_broadcastedMessages m !! n = None.
Proof.
  intros Hm Hc. destruct (m_broadcastedMessages m !! n) as [c|] eqn:E; [|done]. cbn [default] in Hc.
  by rewrite (wf_counts m Hm n c E) in Hc.
Qed.

Lemma keeps_broadcast message :
  Message_type message = Ok Broadcasting → keeps Manager_wf (broadcastMessage message) any.
Proof.
  intros Ht m Hm. split; [|done]. unfold broadcastMessage. rewrite gets_bind.
  destruct (m_closed m); [done|]. rewrite lift_bind.
  destruct (message_number message) as [n| |] eqn:Hn; [|done..].
  rewrite gets_bind. destruct (0 <? default 0 (m_broadcastedMessages m !! n)) eqn:Hc; [done|].
  pose proof (count_fresh m n Hm Hc) as Hnone. rewrite Hnone.
  apply bind_Ok in Hn as (id & Hid & Hn). change (u32 (default 0 None + 1)) with 1.
  apply (wf_write_all message id n); [done..| | | |].
  - by apply wf_sessions_NoDup, wf_count.
  - by apply wf_count.
  - apply lookup_insert_eq.
  - apply Forall_forall. intros [k s] _ Hin. cbn [snd] in Hin.
    destruct (wf_logged m Hm s id Hin) as (n' & Hn' & Hb). rewrite Hn in Hn'. apply Ok_inj in Hn' as <-. congruence.
Qed.

Lemma keeps_handleRequest clock s message : keeps Manager_wf (handleRequest version clock s message) any.
Proof.
  unfold handleRequest. eapply keeps_bind; [apply keeps_lift|]. intros [] _;
    auto using keeps_ping_request, keeps_info_request, keeps_nodes_request, keeps_txs_request, keeps_drop.
Qed.

Lemma keeps_handleAnswer s message : keeps Manager_wf (handleAnswer s message) any.
Proof.
  unfold handleAnswer. eapply keeps_bind; [apply keeps_lift|].
  intros [] _; apply keeps_answer_request || apply keeps_drop.
Qed.

Lemma keeps_block_broadcast s message :
  Message_type message = Ok Broadcasting → keeps Manager_wf (handleBlockBroadcast chainID thrNum s message) any.
Proof.
  intros Ht. pose proof (keeps_broadcast message Ht) as Hb. unfold handleBlockBroadcast.
  eapply (keeps_bind _ _ _ any); [|intros [[]|] _; [exact Hb|apply keeps_ret..]].
  apply keeps_catching; [|intros e; eapply keeps_bind; [apply keeps_drop|intros _ _; apply keeps_ret]].
  eapply keeps_bind; [apply keeps_lift|]. intros block _. eapply keeps_bind; [apply keeps_gets|]. intros l _.
  case_match; [eapply keeps_bind; [apply keeps_lift|]; intros _ _; apply keeps_ret|].
  eapply keeps_bind; [apply keeps_lift|]. intros [] _; [|apply keeps_ret].
  eapply keeps_bind; [apply keeps_ledger|]. intros _ _.
  eapply keeps_bind; [exact Hb|]. intros _ _. apply keeps_ret.
Qed.

Lemma keeps_tx_broadcast {T A} (dec : outcome T) (op : T → ST ledger A) (ok : A → bool) s message :
  Message_type message = Ok Broadcasting →
  keeps Manager_wf (catching (tx ← lift dec; r ← on_ledger (op tx);
    if ok r then broadcastMessage message else mret tt) (λ _, drop_session s)) any.
Proof.
  intros Ht. apply keeps_catching; [|intros e; apply keeps_drop].
  eapply keeps_bind; [apply keeps_lift|]. intros tx _. eapply keeps_bind; [apply keeps_ledger|]. intros r _.
  case_match; [by apply keeps_broadcast|apply keeps_ret].
Qed.

Lemma keeps_handleBroadcast s message :
  Message_type message = Ok Broadcasting → keeps Manager_wf (handleBroadcast chainID thrNum s message) any.
Proof.
  intros Ht. unfold handleBroadcast. eapply keeps_bind; [apply keeps_gets|]. intros [] _; [apply keeps_ret|].
  eapply keeps_bind; [apply keeps_lift|]. intros n _. eapply keeps_bind; [apply keeps_gets|]. intros c _.
  case_match; [apply keeps_ret|]. eapply keeps_bind; [apply keeps_lift|].
  intros [] _; try apply keeps_drop.
  - by apply (keeps_tx_broadcast _ ch_addValidatorTx id).
  - by apply (keeps_tx_broadcast _ ch_addTx (λ r, bool_decide (r = NotInvalid))).
  - by apply keeps_block_broadcast.
Qed.

Lemma keeps_handleMessage clock s message :
  keeps Manager_wf (handleMessage version chainID thrNum clock s message) any.
Proof.
  unfold handleMessage. eapply keeps_bind; [apply keeps_gets|]. intros [] _; [apply keeps_ret|].
  eapply keeps_bind; [apply keeps_lift_eq|]. intros t Ht. destruct t.
  - apply keeps_handleRequest.
  - apply keeps_handleAnswer.
  - by apply keeps_handleBroadcast.
  - apply keeps_drop.
Qed.

Lemma keeps_Discovery_handleMessage s message : keeps Manager_wf (Discovery_handleMessage s message) any.
Proof.
  unfold Discovery_handleMessage. eapply keeps_bind; [apply keeps_gets|]. intros [] _; [apply keeps_ret|].
  eapply keeps_bind; [apply keeps_lift|]. intros [] _; [| |apply keeps_drop..];
    (eapply keeps_bind; [apply keeps_lift|]); intros [] _;
    auto using keeps_ping_request, keeps_nodes_request, keeps_answer_request, keeps_drop, keeps_ret.
Qed.

(** Requests are entered under their own id. *)
Lemma keeps_send nodeId message :
  Message_type message = Ok Requesting → keeps Manager_wf (sendMessageTo nodeId message) any.
Proof.
  intros Ht. unfold sendMessageTo. eapply keeps_bind; [apply keeps_gets|]. intros [] _; [apply keeps_ret|].
  eapply keeps_bind; [apply keeps_gets|]. intros [s|] _; [|apply keeps_ret].
  eapply keeps_bind; [apply keeps_lift|]. intros c _. case_match; [apply keeps_ret|].
  eapply keeps_bind; [apply keeps_lift_eq|]. intros id Hid. cbv beta in Hid.
  eapply keeps_bind; [apply keeps_set_request; [done|by eapply Message_id_length|done]|]. intros _ _.
  eapply keeps_bind; [by eapply keeps_write|]. intros _ _. apply keeps_ret.
Qed.

(** A request that an encoder makes and [sendMessageTo] sends. *)
Lemma keeps_request rnd c data nodeId request :
  length rnd = 8%nat → named_command c = true → build_message Requesting rnd c data = Ok request →
  keeps Manager_wf (sendMessageTo nodeId request) any.
Proof. intros Hr Hc Hreq. eapply keeps_send, build_message_type; eauto. Qed.

Lemma keeps_ping rnd nodeId : length rnd = 8%nat → keeps Manager_wf (ping rnd nodeId) any.
Proof.
  intros Hr. eapply keeps_bind; [apply keeps_lift_eq|]. intros req Hreq.
  eapply keeps_bind; [by eapply keeps_request; [done| |exact Hreq]|]. intros [] _; [apply keeps_ret|apply keeps_lift].
Qed.

Lemma keeps_built_request rnd c data nodeId :
  length rnd = 8%nat → named_command c = true →
  keeps Manager_wf (request ← lift (build_message Requesting rnd c data); sendMessageTo nodeId request) any.
Proof.
  intros Hr Hc. eapply keeps_bind; [apply keeps_lift_eq|]. intros req Hreq. by eapply keeps_request; [exact Hr|exact Hc|exact Hreq].
Qed.

(** Sending a request always returns, and changes neither the chain nor the
    sessions. *)
Lemma request_returns rnd c nodeId m :
  length rnd = 8%nat → named_command c = true →
  ∃ id m', (request ← lift (build_message Requesting rnd c []); sendMessageTo nodeId request) m = (Ok id, m') ∧
    m_ledger m' = m_ledger m ∧ m_sessions m' = m_sessions m.
Proof.
  intros Hl Hc. destruct (build_message_spec Requesting rnd c []) as (req & Hreq & _ & _ & Hid & Hcmd & _); [done..|].
  rewrite Hreq, lift_bind. unfold sendMessageTo. rewrite gets_bind. destruct (m_closed m); [by eexists _, _|].
  rewrite gets_bind. destruct (m_sessions m !! nodeId) as [s|]; [|by eexists _, _].
  rewrite Hcmd, lift_bind. destruct (_ && _); [by eexists _, _|].
  rewrite Hid, lift_bind. by eexists _, _.
Qed.

Lemma keeps_info_send rnd clock nodeId :
  length rnd = 8%nat → keeps Manager_wf (requestNodeInfo_send version rnd clock nodeId) any.
Proof.
  intros Hr. eapply (keeps_bind _ _ _ any).
  - eapply keeps_bind; [apply keeps_gets|]. intros l _. apply keeps_lift.
  - intros lb _. by apply keeps_built_request.
Qed.

Lemma keeps_stop alive : keeps Manager_wf (stop alive) any.
Proof.
  unfold stop. eapply keeps_bind; [apply keeps_set_closed|]. intros _ _.
  eapply keeps_bind; [apply keeps_gets|]. intros l _. eapply (keeps_bind _ _ _ any).
  - apply keeps_each. intros e _. eapply keeps_bind; [apply keeps_delete_session|]. intros _ _.
    case_match; [apply keeps_close|apply keeps_ret].
  - intros _ _. apply (keeps_set_sessions (λ _, ∅) m_clientSessionsCount). intros m Hm. split; [by apply map_Forall_empty|apply Hm].
Qed.

Lemma keeps_handleError s : keeps Manager_wf (handleError s) any.
Proof.
  unfold handleError. eapply keeps_bind; [apply keeps_gets|]. intros [] _; [apply keeps_ret|].
  eapply keeps_bind; [apply keeps_unregister|]. intros _ _. apply keeps_closed_sessions.
Qed.

Lemma keeps_connect host port :
  keeps Manager_wf (connectToServer hostIpText hostPort maxConnections host port) any.
Proof.
  intros m Hm. unfold connectToServer. repeat (case_match; [done|]). by apply (keeps_event (Connect host port)).
Qed.

Lemma keeps_broadcast_built {T} (enc : T → outcome Message) (c : CommandType) (ser : T → bytes) x :
  (∀ x, enc x = build_broadcast c (ser x)) → named_command c = true →
  keeps Manager_wf (b ← lift (enc x); broadcastMessage b) any.
Proof.
  intros He Hc. eapply keeps_bind; [apply keeps_lift_eq|]. intros b Hb. cbv beta in Hb. rewrite He in Hb.
  eapply keeps_broadcast, build_message_type; [exact Hb|done..|].
  by rewrite uint64ToBytes_spec, be_split_length.
Qed.

(** ** The states a manager can reach

    Every public operation, message and session error, in any order, whether
    it returns or throws. *)
Inductive manager_step (m : Manager) : Manager → Prop :=
  | ms_register s : manager_step m (registerSession s m).2
  | ms_unregister s : manager_step m (unregisterSession s m).2
  | ms_error s : manager_step m (handleError s m).2
  | ms_disconnect nodeId : manager_step m (disconnectSession nodeId m).2
  | ms_start : manager_step m (startServer m).2
  | ms_stop alive : manager_step m (stop alive m).2
  | ms_connect host port :
      manager_step m (connectToServer hostIpText hostPort maxConnections host port m).2
  | ms_message clock s message : manager_step m (handleMessage version chainID thrNum clock s message m).2
  | ms_discovery s message : manager_step m (Discovery_handleMessage s message m).2
  | ms_ping rnd nodeId : length rnd = 8%nat → manager_step m (ping rnd nodeId m).2
  | ms_nodes rnd nodeId : length rnd = 8%nat → manager_step m (requestNodes_send rnd nodeId m).2
  | ms_txs rnd nodeId : length rnd = 8%nat → manager_step m (requestValidatorTxs_send rnd nodeId m).2
  | ms_info rnd clock nodeId :
      length rnd = 8%nat → manager_step m (requestNodeInfo_send version rnd clock nodeId m).2
  | ms_broadcastTxValidator tx : manager_step m (broadcastTxValidator tx m).2
  | ms_broadcastTxBlock tx : manager_step m (broadcastTxBlock tx m).2
  | ms_broadcastBlock b : manager_step m (broadcastBlock b m).2
  | ms_chain {A} (op : ST ledger A) : manager_step m (on_ledger op m).2.

Lemma manager_step_wf m m' : manager_step m m' → Manager_wf m → Manager_wf m'.
Proof.
  intros Hs Hm. destruct Hs as [s|s|s|id| |al|h p|c s b|s b|r id Hl|r id Hl|r id Hl|r c id Hl|tx|tx|b|A op].
  - by apply keeps_register.
  - by apply keeps_unregister.
  - by apply keeps_handleError.
  - by apply keeps_disconnect.
  - by apply keeps_set_closed.
  - by apply keeps_stop.
  - by apply keeps_connect.
  - by apply keeps_handleMessage.
  - by apply keeps_Discovery_handleMessage.
  - by apply keeps_ping.
  - by apply (keeps_built_request r RequestNodes []).
  - by apply (keeps_built_request r RequestValidatorTxs []).
  - by apply keeps_info_send.
  - by apply (keeps_broadcast_built _ BroadcastValidatorTx (λ tx, TxValidator_rlpSerialize tx true)).
  - by apply (keeps_broadcast_built _ BroadcastTx (λ tx, TxBlock_rlpSerialize tx true)).
  - by apply (keeps_broadcast_built _ BroadcastBlock serializeBlock).
  - by apply keeps_ledger.
Qed.

Lemma manager_reach_wf l m : rtc manager_step (Manager_ctor l) m → Manager_wf m.
Proof.
  assert (Manager_wf (Manager_ctor l)) as H0'.
  { constructor; [apply map_Forall_empty..|by split|apply map_Forall_empty|apply NoDup_nil_2|by intros s id ?%not_elem_of_nil]. }
  intros Hr. remember (Manager_ctor l) as m0 eqn:E. clear E.
  induction Hr as [x|x y z Hs _ IH]; [done|]. by eapply IH, manager_step_wf.
Qed.

(** * Properties *)

(** C19: in every state a manager can reach, whatever messages peers send and
    in whatever order operations run or fail, every session is registered
    under the id of its own node, every request is kept under its own id of
    eight bytes and is marked answered exactly when its promise holds a
    message, and the counters hold 32-bit values, each broadcast counted at
    most once. *)
Theorem manager_type_invariant l m :
  rtc manager_step (Manager_ctor l) m →
  map_Forall (λ k s, s_hostNodeId s = k) (m_sessions m) ∧
  map_Forall (λ k r, r_id r = k ∧ length k = 8%nat ∧
    r_isAnswered r = bool_decide (is_Some (r_answer r))) (m_requests m) ∧
  is_uint 32 (m_clientSessionsCount m) ∧
  map_Forall (λ _ c, c = 1) (m_broadcastedMessages m).
Proof. intros Hr. by destruct (manager_reach_wf _ _ Hr). Qed.

(** C9: a node never sends the same broadcast twice to the same session:
    over its whole life the record of written broadcasts has no duplicate pair
    of session and message id, and every id in it is counted. *)
Theorem broadcast_at_most_once l m :
  rtc manager_step (Manager_ctor l) m →
  NoDup (broadcast_log m) ∧
  ∀ s id, (s, id) ∈ broadcast_log m →
    ∃ n, RequestID_toUint64 id = Ok n ∧ m_broadcastedMessages m !! n = Some 1.
Proof. intros Hr. by destruct (manager_reach_wf _ _ Hr). Qed.

(** The answer entered in its request. *)
Definition answered m (id : bytes) (r : Request) message : Manager :=
  set_m_requests m (<[id := mkRequest (r_command r) (r_id r) (r_nodeId r) (Some message) true]> (m_requests m)).

Lemma handleAnswer_eval s message c m :
  Message_command message = Ok c → c ∈ [Ping; Info; RequestNodes; RequestValidatorTxs] →
  handleAnswer s message m = answer_request s message m.
Proof. intros Hc Hin. unfold handleAnswer. rewrite lift_bind, Hc. by destruct c; set_solver. Qed.

(** An answer of one of the four kinds completes the request of its id,
    whichever session it comes from and whichever node was asked; an answer to
    no request disconnects the session that sent it; and a second answer to the
    same request throws out of the handler. *)
Theorem answer_completes_request clock s message m id c :
  m_closed m = false → Message_type message = Ok Answering → Message_id message = Ok id →
  Message_command message = Ok c → c ∈ [Ping; Info; RequestNodes; RequestValidatorTxs] →
  handleMessage version chainID thrNum clock s message m =
  match m_requests m !! id with
  | None => drop_session s m
  | Some r =>
      match r_answer r with
      | None => (Ok tt, answered m id r message)
      | Some _ => (Throw future_error, m)
      end
  end.
Proof.
  intros Hcl Ht Hid Hc Hin. unfold handleMessage. rewrite gets_bind, Hcl, lift_bind, Ht.
  rewrite (handleAnswer_eval _ _ _ _ Hc Hin). unfold answer_request. rewrite lift_bind, Hid, gets_bind.
  destruct (m_requests m !! id) as [r|]; [|done]. rewrite lift_bind. unfold setAnswer. by destruct (r_answer r).
Qed.

(** Any peer can stop the process: for a message of at least eleven bytes
    whose first byte is above three the handler throws before it looks at the
    session, in a task that the thread pool runs outside any [try]; so does an
    Info request whose size is not 67 bytes. *)
Theorem handler_exception_escapes clock s message m :
  m_closed m = false → bytes_ok message → 11 ≤ zlen message →
  (∀ t, message !! 0%nat = Some t → 3 < t →
    handleMessage version chainID thrNum clock s message m = (Throw (runtime_error "Invalid request type."), m)) ∧
  (Message_type message = Ok Requesting → Message_command message = Ok Info → zlen message ≠ 67 →
    handleMessage version chainID thrNum clock s message m = (Throw (runtime_error "Invalid Info message size."), m)).
Proof.
  intros Hcl Hb Hl. unfold handleMessage. rewrite gets_bind, Hcl. split.
  - intros t Ht Hgt. destruct message as [|t' rest]; [done|]. injection Ht as ->.
    apply Forall_cons in Hb as [Hb _]. by rewrite lift_bind, (proj2 (Message_type_total t rest Hb) Hgt).
  - intros Ht Hc Hne. rewrite lift_bind, Ht. unfold handleRequest. rewrite lift_bind, Hc.
    unfold handleInfoRequest. rewrite lift_bind. unfold RequestDecoder_info.
    by rewrite (proj2 (Z.eqb_neq _ _) Hne).
Qed.

(** One client session comes and is disconnected by the node. *)
Definition churn s : ST Manager unit :=
  _ ← registerSession s; _ ← disconnectSession (s_hostNodeId s); mret tt.

Lemma churn_spec s m :
  m_closed m = false → m_sessions m !! s_hostNodeId s = None → s_connectionType s = CLIENT →
  ∃ m', churn s m = (Ok tt, m') ∧ m_closed m' = false ∧ m_sessions m' = m_sessions m ∧
    m_clientSessionsCount m' = u32 (m_clientSessionsCount m + 1).
Proof.
  intros Hcl Hn Hty. unfold churn. unfold mbind at 1, ST_bind at 1. unfold registerSession.
  rewrite Hcl, Hn. rewrite bool_decide_false by (by intros []). rewrite bool_decide_true by done.
  unfold disconnectSession. eexists. split; [|split_and!].
  - unfold mbind, ST_bind, gets. cbn [m_sessions set_m_sessions]. rewrite lookup_insert_eq. reflexivity.
  - done.
  - cbn. by rewrite delete_insert_id.
  - done.
Qed.

(** [disconnectSession] takes a session out of the list without counting
    it down: after any number of client sessions that the node itself closed,
    the list is as before and the counter is higher by their number, and once
    the counter has reached the limit [connectToServer] does nothing, for every
    address, although no session is open. *)
Theorem client_count_drift s m n host port :
  m_closed m = false → m_sessions m !! s_hostNodeId s = None → s_connectionType s = CLIENT →
  0 ≤ m_clientSessionsCount m → m_clientSessionsCount m + Z.of_nat n < 2 ^ 32 →
  maxConnections ≤ m_clientSessionsCount m + Z.of_nat n →
  ∃ m', each churn (replicate n s) m = (Ok tt, m') ∧ m_sessions m' = m_sessions m ∧
    m_clientSessionsCount m' = m_clientSessionsCount m + Z.of_nat n ∧
    connectToServer hostIpText hostPort maxConnections host port m' = (Ok tt, m').
Proof.
  intros Hcl Hn Hty H0' Hm Hmax.
  assert (∃ m', each churn (replicate n s) m = (Ok tt, m') ∧ m_closed m' = false ∧ m_sessions m' = m_sessions m ∧
    m_clientSessionsCount m' = m_clientSessionsCount m + Z.of_nat n) as (m' & He & Hcl' & Hs & Hc).
  { clear Hmax. revert m Hcl Hn H0' Hm. induction n as [|n IH]; intros m Hcl Hn H0' Hm.
    - exists m. rewrite Z.add_0_r. done.
    - destruct (churn_spec s m Hcl Hn Hty) as (m1 & E & Hcl1 & Hs1 & Hc1).
      unfold wrap in Hc1. rewrite Z.mod_small in Hc1 by lia.
      destruct (IH m1) as (m' & E' & Hcl' & Hs' & Hc'); [done|by rewrite Hs1|lia..|].
      exists m'. cbn [replicate each]. unfold mbind, ST_bind. rewrite E, E'. split_and!; [done|done|congruence|lia]. }
  exists m'. split_and!; [done..|]. unfold connectToServer. rewrite Hcl', Hc.
  case_match; [done|]. by rewrite (proj2 (Z.leb_le _ _)) by lia.
Qed.

(** A session that fails takes the registered session of the node id it
    claimed out of the list, whoever made that session: the victim stays open,
    but is no longer found, answered from or broadcast to. *)
Theorem failed_session_evicts s victim m :
  m_sessions m !! s_hostNodeId s = Some victim → s_ptr victim ≠ s_ptr s →
  s_ptr s ∉ m_closedSessions m → s_ptr victim ∉ m_closedSessions m →
  ∃ m', handleError s m = (Ok tt, m') ∧ m_sessions m' = delete (s_hostNodeId s) (m_sessions m) ∧
    s_ptr victim ∉ m_closedSessions m' ∧
    ∀ message, sendMessageTo (s_hostNodeId s) message m' = (Ok None, m').
Proof.
  intros Hv Hne Hs Hvc. unfold handleError. rewrite gets_bind, bool_decide_false by done.
  unfold mbind at 1, ST_bind at 1. unfold unregisterSession.
  rewrite Hv. rewrite bool_decide_true by (by eexists). cbn [negb].
  eexists. split; [reflexivity|]. split_and!.
  - done.
  - cbn. set_solver.
  - intros message. unfold sendMessageTo. rewrite gets_bind. case_match; [done|].
    rewrite gets_bind. cbn [m_sessions set_m_closedSessions set_m_sessions]. by rewrite lookup_delete_eq.
Qed.

(** ** A broadcast passed on *)

(** The writes of [broadcastMessage]. *)
Definition normal_writes m message : list event :=
  (λ e : bytes * Session, Write e.2 message) <$>
  filter (λ e : bytes * Session, s_hostType e.2 = NORMAL_NODE) (iter_map (m_sessions m)).

Definition add_events m (es : list event) : Manager :=
  mkManager (m_closed m) (m_sessions m) (m_requests m) (m_clientSessionsCount m) (m_broadcastedMessages m)
    (m_closedSessions m) (m_ledger m) (m_events m ++ es).

Lemma each_write_normal message l m :
  each (write_normal message) l m =
  (Ok tt, add_events m ((λ e : bytes * Session, Write e.2 message) <$>
    filter (λ e : bytes * Session, s_hostType e.2 = NORMAL_NODE) l)).
Proof.
  revert m. induction l as [|e l IH]; intros m.
  - unfold add_events. cbn. rewrite app_nil_r. by destruct m.
  - cbn [each]. unfold mbind, ST_bind, write_normal at 1. rewrite filter_cons. case_bool_decide.
    + rewrite decide_True by done. cbn [session_write modify]. rewrite IH. unfold add_events, add_event. cbn.
      by rewrite <-app_assoc.
    + rewrite decide_False by done. cbn [mret ST_ret]. by rewrite IH.
Qed.

Definition passed_on m n message : Manager :=
  add_events (set_m_broadcasted m (<[n := 1]> (m_broadcastedMessages m))) (normal_writes m message).

Lemma broadcastMessage_fresh message n m :
  m_closed m = false → message_number message = Ok n → m_broadcastedMessages m !! n = None →
  broadcastMessage message m = (Ok tt, passed_on m n message).
Proof.
  intros Hcl Hn Hf. unfold broadcastMessage. rewrite gets_bind, Hcl, lift_bind, Hn, gets_bind, Hf.
  change (0 <? default 0 None) with false. cbv iota. rewrite modify_bind, gets_bind. apply each_write_normal.
Qed.

Lemma broadcastMessage_returns message n m :
  message_number message = Ok n → (broadcastMessage message m).1 = Ok tt.
Proof.
  intros Hn. unfold broadcastMessage. rewrite gets_bind. destruct (m_closed m); [done|].
  rewrite lift_bind, Hn, gets_bind. case_match; [done|]. rewrite modify_bind, gets_bind.
  match goal with |- (each ?f ?l ?x).1 = _ => change ((each (write_normal message) l x).1 = Ok tt) end.
  by rewrite each_write_normal.
Qed.

(** A broadcast leaves the chain and the sessions alone. *)
Lemma broadcastMessage_frame message m :
  m_ledger (broadcastMessage message m).2 = m_ledger m ∧ m_sessions (broadcastMessage message m).2 = m_sessions m.
Proof.
  unfold broadcastMessage. rewrite gets_bind. destruct (m_closed m); [done|].
  rewrite lift_bind. destruct (message_number message) as [n| |]; [|done..].
  rewrite gets_bind. case_match; [done|]. rewrite modify_bind, gets_bind.
  match goal with |- context [each ?f ?l ?x] => change (each f l x) with (each (write_normal message) l x) end.
  by rewrite each_write_normal.
Qed.

(** A broadcast that is built has a number. *)
Lemma built_number c data message :
  named_command c = true → build_broadcast c data = Ok message → ∃ n, message_number message = Ok n.
Proof.
  intros Hc Hb. destruct (build_message_spec Broadcasting (uint64ToBytes (FNVHash data)) c data)
    as (m' & Hm & _ & _ & Hid & _); [done..|by rewrite uint64ToBytes_spec, be_split_length|].
  unfold build_broadcast in Hb. rewrite Hm in Hb. apply Ok_inj in Hb as <-. unfold message_number.
  rewrite Hid, Ok_bind. unfold RequestID_toUint64. rewrite uint64ToBytes_spec, bytesToUint64_spec; [by eexists| |].
  - apply be_split_ok.
  - apply be_split_length.
Qed.

Lemma broadcastMessage_again message n m :
  m_closed m = false → message_number message = Ok n → m_broadcastedMessages m !! n = Some 1 →
  broadcastMessage message m = (Ok tt, m).
Proof.
  intros Hcl Hn Hf. unfold broadcastMessage. by rewrite gets_bind, Hcl, lift_bind, Hn, gets_bind, Hf.
Qed.

Lemma handleMessage_again clock s message n m :
  m_closed m = false → Message_type message = Ok Broadcasting →
  message_number message = Ok n → m_broadcastedMessages m !! n = Some 1 →
  handleMessage version chainID thrNum clock s message m = (Ok tt, m).
Proof.
  intros Hcl Ht Hn Hf. unfold handleMessage. rewrite gets_bind, Hcl, lift_bind, Ht.
  unfold handleBroadcast. by rewrite gets_bind, Hcl, lift_bind, Hn, gets_bind, Hf.
Qed.

(** What a message is when it decodes as a broadcast. *)
Lemma broadcast_data_inv c bad message data :
  broadcast_data c bad message = Ok data →
  Message_type message = Ok Broadcasting ∧ Message_command message = Ok c ∧
  message_number message = Ok (FNVHash data) ∧ Message_message message = Ok data.
Proof.
  intros Hb. unfold broadcast_data in Hb. apply bind_Ok in Hb as ([] & Ht & Hb).
  unfold expect_type in Ht. apply bind_Ok in Ht as (t & Ht & Hte). apply throw_if_Ok in Hte.
  apply negb_false_iff, bool_decide_eq_true in Hte as ->.
  apply bind_Ok in Hb as (id & Hid & Hb). apply bind_Ok in Hb as (n & Hn & Hb).
  apply bind_Ok in Hb as (d & Hd & Hb). apply bind_Ok in Hb as ([] & Hf & Hb). apply throw_if_Ok in Hf.
  apply negb_false_iff, Z.eqb_eq in Hf. apply bind_Ok in Hb as ([] & Hc & Hb). apply Ok_inj in Hb as <-.
  unfold expect_command in Hc. apply bind_Ok in Hc as (c' & Hc & Hce). apply throw_if_Ok in Hce.
  apply negb_false_iff, bool_decide_eq_true in Hce as ->. split_and!; [done..| |done].
  unfold message_number. by rewrite Hid, Ok_bind, Hn, Hf.
Qed.

(** Down to the block handler. *)
Lemma handleMessage_block clock s message m block :
  m_closed m = false → BroadcastDecoder_broadcastBlock thrNum message chainID = Ok block →
  (∀ n, message_number message = Ok n → m_broadcastedMessages m !! n = None) →
  handleMessage version chainID thrNum clock s message m = handleBlockBroadcast chainID thrNum s message m ∧
  Message_type message = Ok Broadcasting ∧ ∃ n, message_number message = Ok n.
Proof.
  intros Hcl Hd Hf. pose proof Hd as Hd'. unfold BroadcastDecoder_broadcastBlock in Hd'.
  apply bind_Ok in Hd' as (data & Hdata & _). apply broadcast_data_inv in Hdata as (Ht & Hc & Hn & _).
  split_and!; [|done|by eexists]. unfold handleMessage. rewrite gets_bind, Hcl, lift_bind, Ht.
  unfold handleBroadcast. rewrite gets_bind, Hcl, lift_bind, Hn, gets_bind, (Hf _ Hn).
  change (0 <? default 0 None) with false. cbv iota.
  by rewrite lift_bind, Hc.
Qed.

(** A new block that the chain accepts is taken in and passed on: it
    becomes the latest block, the message is written once to every session of a
    normal node and to no other, the sessions stay, and the same message from
    any peer does nothing any more. *)
Lemma block_broadcast_accepted clock s message m block l' :
  m_closed m = false → BroadcastDecoder_broadcastBlock thrNum message chainID = Ok block →
  (∀ n, message_number message = Ok n → m_broadcastedMessages m !! n = None) →
  ch_blockExists (m_ledger m) (Block_hash block) = false →
  ch_validateNextBlock (m_ledger m) block = Ok true →
  ch_processNextBlock block (m_ledger m) = (Ok tt, l') →
  ∃ m', handleMessage version chainID thrNum clock s message m = (Ok tt, m') ∧
    ch_latest (m_ledger m') = Ok block ∧ m_ledger m' = l' ∧
    m_sessions m' = m_sessions m ∧ m_events m' = m_events m ++ normal_writes m message ∧
    ∀ clock' s', handleMessage version chainID thrNum clock' s' message m' = (Ok tt, m').
Proof using Type*.
  intros Hcl Hd Hf Hex Hv Hp. destruct (handleMessage_block clock s message m block Hcl Hd Hf) as (-> & Ht & n & Hn).
  set (m1 := set_m_ledger m l'). exists (passed_on m1 n message).
  assert (m_broadcastedMessages (passed_on m1 n message) !! n = Some 1) as Hb by apply lookup_insert_eq.
  destruct (ch_processed _ _ _ Hp) as [Hlat Hex']. split_and!; [|done..|].
  - unfold handleBlockBroadcast, catching. unfold mbind at 1, ST_bind at 1.
    rewrite lift_bind, Hd, gets_bind, Hex, lift_bind, Hv. unfold mbind at 1, ST_bind at 1, on_ledger.
    rewrite Hp. fold m1. unfold mbind at 1, ST_bind at 1.
    rewrite (broadcastMessage_fresh message n m1 Hcl Hn (Hf n Hn)). cbn [mret ST_ret].
    by apply (broadcastMessage_again message n).
  - intros clock' s'. by apply (handleMessage_again clock' s' message n).
Qed.

(** A block that is known already is never passed on: the handler returns
    before its rebroadcast, also for the block before the latest, which its
    comment says it still rebroadcasts. *)
Theorem known_block_not_rebroadcast clock s message m block lb :
  m_closed m = false → BroadcastDecoder_broadcastBlock thrNum message chainID = Ok block →
  (∀ n, message_number message = Ok n → m_broadcastedMessages m !! n = None) →
  ch_blockExists (m_ledger m) (Block_hash block) = true → ch_latest (m_ledger m) = Ok lb →
  handleMessage version chainID thrNum clock s message m = (Ok tt, m).
Proof.
  intros Hcl Hd Hf Hex Hl. destruct (handleMessage_block clock s message m block Hcl Hd Hf) as (-> & _).
  unfold handleBlockBroadcast, catching. unfold mbind at 1, ST_bind at 1.
  by rewrite lift_bind, Hd, gets_bind, Hex, lift_bind, Hl.
Qed.

End ManagerProperties.

(** ** Witnesses *)

(** A chain that is a list of blocks. *)
Definition toy_chain : @ChainNode toy_keccak.
Proof.
  refine (@Build_ChainNode toy_keccak (list Block)
    (λ l, match last l with Some b => Ok b | None => Undef end)
    (λ _, ∅)
    (λ l h, existsb (λ b, bool_decide (@Block_hash toy_keccak b = h)) l)
    (λ _ l, (Ok true, l)) (λ _ l, (Ok NotInvalid, l)) (λ _ _, Ok true)
    (λ b l, (Ok tt, l ++ [b])) _).
  intros b n n' [= <-]. rewrite last_snoc. split; [done|].
  rewrite existsb_app. cbn [existsb]. rewrite bool_decide_true by done. apply orb_true_r.
Defined.

Definition node_id (i : Z) : bytes := replicate 32 i.
Definition peer_session (i : Z) (c : ConnectionType) (t : NodeType) : Session :=
  mkSession i c (node_id i) t (ip_v4 [10; 0; 0; i]) 8080.
Definition peer_a : Session := peer_session 1 SERVER NORMAL_NODE.
Definition peer_b : Session := peer_session 2 CLIENT DISCOVERY_NODE.
Definition peer_c : Session := peer_session 3 CLIENT NORMAL_NODE.
(** Another connection that claims the node id of [peer_a]. *)
Definition peer_x : Session := mkSession 9 SERVER (node_id 1) NORMAL_NODE (ip_v4 [10; 0; 0; 9]) 8080.

Definition toy_manager (l : list Block) : @Manager toy_keccak toy_chain :=
  @mkManager toy_keccak toy_chain false
    (list_to_map [(node_id 1, peer_a); (node_id 2, peer_b)]) ∅ 1 ∅ ∅ l [].

Definition message_of (o : outcome Message) : Message := match o with Ok m => m | _ => [] end.
Definition block_message : Message := message_of (BroadcastEncoder_broadcastBlock sample_value).

#[local] Existing Instances toy_keccak toy_secp toy_order toy_chain.

Definition started : Manager := (startServer (Manager_ctor ([] : list Block))).2.
Definition with_peer : Manager := (registerSession peer_a started).2.

Lemma with_peer_reach : rtc (manager_step 1 8080 4 [] 0 50) (Manager_ctor ([] : list Block)) with_peer.
Proof. eapply rtc_l; [apply ms_start|]. apply rtc_once, ms_register. Qed.

Lemma manager_type_invariant_witness :
  map_Forall (λ k s, s_hostNodeId s = k) (m_sessions with_peer) ∧ size (m_sessions with_peer) = 1%nat.
Proof.
  split; [|vm_compute; reflexivity].
  exact (proj1 (manager_type_invariant 1 8080 4 [] 0 50 [] with_peer with_peer_reach)).
Defined.

Lemma broadcast_at_most_once_witness :
  NoDup (broadcast_log (broadcastBlock sample_value with_peer).2) ∧
  length (broadcast_log (broadcastBlock sample_value with_peer).2) = 1%nat.
Proof.
  split; [|vm_compute; reflexivity].
  refine (proj1 (broadcast_at_most_once 1 8080 4 [] 0 50 [] _ _)).
  eapply rtc_r; [exact with_peer_reach|apply ms_broadcastBlock].
Defined.

(** [peer_b] was asked to answer the ping, and [peer_a] answers it. *)
Definition asked : Manager := (ping sample_id (node_id 2) (toy_manager [])).2.
Definition pong : Message := message_of (AnswerEncoder_ping sample_ping).

Lemma answer_completes_request_witness :
  ∃ r, m_requests asked !! sample_id = Some r ∧ r_nodeId r = node_id 2 ∧
    handleMessage 1 8080 4 0 peer_a pong asked = (Ok tt, answered asked sample_id r pong) ∧
    (handleMessage 1 8080 4 0 peer_a pong (answered asked sample_id r pong)).1 = Throw future_error.
Proof.
  eexists. split; [vm_compute; reflexivity|]. split; [reflexivity|]. split.
  - rewrite (answer_completes_request 1 8080 4 0 peer_a pong asked sample_id Ping);
      [reflexivity|reflexivity|reflexivity|reflexivity|reflexivity|left].
  - rewrite (answer_completes_request 1 8080 4 0 peer_a pong _ sample_id Ping);
      [reflexivity|reflexivity|reflexivity|reflexivity|reflexivity|left].
Defined.

Lemma handler_exception_escapes_witness :
  handleMessage 1 8080 4 0 peer_a [4; 1; 2; 3; 4; 5; 6; 7; 8; 0; 0] (toy_manager []) =
  (Throw (runtime_error "Invalid request type."), toy_manager []).
Proof.
  refine (proj1 (handler_exception_escapes 1 8080 4 0 peer_a [4; 1; 2; 3; 4; 5; 6; 7; 8; 0; 0] (toy_manager []) _ _ _)
    4 _ _); [reflexivity| | |reflexivity|lia].
  - apply (bool_decide_unpack _). vm_compute. exact I.
  - vm_compute. discriminate.
Defined.

Lemma client_count_drift_witness :
  ∃ m', each churn (replicate 49 peer_c) (toy_manager []) = (Ok tt, m') ∧
    m_sessions m' = m_sessions (toy_manager []) ∧ m_clientSessionsCount m' = 50 ∧
    connectToServer (str "127.0.0.1") 8080 50 (str "10.0.0.7") 8080 m' = (Ok tt, m').
Proof.
  refine (client_count_drift (str "127.0.0.1") 8080 50 peer_c (toy_manager []) 49 (str "10.0.0.7") 8080 _ _ _ _ _ _).
  - reflexivity.
  - vm_compute. reflexivity.
  - reflexivity.
  - vm_compute. discriminate.
  - vm_compute. reflexivity.
  - vm_compute. discriminate.
Defined.

Lemma failed_session_evicts_witness :
  ∃ m', handleError peer_x (toy_manager []) = (Ok tt, m') ∧
    m_sessions m' = delete (node_id 1) (m_sessions (toy_manager [])) ∧ 1 ∉ m_closedSessions m' ∧
    ∀ message, sendMessageTo (node_id 1) message m' = (Ok None, m').
Proof.
  refine (failed_session_evicts peer_x peer_a (toy_manager []) _ _ _ _).
  - vm_compute. reflexivity.
  - discriminate.
  - apply (bool_decide_unpack _). vm_compute. exact I.
  - apply (bool_decide_unpack _). vm_compute. exact I.
Defined.

Lemma known_block_not_rebroadcast_witness :
  handleMessage 1 8080 4 0 peer_a block_message (toy_manager [sample_value; plain_block]) =
  (Ok tt, toy_manager [sample_value; plain_block]).
Proof.
  refine (known_block_not_rebroadcast 1 8080 4 0 peer_a block_message (toy_manager [sample_value; plain_block])
    sample_value plain_block _ _ _ _ _).
  - reflexivity.
  - vm_compute. reflexivity.
  - intros n _. reflexivity.
  - vm_compute. reflexivity.
  - reflexivity.
Defined.
