(* ===== verification/P2PNode.v ===== *)
(** * P2PNode: the manager of a normal node on the chain it serves

    [state_chain] is the interface of P2PManager.v given by the State, rdPoS
    and Storage of the node, which [ManagerNormal] holds references to.  The
    database is the one of the State. *)

From S2P Require Import Prelude Utils Hex Strings SafeHash Ecdsa Tx Block DB Storage RdPoS State.
From S2P Require Import P2PEncoding P2PManager.

Section Node.
Context `{Keccak} `{Secp256k1Lib} `{RocksDB} `{!ContractHost} `{!CheckedLeft} `{!HashMapOrder}.

(** [storage_->latest()], [rdpos_->getMempool()], [storage_->blockExists(hash)],
    [state_->addValidatorTx(tx)], [state_->addTx(tx)]. *)
Definition node_latest (n : node) : outcome Block := latest n.2.
Definition node_getMempool (n : node) : gmap bytes TxValidator := validatorMempool n.1.2.
Definition node_blockExists (n : node) (hash : bytes) : bool :=
  negb (bool_decide (blockExists_hash n.2 (st_db n.1.1) hash = NotFound)).
Definition node_addValidatorTx (tx : TxValidator) : ST node bool := λ '(st, rd, storage),
  match State_addValidatorTx rd storage tx with
  | Ok (added, rd) => (Ok added, (st, rd, storage))
  | Throw e => (Throw e, (st, rd, storage))
  | Undef => (Undef, (st, rd, storage))
  end.
Definition node_addTx (tx : TxBlock) : ST node TxInvalid := λ '(st, rd, storage),
  let '(r, st) := addTx tx st in (r, (st, rd, storage)).
Definition node_validateNextBlock (n : node) (b : Block) : outcome bool :=
  validateNextBlock n.1.1 n.1.2 n.2 b.

(** The block pushed back is found by its hash. *)
Lemma pushBack_found storage b storage' db :
  pushBack storage b = Ok storage' → blockExists_hash storage' db (Block_hash b) = OnChain.
Proof.
  unfold pushBack, pushBackInternal. intros Hp. inv_ok. unfold blockExists_hash.
  rewrite bool_decide_true; [done|]. cbn [blockByHash index_block set_chain]. unfold map_emplace.
  destruct (blockByHash storage !! Block_hash b) as [b'|] eqn:E; [by rewrite E; eexists|].
  rewrite lookup_insert_eq. by eexists.
Qed.

Lemma node_processed b n n' :
  processNextBlock b n = (Ok tt, n') → node_latest n' = Ok b ∧ node_blockExists n' (Block_hash b) = true.
Proof.
  destruct n as [[st rd] storage]. intros Hp.
  apply processNextBlock_Ok in Hp as (Hv & st1 & st2 & seed & rd' & storage' & _ & _ & _ & Hpush & ->).
  destruct (validateNextBlock_true _ _ _ _ Hv) as (lb & Hl & Hh & Hpr & _).
  destruct (pushBack_next _ _ _ Hl Hh Hpr) as (storage2 & Hpush2 & Hlat & _).
  rewrite Hpush in Hpush2. apply Ok_inj in Hpush2 as <-. split; [done|].
  unfold node_blockExists. cbn [fst snd]. by rewrite (pushBack_found _ _ _ _ Hpush).
Qed.

#[export] Instance state_chain : ChainNode := {|
  ledger := node;
  ch_latest := node_latest;
  ch_getMempool := node_getMempool;
  ch_blockExists := node_blockExists;
  ch_addValidatorTx := node_addValidatorTx;
  ch_addTx := node_addTx;
  ch_validateNextBlock := node_validateNextBlock;
  ch_processNextBlock := processNextBlock;
  ch_processed := node_processed;
|}.

End Node.
