(* ===== verification/Syncer.v ===== *)
(** * Syncer: syncing with the peers and creating blocks
      (src/core/blockchain.{h,cpp})

    The syncer works on the whole node: the P2P manager with the chain it
    serves (P2PNode.v).  A wait for other threads is a poll that answers
    [Waiting] while its condition does not hold; [stopSyncer] is read at the
    checkpoints of the source, each with a value of its own; the answers of the
    peers, the random bytes and the clock are arguments. *)

From S2P Require Import Prelude Utils Hex Strings SafeHash Ecdsa Tx Block DB Storage RdPoS State.
From S2P Require Import P2PEncoding P2PManager P2PNode.

(** Where [doValidatorBlock] reads [stopSyncer]. *)
Inductive checkpoint :=
  | WaitValidators | WaitTxs | BeforeCreate
  | HashLoop (pass visited : nat)
  | AfterOrder | AfterAppend | BeforeProcess | BeforeBroadcast.

Inductive progress := Waiting | Stopped | Created.

#[export] Instance progress_eq_dec : EqDecision progress.
Proof. solve_decision. Defined.

(** ** Ordering the transactions of a round *)

(** One pass of the [for] of the ordering loops over the mempool: the first
    transaction of [randomList[i]] with the selector; [None] when the pass
    finds none, and [stop] at the visits where the loop reads the flag. *)
Inductive visit := Stop | Found (tx : TxValidator) | Missing.

Fixpoint visit_txs (stop : nat → bool) (visited : nat) (l : list (bytes * TxValidator))
    (randomList : list bytes) (i : Z) (selector : bytes) : outcome visit :=
  match l with
  | [] => Ok Missing
  | (_, tx) :: l =>
      if stop visited then Ok Stop
      else
        v ← at_view randomList i;
        if bool_decide (tv_from tx = v) && bool_decide (take 4 (tv_data tx) = selector) then Ok (Found tx)
        else visit_txs stop (S visited) l randomList i selector
  end.

(** [while (txs.size() != rdPoS::minValidators)]: [None] when the loop is not
    over after [fuel] passes, [Some (Ok None)] when it was stopped. *)
Fixpoint order_txs (fuel : nat) (stop : nat → nat → bool) (pass : nat) (l : list (bytes * TxValidator))
    (randomList : list bytes) (selector : bytes) (i : Z) (txs : list TxValidator)
    : option (outcome (option (list TxValidator))) :=
  if zlen txs =? minValidators then Some (Ok (Some txs))
  else match fuel with
  | O => None
  | S fuel =>
      match visit_txs (stop pass) 0 l randomList i selector with
      | Ok Stop => Some (Ok None)
      | Ok (Found tx) => order_txs fuel stop (S pass) l randomList selector (i + 1) (txs ++ [tx])
      | Ok Missing => order_txs fuel stop (S pass) l randomList selector i txs
      | Throw e => Some (Throw e)
      | Undef => Some Undef
      end
  end.

Section Syncer.
Context `{Keccak} `{Secp256k1Lib} `{RocksDB} `{!ContractHost} `{!CheckedLeft} `{!HashMapOrder} `{!BoostIp}.
Context (version chainID : Z) (thrNum : nat).

Record Syncer := mkSyncer {
  sy_manager : Manager;
  sy_currentlyConnectedNodes : gmap bytes NodeInfo;
  sy_latestBlock : option Block;
  sy_synced : bool;
}.

(** Runs a call on the manager or on the node behind it. *)
Definition on_manager {A} (op : ST Manager A) : ST Syncer A := λ s,
  let '(r, m) := op (sy_manager s) in
  (r, mkSyncer m (sy_currentlyConnectedNodes s) (sy_latestBlock s) (sy_synced s)).
Definition set_nodes (s : Syncer) (nodes : gmap bytes NodeInfo) : Syncer :=
  mkSyncer (sy_manager s) nodes (sy_latestBlock s) (sy_synced s).
Definition set_latest (s : Syncer) (b : Block) : Syncer :=
  mkSyncer (sy_manager s) (sy_currentlyConnectedNodes s) (Some b) (sy_synced s).
Definition get_node (s : Syncer) : node := m_ledger (sy_manager s).

(** ** Syncing *)

(** [ManagerNormal::requestNodeInfo]: [answers] is what arrives within the two
    seconds. *)
Definition requestNodeInfo (rnd : bytes → bytes) (clock : Z) (answers : bytes → option Message)
    (nodeId : bytes) : ST Syncer NodeInfo :=
  o ← on_manager (requestNodeInfo_send version (rnd nodeId) clock nodeId);
  match o with
  | None => mret NodeInfo_empty
  | Some _ => lift (requestNodeInfo_answer (answers nodeId))
  end.

(** The second part of [updateCurrentlyConnectedNodes], with the list of the
    connected nodes.  The first loop erases the entry its iterator is at, and
    then advances the iterator: undefined.  Overwriting is harmless. *)
Definition refresh_node (ask : bytes → ST Syncer NodeInfo) (connectedNodes : list bytes)
    (nodeId : bytes) : ST Syncer unit :=
  if negb (bool_decide (nodeId ∈ connectedNodes)) then lift Undef
  else
    newNodeInfo ← ask nodeId;
    if NodeInfo_eq newNodeInfo NodeInfo_empty then lift Undef
    else modify (λ s : Syncer, set_nodes s (<[nodeId := newNodeInfo]> (sy_currentlyConnectedNodes s))).

Definition add_node (ask : bytes → ST Syncer NodeInfo) (nodeId : bytes) : ST Syncer unit :=
  known ← gets (λ s : Syncer, bool_decide (is_Some (sy_currentlyConnectedNodes s !! nodeId)));
  if (known : bool) then mret tt
  else
    newNodeInfo ← ask nodeId;
    if NodeInfo_eq newNodeInfo NodeInfo_empty then mret tt
    else modify (λ s : Syncer, set_nodes s (<[nodeId := newNodeInfo]> (sy_currentlyConnectedNodes s))).

Definition updateCurrentlyConnectedNodes (ask : bytes → ST Syncer NodeInfo) (connectedNodes : list bytes)
    : ST Syncer unit :=
  l ← gets (λ s : Syncer, (iter_map (sy_currentlyConnectedNodes s)).*1);
  _ ← each (refresh_node ask connectedNodes) l;
  each (add_node ask) connectedNodes.

(** [checkLatestBlock]: pointers are compared; a block is pointed to by one
    pointer while it is the latest. *)
Definition checkLatestBlock (s : Syncer) : outcome bool :=
  b ← node_latest (get_node s); Ok (negb (bool_decide (sy_latestBlock s = Some b))).

(** The best node among those known. *)
Definition highest_step (best : bytes * Z) (e : bytes * NodeInfo) : bytes * Z :=
  if best.2 <? latestBlockHeight e.2 then (e.1, latestBlockHeight e.2) else best.
Definition highestNode (nodes : gmap bytes NodeInfo) : bytes * Z :=
  foldl highest_step (Hash_zero, 0) (iter_map nodes).

(** [doSync]: nothing is downloaded from the best node yet. *)
Definition doSync (ask : bytes → ST Syncer NodeInfo) (connectedNodes : list bytes) : ST Syncer (bytes * Z) :=
  n ← gets get_node;
  b ← lift (node_latest n);
  _ ← modify (λ s : Syncer, set_latest s b);
  _ ← updateCurrentlyConnectedNodes ask connectedNodes;
  best ← gets (λ s : Syncer, highestNode (sy_currentlyConnectedNodes s));
  n ← gets get_node;
  b ← lift (node_latest n);
  _ ← modify (λ s : Syncer, mkSyncer (sy_manager s) (sy_currentlyConnectedNodes s) (Some b) true);
  mret best.

(** ** Creating a block *)

(** [Block(hash, timestamp, nHeight + 1)] and the appends. *)
Definition round_block_of (lb : Block) (txs : list TxValidator) : Block :=
  foldl (λ b tx, (appendTxValidator b tx).2)
    (Block_new (Block_hash lb) (b_timestamp lb) (u64 (b_nHeight lb + 1))) txs.

Definition not_valid : exn := runtime_error "Block is not valid!".

(** From the ordered transactions to the broadcast. *)
Definition create_block (stopped : checkpoint → bool) (newTimestamp : Z) (txs : list TxValidator)
    : ST Manager progress :=
  '(st, rd, storage) ← gets m_ledger;
  latestBlock ← lift (latest storage);
  let block := round_block_of latestBlock txs in
  if stopped AfterAppend then mret Stopped
  else
    let block := fillBlockWithTransactions st block in
    '(block, rd) ← lift (signBlock rd block newTimestamp);
    _ ← modify (λ m : Manager, set_m_ledger m (st, rd, storage));
    valid ← lift (validateNextBlock st rd storage block);
    if negb valid then lift (Throw not_valid)
    else if stopped BeforeProcess then mret Stopped
    else
      let latestBlockHash := Block_hash block in
      _ ← on_ledger (processNextBlock block);
      '(_, _, storage) ← gets m_ledger;
      latestBlock ← lift (latest storage);
      if negb (bool_decide (Block_hash latestBlock = latestBlockHash)) then lift (Throw not_valid)
      else if stopped BeforeBroadcast then mret Stopped
      else
        _ ← broadcastBlock latestBlock;
        mret Created.

(** [doValidatorBlock] with [fuel] passes for each ordering loop; [None] when
    a loop is not over by then. *)
Definition doValidatorBlock (fuel : nat) (stopped : checkpoint → bool) (newTimestamp : Z) (m : Manager)
    : option (outcome progress * Manager) :=
  let '(st, rd, storage) := m_ledger m in
  let finish (p : progress) := Some (Ok p, m) in
  if zlen (map_to_list (validatorMempool rd)) <? minValidators * 2 then
    finish (if stopped WaitValidators then Stopped else Waiting)
  else if zlen (map_to_list (mempool st)) <? 1 then
    finish (if stopped WaitTxs then Stopped else Waiting)
  else if stopped BeforeCreate then finish Stopped
  else
    let l := iter_map (validatorMempool rd) in
    match order_txs fuel (λ p k, stopped (HashLoop p k)) 0 l (randomList rd) randomHashHash 1 [] with
    | None => None
    | Some (Throw e) => Some (Throw e, m)
    | Some Undef => Some (Undef, m)
    | Some (Ok None) => finish Stopped
    | Some (Ok (Some randomHashTxs)) =>
        match order_txs fuel (λ _ _, false) 0 l (randomList rd) randomSeedHash 1 [] with
        | None => None
        | Some (Throw e) => Some (Throw e, m)
        | Some Undef => Some (Undef, m)
        | Some (Ok None) => finish Stopped
        | Some (Ok (Some randomnessTxs)) =>
            if stopped AfterOrder then finish Stopped
            else Some (create_block stopped newTimestamp (randomHashTxs ++ randomnessTxs) m)
        end
    end.

(** One round of [validatorLoop], up to the wait for the next block: whether
    this node was the block creator. *)
Definition validatorLoop_round (fuel : nat) (stopped : checkpoint → bool) (newTimestamp : Z) (me : bytes)
    (m : Manager) : option (outcome (bool * progress) * Manager) :=
  let '(_, rd, _) := m_ledger m in
  match at_view (randomList rd) 0 with
  | Ok first =>
      if bool_decide (first = me) then
        match doValidatorBlock fuel stopped newTimestamp m with
        | None => None
        | Some (r, m) => Some (p ← r; Ok (true, p), m)
        end
      else Some (Ok (false, Waiting), m)
  | Throw e => Some (Throw e, m)
  | Undef => Some (Undef, m)
  end.

(** * Lemmas *)

(** ** The ordering loops *)

Definition wanted (l : list (bytes * TxValidator)) (selector a : bytes) (tx : TxValidator) : Prop :=
  (∃ k, (k, tx) ∈ l) ∧ tv_from tx = a ∧ take 4 (tv_data tx) = selector.

Lemma visit_txs_found l rl i sel a v :
  at_view rl i = Ok a → (∃ tx, wanted l sel a tx) →
  ∃ tx, visit_txs (λ _, false) v l rl i sel = Ok (Found tx) ∧ wanted l sel a tx.
Proof.
  intros Ha. revert v. induction l as [|[k0 tx0] l IH]; intros v (tx & (k & Hin) & Hf & Hs).
  { by apply elem_of_nil in Hin. }
  cbn [visit_txs]. rewrite Ha, Ok_bind. destruct (bool_decide (tv_from tx0 = a) && _) eqn:E.
  - apply andb_true_iff in E as [E1%bool_decide_eq_true E2%bool_decide_eq_true].
    exists tx0. split; [done|]. split_and!; [exists k0; left|done..].
  - destruct (IH (S v)) as (tx' & Hv & (k' & Hk') & Hw').
    + exists tx. split_and!; [|done..]. apply elem_of_cons in Hin as [[= -> ->]|Hin]; [|by exists k].
      by rewrite !bool_decide_true in E by done.
    + exists tx'. split; [done|]. split; [exists k'; by right|done].
Qed.

Lemma visit_txs_missing l rl i sel a v :
  at_view rl i = Ok a → (∀ tx, ¬ wanted l sel a tx) → visit_txs (λ _, false) v l rl i sel = Ok Missing.
Proof.
  intros Ha. revert v. induction l as [|[k0 tx0] l IH]; intros v Hno; [done|]. cbn [visit_txs].
  rewrite Ha, Ok_bind. destruct (bool_decide (tv_from tx0 = a) && _) eqn:E.
  - apply andb_true_iff in E as [E1%bool_decide_eq_true E2%bool_decide_eq_true].
    exfalso. apply (Hno tx0). split; [exists k0; left|done].
  - apply IH. intros tx ((k & Hk) & Hw). apply (Hno tx). split; [exists k; by right|done].
Qed.

(** With a transaction for each participant the loop ends after four passes,
    with the transactions in the order of the list. *)
Lemma order_txs_found l rl sel fuel pass txs :
  (∀ j, (j < 4)%nat → ∃ a tx, rl !! S j = Some a ∧ wanted l sel a tx) →
  (length txs ≤ 4)%nat → (4 ≤ fuel + length txs)%nat →
  (∀ j tx, txs !! j = Some tx → ∃ a, rl !! S j = Some a ∧ wanted l sel a tx) →
  ∃ r, order_txs fuel (λ _ _, false) pass l rl sel (1 + zlen txs) txs = Some (Ok (Some r)) ∧ length r = 4%nat ∧
    ∀ j tx, r !! j = Some tx → ∃ a, rl !! S j = Some a ∧ wanted l sel a tx.
Proof.
  intros Hall. revert pass txs. induction fuel as [|fuel IH]; intros pass txs Hl Hf Htxs;
    cbn [order_txs]; destruct (Z.eqb_spec (zlen txs) minValidators) as [E|E];
    unfold zlen, minValidators in E; try (exists txs; split_and!; [done|lia|done]); [lia|].
  destruct (Hall (length txs)) as (a & tx0 & Ha & Hw0); [lia|].
  assert (at_view rl (1 + zlen txs) = Ok a) as Hv.
  { replace (1 + zlen txs) with (Z.of_nat (S (length txs))) by (unfold zlen; lia). by apply at_view_Some. }
  destruct (visit_txs_found l rl _ sel a 0 Hv (ex_intro _ tx0 Hw0)) as (tx & -> & Hw).
  replace (1 + zlen txs + 1) with (1 + zlen (txs ++ [tx])) by (rewrite zlen_app; unfold zlen; simpl; lia).
  apply IH; [rewrite length_app; simpl; lia|rewrite length_app; simpl; lia|].
  intros j tx' [Hj|[Hge Hj]]%lookup_app_Some; [by apply Htxs|].
  apply list_lookup_singleton_Some in Hj as [Hj <-]. exists a. split; [|done]. rewrite <-Ha. f_equal. lia.
Qed.

(** Without one for some participant it never ends. *)
Lemma order_txs_stuck l rl sel fuel pass txs j a :
  (4 < length rl)%nat → (j < 4)%nat → rl !! S j = Some a → (∀ tx, ¬ wanted l sel a tx) →
  (length txs ≤ j)%nat →
  order_txs fuel (λ _ _, false) pass l rl sel (1 + zlen txs) txs = None.
Proof.
  intros Hrl Hj Ha Hno. revert pass txs. induction fuel as [|fuel IH]; intros pass txs Hl;
    cbn [order_txs]; destruct (Z.eqb_spec (zlen txs) minValidators) as [E|E];
    unfold zlen, minValidators in E; try lia; [done|].
  destruct (lookup_lt_is_Some_2 rl (S (length txs))) as [b Hb]; [lia|].
  assert (at_view rl (1 + zlen txs) = Ok b) as Hv.
  { replace (1 + zlen txs) with (Z.of_nat (S (length txs))) by (unfold zlen; lia). by apply at_view_Some. }
  destruct (decide (length txs = j)) as [<-|Hne].
  - rewrite Ha in Hb. injection Hb as <-. rewrite (visit_txs_missing _ _ _ _ a) by done. by apply IH.
  - assert (∀ v, (∃ tx, visit_txs (λ _, false) v l rl (1 + zlen txs) sel = Ok (Found tx)) ∨
      visit_txs (λ _, false) v l rl (1 + zlen txs) sel = Ok Missing) as Hcase.
    { clear -Hv. induction l as [|[k tx0] l IH]; intros v; [by right|]. cbn [visit_txs]. rewrite Hv, Ok_bind.
      case_match; [left; by eexists|apply IH]. }
    destruct (Hcase 0%nat) as [(tx & ->)| ->]; [|by apply IH].
    replace (1 + zlen txs + 1) with (1 + zlen (txs ++ [tx])) by (rewrite zlen_app; unfold zlen; simpl; lia).
    apply IH. rewrite length_app. simpl. lia.
Qed.

(** ** A full mempool has both transactions of every participant *)

Lemma filter_split_length (l : list TxValidator) p :
  length l = (length (filter (λ tx, tv_from tx = p) l) + length (filter (λ tx, tv_from tx ≠ p) l))%nat.
Proof. induction l as [|tx l IH]; [done|]. rewrite !filter_cons. repeat case_decide; cbn; try lia; naive_solver. Qed.

Lemma senders_exact (l : list TxValidator) ps n p :
  (∀ tx, tx ∈ l → tv_from tx ∈ ps) → (∀ a, length (filter (λ tx, tv_from tx = a) l) ≤ n)%nat →
  length l = (n * length ps)%nat → p ∈ ps → length (filter (λ tx, tv_from tx = p) l) = n.
Proof.
  intros Hf Hn Hl (p1 & p2 & ->)%list_elem_of_split. pose proof (filter_split_length l p) as Hs.
  pose proof (Hn p). enough (length (filter (λ tx, tv_from tx ≠ p) l) ≤ n * length (p1 ++ p2))%nat as Hb.
  { rewrite length_app in *. cbn [length] in Hl. lia. }
  apply senders_bound.
  - intros tx [Hne Htx]%list_elem_of_filter. apply Hf in Htx. set_solver.
  - intros a. etrans; [|apply (Hn a)]. apply filter_filter_length.
Qed.

Lemma function_selector tx :
  getTxValidatorFunction tx ≠ INVALID →
  take 4 (tv_data tx) = randomHashHash ∨ take 4 (tv_data tx) = randomSeedHash.
Proof.
  unfold getTxValidatorFunction. destruct (negb _); [done|].
  case_bool_decide; [by left|]. case_bool_decide; [by right|done].
Qed.

Lemma selector_function tx :
  getTxValidatorFunction tx ≠ INVALID →
  (take 4 (tv_data tx) = randomHashHash → getTxValidatorFunction tx = RANDOMHASH) ∧
  (take 4 (tv_data tx) = randomSeedHash → getTxValidatorFunction tx = RANDOMSEED).
Proof.
  unfold getTxValidatorFunction. destruct (negb _); [done|]. intros _. split; intros ->.
  - by rewrite bool_decide_true.
  - by rewrite bool_decide_false, bool_decide_true.
Qed.

(** What the block creator needs of the rest of the node: it is the first of
    the list and signs for it, the mempool of Validator transactions keeps its
    invariant and is full of commitments and their reveals. *)
Record round_ready (rd : rdPoS) (lb : Block) : Prop := {
  rr_inv : mempool_inv rd (u64 (b_nHeight lb + 1));
  rr_full : size (validatorMempool rd) = 8%nat;
  rr_list : NoDup (randomList rd);
  rr_length : (4 < length (randomList rd))%nat;
  rr_functions : map_Forall (λ _ tx, getTxValidatorFunction tx ≠ INVALID) (validatorMempool rd);
  rr_reveals : ∀ k k' h s, validatorMempool rd !! k = Some h → validatorMempool rd !! k' = Some s →
    tv_from h = tv_from s → getTxValidatorFunction h = RANDOMHASH → getTxValidatorFunction s = RANDOMSEED →
    sha3 (drop 4 (tv_data s)) = drop 4 (tv_data h);
}.

Lemma participants_lookup rd (j : nat) a :
  (j < 4)%nat → randomList rd !! S j = Some a → a ∈ participants rd.
Proof.
  intros Hj Ha. unfold participants. apply list_elem_of_lookup. exists j.
  rewrite lookup_take_lt by done. by rewrite lookup_drop.
Qed.

Lemma round_wanted rd lb sel (j : nat) :
  round_ready rd lb → sel = randomHashHash ∨ sel = randomSeedHash → (j < 4)%nat →
  ∃ a tx, randomList rd !! S j = Some a ∧ wanted (iter_map (validatorMempool rd)) sel a tx.
Proof.
  intros [Hi Hfull Hnd Hlen Hfun _] Hsel Hj.
  destruct (lookup_lt_is_Some_2 (randomList rd) (S j)) as [a Ha]; [lia|]. exists a.
  set (l := (map_to_list (validatorMempool rd)).*2).
  assert (length (txs_from (validatorMempool rd) a) = 2%nat) as H2t.
  { apply (senders_exact l (participants rd) 2 a).
    - intros tx ([k x] & -> & Hin)%list_elem_of_fmap. apply elem_of_map_to_list in Hin. by eapply (mi_from _ _ Hi).
    - apply (mi_two _ _ Hi).
    - subst l. rewrite length_fmap, length_map_to_list, Hfull. unfold participants. rewrite length_take, length_drop. lia.
    - by eapply participants_lookup. }
  pose proof (mi_functions _ _ Hi a) as Hfn.
  assert (∀ tx, tx ∈ txs_from (validatorMempool rd) a → tv_from tx = a ∧
    (∃ k, (k, tx) ∈ iter_map (validatorMempool rd)) ∧
    (take 4 (tv_data tx) = randomHashHash ∨ take 4 (tv_data tx) = randomSeedHash)) as Hin.
  { intros tx [Hf ([k x] & -> & Hx)%list_elem_of_fmap]%list_elem_of_filter. apply elem_of_map_to_list in Hx.
    split_and!; [done|exists k; by apply iter_map_elem|]. apply function_selector. by apply (Hfun k x). }
  destruct (txs_from (validatorMempool rd) a) as [|x [|y [|]]]; try done.
  destruct (Hin x) as (Hxf & Hxk & Hxs); [by left|]. destruct (Hin y) as (Hyf & Hyk & Hys); [right; by left|].
  cbn in Hfn. apply NoDup_cons in Hfn as [Hne _]. rewrite list_elem_of_singleton in Hne.
  destruct Hsel as [->| ->], Hxs as [Hx|Hx]; try (exists x; by split_and!);
    exists y; split_and!; try done; destruct Hys as [Hy|Hy]; try done; congruence.
Qed.

(** ** The block that is created *)

Definition unsealed (lb : Block) (vtxs : list TxValidator) (txs : list TxBlock) : Block :=
  mkBlock Signature_empty (Block_hash lb) Hash_zero Hash_zero Hash_zero (b_timestamp lb)
    (u64 (b_nHeight lb + 1)) vtxs txs UPubKey_empty false.

Lemma filled_block st lb vtxs :
  fillBlockWithTransactions st (round_block_of lb vtxs) = unsealed lb vtxs (iter_map (mempool st)).*2.
Proof.
  assert (∀ l b, b_finalized b = false → foldl (λ b tx, (appendTxValidator b tx).2) b l =
    mkBlock (b_validatorSig b) (b_prevBlockHash b) (b_blockRandomness b) (b_validatorMerkleRoot b) (b_txMerkleRoot b)
      (b_timestamp b) (b_nHeight b) (b_txValidators b ++ l) (b_txs b) (b_validatorPubKey b) false) as Hv.
  { induction l as [|x l IH]; intros b Hb; cbn [foldl].
    - rewrite app_nil_r. destruct b. cbn in *. by subst.
    - unfold appendTxValidator at 2. rewrite Hb, IH by done. cbn. by rewrite <-app_assoc. }
  assert (∀ (l : list (bytes * TxBlock)) b, b_finalized b = false → foldl (λ b e, (appendTx b e.2).2) b l =
    mkBlock (b_validatorSig b) (b_prevBlockHash b) (b_blockRandomness b) (b_validatorMerkleRoot b) (b_txMerkleRoot b)
      (b_timestamp b) (b_nHeight b) (b_txValidators b) (b_txs b ++ l.*2) (b_validatorPubKey b) false) as Ht.
  { induction l as [|x l IH]; intros b Hb; cbn [foldl].
    - rewrite app_nil_r. destruct b. cbn in *. by subst.
    - unfold appendTx at 2. rewrite Hb, IH by done. cbn. by rewrite <-app_assoc. }
  unfold fillBlockWithTransactions, round_block_of. by rewrite Hv, Ht by done.
Qed.

(** The key signs for the address: what libsecp256k1 promises of a valid key
    and its address. *)
Definition signs_for (key a : bytes) : Prop :=
  ∀ hash, ∃ sig pk, sign hash key = Ok sig ∧ recover sig hash = Ok pk ∧ length pk = 65%nat ∧ toAddress pk = Ok a.

Lemma finalize_signs b key ts a :
  b_finalized b = false → b_timestamp b ≤ ts → signs_for key a →
  ∃ b', finalize b key ts = Ok (true, b') ∧ toAddress (b_validatorPubKey b') = Ok a ∧
    length (b_validatorPubKey b') = 65%nat.
Proof.
  intros Hf Ht Hs. unfold finalize. rewrite Hf, (proj2 (Z.ltb_ge _ _)) by lia. cbv zeta.
  match goal with |- context [sign ?h key] => destruct (Hs h) as (sig & pk & -> & Hr & Hl & Ha) end.
  rewrite Ok_bind, Hr, Ok_bind. eexists. split; [done|]. by split.
Qed.

(** Transactions ordered by the loops. *)
Definition ordered (rd : rdPoS) (sel : bytes) (txs : list TxValidator) : Prop :=
  length txs = 4%nat ∧ ∀ j tx, txs !! j = Some tx →
    ∃ a, randomList rd !! S j = Some a ∧ wanted (iter_map (validatorMempool rd)) sel a tx.

Lemma ordered_mempool rd lb sel txs j tx :
  round_ready rd lb → ordered rd sel txs → txs !! j = Some tx →
  ∃ k, validatorMempool rd !! k = Some tx ∧ randomList rd !! S j = Some (tv_from tx) ∧
    take 4 (tv_data tx) = sel ∧ k = TxValidator_hash tx true ∧ tv_nHeight tx = u64 (b_nHeight lb + 1) ∧
    getTxValidatorFunction tx ≠ INVALID.
Proof.
  intros Hr [_ Ho] Hj. destruct (Ho j tx Hj) as (a & Ha & (k & Hk) & Hf & Hs). apply iter_map_elem in Hk.
  exists k. subst a. split_and!; try done.
  - by apply (mi_key _ _ (rr_inv _ _ Hr)).
  - by eapply (mi_height _ _ (rr_inv _ _ Hr)).
  - by apply (rr_functions _ _ Hr k tx).
Qed.

Lemma ordered_valid_round rd lb hs ss b a :
  round_ready rd lb → ordered rd randomHashHash hs → ordered rd randomSeedHash ss →
  b_finalized b = true → b_txValidators b = hs ++ ss → b_nHeight b = u64 (b_nHeight lb + 1) →
  randomList rd !! 0%nat = Some a → toAddress (b_validatorPubKey b) = Ok a →
  valid_round (randomList rd) b.
Proof.
  intros Hr Hh Hs Hf Hv Hn Ha Hk. pose proof (proj1 Hh) as Lh. pose proof (proj1 Hs) as Ls. constructor.
  - done.
  - by exists a.
  - rewrite Hv, length_app. lia.
  - rewrite Hv, Hn. apply Forall_app. split; apply Forall_forall; intros tx (j & Hj)%list_elem_of_lookup.
    + by destruct (ordered_mempool _ _ _ _ _ _ Hr Hh Hj) as (k & _ & _ & _ & _ & Hht & _).
    + by destruct (ordered_mempool _ _ _ _ _ _ Hr Hs Hj) as (k & _ & _ & _ & _ & Hht & _).
  - intros i Hi. destruct (lookup_lt_is_Some_2 hs i) as [h Hhi]; [lia|]. destruct (lookup_lt_is_Some_2 ss i) as [s Hsi]; [lia|].
    destruct (ordered_mempool _ _ _ _ _ _ Hr Hh Hhi) as (k & Hk1 & Hr1 & Ht1 & _ & _ & Hv1).
    destruct (ordered_mempool _ _ _ _ _ _ Hr Hs Hsi) as (k' & Hk2 & Hr2 & Ht2 & _ & _ & Hv2).
    assert (tv_from h = tv_from s) as Hfr by congruence.
    destruct (selector_function h Hv1) as [F1 _]. destruct (selector_function s Hv2) as [_ F2].
    exists (tv_from h), h, s. rewrite Hv. split_and!; [done|by rewrite lookup_app_l by lia| |done|done|auto|auto|].
    + rewrite lookup_app_r by lia. by replace (i + 4 - length hs)%nat with i by lia.
    + eapply (rr_reveals _ _ Hr); eauto.
  - rewrite Hv, take_app_length' by done. apply NoDup_alt. intros i j x.
    rewrite !list_lookup_fmap. intros (h & Hhi & ->)%fmap_Some (h' & Hhj & Hx)%fmap_Some.
    destruct (ordered_mempool _ _ _ _ _ _ Hr Hh Hhi) as (k & Hk1 & Hr1 & _ & -> & _).
    destruct (ordered_mempool _ _ _ _ _ _ Hr Hh Hhj) as (k' & Hk2 & Hr2 & _ & -> & _).
    rewrite Hx in Hk1. rewrite Hk1 in Hk2. injection Hk2 as ->.
    pose proof (NoDup_lookup _ _ _ _ (rr_list _ _ Hr) Hr1 Hr2) as E. by injection E.
Qed.

Lemma all_valid_mempool st txs :
  keyed (mempool st) → (∀ tx, tx ∈ txs → ∃ h, mempool st !! h = Some tx) → all_valid st txs = Ok true.
Proof.
  intros Hk. induction txs as [|tx txs IH]; intros Hin; [done|]. cbn [all_valid].
  destruct (Hin tx) as [h Hh]; [by left|]. destruct (Hk h tx Hh) as [Hhash _].
  unfold validateTransactionInternal. rewrite bool_decide_true by (rewrite <-Hhash; by eexists).
  rewrite Ok_bind, bool_decide_true by done. cbn [negb]. apply IH. intros tx' Htx'. apply Hin. by right.
Qed.

(** The state from which a block is created. *)
Record node_ready (st : State) (rd : rdPoS) (storage : Storage) (lb : Block) (a : bytes) : Prop := {
  nr_latest : latest storage = Ok lb;
  nr_round : round_ready rd lb;
  nr_first : randomList rd !! 0%nat = Some a;
  nr_key : signs_for (validatorKey rd) a;
  nr_validators : zlen (validators rd) < 2 ^ 64;
  nr_some : mempool st ≠ ∅;
  nr_keyed : keyed (mempool st);
  nr_funded : funded (accounts st) (iter_map (mempool st)).*2;
  nr_plain : Forall (λ tx, cm_isContractCall (contractManager st) tx = false) (iter_map (mempool st)).*2;
}.

Definition signed (rd : rdPoS) : rdPoS :=
  mkRdPoS (validators rd) (randomList rd) (validatorMempool rd) (validatorKey rd)
    (isValidator rd) (bestRandomSeed rd) (randomGen rd) false.

(** The block that [create_block] makes passes [validateNextBlock]. *)
Lemma created_block_valid st rd storage lb a hs ss ts :
  node_ready st rd storage lb a → b_timestamp lb ≤ ts →
  ordered rd randomHashHash hs → ordered rd randomSeedHash ss →
  ∃ b, signBlock rd (unsealed lb (hs ++ ss) (iter_map (mempool st)).*2) ts = Ok (b, signed rd) ∧
    b_txs b = (iter_map (mempool st)).*2 ∧ b_txValidators b = hs ++ ss ∧
    valid_round (randomList rd) b ∧ validateNextBlock st (signed rd) storage b = Ok true.
Proof.
  intros Hn Ht Hh Hs.
  destruct (finalize_signs (unsealed lb (hs ++ ss) (iter_map (mempool st)).*2) (validatorKey rd) ts a)
    as (b & Hb & Hk & Hkl); [done|exact Ht|apply Hn|].
  pose proof (finalize_Ok _ _ _ _ _ Hb) as (_ & _ & Hsealed & Htxs & Hv & Hp & Hheight & Hts & _).
  assert (valid_round (randomList rd) b) as Hround.
  { eapply (ordered_valid_round rd lb hs ss b a); [apply Hn|done|done|apply Hsealed|done|done|apply Hn|done]. }
  exists b. split_and!; [|done|done|done|].
  - unfold signBlock. by rewrite Hb, Ok_bind.
  - unfold validateNextBlock. rewrite (nr_latest _ _ _ _ _ Hn), Ok_bind, Hheight, Z.eqb_refl. cbn [negb].
    rewrite Hp, bool_decide_true by done. cbn [negb]. rewrite Hts, (proj2 (Z.ltb_ge _ _)) by lia.
    destruct (validateBlock_spec (signed rd) storage lb b) as (r & -> & Hr); [apply Hn| |done|].
    + pose proof (rr_length _ _ (nr_round _ _ _ _ _ Hn)). cbn [randomList signed]. lia.
    + rewrite Ok_bind, (proj2 Hr Hround). cbn [negb]. rewrite Htxs. apply all_valid_mempool; [apply Hn|].
      intros tx ([h x] & -> & Hin)%list_elem_of_fmap. exists h. by apply iter_map_elem.
Qed.

(** Making, executing and broadcasting the block. *)
Lemma create_block_eval st rd storage lb a hs ss ts m :
  m_ledger m = (st, rd, storage) → m_closed m = false →
  node_ready st rd storage lb a → b_timestamp lb ≤ ts →
  ordered rd randomHashHash hs → ordered rd randomSeedHash ss →
  ∃ b st' rd' storage' msg, let m1 := set_m_ledger m (st', rd', storage') in
    create_block (λ _, false) ts (hs ++ ss) m = (Ok Created, (broadcastMessage msg m1).2) ∧
    signBlock rd (unsealed lb (hs ++ ss) (iter_map (mempool st)).*2) ts = Ok (b, signed rd) ∧
    valid_round (randomList rd) b ∧ b_txs b = (iter_map (mempool st)).*2 ∧
    latest storage' = Ok b ∧ chain storage' = chain storage ++ [b] ∧ validatorMempool rd' = ∅ ∧
    BroadcastEncoder_broadcastBlock b = Ok msg.
Proof.
  intros Hl Hc Hn Ht Hh Hs.
  destruct (created_block_valid _ _ _ _ _ _ _ _ Hn Ht Hh Hs) as (b & Hsign & Htxs & Hv & Hround & Hvalid).
  destruct (processNextBlock_valid b st (signed rd) storage) as (st' & rd' & storage' & Hproc & Hlat & Hch & _ & Hmem & _);
    [apply Hn|apply Hn|rewrite Htxs; apply Hn|rewrite Htxs; apply Hn|done|].
  destruct (build_message_spec Broadcasting (uint64ToBytes (FNVHash (serializeBlock b))) BroadcastBlock (serializeBlock b))
    as (msg & Hmsg & _); [done..|by rewrite uint64ToBytes_spec, be_split_length|].
  destruct (built_number BroadcastBlock (serializeBlock b) msg eq_refl Hmsg) as [n Hnum].
  exists b, st', rd', storage', msg. split_and!; try done. unfold create_block. rewrite gets_bind, Hl.
  rewrite lift_bind, (nr_latest _ _ _ _ _ Hn). cbv zeta. rewrite filled_block, lift_bind, Hsign. cbv beta iota.
  rewrite modify_bind, lift_bind, Hvalid. cbn [negb]. unfold mbind at 1, ST_bind at 1, on_ledger.
  cbn [m_ledger set_m_ledger ch_processNextBlock state_chain]. rewrite Hproc. cbv beta iota.
  rewrite gets_bind. cbn [m_ledger set_m_ledger]. rewrite lift_bind, Hlat, bool_decide_true by done.
  cbn [negb]. unfold mbind, ST_bind, broadcastBlock. rewrite lift_bind.
  unfold BroadcastEncoder_broadcastBlock, build_broadcast. rewrite Hmsg.
  change (set_m_ledger (set_m_ledger m (st, signed rd, storage)) (st', rd', storage'))
    with (set_m_ledger m (st', rd', storage')).
  pose proof (broadcastMessage_returns msg n (set_m_ledger m (st', rd', storage')) Hnum) as Hret.
  destruct (broadcastMessage msg _) as [r m2]. cbn [fst] in Hret. by rewrite Hret.
Qed.

(** The whole of [doValidatorBlock]. *)
Lemma creates_block fuel st rd storage lb a ts m :
  m_ledger m = (st, rd, storage) → m_closed m = false →
  node_ready st rd storage lb a → b_timestamp lb ≤ ts → (4 ≤ fuel)%nat →
  ∃ hs ss b st' rd' storage' msg m',
    doValidatorBlock fuel (λ _, false) ts m = Some (Ok Created, m') ∧ m_ledger m' = (st', rd', storage') ∧
    signBlock rd (unsealed lb (hs ++ ss) (iter_map (mempool st)).*2) ts = Ok (b, signed rd) ∧
    valid_round (randomList rd) b ∧ b_txs b = (iter_map (mempool st)).*2 ∧
    latest storage' = Ok b ∧ chain storage' = chain storage ++ [b] ∧ validatorMempool rd' = ∅ ∧
    BroadcastEncoder_broadcastBlock b = Ok msg ∧
    m' = (broadcastMessage msg (set_m_ledger m (st', rd', storage'))).2.
Proof.
  intros Hl Hc Hn Ht Hf. pose proof (nr_round _ _ _ _ _ Hn) as Hr.
  destruct (order_txs_found (iter_map (validatorMempool rd)) (randomList rd) randomHashHash fuel 0 [])
    as (hs & Hhs & Lh & Oh); [intros; by eapply round_wanted; eauto|simpl; lia|simpl; lia|done|].
  destruct (order_txs_found (iter_map (validatorMempool rd)) (randomList rd) randomSeedHash fuel 0 [])
    as (ss & Hss & Ls & Os); [intros; by eapply round_wanted; eauto|simpl; lia|simpl; lia|done|].
  destruct (create_block_eval st rd storage lb a hs ss ts m)
    as (b & st' & rd' & storage' & msg & E & Hsign & Hround & Htxs & Hlat & Hch & Hm & Hmsg); [done..|].
  destruct (broadcastMessage_frame msg (set_m_ledger m (st', rd', storage'))) as [Hledger _].
  eexists hs, ss, b, st', rd', storage', msg, _. split_and!; [|exact Hledger|done..].
  unfold doValidatorBlock. rewrite Hl. unfold zlen. rewrite !length_map_to_list, (rr_full _ _ Hr).
  change (Z.of_nat 8 <? minValidators * 2) with false. cbv iota.
  rewrite (proj2 (Z.ltb_ge _ _)); [|pose proof (nr_some _ _ _ _ _ Hn) as Hne; rewrite <-map_size_non_empty_iff in Hne; lia].
  change (1 + zlen []) with 1 in Hhs, Hss. rewrite Hhs, Hss. by rewrite E.
Qed.

(** * Properties *)


(** [stopSyncer] turns true after the first ordering loop, if at all. *)
Definition stopped_late (late : bool) (c : checkpoint) : bool :=
  match c with AfterOrder | AfterAppend | BeforeProcess | BeforeBroadcast => late | _ => false end.

(** C38: the second ordering loop can run for ever, and ignores a request to
    stop: when the mempool has the eight transactions the loop waits for, and
    the commitments of all four participants, but no reveal of one of them (a
    participant may fill its second place with any other transaction), then no
    number of passes is enough. *)
Theorem block_creation_hangs fuel late st rd storage ts m (j : nat) a :
  m_ledger m = (st, rd, storage) → (8 ≤ size (validatorMempool rd))%nat → mempool st ≠ ∅ →
  (4 < length (randomList rd))%nat → (4 ≤ fuel)%nat →
  (∀ j, (j < 4)%nat → ∃ a tx, randomList rd !! S j = Some a ∧
    wanted (iter_map (validatorMempool rd)) randomHashHash a tx) →
  (j < 4)%nat → randomList rd !! S j = Some a →
  (∀ k tx, validatorMempool rd !! k = Some tx → tv_from tx = a → take 4 (tv_data tx) ≠ randomSeedHash) →
  doValidatorBlock fuel (stopped_late late) ts m = None.
Proof.
  intros Hl Hfull Hne Hrl Hf Hh Hj Ha Hno. unfold doValidatorBlock. rewrite Hl. unfold zlen.
  rewrite !length_map_to_list, (proj2 (Z.ltb_ge _ (minValidators * 2))) by (unfold minValidators; lia).
  rewrite (proj2 (Z.ltb_ge _ 1)) by (rewrite <-map_size_non_empty_iff in Hne; lia).
  cbn [stopped_late]. destruct (order_txs_found (iter_map (validatorMempool rd)) (randomList rd) randomHashHash fuel 0 [])
    as (hs & Hhs & _); [done|simpl; lia|simpl; lia|done|]. change (1 + zlen []) with 1 in Hhs. rewrite Hhs.
  pose proof (order_txs_stuck (iter_map (validatorMempool rd)) (randomList rd) randomSeedHash fuel 0 [] j a) as Hs.
  change (1 + zlen []) with 1 in Hs. rewrite Hs; [done|done|done|done| |simpl; lia].
  intros tx ((k & Hk) & Hfr & Hsel). apply iter_map_elem in Hk. by apply (Hno k tx).
Qed.

End Syncer.

(** ** A round of five validators *)

#[local] Existing Instances toy_keccak toy_secp toy_rocks toy_host toy_left toy_order toy_boost.

Definition round_key_of (i : Z) : bytes := be_split 32 (2 ^ 254 + i).
Definition round_address (i : Z) : bytes :=
  match u ← toUPub_priv (round_key_of i); toAddress u with Ok a => a | _ => [] end.
(** Participant [i] commits to a seed and reveals it. *)
Definition commit_tx (i : Z) : TxValidator :=
  val_of (TxValidator_sign (round_address i) (randomHashHash ++ sha3 (replicate 32 i)) 8080 1 (round_key_of i)).
Definition reveal_tx (i : Z) : TxValidator :=
  val_of (TxValidator_sign (round_address i) (randomSeedHash ++ replicate 32 i) 8080 1 (round_key_of i)).
(** A transaction of another function. *)
Definition other_tx (i : Z) : TxValidator :=
  val_of (TxValidator_sign (round_address i) ([1; 2; 3; 4] ++ replicate 32 i) 8080 1 (round_key_of i)).

Definition add_all (rd : rdPoS) (txs : list TxValidator) : outcome rdPoS :=
  foldM (λ rd tx, '(_, rd) ← addValidatorTx rd st_one tx; Ok rd) rd txs.

Lemma add_all_inv rd txs rd' :
  mempool_inv rd 1 → add_all rd txs = Ok rd' → mempool_inv rd' 1.
Proof.
  revert rd. induction txs as [|tx txs IH]; intros rd Hi Ha; [by apply Ok_inj in Ha as <-|].
  unfold add_all in Ha. cbn [foldM] in Ha. apply bind_Ok in Ha as (rd1 & H1' & Ha). apply bind_Ok in H1' as ([r rd2] & H2' & H1').
  apply Ok_inj in H1' as <-. apply (IH rd2); [|exact Ha].
  by destruct (addValidatorTx_inv rd st_one st_block0 tx r rd2) as [Hi' _].
Qed.

Definition rd_start : rdPoS :=
  mkRdPoS (round_address <$> [0; 1; 2; 3; 4]) (round_address <$> [0; 1; 2; 3; 4]) ∅ (round_key_of 0) true
    Hash_zero Hash_zero true.
Definition rd_of (o : outcome rdPoS) : rdPoS := match o with Ok rd => rd | _ => rd_start end.
Definition rd_full : rdPoS :=
  rd_of (add_all rd_start ((commit_tx <$> [1; 2; 3; 4]) ++ (reveal_tx <$> [1; 2; 3; 4]))).
Definition rd_short : rdPoS :=
  rd_of (add_all rd_start ((commit_tx <$> [1; 2; 3; 4]) ++ (reveal_tx <$> [1; 2; 4]) ++ [other_tx 3])).

Definition state_pay : State :=
  mkState [] funds {[ TxBlock_hash (pay bob 300) true := pay bob 300 ]} false tt.
Definition node_manager (n : node) : Manager :=
  mkManager false (list_to_map [(node_id 1, peer_a); (node_id 2, peer_b)]) ∅ 1 ∅ ∅ n [].

Lemma rd_full_ready : round_ready rd_full st_block0.
Proof.
  constructor.
  - apply (add_all_inv rd_start ((commit_tx <$> [1; 2; 3; 4]) ++ (reveal_tx <$> [1; 2; 3; 4]))).
    + by apply mempool_inv_empty.
    + vm_compute. reflexivity.
  - vm_compute. reflexivity.
  - apply (bool_decide_unpack _). vm_compute. exact I.
  - vm_compute. lia.
  - apply (bool_decide_unpack _). vm_compute. exact I.
  - assert (map_Forall (λ _ h, map_Forall (λ _ s, tv_from h = tv_from s → getTxValidatorFunction h = RANDOMHASH →
      getTxValidatorFunction s = RANDOMSEED → sha3 (drop 4 (tv_data s)) = drop 4 (tv_data h))
      (validatorMempool rd_full)) (validatorMempool rd_full)) as Hall
      by (apply (bool_decide_unpack _); vm_compute; exact I).
    intros k k' h s Hk Hk'. by apply (Hall k h Hk k' s Hk').
Qed.

Lemma round_signs : signs_for (round_key_of 0) (round_address 0).
Proof.
  intros hash. exists (makeSig (2 ^ 254) 1 0), (4 :: be_split 64 (2 ^ 254)).
  split_and!; vm_compute; reflexivity.
Qed.

Lemma state_pay_txs : (iter_map (mempool state_pay)).*2 = [pay bob 300].
Proof. vm_compute. reflexivity. Qed.

Lemma state_pay_ready : node_ready state_pay rd_full st_one st_block0 (round_address 0).
Proof.
  constructor.
  - reflexivity.
  - exact rd_full_ready.
  - vm_compute. reflexivity.
  - exact round_signs.
  - vm_compute. reflexivity.
  - discriminate.
  - apply map_Forall_singleton. split; [done|]. by eexists.
  - rewrite state_pay_txs. exists 310. split; [apply (funds_pay bob 300); lia|exact I].
  - rewrite state_pay_txs. repeat constructor.
Qed.


Lemma block_creation_hangs_witness :
  doValidatorBlock 1000 (stopped_late true) 200 (node_manager (state_pay, rd_short, st_one)) = None.
Proof.
  refine (block_creation_hangs 1000 true state_pay rd_short st_one 200
    (node_manager (state_pay, rd_short, st_one)) 2 (round_address 3) _ _ _ _ _ _ _ _ _).
  - reflexivity.
  - vm_compute. lia.
  - discriminate.
  - vm_compute. lia.
  - lia.
  - intros j Hj. exists (round_address (Z.of_nat (S j))), (commit_tx (Z.of_nat (S j))).
    destruct j as [|[|[|[|j]]]]; [| | | |lia]; (split; [vm_compute; reflexivity|]);
      (split_and!; [match goal with |- ∃ k, (k, ?tx) ∈ _ => exists (TxValidator_hash tx true) end; apply iter_map_elem; vm_compute; reflexivity|vm_compute; reflexivity..]).
  - lia.
  - vm_compute. reflexivity.
  - apply (bool_decide_unpack (map_Forall (λ _ tx, tv_from tx = round_address 3 → take 4 (tv_data tx) ≠ randomSeedHash) (validatorMempool rd_short))).
    vm_compute. exact I.
Defined.
