(* ===== verification/RdPoSWorker.v ===== *)
(** * RdPoSWorker: the thread of a Validator (src/core/rdpos.{h,cpp})

    [workerLoop] with the functions it calls: a Validator that is first in the
    shuffled list gathers transactions until a block can be made
    ([doBlockCreation]); one of the next four commits to a random seed, waits,
    and reveals it ([doTxCreation]); then both wait for the next block.  As in
    Discovery.v, the thread is a program with a place for every point where
    other threads can run; what it does under the lock of rdPoS is one step. *)

From S2P Require Import Prelude Utils Hex Strings SafeHash Ecdsa Tx Block DB Storage RdPoS State.
From S2P Require Import P2PEncoding P2PManager P2PNode Syncer.

(** The three loops that ask other nodes for transactions: of a block creator,
    of a Validator that has committed (with its seed, and the index of the
    loop it was called from), and of one that waits for a block. *)
Inductive gathering :=
  | G_block (size : Z)
  | G_reveal (i : nat) (seedTx : TxValidator) (size : Z)
  | G_wait (creator : bool).

Inductive worker_place :=
  | P_idle                                       (** [workerFuture] is not valid *)
  | P_begin                                      (** [workerLoop] is entered *)
  | P_top                                        (** [while (!this->stopWorker)] *)
  | P_commit (i : nat)                           (** [doTxCreation] called from index [i] *)
  | P_rescan (i : nat)                           (** the loop over the list goes on, without the lock *)
  | P_check (g : gathering)                      (** the condition of a gathering loop *)
  | P_ask (g : gathering) (nodes : list bytes)   (** the loop over the connected nodes *)
  | P_receive (g : gathering) (id : option bytes) (nodes : list bytes)
  | P_finished
  | P_failed (e : exn).

(** What the thread makes known: its two transactions, and that a block can be
    created, with the last size of the mempool it saw and the stop flag. *)
Inductive publication :=
  | Commit (tx : TxValidator)
  | Reveal (tx : TxValidator) (size : Z) (stopped : bool)
  | Ready (size : Z) (stopped : bool).

#[export] Instance publication_eq_dec : EqDecision publication.
Proof. solve_decision. Defined.

Record RWorker := mkRWorker {
  rw_place : worker_place;
  rw_stopWorker : bool;
  rw_me : bytes;
  rw_latestBlock : option Block;
  rw_log : list publication;
}.

Definition RWorker_ctor : RWorker := mkRWorker P_idle false [] None [].

Definition at_place (w : RWorker) (p : worker_place) : RWorker :=
  mkRWorker p (rw_stopWorker w) (rw_me w) (rw_latestBlock w) (rw_log w).
Definition with_latest (w : RWorker) (b : Block) : RWorker :=
  mkRWorker (rw_place w) (rw_stopWorker w) (rw_me w) (Some b) (rw_log w).
Definition publish (w : RWorker) (p : publication) : RWorker :=
  mkRWorker (rw_place w) (rw_stopWorker w) (rw_me w) (rw_latestBlock w) (rw_log w ++ [p]).

(** [start()] and [stop()]: the flag is never reset. *)
Definition rworker_start (isValidator : bool) (w : RWorker) : RWorker :=
  match rw_place w with
  | P_idle => if isValidator then mkRWorker P_begin (rw_stopWorker w) (rw_me w) (rw_latestBlock w) [] else w
  | _ => w
  end.
Definition rworker_stop_begin (w : RWorker) : RWorker :=
  match rw_place w with
  | P_idle => w
  | _ => mkRWorker (rw_place w) true (rw_me w) (rw_latestBlock w) (rw_log w)
  end.
Definition rworker_stop_end (w : RWorker) : option (outcome unit * RWorker) :=
  match rw_place w with
  | P_finished => Some (Ok tt, at_place w P_idle)
  | P_failed e => Some (Throw e, at_place w P_idle)
  | _ => None
  end.

Section Worker.
Context `{Keccak} `{Secp256k1Lib} `{RocksDB} `{!ContractHost} `{!CheckedLeft} `{!HashMapOrder} `{!BoostIp}.
Context (chainID : Z).

Definition rdpos_of (m : Manager) : rdPoS := (m_ledger m).1.2.
Definition mempool_size (m : Manager) : Z := Z.of_nat (size (validatorMempool (rdpos_of m))).

(** [canCreateBlock = b]. *)
Definition set_canCreateBlock (b : bool) (m : Manager) : Manager :=
  let '(st, rd, storage) := m_ledger m in
  set_m_ledger m (st, mkRdPoS (validators rd) (randomList rd) (validatorMempool rd) (validatorKey rd) (isValidator rd)
    (bestRandomSeed rd) (randomGen rd) b, storage).

(** [checkLatestBlock()]: pointers are compared, and the pointer of the latest
    block is that of its block.  [workerLoop] has set [latestBlock] before, so
    that it is not null. *)
Definition worker_checkLatestBlock (w : RWorker) (m : Manager) : outcome bool :=
  b ← ch_latest (m_ledger m);
  Ok (match rw_latestBlock w with None => false | Some lb => negb (bool_decide (lb = b)) end).

(** [randomList[0]], and then [randomList[1]] to [randomList[minValidators]]:
    the first index at which the Validator is. *)
Fixpoint index_of_me (l : list bytes) (me : bytes) (idx : list nat) : outcome (option nat) :=
  match idx with
  | [] => Ok None
  | i :: idx =>
      x ← at_view l (Z.of_nat i);
      if bool_decide (me = x) then Ok (Some i) else index_of_me l me idx
  end.

(** [for (auto const& tx : txList) this->rdpos.state->addValidatorTx(tx);] *)
Definition add_txs (l : list TxValidator) : ST Manager unit :=
  each (λ tx, _ ← on_ledger (ch_addValidatorTx tx); mret tt) l.

(** [state->addValidatorTx(tx); p2p->broadcastTxValidator(tx);] *)
Definition submit (tx : TxValidator) : ST Manager unit :=
  _ ← on_ledger (ch_addValidatorTx tx); broadcastTxValidator tx.

(** [requestValidatorTxs] for the request [id]; [None] while it waits. *)
Definition receive_txs (timeout : bool) (id : option bytes) (m : Manager) : option (outcome (list TxValidator)) :=
  match id with
  | None => Some (Ok [])
  | Some id =>
      if timeout then Some (requestValidatorTxs_answer chainID None)
      else match m_requests m !! id ≫= r_answer with
           | Some a => Some (requestValidatorTxs_answer chainID (Some a))
           | None => None
           end
  end.

(** Runs [op] on the manager and goes on with the worker [f] makes. *)
Definition run_op {A} (op : ST Manager A) (f : A → RWorker) (m : Manager) : option (outcome RWorker * Manager) :=
  let '(r, m) := op m in Some (f <$> r, m).

(** Where the thread goes when a gathering loop is left. *)
Definition after_gathering (g : gathering) : worker_place :=
  match g with
  | G_block _ => P_check (G_wait true)
  | G_reveal i _ _ => P_rescan (S i)
  | G_wait _ => P_top
  end.

(** The condition of a gathering loop, and what follows the loop. *)
Definition check_step (g : gathering) (w : RWorker) (m : Manager) : option (outcome RWorker * Manager) :=
  let gather g := Some (Ok (at_place w (P_ask g (getSessionsIDs m))), m) in
  match g with
  | G_block size =>
      if negb (size =? minValidators * 2) && negb (rw_stopWorker w) then gather (G_block (mempool_size m))
      else Some (Ok (at_place (publish w (Ready size (rw_stopWorker w))) (after_gathering g)), set_canCreateBlock true m)
  | G_reveal i seedTx size =>
      if (size <? minValidators) && negb (rw_stopWorker w) then gather (G_reveal i seedTx (mempool_size m))
      else run_op (submit seedTx)
             (λ _, at_place (publish w (Reveal seedTx size (rw_stopWorker w))) (after_gathering g)) m
  | G_wait creator =>
      let changed := worker_checkLatestBlock w m in
      match changed with
      | Ok changed =>
          if negb changed && negb (rw_stopWorker w) then
            if mempool_size m <? minValidators then gather g else Some (Ok (at_place w (P_check g)), m)
          else
            let m := if creator then set_canCreateBlock false m else m in
            run_op (lift (ch_latest (m_ledger m))) (λ b, at_place (with_latest w b) P_top) m
      | Throw e => Some (Throw e, m)
      | Undef => Some (Undef, m)
      end
  end.

(** [if (this->checkLatestBlock() || this->stopWorker) break;] *)
Definition give_up_waiting (w : RWorker) (m : Manager) : outcome bool :=
  c ← worker_checkLatestBlock w m; Ok (c || rw_stopWorker w).

(** Before a node is asked: a Validator that has committed returns, one that
    waits leaves the loop over the nodes. *)
Definition ask_step (randBytes : bytes) (g : gathering) (nodes : list bytes) (w : RWorker) (m : Manager)
    : option (outcome RWorker * Manager) :=
  match nodes with
  | [] => Some (Ok (at_place w (P_check g)), m)
  | node :: nodes =>
      let ask := run_op (requestValidatorTxs_send randBytes node) (λ id, at_place w (P_receive g id nodes)) m in
      match g with
      | G_block _ => ask
      | G_reveal _ _ _ => if rw_stopWorker w then Some (Ok (at_place w (after_gathering g)), m) else ask
      | G_wait _ =>
          match give_up_waiting w m with
          | Ok true => Some (Ok (at_place w (P_check g)), m)
          | Ok false => ask
          | Throw e => Some (Throw e, m)
          | Undef => Some (Undef, m)
          end
      end
  end.

(** After the answer: a block creator returns if it is stopped. *)
Definition receive_step (timeout : bool) (g : gathering) (id : option bytes) (nodes : list bytes)
    (w : RWorker) (m : Manager) : option (outcome RWorker * Manager) :=
  match receive_txs timeout id m with
  | None => None
  | Some (Throw e) => Some (Throw e, m)
  | Some Undef => Some (Undef, m)
  | Some (Ok txList) =>
      let add := run_op (add_txs txList) (λ _, at_place w (P_ask g nodes)) m in
      match g with
      | G_block _ => if rw_stopWorker w then Some (Ok (at_place w (after_gathering g)), m) else add
      | G_reveal _ _ _ => add
      | G_wait _ =>
          match give_up_waiting w m with
          | Ok true => Some (Ok (at_place w (P_check g)), m)
          | Ok false => add
          | Throw e => Some (Throw e, m)
          | Undef => Some (Undef, m)
          end
      end
  end.

(** [doTxCreation] up to its loop. *)
Definition commit_step (randomness : bytes) (i : nat) (w : RWorker) (m : Manager) : option (outcome RWorker * Manager) :=
  match rw_latestBlock w with
  | None => Some (Undef, m)
  | Some lb =>
      match createValidatorTxs (rdpos_of m) chainID (rw_me w) randomness (u64 (b_nHeight lb + 1)) with
      | Ok None => Some (Ok (at_place w (P_rescan (S i))), m)
      | Ok (Some (randomHashTx, seedTx)) =>
          run_op (submit randomHashTx)
            (λ _, at_place (publish w (Commit randomHashTx)) (P_check (G_reveal i seedTx 0))) m
      | Throw e => Some (Throw e, m)
      | Undef => Some (Undef, m)
      end
  end.

(** The part of [workerLoop] under the lock of rdPoS. *)
Definition top_step (w : RWorker) (m : Manager) : option (outcome RWorker * Manager) :=
  if rw_stopWorker w then Some (Ok (at_place w P_finished), m)
  else
    Some ((λ o, at_place w (match o with
              | Some 0%nat => P_check (G_block 0)
              | Some i => P_commit i
              | None => P_check (G_wait false)
              end)) <$> index_of_me (randomList (rdpos_of m)) (rw_me w) [0; 1; 2; 3; 4]%nat, m).

(** After [doTxCreation] the loop goes on; a second match unlocks a
    [unique_lock] that is not locked, which throws. *)
Definition rescan_step (i : nat) (w : RWorker) (m : Manager) : option (outcome RWorker * Manager) :=
  if bool_decide (4 < i)%nat then Some (Ok (at_place w (P_check (G_wait false))), m)
  else
    Some (x ← at_view (randomList (rdpos_of m)) (Z.of_nat i);
          if bool_decide (rw_me w = x) then Throw system_error else Ok (at_place w (P_rescan (S i))), m).

Definition workerLoop_step (randBytes randomness : bytes) (timeout : bool) (w : RWorker) (m : Manager)
    : option (outcome RWorker * Manager) :=
  match rw_place w with
  | P_idle | P_finished | P_failed _ => None
  | P_begin =>
      Some (u ← toUPub_priv (validatorKey (rdpos_of m));
            me ← toAddress u;
            b ← ch_latest (m_ledger m);
            Ok (mkRWorker P_top (rw_stopWorker w) me (Some b) (rw_log w)), m)
  | P_top => top_step w m
  | P_commit i => commit_step randomness i w m
  | P_rescan i => rescan_step i w m
  | P_check g => check_step g w m
  | P_ask g nodes => ask_step randBytes g nodes w m
  | P_receive g id nodes => receive_step timeout g id nodes w m
  end.

End Worker.

(** ** The system *)

Section System.
Context `{Keccak} `{Secp256k1Lib} `{RocksDB} `{!ContractHost} `{!CheckedLeft} `{!HashMapOrder} `{!BoostIp}.
Context (vers chainID : Z) (thrNum : nat) (hostIpText : bytes) (hostPort maxConnections : Z).

Abbreviation sys := (RWorker * Manager)%type.

Inductive worker_step : sys → sys → Prop :=
  | wk_ok rnd randomness timeout w m w' m' :
      length rnd = 8%nat → workerLoop_step chainID rnd randomness timeout w m = Some (Ok w', m') →
      worker_step (w, m) (w', m')
  | wk_throw rnd randomness timeout w m e m' :
      length rnd = 8%nat → workerLoop_step chainID rnd randomness timeout w m = Some (Throw e, m') →
      worker_step (w, m) (at_place w (P_failed e), m').

(** The other threads, and [start] and [stop]. *)
Inductive outside_step : sys → sys → Prop :=
  | os_manager w m m' :
      manager_step vers chainID thrNum hostIpText hostPort maxConnections m m' → outside_step (w, m) (w, m')
  | os_start w m b : outside_step (w, m) (rworker_start b w, m)
  | os_stop_begin w m : outside_step (w, m) (rworker_stop_begin w, m)
  | os_stop_end w m r w' : rworker_stop_end w = Some (r, w') → outside_step (w, m) (w', m).

Definition worker_sys_step (s s' : sys) : Prop := worker_step s s' ∨ outside_step s s'.

(** ** Commitments come before seeds *)

(** The seed opens the commitment. *)
Definition opens (seedTx hashTx : TxValidator) : Prop := sha3 (drop 4 (tv_data seedTx)) = drop 4 (tv_data hashTx).

(** Every seed follows its commitment at once, and was revealed after four
    transactions were seen or the thread was told to stop; a block is announced
    after eight. *)
Definition log_ok (l : list publication) : Prop :=
  ∀ i p, l !! i = Some p →
    match p with
    | Commit _ => True
    | Reveal seedTx size stopped =>
        (minValidators ≤ size ∨ stopped = true) ∧
        ∃ j hashTx, i = S j ∧ l !! j = Some (Commit hashTx) ∧ opens seedTx hashTx
    | Ready size stopped => size = minValidators * 2 ∨ stopped = true
    end.

Lemma log_ok_snoc l p :
  log_ok l →
  match p with
  | Commit _ => True
  | Reveal seedTx size stopped =>
      (minValidators ≤ size ∨ stopped = true) ∧ ∃ hashTx, last l = Some (Commit hashTx) ∧ opens seedTx hashTx
  | Ready size stopped => size = minValidators * 2 ∨ stopped = true
  end → log_ok (l ++ [p]).
Proof.
  intros Hl Hp i q Hi. apply lookup_app_Some in Hi as [Hi|[Hlen Hi]].
  - specialize (Hl i q Hi). destruct q as [|seedTx size stopped|]; try done.
    destruct Hl as [? (j & h & -> & Hj & ?)]. split; [done|]. exists j, h. split; [done|]. split; [|done].
    by apply lookup_app_l_Some.
  - apply list_lookup_singleton_Some in Hi as [Hi <-]. assert (i = length l) as -> by lia.
    destruct p as [|seedTx size stopped|]; try done. destruct Hp as [? (h & Hlast & ?)]. split; [done|].
    rewrite last_lookup in Hlast. destruct l as [|x l]; [done|]. exists (length l), h.
    split; [done|]. split; [|done]. by apply lookup_app_l_Some.
Qed.

(** The seed a thread is about to reveal. *)
Definition seed_of (p : worker_place) : option TxValidator :=
  match p with
  | P_check (G_reveal _ seedTx _) | P_ask (G_reveal _ seedTx _) _ | P_receive (G_reveal _ seedTx _) _ _ => Some seedTx
  | _ => None
  end.

Definition reveal_inv (w : RWorker) : Prop :=
  log_ok (rw_log w) ∧
  ∀ seedTx, seed_of (rw_place w) = Some seedTx →
    ∃ hashTx, last (rw_log w) = Some (Commit hashTx) ∧ opens seedTx hashTx.

Lemma reveal_inv_place w p :
  reveal_inv w → (seed_of p = seed_of (rw_place w) ∨ seed_of p = None) → reveal_inv (at_place w p).
Proof.
  intros [Hl Hs] Hp. split; [done|]. simpl. intros seedTx E. destruct Hp as [Hp|Hp]; rewrite Hp in E; [by apply Hs|done].
Qed.

Lemma run_op_Ok {A} (op : ST Manager A) f m w' m' :
  run_op op f m = Some (Ok w', m') → ∃ a, op m = (Ok a, m') ∧ w' = f a.
Proof. unfold run_op. destruct (op m) as [[a| |] m2]; simpl; intros [= <- <-]. by exists a. Qed.

Lemma reveal_inv_check g w m w' m' :
  reveal_inv w → rw_place w = P_check g → check_step g w m = Some (Ok w', m') → reveal_inv w'.
Proof.
  intros Hi Hp. unfold check_step. destruct g as [size|i seedTx size|creator].
  - destruct (negb _ && _) eqn:E; intros [= <- <-]; [by apply reveal_inv_place; auto|].
    apply (reveal_inv_place (publish w _)); [|by auto]. split; simpl; [|by rewrite Hp].
    apply log_ok_snoc; [by apply Hi|].
    apply andb_false_iff in E as [E|E]; [left|right]; zify_bool; by destruct (rw_stopWorker w).
  - destruct (_ && _) eqn:E; [intros [= <- <-]; apply reveal_inv_place; [done|rewrite Hp; by auto]|].
    intros (u & _ & ->)%run_op_Ok. split; [|done]. simpl. apply log_ok_snoc; [by apply Hi|].
    split; [|apply Hi; by rewrite Hp].
    apply andb_false_iff in E as [E|E]; [left|right]; zify_bool; [lia|by destruct (rw_stopWorker w)].
  - destruct (worker_checkLatestBlock w m) as [changed| |]; [|done..].
    destruct (_ && _).
    + destruct (_ <? _); intros [= <- <-]; apply reveal_inv_place; by auto.
    + intros (b & _ & ->)%run_op_Ok. apply (reveal_inv_place (with_latest w b)); [by apply Hi|by auto].
Qed.

Lemma created_opens rd me randomness height hashTx seedTx :
  createValidatorTxs rd chainID me randomness height = Ok (Some (hashTx, seedTx)) → opens seedTx hashTx.
Proof. unfold createValidatorTxs. intros E. inv_ok. case_bool_decide; simpl in E; by simplify_eq. Qed.

Lemma reveal_inv_step rnd randomness timeout w m w' m' :
  reveal_inv w → workerLoop_step chainID rnd randomness timeout w m = Some (Ok w', m') → reveal_inv w'.
Proof.
  intros Hi. unfold workerLoop_step.
  assert (∀ p, seed_of p = seed_of (rw_place w) ∨ seed_of p = None → reveal_inv (at_place w p)) as goto.
  { intros p. by apply reveal_inv_place. }
  destruct (rw_place w) as [| | |i|i|g|g nodes|g id nodes| |] eqn:Hp; try done.
  - intros [= E <-]. inv_ok. split; [by apply Hi|done].
  - unfold top_step. destruct (rw_stopWorker w); [intros [= <- <-]; by apply goto; right|].
    destruct (index_of_me _ _ _) as [o| |]; intros [= <- <-]. apply goto. right. by destruct o as [[]|].
  - unfold commit_step. destruct (rw_latestBlock w) as [lb|]; [|done].
    destruct (createValidatorTxs _ _ _ _ _) as [[[h sd]|]| |] eqn:E; [| |done..].
    + intros (u & _ & ->)%run_op_Ok. split; simpl; [by apply log_ok_snoc; [apply Hi|]|].
      intros seedTx [= <-]. exists h. rewrite last_snoc. split; [done|]. by eapply created_opens.
    + intros [= <- <-]. by apply goto; right.
  - unfold rescan_step. case_bool_decide; intros [= E <-]; [subst w'; by apply goto; right|].
    apply bind_Ok in E as (x & _ & E). destruct (bool_decide _); simplify_eq. by apply goto; right.
  - by apply reveal_inv_check.
  - unfold ask_step. destruct nodes as [|n nodes]; [intros [= <- <-]; by apply goto; left|].
    destruct g.
    + intros (id & _ & ->)%run_op_Ok. by apply goto; left.
    + destruct (rw_stopWorker w); [intros [= <- <-]; by apply goto; right|].
      intros (id & _ & ->)%run_op_Ok. by apply goto; left.
    + destruct (give_up_waiting w m) as [[]| |]; try done; [intros [= <- <-]; by apply goto; left|].
      intros (id & _ & ->)%run_op_Ok. by apply goto; left.
  - unfold receive_step. destruct (receive_txs _ _ _ _) as [[txs| |]|]; try done. destruct g.
    + destruct (rw_stopWorker w); [intros [= <- <-]; by apply goto; right|].
      intros (u & _ & ->)%run_op_Ok. by apply goto; left.
    + intros (u & _ & ->)%run_op_Ok. by apply goto; left.
    + destruct (give_up_waiting w m) as [[]| |]; try done; [intros [= <- <-]; by apply goto; left|].
      intros (u & _ & ->)%run_op_Ok. by apply goto; left.
Qed.

Lemma reveal_inv_sys s s' : worker_sys_step s s' → reveal_inv s.1 → reveal_inv s'.1.
Proof.
  intros [Hs|Hs] Hi; [destruct Hs as [? ? ? ? ? ? ? _ Hs|]|destruct Hs as [|w m b|w m|w m r w' Hs]]; simpl in *.
  - by eapply reveal_inv_step.
  - by apply reveal_inv_place; [|right].
  - done.
  - unfold rworker_start. by destruct (rw_place w), b.
  - unfold rworker_stop_begin. destruct Hi as [Hl Hs]. destruct (rw_place w) eqn:E; by split; simpl; rewrite ?E.
  - unfold rworker_stop_end in Hs. destruct (rw_place w); simplify_eq; by apply reveal_inv_place; [|right].
Qed.

(** C34: whatever the other threads do, a Validator's thread reveals a seed
    only right after it has committed to it, and only when it has seen four
    transactions or is told to stop; it announces a block only when it has seen
    eight or is told to stop. *)
Theorem worker_commits_first (m : Manager) (w : RWorker) (m' : Manager) :
  rtc worker_sys_step (RWorker_ctor, m) (w, m') → log_ok (rw_log w).
Proof.
  intros Hr. assert (∀ s s', rtc worker_sys_step s s' → reveal_inv s.1 → reveal_inv s'.1) as Hinv.
  { induction 1 as [|x y z Hs _ IH]; [done|]. intros. by eapply IH, reveal_inv_sys. }
  apply (Hinv _ _ Hr). split; [|done]. by intros i p Hi.
Qed.

(** ** Seeds are revealed before every commitment is known *)

(** A Validator that waits to reveal asks every node; if none answers, nothing
    changes but its requests. *)
Lemma gather_in_vain g i seedTx size nodes w m :
  g = G_reveal i seedTx size → rw_place w = P_ask g nodes → rw_stopWorker w = false →
  ∃ m', rtc worker_step (w, m) (at_place w (P_check g), m') ∧ m_ledger m' = m_ledger m.
Proof.
  intros Hg. revert w m. induction nodes as [|n nodes IH]; intros w m Hp Hs.
  - exists m. split; [|done]. apply rtc_once, (wk_ok (replicate 8 0) [] true); [done|].
    unfold workerLoop_step. by rewrite Hp.
  - destruct (request_returns (replicate 8 0) RequestValidatorTxs n m eq_refl eq_refl) as (id & m1 & E & Hled & _).
    destruct (IH (at_place w (P_ask g nodes)) m1 eq_refl Hs) as (m' & Hr & Hled').
    exists m'. split; [|congruence].
    eapply rtc_l; [apply (wk_ok (replicate 8 0) [] true) with (w' := at_place w (P_receive g id nodes)) (m' := m1); [done|]|].
    { unfold workerLoop_step. rewrite Hp. unfold ask_step. rewrite Hg, Hs. unfold run_op.
      unfold requestValidatorTxs_send, RequestEncoder_requestValidatorTxs. by rewrite E. }
    eapply rtc_l; [apply (wk_ok (replicate 8 0) [] true) with (w' := at_place w (P_ask g nodes)) (m' := m1); [done|]|exact Hr].
    unfold workerLoop_step, receive_step. simpl. rewrite Hg. by destruct id.
Qed.

(** A Validator that has committed waits for four transactions, whichever
    they are: with four in the mempool it goes on to submit and broadcast its
    seed, even if other participants have not committed to theirs and can still
    choose them. *)
Theorem worker_reveals_early (w : RWorker) (m : Manager) (i : nat) (seedTx : TxValidator) :
  rw_place w = P_check (G_reveal i seedTx 0) → rw_stopWorker w = false → minValidators ≤ mempool_size m →
  ∃ w' m', rtc worker_step (w, m) (w', m') ∧ m_ledger m' = m_ledger m ∧
    ∀ rnd randomness timeout, workerLoop_step chainID rnd randomness timeout w' m' =
      run_op (submit seedTx)
        (λ _, at_place (publish w' (Reveal seedTx (mempool_size m) false)) (P_rescan (S i))) m'.
Proof.
  intros Hp Hs Hm. set (g := G_reveal i seedTx (mempool_size m)).
  destruct (gather_in_vain g i seedTx (mempool_size m) (getSessionsIDs m)
    (at_place w (P_ask g (getSessionsIDs m))) m) as (m' & Hr & Hled); [done..|].
  exists (at_place w (P_check g)), m'. split; [|split; [done|]].
  - eapply rtc_l; [|exact Hr]. apply (wk_ok (replicate 8 0) [] true); [done|].
    unfold workerLoop_step. rewrite Hp. unfold check_step. by rewrite Hs.
  - intros rnd randomness timeout. unfold workerLoop_step, check_step. simpl.
    rewrite Hs, (proj2 (Z.ltb_ge _ _)) by done. done.
Qed.

(** ** A second turn *)

Lemma rescan_at rnd randomness timeout w m i x :
  rw_place w = P_rescan i → (i ≤ 4)%nat → randomList (rdpos_of m) !! i = Some x →
  workerLoop_step chainID rnd randomness timeout w m =
    Some (if bool_decide (rw_me w = x) then Throw system_error else Ok (at_place w (P_rescan (S i))), m).
Proof.
  intros Hp Hi Hx. unfold workerLoop_step. rewrite Hp. unfold rescan_step, at_view.
  rewrite bool_decide_false by lia. rewrite (bool_decide_true (0 ≤ Z.of_nat i)) by lia.
  by rewrite Nat2Z.id, Hx, Ok_bind.
Qed.

(** If the list is shuffled while a Validator waits to reveal its seed, and
    it is at a later position of the new list, its thread unlocks the same lock
    again: the exception ends the thread, and comes out of [stop]. *)
Theorem worker_second_turn (w : RWorker) (m : Manager) (i j : nat) :
  rw_place w = P_rescan i → (i ≤ j ≤ 4)%nat → randomList (rdpos_of m) !! j = Some (rw_me w) →
  ∃ w', rtc worker_step (w, m) (w', m) ∧ rw_place w' = P_failed system_error ∧
    ∃ w'', rworker_stop_end w' = Some (Throw system_error, w'').
Proof.
  intros Hp [Hij Hj] Hme. remember (j - i)%nat as n eqn:Hn. revert w i Hp Hij Hme Hn.
  induction n as [|n IH]; intros w i Hp Hij Hme Hn.
  - assert (i = j) as -> by lia. exists (at_place w (P_failed system_error)). split; [|by split; [|eexists]].
    apply rtc_once, (wk_throw (replicate 8 0) [] true); [done|].
    rewrite (rescan_at _ _ _ _ _ j (rw_me w)) by done. by rewrite bool_decide_true.
  - destruct (lookup_lt_is_Some_2 (randomList (rdpos_of m)) i) as [x Hx];
      [apply lookup_lt_Some in Hme; lia|].
    destruct (decide (rw_me w = x)) as [<-|Hne].
    + exists (at_place w (P_failed system_error)). split; [|by split; [|eexists]].
      apply rtc_once, (wk_throw (replicate 8 0) [] true); [done|].
      rewrite (rescan_at _ _ _ _ _ i (rw_me w)) by (done || lia). by rewrite bool_decide_true.
    + destruct (IH (at_place w (P_rescan (S i))) (S i)) as (w' & Hr & Hw'); [done|lia|done|lia|].
      exists w'. split; [|done]. eapply rtc_l; [|exact Hr].
      apply (wk_ok (replicate 8 0) [] true); [done|].
      rewrite (rescan_at _ _ _ _ _ i x) by (done || lia). by rewrite bool_decide_false.
Qed.

(** ** Stopping *)

(** The steps a thread that is told to stop has left at most. *)
Definition rescan_left (i : nat) : nat := 3 + (5 - i).
Definition check_left (g : gathering) : nat :=
  match g with G_wait _ => 2 | G_block _ => 3 | G_reveal i _ _ => 1 + rescan_left (S i) end.
Definition worker_left (p : worker_place) : nat :=
  match p with
  | P_idle | P_finished | P_failed _ => 0
  | P_begin => 2
  | P_top => 1
  | P_rescan i => rescan_left i
  | P_commit i => 2 + rescan_left (S i)
  | P_check g => check_left g
  | P_ask g _ => 1 + check_left g
  | P_receive (G_block _) _ _ | P_receive (G_wait _) _ _ => 3
  | P_receive (G_reveal i _ _) _ _ => 3 + rescan_left (S i)
  end.

Lemma stopping_check g w m w' m' :
  rw_stopWorker w = true → check_step g w m = Some (Ok w', m') →
  rw_stopWorker w' = true ∧ (S (worker_left (rw_place w')) ≤ check_left g)%nat.
Proof.
  intros Hs. unfold check_step. rewrite Hs. destruct g as [size|i seedTx size|creator].
  - rewrite andb_false_r. by intros [= <- <-].
  - rewrite andb_false_r. by intros (u & _ & ->)%run_op_Ok.
  - destruct (worker_checkLatestBlock w m) as [changed| |]; [|done..]. rewrite andb_false_r.
    by intros (u & _ & ->)%run_op_Ok.
Qed.

Lemma give_up_stopped w m : rw_stopWorker w = true → give_up_waiting w m ≠ Ok false.
Proof.
  intros Hs. unfold give_up_waiting. destruct (worker_checkLatestBlock w m) as [[]| |]; simpl; by rewrite ?Hs.
Qed.

Lemma stopping_step rnd randomness timeout w m w' m' :
  rw_stopWorker w = true → workerLoop_step chainID rnd randomness timeout w m = Some (Ok w', m') →
  rw_stopWorker w' = true ∧ (S (worker_left (rw_place w')) ≤ worker_left (rw_place w))%nat.
Proof.
  intros Hs. unfold workerLoop_step. destruct (rw_place w) as [| | |i|i|g|g nodes|g id nodes| |] eqn:Hp; try done.
  - intros [= E <-]. inv_ok. done.
  - unfold top_step. rewrite Hs. by intros [= <- <-].
  - unfold commit_step. destruct (rw_latestBlock w) as [lb|]; [|done].
    destruct (createValidatorTxs _ _ _ _ _) as [[[h sd]|]| |]; [| |done..].
    + intros (u & _ & ->)%run_op_Ok. simpl. split; [done|lia].
    + intros [= <- <-]. simpl. split; [done|lia].
  - unfold rescan_step. case_bool_decide as Hlt; intros [= E <-].
    { subst w'. split; [done|]. change (3 ≤ 3 + (5 - i))%nat. lia. }
    apply bind_Ok in E as (x & _ & E). destruct (bool_decide _); simplify_eq. split; [done|].
    change (S (3 + (5 - S i)) ≤ 3 + (5 - i))%nat. lia.
  - by apply stopping_check.
  - unfold ask_step. destruct nodes as [|n nodes]; [intros [= <- <-]; simpl; split; [done|lia]|].
    destruct g as [size|i seedTx size|creator].
    + intros (id & _ & ->)%run_op_Ok. simpl. split; [done|lia].
    + rewrite Hs. intros [= <- <-]. simpl. split; [done|lia].
    + pose proof (give_up_stopped w m Hs). destruct (give_up_waiting w m) as [[]| |]; try done.
      intros [= <- <-]. simpl. split; [done|lia].
  - unfold receive_step. destruct (receive_txs _ _ _ _) as [[txs| |]|]; try done.
    destruct g as [size|i seedTx size|creator].
    + rewrite Hs. intros [= <- <-]. simpl. split; [done|lia].
    + intros (u & _ & ->)%run_op_Ok. simpl. split; [done|lia].
    + pose proof (give_up_stopped w m Hs). destruct (give_up_waiting w m) as [[]| |]; try done.
      intros [= <- <-]. simpl. split; [done|lia].
Qed.

(** [n] steps of the thread, with steps of the manager in between. *)
Inductive worker_runs : nat → sys → sys → Prop :=
  | wr_end s : worker_runs 0 s s
  | wr_thread n s s1 s2 : worker_step s s1 → worker_runs n s1 s2 → worker_runs (S n) s s2
  | wr_others n w m m' s2 :
      manager_step vers chainID thrNum hostIpText hostPort maxConnections m m' →
      worker_runs n (w, m') s2 → worker_runs n (w, m) s2.

(** A Validator's thread that is told to stop makes at most ten more
    steps, whatever the other threads do. *)
Theorem worker_stops (n : nat) (w : RWorker) (m : Manager) (s' : sys) :
  rw_stopWorker w = true → worker_runs n (w, m) s' → (n + worker_left (rw_place s'.1) ≤ 10)%nat.
Proof.
  intros Hs Hr.
  assert (n + worker_left (rw_place s'.1) ≤ worker_left (rw_place w))%nat as Hn.
  { change (rw_stopWorker (w, m).1 = true) in Hs.
    change (n + worker_left (rw_place s'.1) ≤ worker_left (rw_place (w, m).1))%nat.
    induction Hr as [x|n x s1 s2 Hstep _ IH|n w' m1 m2 s2 _ _ IH]; [lia| |by apply IH].
    destruct Hstep as [rnd randomness to w1 m1 w2 m2 _ Hst|rnd randomness to w1 m1 e m2 _ Hst]; simpl in *.
    - apply stopping_step in Hst as [Hs' Hlt]; [|done]. specialize (IH Hs'). lia.
    - specialize (IH Hs). unfold workerLoop_step in Hst. simpl in IH.
      destruct (rw_place w1) as [| | | | | [] |? []|[]| |]; simplify_eq; simpl; unfold rescan_left; lia. }
  enough (worker_left (rw_place w) ≤ 10)%nat by lia.
  destruct (rw_place w) as [| | | | |[]|[] []|[]| |]; simpl; unfold rescan_left; lia.
Qed.

(** At most [n] steps of the thread alone, with peers that do not answer. *)
Fixpoint worker_drive (n : nat) (randomness : bytes) (w : RWorker) (m : Manager) : sys :=
  match n with
  | O => (w, m)
  | S n => match workerLoop_step chainID (replicate 8 0) randomness true w m with
           | Some (Ok w', m') => worker_drive n randomness w' m'
           | _ => (w, m)
           end
  end.

Lemma worker_drive_steps n randomness w m : rtc worker_sys_step (w, m) (worker_drive n randomness w m).
Proof.
  revert w m. induction n as [|n IH]; intros w m; simpl; [apply rtc_refl|].
  destruct (workerLoop_step _ _ _ _ _ _) as [[[w'| |] m']|] eqn:E; try apply rtc_refl.
  eapply rtc_l; [left; by eapply wk_ok, E|]. apply IH.
Qed.
End System.

(** ** Witnesses *)

#[local] Existing Instances toy_keccak toy_secp toy_rocks toy_host toy_left toy_order toy_boost.

(** Validator 1 of the round of five.  Validator 2 has committed and revealed,
    Validator 3 has committed, and Validator 4 has done nothing. *)
Definition rd_as_one (txs : list TxValidator) : rdPoS :=
  let rd := rd_of (add_all rd_start txs) in
  mkRdPoS (validators rd) (randomList rd) (validatorMempool rd) (round_key_of 1) true Hash_zero Hash_zero false.
Definition before_commit : Manager :=
  node_manager (state_pay, rd_as_one [commit_tx 2; reveal_tx 2; commit_tx 3], st_one).

(** The thread commits, finds four transactions, and reveals. *)
Definition revealed : RWorker * Manager :=
  worker_drive 8080 10 (replicate 32 1) (rworker_start true RWorker_ctor) before_commit.

Lemma revealed_reach :
  rtc (worker_sys_step 1 8080 4 [] 0 50) (RWorker_ctor, before_commit) revealed.
Proof. eapply rtc_l; [right; apply (os_start _ _ _ _ _ _ _ _ true)|]. apply worker_drive_steps. Qed.

Lemma worker_commits_first_witness :
  log_ok (rw_log revealed.1) ∧ rw_log revealed.1 = [Commit (commit_tx 1); Reveal (reveal_tx 1) 4 false].
Proof.
  split; [|apply (bool_decide_unpack _); vm_compute; exact I].
  apply (worker_commits_first 1 8080 4 [] 0 50 before_commit revealed.1 revealed.2).
  rewrite <-surjective_pairing. exact revealed_reach.
Defined.

Definition committed : RWorker * Manager :=
  worker_drive 8080 3 (replicate 32 1) (rworker_start true RWorker_ctor) before_commit.

(** Validator 4 has not committed, and the seed of Validator 1 is accepted. *)
Lemma worker_reveals_early_witness :
  txs_from (validatorMempool (rdpos_of committed.2)) (round_address 4) = [] ∧
  (∃ w' m', rtc (worker_step 8080) (committed.1, committed.2) (w', m') ∧ m_ledger m' = m_ledger committed.2 ∧
    ∀ rnd randomness timeout, workerLoop_step 8080 rnd randomness timeout w' m' =
      run_op (submit (reveal_tx 1))
        (λ _, at_place (publish w' (Reveal (reveal_tx 1) (mempool_size committed.2) false)) (P_rescan (S 1))) m') ∧
  (submit (reveal_tx 1) committed.2).1 = Ok tt.
Proof.
  split; [vm_compute; reflexivity|]. split; [|vm_compute; reflexivity].
  assert (rw_place committed.1 = P_check (G_reveal 1 (reveal_tx 1) 0)) as Hp by (vm_compute; reflexivity).
  assert (rw_stopWorker committed.1 = false) as Hs by (vm_compute; reflexivity).
  assert (minValidators ≤ mempool_size committed.2) as Hm by (apply (bool_decide_unpack _); vm_compute; exact I).
  exact (worker_reveals_early 8080 committed.1 committed.2 1 (reveal_tx 1) Hp Hs Hm).
Defined.

(** Validator 1 has revealed; a block of the other nodes puts it third. *)
Definition shuffled : Manager :=
  node_manager (state_pay, mkRdPoS (round_address <$> [0; 1; 2; 3; 4]) (round_address <$> [0; 2; 3; 1; 4]) ∅
    (round_key_of 1) true Hash_zero Hash_zero false, st_two).

Lemma worker_second_turn_witness :
  ∃ w', rtc (worker_step 8080) (revealed.1, shuffled) (w', shuffled) ∧
    rw_place w' = P_failed system_error ∧ ∃ w'', rworker_stop_end w' = Some (Throw system_error, w'').
Proof.
  assert (rw_place revealed.1 = P_rescan 2) as Hp by (vm_compute; reflexivity).
  assert (randomList (rdpos_of shuffled) !! 3%nat = Some (rw_me revealed.1)) as Hme by (vm_compute; reflexivity).
  exact (worker_second_turn 8080 revealed.1 shuffled 2 3 Hp ltac:(lia) Hme).
Defined.

Lemma worker_stops_witness :
  (1 + worker_left P_finished ≤ 10)%nat ∧ rw_stopWorker (rworker_stop_begin (at_place revealed.1 P_top)) = true.
Proof.
  split; [|vm_compute; reflexivity].
  apply (worker_stops 1 8080 4 [] 0 50 1 (rworker_stop_begin (at_place revealed.1 P_top)) revealed.2
    (at_place (rworker_stop_begin (at_place revealed.1 P_top)) P_finished, revealed.2)); [reflexivity|].
  eapply wr_thread; [|apply wr_end]. by apply (wk_ok _ (replicate 8 0) [] true).
Defined.
