(* ===== verification/Network.v ===== *)
(** * Network: two nodes agree on the next block

    The block that the syncer of one node creates and broadcasts
    (src/core/blockchain.cpp), received by the manager of another node
    (src/net/p2p/p2pmanagernormal.cpp) on the same chain. *)

From S2P Require Import Prelude Utils Hex Strings SafeHash Ecdsa Tx Block DB Storage RdPoS State.
From S2P Require Import P2PEncoding P2PManager P2PNode Syncer.

Section Network.
Context `{Keccak} `{Secp256k1Lib} `{RocksDB} `{!ContractHost} `{!CheckedLeft} `{!HashMapOrder}.
Context (version chainID : Z) (thrNum : nat).

(** A node on the chain of which [lb] is the latest block, with the same
    shuffled list, that knows the senders of [txs]. *)
Record follows (rl : list bytes) (lb : Block) (txs : list TxBlock) (st : State) (rd : rdPoS) (storage : Storage)
    : Prop := {
  fo_latest : latest storage = Ok lb;
  fo_list : randomList rd = rl;
  fo_validators : zlen (validators rd) < 2 ^ 64;
  fo_keyed : keyed (mempool st);
  fo_valid : all_valid st txs = Ok true;
  fo_funded : funded (accounts st) txs;
  fo_plain : Forall (λ tx, cm_isContractCall (contractManager st) tx = false) txs;
}.

(** A valid round on top of the latest block passes the checks of a node that
    follows the chain. *)
Lemma follower_validates rl lb st rd storage b :
  follows rl lb (b_txs b) st rd storage → (4 < length rl)%nat → valid_round rl b →
  length (b_validatorPubKey b) = 65%nat →
  b_nHeight b = u64 (b_nHeight lb + 1) → b_prevBlockHash b = Block_hash lb → b_timestamp lb ≤ b_timestamp b →
  validateNextBlock st rd storage b = Ok true.
Proof.
  intros Hf Hl Hr Hk Hh Hp Ht. destruct Hf as [Hlat Hrl Hm Hkey Hv Hfu Hpl]. subst rl.
  unfold validateNextBlock. rewrite Hlat, Ok_bind, Hh, Z.eqb_refl. cbn [negb].
  rewrite Hp, bool_decide_true by done. cbn [negb]. rewrite (proj2 (Z.ltb_ge _ _)) by lia.
  destruct (validateBlock_spec rd storage lb b) as (r & -> & Hr'); [done|lia|done|].
  rewrite Ok_bind. by rewrite (proj2 Hr' Hr).
Qed.

(** What the creator's block looks like from outside. *)
Lemma signBlock_block rd b0 ts b rd' a :
  b_finalized b0 = false → b_timestamp b0 ≤ ts → signs_for (validatorKey rd) a → signBlock rd b0 ts = Ok (b, rd') →
  length (b_validatorPubKey b) = 65%nat ∧ b_nHeight b = b_nHeight b0 ∧
  b_prevBlockHash b = b_prevBlockHash b0 ∧ b_timestamp b = ts.
Proof.
  intros Hf Ht Hs Hb. destruct (finalize_signs b0 (validatorKey rd) ts a Hf Ht Hs) as (b' & Hb' & _ & Hl).
  unfold signBlock in Hb. rewrite Hb', Ok_bind in Hb. injection Hb as <- _.
  destruct (finalize_Ok _ _ _ _ _ Hb') as (_ & _ & _ & _ & _ & Hp & Hh & Hts & _). done.
Qed.


End Network.

(** ** Two nodes of the round of Syncer.v *)

#[local] Existing Instances toy_keccak toy_secp toy_rocks toy_host toy_left toy_order toy_boost.

Definition transfer_tx : TxBlock :=
  tx_of (TxBlock_sign bob (round_address 7) [] 8080 0 300 1 2 5 (round_key_of 7)).
Definition transfer_funds : gmap bytes Account := {[ round_address 7 := mkAccount 1000 0 ]}.
Definition state_creator : State :=
  mkState [] transfer_funds {[ TxBlock_hash transfer_tx true := transfer_tx ]} false tt.
Definition state_follower : State := mkState [] transfer_funds ∅ false tt.
Definition created_manager : Manager := node_manager (state_creator, rd_full, st_one).
Definition created_block : Block :=
  match doValidatorBlock 4 (λ _, false) 200 created_manager with
  | Some (Ok Created, m) => match node_latest (m_ledger m) with Ok b => b | _ => sample_value end
  | _ => sample_value
  end.

Lemma state_creator_txs : (iter_map (mempool state_creator)).*2 = [transfer_tx].
Proof. vm_compute. reflexivity. Qed.

Lemma transfer_funded : funded transfer_funds [transfer_tx].
Proof.
  exists 310. split; [|exact I]. constructor.
  - apply map_Forall_singleton. by split.
  - vm_compute. reflexivity.
  - vm_compute. discriminate.
  - eexists. vm_compute. reflexivity.
  - vm_compute. reflexivity.
  - vm_compute. discriminate.
Qed.

Lemma creator_ready : node_ready state_creator rd_full st_one st_block0 (round_address 0).
Proof.
  constructor.
  - vm_compute. reflexivity.
  - exact rd_full_ready.
  - vm_compute. reflexivity.
  - exact round_signs.
  - vm_compute. reflexivity.
  - discriminate.
  - apply map_Forall_singleton. split; [done|]. eexists. vm_compute. reflexivity.
  - rewrite state_creator_txs. exact transfer_funded.
  - rewrite state_creator_txs. repeat constructor.
Qed.

