(* ===== verification/Json.v ===== *)
(** * Json: JSON values and the regular expressions of the RPC decoders

    The part of nlohmann/json (src/utils/json.hpp) that the JSON-RPC code
    uses: the value, the two indexing operators, which differ on a missing
    key, the queries and the conversions.  The filters of the decoders are
    [std::regex] objects; they are kept as written and matched with
    derivatives.  The text of a value, [parse] and [dump], is an interface. *)

From S2P Require Import Prelude Utils Hex.

(** ** Values *)

(** [basic_json]: [JInt] and [JUint] are the 64-bit kinds of number,
    [JFloat m e] is the double [m * 2^e]; an object is its entries in the
    order of the keys, as in a [std::map]. *)
Inductive json :=
  | JNull
  | JBool (b : bool)
  | JInt (z : Z)
  | JUint (n : Z)
  | JFloat (m e : Z)
  | JString (s : bytes)
  | JArray (l : list json)
  | JObject (o : list (bytes * json)).

(** A [std::map] as the list of its entries. *)
Fixpoint obj_find (k : bytes) (o : list (bytes * json)) : option json :=
  match o with
  | [] => None
  | (k', v) :: o => if bool_decide (k = k') then Some v else obj_find k o
  end.

Fixpoint obj_insert (k : bytes) (v : json) (o : list (bytes * json)) : list (bytes * json) :=
  match o with
  | [] => [(k, v)]
  | (k', v') :: o' =>
      if bool_decide (k = k') then (k, v) :: o'
      else if bytes_ltb k k' then (k, v) :: o
      else (k', v') :: obj_insert k v o'
  end.

Definition is_null (j : json) : bool := match j with JNull => true | _ => false end.
Definition is_string (j : json) : bool := match j with JString _ => true | _ => false end.
Definition is_array (j : json) : bool := match j with JArray _ => true | _ => false end.
Definition is_object (j : json) : bool := match j with JObject _ => true | _ => false end.
Definition is_number (j : json) : bool := match j with JInt _ | JUint _ | JFloat _ _ => true | _ => false end.

(** [contains], [empty] and [size]: a scalar is never empty and has size 1. *)
Definition contains (j : json) (k : bytes) : bool :=
  match j with JObject o => bool_decide (is_Some (obj_find k o)) | _ => false end.
Definition json_empty (j : json) : bool :=
  match j with JNull => true | JArray l => bool_decide (l = []) | JObject o => bool_decide (o = []) | _ => false end.
Definition json_size (j : json) : Z :=
  match j with JNull => 0 | JArray l => zlen l | JObject o => zlen o | _ => 1 end.

(** [j[key]] on a constant: a key that is not there fails an assertion, and is
    undefined without assertions. *)
Definition const_index (j : json) (k : bytes) : outcome json :=
  match j with
  | JObject o => match obj_find k o with Some v => Ok v | None => Undef end
  | _ => Throw (json_exception "type_error.305")
  end.

(** [j[key]] on a variable: null becomes an object and a missing key an entry
    of null.  The entry, and the value with the entry. *)
Definition index (j : json) (k : bytes) : outcome (json * json) :=
  match j with
  | JNull => Ok (JNull, JObject [(k, JNull)])
  | JObject o =>
      match obj_find k o with
      | Some v => Ok (v, j)
      | None => Ok (JNull, JObject (obj_insert k JNull o))
      end
  | _ => Throw (json_exception "type_error.305")
  end.

(** [j[k1][k2]... = v]. *)
Fixpoint set_at (j : json) (path : list string) (v : json) : outcome json :=
  match path with
  | [] => Ok v
  | k :: path =>
      '(old, j) ← index j (str k);
      new ← set_at old path v;
      match j with JObject o => Ok (JObject (obj_insert (str k) new o)) | _ => Undef end
  end.

(** Assignments one after the other; the right side is computed first. *)
Definition build (j : json) (l : list (list string * outcome json)) : outcome json :=
  foldM (λ j a, v ← a.2; set_at j a.1 v) j l.

(** [j.at(i)]. *)
Definition json_at (j : json) (i : nat) : outcome json :=
  match j with
  | JArray l => of_option (json_exception "out_of_range.401") (l !! i)
  | _ => Throw (json_exception "type_error.304")
  end.

(** [get<std::string>()], [get<bool>()], [get<uint64_t>()]; a double is cut,
    and undefined when the result does not fit. *)
Definition get_string (j : json) : outcome bytes :=
  match j with JString s => Ok s | _ => Throw (json_exception "type_error.302") end.
Definition get_bool (j : json) : outcome bool :=
  match j with JBool b => Ok b | _ => Throw (json_exception "type_error.302") end.
Definition double_trunc (m e : Z) : Z := if 0 <=? e then m * 2 ^ e else Z.quot m (2 ^ (- e)).
Definition get_uint64 (j : json) : outcome Z :=
  match j with
  | JUint n => Ok n
  | JInt z => Ok (u64 z)
  | JFloat m e => if bool_decide (is_uint 64 (double_trunc m e)) then Ok (double_trunc m e) else Undef
  | _ => Throw (json_exception "type_error.302")
  end.

(** [json::parse] and [dump]. *)
Class JsonText := {
  json_parse : bytes → outcome json;
  json_dump : json → outcome bytes;
}.

(** ** Regular expressions

    The constructs the filters use: sets of characters given by ranges,
    sequence, choice and repetition. *)
Inductive regex :=
  | REmpty
  | REps
  | RSet (ranges : list (Z * Z))
  | RSeq (r1 r2 : regex)
  | RAlt (r1 r2 : regex)
  | RStar (r : regex).

Definition in_set (ranges : list (Z * Z)) (c : Z) : bool :=
  existsb (λ '(lo, hi), (lo <=? c) && (c <=? hi)) ranges.

Definition RPlus (r : regex) : regex := RSeq r (RStar r).
Fixpoint RTimes (n : nat) (r : regex) : regex :=
  match n with O => REps | S n => RSeq r (RTimes n r) end.
Fixpoint RLit (s : bytes) : regex :=
  match s with [] => REps | c :: s => RSeq (RSet [(c, c)]) (RLit s) end.

Fixpoint nullable (r : regex) : bool :=
  match r with
  | REmpty | RSet _ => false
  | REps | RStar _ => true
  | RSeq r1 r2 => nullable r1 && nullable r2
  | RAlt r1 r2 => nullable r1 || nullable r2
  end.

Fixpoint deriv (c : Z) (r : regex) : regex :=
  match r with
  | REmpty | REps => REmpty
  | RSet l => if in_set l c then REps else REmpty
  | RSeq r1 r2 =>
      if nullable r1 then RAlt (RSeq (deriv c r1) r2) (deriv c r2) else RSeq (deriv c r1) r2
  | RAlt r1 r2 => RAlt (deriv c r1) (deriv c r2)
  | RStar r' => RSeq (deriv c r') r
  end.

(** [std::regex_match]: the whole text matches. *)
Definition regex_match (r : regex) (s : bytes) : bool := nullable (foldl (λ r c, deriv c r) r s).

(** ** What an expression matches *)

Inductive matches : regex → bytes → Prop :=
  | m_eps : matches REps []
  | m_set l c : in_set l c = true → matches (RSet l) [c]
  | m_seq r1 r2 s1 s2 : matches r1 s1 → matches r2 s2 → matches (RSeq r1 r2) (s1 ++ s2)
  | m_altl r1 r2 s : matches r1 s → matches (RAlt r1 r2) s
  | m_altr r1 r2 s : matches r2 s → matches (RAlt r1 r2) s
  | m_nil r : matches (RStar r) []
  | m_star r s1 s2 : matches r s1 → matches (RStar r) s2 → matches (RStar r) (s1 ++ s2).

Lemma nullable_matches r : nullable r = true ↔ matches r [].
Proof.
  split.
  - induction r; simpl; intros Hn; try done.
    + constructor.
    + apply andb_prop in Hn as [H1 H2]. apply (m_seq _ _ [] []); auto.
    + apply orb_prop in Hn as [H1|H1]; [apply m_altl|apply m_altr]; auto.
    + constructor.
  - remember [] as s eqn:Hs. induction 1; simpl; try done; simplify_list_eq; auto.
    + rewrite IHmatches1, IHmatches2; [done|by destruct s1, s2..].
    + by rewrite IHmatches.
    + rewrite IHmatches by done. apply orb_true_r.
Qed.

(** A nonempty text of a starred expression begins with a nonempty part. *)
Lemma star_cons r c s :
  matches (RStar r) (c :: s) → ∃ s1 s2, s = s1 ++ s2 ∧ matches r (c :: s1) ∧ matches (RStar r) s2.
Proof.
  remember (RStar r) as r' eqn:Hr. remember (c :: s) as t eqn:Ht. intros Hm. revert c s Hr Ht.
  induction Hm as [| | | | | |r0 s1 s2 H1 _ H2 IH]; intros c0 s0 Hr Ht; try discriminate; simplify_eq.
  destruct s1 as [|c' s1]; simplify_list_eq; [by apply IH|]. eauto.
Qed.

Lemma deriv_matches r c s : matches (deriv c r) s ↔ matches r (c :: s).
Proof.
  revert s. induction r as [| |l|r1 IH1 r2 IH2|r1 IH1 r2 IH2|r IH]; intros s; simpl.
  - split; inversion 1.
  - split; inversion 1.
  - destruct (in_set l c) eqn:E; split; inversion 1; subst; try congruence; by constructor.
  - assert (matches (RSeq r1 r2) (c :: s) ↔
      matches (RSeq (deriv c r1) r2) s ∨ nullable r1 = true ∧ matches r2 (c :: s)) as Hseq.
    { split.
      - inversion 1 as [| |? ? s1 s2 H1 H2| | | |]; subst. destruct s1 as [|c' s1]; simplify_list_eq.
        + right. by rewrite nullable_matches.
        + left. constructor; [by apply IH1|done].
      - intros [Hm|[Hn H2]].
        + inversion Hm as [| |? ? s1 s2 H1 H2| | | |]; subst. apply (m_seq _ _ (c :: s1)); [by apply IH1|done].
        + apply (m_seq _ _ []); [by apply nullable_matches|done]. }
    rewrite Hseq. destruct (nullable r1).
    + split; [inversion 1; subst; [by left|right; split; [done|by apply IH2]]|].
      intros [?|[_ ?]]; [by apply m_altl|apply m_altr; by apply IH2].
    + split; [by left|by intros [?|[? _]]].
  - split; inversion 1; subst; first [apply m_altl; by apply IH1|apply m_altr; by apply IH2].
  - split.
    + inversion 1 as [| |? ? s1 s2 H1 H2| | | |]; subst. apply (m_star _ (c :: s1)); [by apply IH|done].
    + intros (s1 & s2 & -> & H1 & H2)%star_cons. constructor; [by apply IH|done].
Qed.

Lemma regex_match_spec r s : regex_match r s = true ↔ matches r s.
Proof.
  revert r. induction s as [|c s IH]; intros r; [apply nullable_matches|].
  unfold regex_match. cbn [foldl]. fold (regex_match (deriv c r) s). by rewrite IH, deriv_matches.
Qed.

Lemma matches_set l s : matches (RSet l) s ↔ ∃ c, s = [c] ∧ in_set l c = true.
Proof. split; [inversion 1; eauto|]. intros (c & -> & Hc). by constructor. Qed.

Lemma matches_seq r1 r2 s : matches (RSeq r1 r2) s ↔ ∃ s1 s2, s = s1 ++ s2 ∧ matches r1 s1 ∧ matches r2 s2.
Proof. split; [inversion 1; eauto 6|]. intros (s1 & s2 & -> & H1 & H2). by constructor. Qed.

Lemma matches_alt r1 r2 s : matches (RAlt r1 r2) s ↔ matches r1 s ∨ matches r2 s.
Proof. split; [inversion 1; eauto|]. intros [?|?]; [by apply m_altl|by apply m_altr]. Qed.

Lemma matches_lit t s : matches (RLit t) s ↔ s = t.
Proof.
  revert s. induction t as [|c t IH]; intros s; cbn [RLit].
  - split; [by inversion 1|intros ->; constructor].
  - rewrite matches_seq. split.
    + intros (s1 & s2 & -> & (c' & -> & Hc)%matches_set & ->%IH). cbn in Hc.
      rewrite orb_false_r in Hc. zify_bool. simplify_list_eq. f_equal. lia.
    + intros ->. exists [c], t. rewrite IH. split_and!; [done|constructor|done].
      cbn. rewrite !Z.leb_refl. done.
Qed.

Lemma matches_set_star l s : matches (RStar (RSet l)) s ↔ forallb (in_set l) s = true.
Proof.
  induction s as [|c s IH]; [split; [done|constructor]|]. cbn [forallb]. rewrite andb_true_iff, <-IH. split.
  - intros (s1 & s2 & -> & (c' & Heq & Hc)%matches_set & Hs)%star_cons. by simplify_list_eq.
  - intros [Hc Hs]. apply (m_star _ [c]); [by constructor|done].
Qed.

Lemma matches_set_times l n s : matches (RTimes n (RSet l)) s ↔ length s = n ∧ forallb (in_set l) s = true.
Proof.
  revert s. induction n as [|n IH]; intros s; cbn [RTimes].
  - split; [by inversion 1|]. intros [Hl _]. apply nil_length_inv in Hl as ->. constructor.
  - rewrite matches_seq. split.
    + intros (s1 & s2 & -> & (c & -> & Hc)%matches_set & (Hl & Hs)%IH). cbn. by rewrite Hl, Hc, Hs.
    + intros [Hl Hs]. destruct s as [|c s]; [done|]. cbn in Hs. apply andb_prop in Hs as [Hc Hs].
      exists [c], s. split_and!; [done|by constructor|]. apply IH. split; [cbn in Hl; lia|done].
Qed.
