(* ===== verification/ByteStrings.v ===== *)
(** * ByteStrings: the small operations on strings and files

    The remaining operations of [FixedStr] (src/utils/strings.h) and [Hex]
    (src/utils/hex.h), and the random strings, logs and the configuration file
    of src/utils/utils.cpp.  [RAND_bytes] is the string that it fills in, or
    nothing when it fails; a file is its text. *)
From stdpp Require Import base list.
From S2P Require Import Prelude Utils Hex Strings Json.

(** ** FixedStr *)

Definition FixedStr_copy (other : bytes) : bytes := other.

(** The move constructor: the new string, and [left], whatever the move leaves
    in the other one. *)
Definition FixedStr_move (left other : bytes) : bytes * bytes := (other, left).

(** The assignments test for an assignment to itself; the move leaves [left]. *)
Definition FixedStr_assign (same : bool) (this other : bytes) : bytes := if same then this else other.
Definition FixedStr_move_assign (same : bool) (left this other : bytes) : bytes * bytes :=
  if same then (this, this) else (other, left).

Definition FixedStr_get (s : bytes) : bytes := s.
Definition FixedStr_size (s : bytes) : Z := zlen s.

(** [view(pos, len)] is not checked: it may reach the zero after the string,
    and nothing beyond. *)
Definition FixedStr_view (s : bytes) (pos len : Z) : outcome bytes :=
  if (pos <=? zlen s) && (pos + len <=? zlen s + 1)
  then Ok (take (Z.to_nat len) (drop (Z.to_nat pos) (s ++ [0]))) else Undef.

(** [operator[]]: the zero after the string at its size. *)
Definition FixedStr_index (s : bytes) (pos : Z) : outcome Z :=
  match (s ++ [0]) !! Z.to_nat pos with Some c => Ok c | None => Undef end.

Definition FixedStr_eq (s other : bytes) : bool := bool_decide (s = other).
Definition FixedStr_ne (s other : bytes) : bool := negb (bool_decide (s = other)).
Definition FixedStr_lt (s other : bytes) : bool := bytes_ltb s other.
Definition FixedStr_ge (s other : bytes) : bool := negb (bytes_ltb s other).
Definition FixedStr_le (s other : bytes) : bool := negb (bytes_ltb other s).
Definition FixedStr_gt (s other : bytes) : bool := bytes_ltb other s.

(** ** Hex *)

Definition Hex_substr (h : Hex) (pos len : Z) : outcome bytes := substr (hex h) pos len.
Definition Hex_substr_view (h : Hex) (pos len : Z) : outcome bytes := substr (hex h) pos len.
Definition Hex_string (h : Hex) : bytes := hex h.
Definition Hex_print (out : bytes) (h : Hex) : bytes := out ++ hex h.

(** ** Random strings *)

(** The result of [RAND_bytes] is not looked at: when it fails the zeros stay. *)
Definition randBytes (filled : option bytes) (size : nat) : bytes := default (replicate size 0) filled.
Definition Hash_random (filled : option bytes) : bytes := default (FixedStr_empty 32) filled.

(** ** Logs *)

Definition newline : bytes := [10].
Definition logToFile (log s : bytes) : bytes := log ++ s ++ newline.
Definition logToDebug (debug pfx func data : bytes) : bytes :=
  debug ++ pfx ++ str "::" ++ func ++ str " - " ++ data ++ newline.
Definition safePrint (logToCout : bool) (out s : bytes) : bytes := if logToCout then out ++ s ++ newline else out.

(** ** The configuration file *)

Section Config.
Context `{JsonText}.

Definition default_config : outcome json :=
  build JNull
    [(["rpcport"%string], Ok (JInt 8080)); (["p2pport"%string], Ok (JInt 8081));
     (["seedNodes"%string], Ok (JArray (JString ∘ str <$>
        ["127.0.0.1:8086"; "127.0.0.1:8087"; "127.0.0.1:8088"; "127.0.0.1:8089"]%string)))].

(** [readConfigFile]: a file that is not there is opened and written first,
    with [dump2], the indented text of a value. *)
Definition writeDefaultConfig (dump2 : json → outcome bytes) : ST (option bytes) unit := λ file,
  match file with
  | Some _ => (Ok tt, file)
  | None => match (config ← default_config; dump2 config) with
            | Ok text => (Ok tt, Some text)
            | Throw e => (Throw e, Some [])
            | Undef => (Undef, Some [])
            end
  end.
Definition parseConfigFile : ST (option bytes) json := λ file,
  (match file with Some text => json_parse text | None => Throw (json_exception "parse_error.101") end, file).
Definition readConfigFile (dump2 : json → outcome bytes) : ST (option bytes) json :=
  _ ← writeDefaultConfig dump2; parseConfigFile.

(** What was read once is read again, and the file stays as it is. *)
Lemma readConfigFile_again dump2 file config file' :
  readConfigFile dump2 file = (Ok config, file') → readConfigFile dump2 file' = (Ok config, file').
Proof.
  unfold readConfigFile, writeDefaultConfig, parseConfigFile. unfold mbind, ST_bind. destruct file as [text|]; cbn beta iota.
  - intros [= E <-]. cbn beta iota. by rewrite E.
  - destruct (outcome_bind _ _ _ _) as [text| |]; [|done..]. intros [= E <-]. by rewrite E.
Qed.

End Config.

(** * The order of hashes and addresses *)

Lemma be_val_cons x l : be_val (x :: l) = x * 2 ^ (8 * zlen l) + be_val l.
Proof.
  induction l as [|y l IH] using rev_ind; [unfold be_val, zlen; cbn; lia|].
  rewrite app_comm_cons, !be_val_snoc, IH, zlen_app. change (zlen [y]) with 1.
  rewrite Z.mul_add_distr_l, Z.pow_add_r by (unfold zlen; lia). lia.
Qed.

Lemma bytes_ltb_be_val a : ∀ b, length a = length b → bytes_ok a → bytes_ok b → bytes_ltb a b = (be_val a <? be_val b).
Proof.
  induction a as [|x a IH]; intros [|y b] Hl Ha Hb; try done. injection Hl as Hl.
  apply Forall_cons in Ha as [Hx Ha], Hb as [Hy Hb]. cbn [bytes_ltb]. rewrite IH, !be_val_cons by done.
  assert (zlen a = zlen b) as -> by (unfold zlen; lia).
  pose proof (be_val_bound a Ha) as Ba. pose proof (be_val_bound b Hb) as Bb.
  assert (zlen a = zlen b) as E by (unfold zlen; lia). rewrite E in Ba. clear E.
  unfold is_byte in *. generalize dependent (2 ^ (8 * zlen b)). intros p Ba Bb.
  destruct (Z.ltb_spec x y), (Z.eqb_spec x y); cbn; repeat zcase; try done; exfalso; subst; nia.
Qed.

(** On strings of one size the comparisons of [FixedStr] are those of the
    numbers the strings are in big endian: hashes are ordered as [toUint256],
    and equal only when that is equal. *)
Theorem fixedstr_order n a b :
  length a = n → length b = n → bytes_ok a → bytes_ok b →
  FixedStr_lt a b = (be_val a <? be_val b) ∧ FixedStr_le a b = (be_val a <=? be_val b) ∧
  FixedStr_gt a b = (be_val b <? be_val a) ∧ FixedStr_ge a b = (be_val b <=? be_val a) ∧
  FixedStr_eq a b = (be_val a =? be_val b) ∧ FixedStr_ne a b = negb (be_val a =? be_val b).
Proof.
  intros Ha Hb Ba Bb. unfold FixedStr_lt, FixedStr_le, FixedStr_gt, FixedStr_ge, FixedStr_eq, FixedStr_ne.
  rewrite !bytes_ltb_be_val by congruence.
  assert (bool_decide (a = b) = (be_val a =? be_val b)) as ->.
  { destruct (Z.eqb_spec (be_val a) (be_val b)) as [E|E]; [apply bool_decide_eq_true_2|apply bool_decide_eq_false_2; by intros ->].
    by rewrite <-(be_split_val a n), <-(be_split_val b n), E. }
  split_and!; try done; repeat zcase; try done; lia.
Qed.

Lemma fixedstr_order_witness :
  FixedStr_lt [1; 255] [2; 0] = true ∧ FixedStr_ge [1; 255] [2; 0] = false.
Proof.
  destruct (fixedstr_order 2 [1; 255] [2; 0]) as (E1 & _ & _ & E2 & _);
    [reflexivity|reflexivity|repeat constructor; unfold is_byte; lia|repeat constructor; unfold is_byte; lia|].
  split; [exact E1|exact E2].
Defined.

(** [view] with its default length: the whole string from its start, and past
    its end from anywhere behind the second byte. *)
Lemma FixedStr_view_default s pos :
  0 ≤ pos → FixedStr_view s pos (zlen s) =
    if pos =? 0 then Ok s else if pos =? 1 then if zlen s =? 0 then Undef else Ok (drop 1 s ++ [0]) else Undef.
Proof.
  intros Hp. unfold FixedStr_view. pose proof (Zle_0_nat (length s)) as Hz. fold (zlen s) in Hz.
  destruct (Z.eqb_spec pos 0) as [->|].
  - rewrite (proj2 (Z.leb_le _ _)), (proj2 (Z.leb_le _ _)) by lia. cbn. unfold zlen. rewrite Nat2Z.id. f_equal. apply take_app_length.
  - destruct (Z.eqb_spec pos 1) as [->|].
    + destruct s as [|x s]; [done|]. change (drop _ (_ ++ [0])) with (s ++ [0]).
      rewrite (proj2 (Z.leb_le _ _)), (proj2 (Z.leb_le _ _)) by (unfold zlen in *; cbn in *; lia). cbn.
      rewrite (proj2 (Z.eqb_neq _ _)) by (unfold zlen; cbn; lia). f_equal. rewrite drop_0. apply take_ge. rewrite length_app. unfold zlen. cbn. lia.
    + destruct (Z.leb_spec pos (zlen s)); [|done]. cbn. by rewrite (proj2 (Z.leb_gt _ _)) by lia.
Qed.
