(* ===== verification/RpcDecoding.v ===== *)
(** * RpcDecoding: the decoders of JSON-RPC requests (src/net/http/jsonrpc/decoding.{h,cpp})

    Each decoder takes the parsed request, checks its parameters with the
    regular expressions of the source and returns what the method needs; every
    exception inside is rethrown with a prefix.  [request["params"]] is the
    constant indexing operator throughout. *)

From S2P Require Import Prelude Utils Hex Strings Ecdsa Tx Block Storage Json.

(** ** Filters *)

Definition set_lower : list (Z * Z) := [(48, 57); (97, 102)].
(** [[1-9a-f]] and [[0-9,a-f,A-F]], which has the comma too. *)
Definition set_nonzero : list (Z * Z) := [(49, 57); (97, 102)].
Definition set_comma : list (Z * Z) := [(48, 57); (44, 44); (97, 102); (44, 44); (65, 70)].

Definition hashFilter : regex := RSeq (RLit (str "0x")) (RTimes 64 (RSet set_lower)).
Definition txHashFilter : regex := RSeq (RLit (str "0x")) (RTimes 64 (RSet set_comma)).
Definition addressFilter : regex := RSeq (RLit (str "0x")) (RTimes 40 (RSet set_comma)).
Definition numberFilter : regex :=
  RSeq (RLit (str "0x"))
    (RAlt (RSeq (RPlus (RSet set_nonzero)) (RStar (RSet set_lower))) (RLit (str "0"))).

(** ** Numbers *)

(** The value of a hexadecimal numeral. *)
Definition hex_value (s : bytes) : Z := foldl (λ v c, v * 16 + toInt c) 0 s.

(** [boost::lexical_cast<HexTo<uint256_t>>]: reads a hexadecimal numeral, and
    throws when it does not fit. *)
Class LexicalCast := {
  lexical_cast_hex : bytes → outcome Z;
  lexical_cast_fits : ∀ s, s ≠ [] → forallb is_hex_char s = true → hex_value s < 2 ^ 256 →
    lexical_cast_hex s = Ok (hex_value s);
  lexical_cast_over : ∀ s, forallb is_hex_char s = true → 2 ^ 256 ≤ hex_value s →
    ∃ e, lexical_cast_hex s = Throw e;
}.

Section Decoding.
Context `{Keccak} `{Secp256k1Lib} `{!LexicalCast}.

(** [Hex::getUint]. *)
Definition getUint (h : Hex) : outcome Z := lexical_cast_hex (hex h).

(** [Hex(s).getUint()], and [uint64_t(...)] of it: the conversion is checked. *)
Definition hex_uint (s : bytes) : outcome Z := h ← Hex_ctor s false; getUint h.
Definition hex_uint64 (s : bytes) : outcome Z := n ← hex_uint s; to_width 64 n.

(** [if (!std::regex_match(s, filter)) throw std::runtime_error(what);] *)
Definition filtered (filter : regex) (s : bytes) (what : string) : outcome unit :=
  throw_if (negb (regex_match filter s)) (runtime_error what).

(** ** Requests *)

(** [try { m } catch (std::exception& e) { throw std::runtime_error(prefix + e.what()); }] *)
Definition rethrow {A} (prefix : string) (m : outcome A) : outcome A :=
  try_catch m (λ e, Throw (runtime_error (prefix +:+ what e))).
Definition decoding {A} (name : string) (m : outcome A) : outcome A :=
  rethrow ("Error while decoding " +:+ name +:+ ": ") m.

Definition params (request : json) : outcome json := const_index request (str "params").
(** [request["params"].at(i).get<std::string>()]. *)
Definition param_string (request : json) (i : nat) : outcome bytes :=
  p ← params request; v ← json_at p i; get_string v.

Definition checkJsonRPCSpec (request : json) : outcome bool :=
  rethrow "Error while checking json RPC spec: " (
    if negb (contains request (str "jsonrpc")) then Ok false
    else
      v ← (x ← const_index request (str "jsonrpc"); get_string x);
      if negb (bool_decide (v = str "2.0")) then Ok false
      else if negb (contains request (str "method")) then Ok false
      else if contains request (str "params") then
        p ← params request;
        Ok (is_object p || is_array p)
      else Ok true).

Inductive Methods :=
  | m_invalid | m_web3_clientVersion | m_web3_sha3 | m_net_version | m_net_listening
  | m_net_peerCount | m_eth_protocolVersion | m_eth_getBlockByHash | m_eth_getBlockByNumber
  | m_eth_getBlockTransactionCountByHash | m_eth_getBlockTransactionCountByNumber
  | m_eth_getUncleCountByBlockHash | m_eth_getUncleCountByBlockNumber | m_eth_chainId
  | m_eth_syncing | m_eth_coinbase | m_eth_accounts | m_eth_blockNumber | m_eth_call
  | m_eth_estimateGas | m_eth_createAccessList | m_eth_gasPrice | m_eth_maxPriorityFeePerGas
  | m_eth_feeHistory | m_eth_newFilter | m_eth_newBlockFilter | m_eth_newPendingTransactionFilter
  | m_eth_uninstallFilter | m_eth_getFilterChanges | m_eth_getFilterLogs | m_eth_getLogs
  | m_eth_mining | m_eth_hashrate | m_eth_getWork | m_eth_submitWork | m_eth_submitHashrate
  | m_eth_sign | m_eth_signTransaction | m_eth_getBalance | m_eth_getStorageAt
  | m_eth_getTransactionCount | m_eth_getCode | m_eth_getProof | m_eth_sendTransaction
  | m_eth_sendRawTransaction | m_eth_getRawTransaction | m_eth_getTransactionByHash
  | m_eth_getTransactionByBlockHashAndIndex | m_eth_getTransactionByBlockNumberAndIndex
  | m_eth_getTransactionReceipt.

(** The implemented methods, and [eth_sendTransaction], which is not. *)
Definition methodsLookupTable : list (bytes * Methods) :=
  [ (str "web3_clientVersion", m_web3_clientVersion);
    (str "web3_sha3", m_web3_sha3);
    (str "net_version", m_net_version);
    (str "net_listening", m_net_listening);
    (str "net_peerCount", m_net_peerCount);
    (str "eth_protocolVersion", m_eth_protocolVersion);
    (str "eth_getBlockByHash", m_eth_getBlockByHash);
    (str "eth_getBlockByNumber", m_eth_getBlockByNumber);
    (str "eth_getBlockTransactionCountByHash", m_eth_getBlockTransactionCountByHash);
    (str "eth_getBlockTransactionCountByNumber", m_eth_getBlockTransactionCountByNumber);
    (str "eth_chainId", m_eth_chainId);
    (str "eth_syncing", m_eth_syncing);
    (str "eth_coinbase", m_eth_coinbase);
    (str "eth_blockNumber", m_eth_blockNumber);
    (str "eth_call", m_eth_call);
    (str "eth_estimateGas", m_eth_estimateGas);
    (str "eth_gasPrice", m_eth_gasPrice);
    (str "eth_getBalance", m_eth_getBalance);
    (str "eth_getTransactionCount", m_eth_getTransactionCount);
    (str "eth_getCode", m_eth_getCode);
    (str "eth_sendTransaction", m_eth_sendTransaction);
    (str "eth_sendRawTransaction", m_eth_sendRawTransaction);
    (str "eth_getTransactionByHash", m_eth_getTransactionByHash);
    (str "eth_getTransactionByBlockHashAndIndex", m_eth_getTransactionByBlockHashAndIndex);
    (str "eth_getTransactionByBlockNumberAndIndex", m_eth_getTransactionByBlockNumberAndIndex);
    (str "eth_getTransactionReceipt", m_eth_getTransactionReceipt) ].

Definition find_method (table : list (bytes * Methods)) (name : bytes) : Methods :=
  match list_find (λ e, e.1 = name) table with Some (_, e) => e.2 | None => m_invalid end.

Definition getMethod (request : json) : outcome Methods :=
  rethrow "Error while checking json RPC spec: " (
    method ← (x ← const_index request (str "method"); get_string x);
    Ok (find_method methodsLookupTable method)).

(** ** Methods without parameters *)

Definition no_params (name : string) (request : json) : outcome unit :=
  decoding name (
    p ← params request;
    throw_if (negb (json_empty p)) (runtime_error (name +:+ " does not need params"))).

Definition web3_clientVersion (request : json) : outcome unit := no_params "web3_clientVersion" request.
Definition net_version (request : json) : outcome unit := no_params "net_version" request.
Definition net_listening (request : json) : outcome unit := no_params "net_listening" request.
Definition net_peerCount (request : json) : outcome unit := no_params "net_peerCount" request.
Definition eth_protocolVersion (request : json) : outcome unit := no_params "eth_protocolVersion" request.
Definition eth_chainId (request : json) : outcome unit := no_params "eth_chainId" request.
Definition eth_syncing (request : json) : outcome unit := no_params "eth_syncing" request.
Definition eth_coinbase (request : json) : outcome unit := no_params "eth_coinbase" request.
Definition eth_blockNumber (request : json) : outcome unit := no_params "eth_blockNumber" request.
Definition eth_gasPrice (request : json) : outcome unit := no_params "eth_gasPrice" request.

(** ** Methods with parameters *)

Definition web3_sha3 (request : json) : outcome bytes :=
  decoding "web3_sha3" (
    p ← params request;
    _ ← throw_if (negb (json_size p =? 1)) (runtime_error "web3_sha3 needs 1 param");
    data ← (v ← json_at p 0; get_string v);
    _ ← throw_if (negb (isValid data true)) (runtime_error "Invalid hex string");
    toBytes data).

(** [if (request["params"].size() == 2) includeTransactions = ...]. *)
Definition include_transactions (request : json) : outcome bool :=
  p ← params request;
  if json_size p =? 2 then v ← json_at p 1; get_bool v else Ok false.

(** [Hash(Hex::toBytes(s))], which takes a temporary string. *)
Definition hash_param (filter : regex) (s : bytes) (what : string) : outcome bytes :=
  _ ← filtered filter s what;
  b ← toBytes s; Ok (FixedStr_ctor 32 b).

Definition eth_getBlockByHash (request : json) : outcome (bytes * bool) :=
  decoding "eth_getBlockByHash" (
    includeTransactions ← include_transactions request;
    blockHash ← param_string request 0;
    h ← hash_param hashFilter blockHash "Invalid block hash hex";
    Ok (h, includeTransactions)).

(** [storage->latest()->getNHeight()]. *)
Definition latest_height (storage : Storage) : outcome Z := b ← latest storage; Ok (b_nHeight b).

(** The height named by a text that may be a tag. *)
Definition tagged_number (storage : Storage) (blockNumber : bytes) : outcome Z :=
  if bool_decide (blockNumber = str "latest") then latest_height storage
  else if bool_decide (blockNumber = str "earliest") then Ok 0
  else
    _ ← throw_if (bool_decide (blockNumber = str "pending")) (runtime_error "Pending block is not supported");
    _ ← filtered numberFilter blockNumber "Invalid block hash hex";
    hex_uint64 blockNumber.

Definition eth_getBlockByNumber (storage : Storage) (request : json) : outcome (Z * bool) :=
  decoding "eth_getBlockByNumber" (
    includeTransactions ← include_transactions request;
    blockNumber ← param_string request 0;
    n ← tagged_number storage blockNumber;
    Ok (n, includeTransactions)).

Definition eth_getBlockTransactionCountByHash (request : json) : outcome bytes :=
  decoding "eth_getBlockTransactionCountByHash" (
    blockHash ← param_string request 0;
    hash_param hashFilter blockHash "Invalid block hash hex").

Definition eth_getBlockTransactionCountByNumber (storage : Storage) (request : json) : outcome Z :=
  decoding "eth_getBlockTransactionCountByNumber" (
    blockNumber ← param_string request 0;
    tagged_number storage blockNumber).

(** [if (block != "latest") { ... }]: any other block must be the latest. *)
Definition only_latest (storage : Storage) (block : bytes) : outcome unit :=
  if bool_decide (block = str "latest") then Ok tt
  else
    _ ← filtered numberFilter block "Invalid block number";
    blockNumber ← hex_uint64 block;
    height ← latest_height storage;
    throw_if (negb (blockNumber =? height)) (runtime_error "Only latest block is supported").

(** [Address(Hex::toBytes(s), true)] after the filter. *)
Definition address_param (s : bytes) (what : string) : outcome bytes :=
  _ ← filtered addressFilter s what;
  b ← toBytes s; Address_ctor b true.

Definition number_param (conv : bytes → outcome Z) (s : bytes) (what : string) : outcome Z :=
  _ ← filtered numberFilter s what; conv s.

(** [if (txObject.contains(k) && !txObject[k].is_null()) x = read(txObject[k].get<std::string>())]. *)
Definition optional {A} (txObject : json) (k : string) (d : A) (read : bytes → outcome A) : outcome A :=
  if contains txObject (str k) then
    '(v, _) ← index txObject (str k);
    if is_null v then Ok d else s ← get_string v; read s
  else Ok d.

(** The object of a call: the first parameter, or the parameters themselves. *)
Definition call_object (storage : Storage) (request : json) : outcome json :=
  p ← params request;
  if is_array p then
    txObject ← json_at p 0;
    _ ← (if 1 <? json_size p then block ← param_string request 1; only_latest storage block else Ok tt);
    Ok txObject
  else if is_object p then Ok p
  else Throw (runtime_error "Invalid params").

Definition data_param (s : bytes) : outcome bytes :=
  _ ← throw_if (negb (isValid s true)) (runtime_error "Invalid data hex"); toBytes s.

Definition eth_call (storage : Storage) (request : json) : outcome ethCallInfo :=
  decoding "eth_call" (
    txObject ← call_object storage request;
    from ← optional txObject "from" Address_empty (λ s, address_param s "Invalid from address hex");
    to ← ('(v, _) ← index txObject (str "to"); s ← get_string v; address_param s "Invalid to address hex");
    gas ← optional txObject "gas" 0 (λ s, number_param hex_uint64 s "Invalid gas hex");
    gasPrice ← optional txObject "gasPrice" 0 (λ s, number_param hex_uint s "Invalid gasPrice hex");
    value ← optional txObject "value" 0 (λ s, number_param hex_uint s "Invalid value hex");
    data ← optional txObject "data" [] data_param;
    Ok (mkCallInfo from to gas gasPrice value data)).

Definition eth_estimateGas (storage : Storage) (request : json) : outcome ethCallInfo :=
  decoding "eth_estimateGas" (
    txObject ← call_object storage request;
    from ← optional txObject "from" Address_empty (λ s, address_param s "Invalid from address hex");
    to ← optional txObject "to" Address_empty (λ s, address_param s "Invalid to address hex");
    gas ← optional txObject "gas" (2 ^ 64 - 1) (λ s, number_param hex_uint64 s "Invalid gas hex");
    gasPrice ← optional txObject "gasPrice" 0 (λ s, number_param hex_uint s "Invalid gasPrice hex");
    value ← optional txObject "value" 0 (λ s, number_param hex_uint s "Invalid value hex");
    data ← optional txObject "data" [] data_param;
    Ok (mkCallInfo from to gas gasPrice value data)).

(** The three queries of an account have the same body. *)
Definition account_query (name : string) (storage : Storage) (request : json) : outcome bytes :=
  decoding name (
    address ← param_string request 0;
    block ← param_string request 1;
    _ ← only_latest storage block;
    address_param address "Invalid address hex").

Definition eth_getBalance (storage : Storage) (request : json) : outcome bytes :=
  account_query "eth_getBalance" storage request.
Definition eth_getTransactionCount (storage : Storage) (request : json) : outcome bytes :=
  account_query "eth_getTransactionCount" storage request.
Definition eth_getCode (storage : Storage) (request : json) : outcome bytes :=
  account_query "eth_getCode" storage request.

Definition eth_sendRawTransaction (requiredChainId : Z) (request : json) : outcome TxBlock :=
  decoding "eth_sendRawTransaction" (
    txHex ← param_string request 0;
    _ ← throw_if (negb (isValid txHex true)) (runtime_error "Invalid transaction hex");
    b ← toBytes txHex;
    TxBlock_parse b requiredChainId).

Definition eth_getTransactionByHash (request : json) : outcome bytes :=
  decoding "eth_getTransactionByHash" (
    hash ← param_string request 0;
    hash_param txHashFilter hash "Invalid hash hex").

Definition eth_getTransactionByBlockHashAndIndex (request : json) : outcome (bytes * Z) :=
  decoding "eth_getTransactionByBlockHashAndIndex" (
    blockHash ← param_string request 0;
    index ← param_string request 1;
    _ ← filtered txHashFilter blockHash "Invalid blockHash hex";
    _ ← filtered numberFilter index "Invalid index hex";
    h ← toBytes blockHash;
    i ← hex_uint64 index;
    Ok (FixedStr_ctor 32 h, i)).

Definition eth_getTransactionByBlockNumberAndIndex (storage : Storage) (request : json) : outcome (Z * Z) :=
  decoding "eth_getTransactionByBlockNumberAndIndex" (
    blockNumber ← param_string request 0;
    index ← param_string request 1;
    _ ← filtered numberFilter index "Invalid index hex";
    if bool_decide (blockNumber = str "latest") then
      n ← latest_height storage; i ← hex_uint64 index; Ok (n, i)
    else
      _ ← filtered numberFilter blockNumber "Invalid blockNumber hex";
      n ← hex_uint64 blockNumber; i ← hex_uint64 index; Ok (n, i)).

Definition eth_getTransactionReceipt (request : json) : outcome bytes :=
  decoding "eth_getTransactionReceipt" (
    txHash ← param_string request 0;
    hash_param txHashFilter txHash "Invalid Hex").

End Decoding.
