(* ===== verification/Options.v ===== *)
(** * Options: the configuration of a node (src/utils/options.{h.in,cpp})

    An [Options] object and the file [options.json] it is written to and read
    from.  The file is the JSON value it holds, or nothing when it does not
    exist; the text of the value is the business of the JSON library. *)

From S2P Require Import Prelude Utils Hex Strings Ecdsa Tx P2PEncoding Json.

Record Options := mkOptions {
  rootPath : bytes;
  SDKVersion : Z;
  web3clientVersion : bytes;
  version : Z;
  chainID : Z;
  wsPort : Z;
  httpPort : Z;
  coinbase : bytes;
  isValidator : bool;
  discoveryNodes : list (address * Z);
}.

#[export] Instance Options_eq_dec : EqDecision Options.
Proof. solve_decision. Defined.

(** Four or sixteen bytes. *)
Definition address_ok (a : address) : Prop :=
  bytes_ok (to_bytes a) ∧ length (to_bytes a) = if is_v4 a then 4%nat else 16%nat.

#[export] Instance address_ok_dec a : Decision (address_ok a).
Proof. unfold address_ok. apply _. Defined.

(** [boost::asio::ip::address::to_string], read back by [from_string]. *)
Class BoostIpText `{BoostIp} := {
  addr_to_string : address → bytes;
  addr_text_roundtrip : ∀ a, address_ok a → from_string (addr_to_string a) = Ok a;
}.

Section Options.
Context `{Keccak} `{Secp256k1Lib} `{BoostIpText}.
(** [CMAKE_PROJECT_VERSION]. *)
Context (sdk : Z).

(** What is on the disk. *)
Abbreviation file := (option json).

Definition node_json (n : address * Z) : outcome json :=
  build (JObject []) [(["address"], Ok (JString (addr_to_string n.1))); (["port"], Ok (JUint n.2))].

Definition nodes_json (l : list (address * Z)) : outcome json :=
  l ← foldM (λ l n, j ← node_json n; Ok (l ++ [j])) [] l; Ok (JArray l).

(** The entries both constructors write. *)
Definition common_json (rootPath web3 : bytes) (version chainID wsPort httpPort : Z) (nodes : list (address * Z))
    : list (list string * outcome json) :=
  [ (["rootPath"], Ok (JString rootPath));
    (["web3clientVersion"], Ok (JString web3));
    (["version"], Ok (JUint version));
    (["chainID"], Ok (JUint chainID));
    (["wsPort"], Ok (JUint wsPort));
    (["httpPort"], Ok (JUint httpPort));
    (["discoveryNodes"], nodes_json nodes) ].

(** [if (std::filesystem::exists(...)) return;], else the file is written. *)
Definition write_new (content : outcome json) : ST file unit := λ f,
  match f with
  | Some _ => (Ok tt, f)
  | None => match content with Ok j => (Ok tt, Some j) | Throw e => (Throw e, f) | Undef => (Undef, f) end
  end.

Definition Options_new (rootPath web3 : bytes) (version chainID wsPort httpPort : Z) (nodes : list (address * Z))
    : ST file Options :=
  _ ← write_new (build JNull (common_json rootPath web3 version chainID wsPort httpPort nodes ++
                              [(["isValidator"], Ok (JBool false))]));
  mret (mkOptions rootPath sdk web3 version chainID wsPort httpPort Address_empty false nodes).

Definition Options_validator (rootPath web3 : bytes) (version chainID wsPort httpPort : Z)
    (nodes : list (address * Z)) (privKey : bytes) : ST file Options :=
  coinbase ← lift (u ← toUPub_priv privKey; toAddress u);
  _ ← write_new (build JNull (common_json rootPath web3 version chainID wsPort httpPort nodes ++
                              [(["privKey"], h ← FixedStr_hex privKey false; Ok (JString (hex h)))]));
  mret (mkOptions rootPath sdk web3 version chainID wsPort httpPort coinbase true nodes).

(** [PrivKey(Hex::toBytes(options["privKey"].get<std::string>()))]. *)
Definition stored_key (options : json) : outcome bytes :=
  '(v, _) ← index options (str "privKey");
  s ← get_string v; b ← toBytes s; Ok (FixedStr_ctor 32 b).

(** Reads the file again; parsing nothing throws. *)
Definition getValidatorPrivKey (f : file) : outcome bytes :=
  match f with
  | None => Throw (json_exception "parse_error.101")
  | Some options =>
      if contains options (str "privKey") then stored_key options else Ok (FixedStr_empty 32)
  end.

(** [for (const auto& node : j)]. *)
Definition json_items (j : json) : list json :=
  match j with JNull => [] | JArray l => l | JObject o => o.*2 | _ => [j] end.

Definition read_node (node : json) : outcome (address * Z) :=
  a ← (v ← const_index node (str "address"); s ← get_string v; from_string s);
  p ← (v ← const_index node (str "port"); get_uint64 v);
  Ok (a, p).

Definition option_string (options : json) (k : string) : outcome bytes :=
  '(v, _) ← index options (str k); get_string v.
Definition option_uint (options : json) (k : string) : outcome Z :=
  '(v, _) ← index options (str k); get_uint64 v.

(** The [try] block of [fromFile]; ports narrow to 16 bits. *)
Definition read_options (root : bytes) : ST file Options := λ f,
  match f with
  | None => Options_new root (str "OrbiterSDK/cpp/linux_x86-64/0.0.2") 2 8080 8080 8081 [] f
  | Some options =>
      (nodes ← lift ('(v, _) ← index options (str "discoveryNodes");
                     foldM (λ l node, n ← read_node node; Ok (l ++ [n])) [] (json_items v));
       rootPath ← lift (option_string options "rootPath");
       web3 ← lift (option_string options "web3clientVersion");
       version ← lift (option_uint options "version");
       chainID ← lift (option_uint options "chainID");
       wsPort ← lift (option_uint options "wsPort");
       httpPort ← lift (option_uint options "httpPort");
       if contains options (str "privKey") then
         key ← lift (stored_key options);
         Options_validator rootPath web3 version chainID (u16 wsPort) (u16 httpPort) nodes key
       else Options_new rootPath web3 version chainID (u16 wsPort) (u16 httpPort) nodes) f
  end.

(** [None] is the string literal it throws, which is no [std::exception]. *)
Definition fromFile (root : bytes) : ST file (option Options) := λ f,
  match read_options root f with
  | (Ok o, f) => (Ok (Some o), f)
  | (Throw _, f) => (Ok None, f)
  | (Undef, f) => (Undef, f)
  end.

(** * Lemmas *)

Definition node_entry (n : address * Z) : json :=
  JObject [(str "address", JString (addr_to_string n.1)); (str "port", JUint n.2)].

Lemma nodes_json_Ok l : nodes_json l = Ok (JArray (node_entry <$> l)).
Proof.
  assert (∀ acc, foldM (λ l n, j ← node_json n; Ok (l ++ [j])) acc l = Ok (acc ++ (node_entry <$> l))) as Hf.
  { induction l as [|n l IH]; intros acc; [by rewrite app_nil_r|]. cbn [foldM].
    change (node_json n) with (Ok (node_entry n)). rewrite !Ok_bind, IH. by rewrite <-app_assoc. }
  unfold nodes_json. by rewrite Hf.
Qed.

Lemma read_nodes l :
  Forall (λ n, address_ok n.1) l →
  foldM (λ l node, n ← read_node node; Ok (l ++ [n])) [] (node_entry <$> l) = Ok l.
Proof using Type*.
  intros Hok. assert (∀ acc, foldM (λ l node, n ← read_node node; Ok (l ++ [n])) acc (node_entry <$> l) = Ok (acc ++ l)) as Hf.
  { induction Hok as [|n l Hn Hok IH]; intros acc; [by rewrite app_nil_r|]. cbn [foldM fmap list_fmap].
    assert (read_node (node_entry n) = Ok n) as ->.
    { change (read_node (node_entry n)) with (a ← from_string (addr_to_string n.1); Ok (a, n.2)).
      rewrite addr_text_roundtrip, Ok_bind by done. by destruct n. }
    rewrite !Ok_bind, IH. by rewrite <-app_assoc. }
  apply Hf.
Qed.

(** The file, with its last entry. *)
Definition options_json (root web3 : bytes) (v c ws hp : Z) (nodes : list (address * Z))
    (validator : option bytes) : json :=
  let nodes := JArray (node_entry <$> nodes) in
  JObject match validator with
  | None => [(str "chainID", JUint c); (str "discoveryNodes", nodes); (str "httpPort", JUint hp);
      (str "isValidator", JBool false); (str "rootPath", JString root);
      (str "version", JUint v); (str "web3clientVersion", JString web3); (str "wsPort", JUint ws)]
  | Some key => [(str "chainID", JUint c); (str "discoveryNodes", nodes); (str "httpPort", JUint hp);
      (str "privKey", JString key); (str "rootPath", JString root);
      (str "version", JUint v); (str "web3clientVersion", JString web3); (str "wsPort", JUint ws)]
  end.

Lemma build_validator root web3 v c ws hp nodes key :
  build JNull (common_json root web3 v c ws hp nodes ++ [(["privKey"], Ok (JString key))]) =
  Ok (options_json root web3 v c ws hp nodes (Some key)).
Proof.
  unfold common_json. rewrite nodes_json_Ok. unfold options_json.
  generalize (JArray (node_entry <$> nodes)) as j. intros j. vm_compute. reflexivity.
Qed.

Lemma build_new root web3 v c ws hp nodes :
  build JNull (common_json root web3 v c ws hp nodes ++ [(["isValidator"], Ok (JBool false))]) =
  Ok (options_json root web3 v c ws hp nodes None).
Proof.
  unfold common_json. rewrite nodes_json_Ok. unfold options_json.
  generalize (JArray (node_entry <$> nodes)) as j. intros j. vm_compute. reflexivity.
Qed.

(** Reading the file back. *)
Lemma read_file r0 root web3 v c ws hp nodes k :
  Forall (λ n, address_ok n.1) nodes →
  read_options r0 (Some (options_json root web3 v c ws hp nodes k)) =
  match k with
  | None => Options_new root web3 v c (u16 ws) (u16 hp) nodes
  | Some text =>
      key ← lift (b ← toBytes text; Ok (FixedStr_ctor 32 b));
      Options_validator root web3 v c (u16 ws) (u16 hp) nodes key
  end (Some (options_json root web3 v c ws hp nodes k)).
Proof using Type*.
  intros Hok. unfold read_options. set (o := options_json _ _ _ _ _ _ _ _).
  assert (index o (str "discoveryNodes") = Ok (JArray (node_entry <$> nodes), o)) as -> by (destruct k; reflexivity).
  rewrite Ok_bind. cbn [json_items]. rewrite (read_nodes nodes Hok), lift_bind.
  assert (option_string o "rootPath" = Ok root) as -> by (destruct k; reflexivity).
  assert (option_string o "web3clientVersion" = Ok web3) as -> by (destruct k; reflexivity).
  assert (option_uint o "version" = Ok v) as -> by (destruct k; reflexivity).
  assert (option_uint o "chainID" = Ok c) as -> by (destruct k; reflexivity).
  assert (option_uint o "wsPort" = Ok ws) as -> by (destruct k; reflexivity).
  assert (option_uint o "httpPort" = Ok hp) as -> by (destruct k; reflexivity).
  rewrite !lift_bind.
  destruct k as [text|].
  - assert (contains o (str "privKey") = true) as -> by reflexivity.
    assert (stored_key o = (b ← toBytes text; Ok (FixedStr_ctor 32 b))) as -> by reflexivity. reflexivity.
  - assert (contains o (str "privKey") = false) as -> by reflexivity. reflexivity.
Qed.

Lemma key_text_roundtrip key :
  length key = 32%nat → bytes_ok key →
  ∃ h, FixedStr_hex key false = Ok h ∧ (b ← toBytes (hex h); Ok (FixedStr_ctor 32 b)) = Ok key.
Proof.
  intros Hl Hb. assert (key ≠ []) as Hne by (by intros ->).
  exists (mkHex (flat_map byte_hex key) false). split; [apply (fromBytes_spec key false Hb)|].
  cbn [hex]. rewrite (toBytes_spec key false Hb (or_intror Hne) : toBytes (flat_map byte_hex key) = Ok key), Ok_bind. f_equal.
  unfold FixedStr_ctor, resize_str. rewrite Hl, Nat.sub_diag, take_ge by lia. apply app_nil_r.
Qed.

(** * Properties *)


(** A file that is already there is not changed, and its key, or the zero key
    when it has none, is what [getValidatorPrivKey] returns, whatever key the
    options were made with. *)
Theorem options_key_of_old_file root web3 v c ws hp nodes key o f root' web3' v' c' ws' hp' nodes' :
  Options_validator root web3 v c ws hp nodes key (Some (options_json root' web3' v' c' ws' hp' nodes' None)) = (Ok o, f) →
  isValidator o = true ∧ getValidatorPrivKey f = Ok (FixedStr_empty 32).
Proof.
  unfold Options_validator. destruct (u ← toUPub_priv key; toAddress u) as [cb| |]; [|discriminate..].
  rewrite lift_bind. intros Ho. injection Ho as <- <-. by split.
Qed.

End Options.

(** ** A configuration *)

(** The toy parser, with version 6 addresses as 32 hexadecimal digits. *)
Definition from_string6 (s : bytes) : outcome address :=
  match toy_from_string s with
  | Ok a => Ok a
  | _ => if forallb is_hex_char s && (length s =? 32)%nat then Ok (ip_v6 (decode_pairs s))
         else Throw (runtime_error "invalid address")
  end.

Lemma no_dots s l z : 46 ∉ s → (foldl dotted_step (l, z) s).1 = l.
Proof.
  revert z. induction s as [|c s IH]; intros z Hs; [done|]. apply not_elem_of_cons in Hs as [Hc Hs].
  cbn [foldl]. unfold dotted_step at 2. rewrite (proj2 (Z.eqb_neq c 46)) by done. by apply IH.
Qed.

Lemma hex_text_no_address s : forallb is_hex_char s = true → ∃ e, toy_from_string s = Throw e.
Proof.
  intros Hs. assert (46 ∉ s) as Hd.
  { intros Hin. rewrite forallb_forall in Hs. specialize (Hs 46). rewrite <-list_elem_of_In in Hs. by specialize (Hs Hin). }
  unfold toy_from_string. pose proof (no_dots s [] 0 Hd) as Hl.
  destruct (foldl dotted_step ([], 0) s) as [l z]. cbn in Hl. subst l. rewrite orb_true_r. by eexists.
Qed.

Definition toy_boost6 : BoostIp.
Proof.
  refine {| from_string := from_string6 |}.
  - intros l s Hl Hb Hs. unfold from_string6. by rewrite (toy_from_string_v4 l s).
  - intros s Hs. unfold from_string6. destruct (@from_string_colons toy_boost s Hs : ∃ e, toy_from_string s = Throw e) as [e ->].
    destruct (forallb is_hex_char s) eqn:E; [|by eexists].
    destruct (List.filter (Z.eqb 58) s) as [|c r] eqn:Ef; [cbn in Hs; lia|].
    assert (List.In c (List.filter (Z.eqb 58) s)) as Hin by (rewrite Ef; by left).
    apply filter_In in Hin as [Hin Hc]. apply Z.eqb_eq in Hc as <-.
    rewrite forallb_forall in E. by specialize (E 58 Hin).
  - intros s. unfold from_string6. destruct (toy_from_string s); [done|by case_match..].
Defined.

Definition toy_ip_text : @BoostIpText toy_boost6.
Proof.
  refine {| addr_to_string a := match a with
    | ip_v4 l => match ip_text 46 l with Ok s => s | _ => [] end
    | ip_v6 l => flat_map byte_hex l end |}.
  intros [l|l] [Hb Hl]; cbn in Hb, Hl.
  - destruct (ip_text 46 l) as [s| |] eqn:E; [|by destruct l..].
    by apply (@from_string_v4 toy_boost6 l s).
  - cbn. unfold from_string6.
    destruct (hex_text_no_address _ (flat_byte_hex_all l Hb)) as [e ->].
    rewrite flat_byte_hex_all, flat_byte_hex_length, Hl, decode_byte_hex by done. done.
Defined.

#[local] Existing Instances toy_keccak toy_secp toy_boost6 toy_ip_text.

Definition sample_nodes : list (address * Z) := [(ip_v4 [127; 0; 0; 1], 8080); (ip_v6 (replicate 15 0 ++ [1]), 8081)].


Lemma options_key_of_old_file_witness :
  ∃ o f, Options_validator 2 (str "chain") (str "web3") 2 8080 8080 8081 [] sample_key
      (Some (options_json (str "chain") (str "web3") 2 8080 8080 8081 [] None)) = (Ok o, f) ∧
    isValidator o = true ∧ getValidatorPrivKey f = Ok (FixedStr_empty 32).
Proof.
  eexists _, _. split; [vm_compute; reflexivity|].
  eapply (options_key_of_old_file 2 (str "chain") (str "web3") 2 8080 8080 8081 [] sample_key _ _
    (str "chain") (str "web3") 2 8080 8080 8081 []).
  vm_compute. reflexivity.
Defined.
