(* ===== verification/P2PSession.v ===== *)
(** * P2PSession: connections between nodes (src/net/p2p/p2pbase, p2pserver, p2pclient)

    A session is an object whose handlers the I/O threads call when an
    asynchronous operation is over.  Modelled are the handlers: the handshake,
    in which each node reads the id, type and port of the other from HTTP
    headers; the loop that reads messages and hands them to the manager; and
    the writes, one at a time under a lock.  The sockets and the websocket
    library are the arguments of the handlers: error codes, headers, frames. *)

From stdpp Require Import pretty.
From S2P Require Import Prelude Utils Hex Strings SafeHash Ecdsa Tx Block State P2PEncoding P2PManager.

(** ** Handshake headers *)

(** A header that is not there reads as the empty text. *)
Abbreviation headers := (string → bytes).

(** The decorator of [on_run] and [on_connect]. *)
Definition node_headers (nodeId : bytes) (type : NodeType) (port : Z) : outcome headers :=
  id ← FixedStr_hex nodeId false;
  Ok (λ name,
    if bool_decide (name = "X-Node-Id") then hex id
    else if bool_decide (name = "X-Node-Type") then
      str (match type with NORMAL_NODE => "0" | DISCOVERY_NODE => "1" end)
    else if bool_decide (name = "X-Node-ServerPort") then str (pretty port)
    else []).

(** [std::stoi] of a text of decimal digits. *)
Definition digits_value (s : bytes) : Z := foldl (λ n c, n * 10 + (c - 48)) 0 s.
Definition stoi (s : bytes) : outcome Z :=
  if digits_value s <? 2 ^ 31 then Ok (digits_value s) else Throw out_of_range.

(** What the handlers of both sides read: nothing if they return early, or the
    id, type and port.  An id that is not hex leaves the zeros of the
    constructor. *)
Definition read_handshake (h : headers) : outcome (option (bytes * NodeType * Z)) :=
  nodeId ← try_catch (b ← toBytes (h "X-Node-Id"); Ok (FixedStr_ctor 32 b)) (λ _, Ok Hash_zero);
  let nodeTypeStr := h "X-Node-Type" in
  if negb (zlen nodeTypeStr =? 1) then Ok None
  else
    c ← at_str nodeTypeStr 0;
    if negb (isdigit c) then Ok None
    else
      i ← stoi nodeTypeStr;
      type ← NodeType_cast i;
      let serverPortStr := h "X-Node-ServerPort" in
      if negb (0 <? zlen serverPortStr) then Ok None
      else if negb (forallb isdigit serverPortStr) then Ok None
      else port ← stoi serverPortStr; Ok (Some (nodeId, type, u16 port)).

(** ** Session objects *)

Inductive stage :=
  | Handshaking                          (** waiting for the headers *)
  | Accepting                            (** the server has read them and answers *)
  | Reading                              (** a read is under way *)
  | Ended.                               (** no handler will be called but those of writes *)

Record Conn := mkConn {
  cn_ptr : Z;
  cn_connectionType : ConnectionType;
  cn_stage : stage;
  cn_host : bytes * NodeType * Z;        (** [hostNodeId_], [hostType_], [hostServerPort_] *)
  cn_address : address;
  cn_tasks : list Message;               (** handed to the thread pool for [handleMessage] *)
}.

(** The type and the port are not initialised. *)
Definition Conn_ctor (ptr : Z) (type : ConnectionType) (noType : NodeType) (noPort : Z) : Conn :=
  mkConn ptr type Handshaking (Hash_zero, noType, noPort) (ip_v4 []) [].

Definition cn_session (c : Conn) : Session :=
  mkSession (cn_ptr c) (cn_connectionType c) (cn_host c).1.1 (cn_host c).1.2 (cn_address c) (cn_host c).2.

Definition set_stage (c : Conn) (s : stage) : Conn :=
  mkConn (cn_ptr c) (cn_connectionType c) s (cn_host c) (cn_address c) (cn_tasks c).
Definition set_host (c : Conn) (h : bytes * NodeType * Z) : Conn :=
  mkConn (cn_ptr c) (cn_connectionType c) (cn_stage c) h (cn_address c) (cn_tasks c).
Definition set_address (c : Conn) (a : address) : Conn :=
  mkConn (cn_ptr c) (cn_connectionType c) (cn_stage c) (cn_host c) a (cn_tasks c).
Definition add_task (c : Conn) (m : Message) : Conn :=
  mkConn (cn_ptr c) (cn_connectionType c) (cn_stage c) (cn_host c) (cn_address c) (cn_tasks c ++ [m]).

Section Session.
Context `{Keccak, Secp256k1Lib, HashMapOrder, BoostIp, !ChainNode}.

(** A handler of the session [c], called with an error code or not. *)
Definition on_manager {A} (op : ST Manager A) : ST (Conn * Manager) A := λ '(c, m),
  let '(r, m) := op m in (r, (c, m)).
Definition on_conn (f : Conn → Conn) : ST (Conn * Manager) unit := modify (λ '(c, m), (f c, m)).

(** [{ handleError(__func__, ec); return; }] *)
Definition fail_session : ST (Conn * Manager) unit :=
  c ← gets fst;
  _ ← on_manager (handleError (cn_session c));
  on_conn (λ c, set_stage c Ended).

(** The end of both handshakes. *)
Definition register_and_read (remote : address) : ST (Conn * Manager) unit :=
  _ ← on_conn (λ c, set_address c remote);
  c ← gets fst;
  ok ← on_manager (registerSession (cn_session c));
  on_conn (λ c, set_stage c (if (ok : bool) then Reading else Ended)).

Definition ServerSession_accept (ec : bool) (h : headers) : ST (Conn * Manager) unit :=
  if ec then fail_session
  else
    r ← lift (read_handshake h);
    match r with
    | None => on_conn (λ c, set_stage c Ended)
    | Some host => on_conn (λ c, set_stage (set_host c host) Accepting)
    end.

Definition ServerSession_on_accept (ec : bool) (remote : address) : ST (Conn * Manager) unit :=
  if ec then fail_session else register_and_read remote.

(** The lambda of [ClientSession::handshake]. *)
Definition ClientSession_handshake (ec : bool) (h : headers) (remote : address) : ST (Conn * Manager) unit :=
  if ec then fail_session
  else
    r ← lift (read_handshake h);
    match r with
    | None => on_conn (λ c, set_stage c Ended)
    | Some host => _ ← on_conn (λ c, set_host c host); register_and_read remote
    end.

(** [on_resolve], [on_connect] and [on_close] do nothing to the session unless
    there is an error. *)
Definition on_error_only (ec : bool) : ST (Conn * Manager) unit := if ec then fail_session else mret tt.

(** [on_read] of both classes; [frame] is what the buffer holds.  The buffer is
    consumed, and the next read started, unless the manager is closed. *)
Definition session_on_read (ec : bool) (frame : bytes) : ST (Conn * Manager) unit :=
  if ec then fail_session
  else if 11 <=? zlen frame then
    closed ← gets (λ cm : Conn * Manager, m_closed cm.2);
    if (closed : bool) then on_conn (λ c, set_stage c Ended)
    else
      _ ← catching (message ← lift (Message_ctor frame); on_conn (λ c, add_task c message)) (λ _, mret tt);
      on_conn (λ c, set_stage c Reading)
  else on_conn (λ c, set_stage c Reading).

End Session.

(** ** Writes

    [writeLock_] is taken by [write] and released by [on_write]; in between the
    buffer holds what is being written. *)
Record Outbox := mkOutbox {
  ob_locked : bool;
  ob_answerBuffer : bytes;
  ob_blocked : list bytes;     (** threads that wait for the lock, with their messages *)
  ob_wire : list bytes;        (** the frames that were written *)
  ob_lost : list bytes;        (** frames whose write failed *)
}.

Definition Outbox_ctor : Outbox := mkOutbox false [] [] [] [].

(** [write] once it has the lock: the buffer is committed and written. *)
Definition begin_write (message : bytes) (o : Outbox) : Outbox :=
  mkOutbox true (ob_answerBuffer o ++ message) (ob_blocked o) (ob_wire o) (ob_lost o).

(** [ClientSession::write], and [ServerSession::write] on an open stream. *)
Definition write (message : bytes) (o : Outbox) : Outbox :=
  if ob_locked o then mkOutbox true (ob_answerBuffer o) (ob_blocked o ++ [message]) (ob_wire o) (ob_lost o)
  else begin_write message o.
Definition ServerSession_write (is_open : bool) (message : bytes) (o : Outbox) : Outbox :=
  if is_open then write message o else o.

(** [on_write]: consumes the buffer and releases the lock. *)
Definition session_on_write (ec : bool) (o : Outbox) : Outbox :=
  mkOutbox false [] (ob_blocked o)
    (if ec then ob_wire o else ob_wire o ++ [ob_answerBuffer o])
    (if ec then ob_lost o ++ [ob_answerBuffer o] else ob_lost o).

(** A thread that waits gets the lock that is free. *)
Definition wake (i : nat) (o : Outbox) : Outbox :=
  match ob_blocked o !! i with
  | Some message =>
      begin_write message (mkOutbox false (ob_answerBuffer o) (delete i (ob_blocked o)) (ob_wire o) (ob_lost o))
  | None => o
  end.

(** What can happen to the writes of a session; the list is what was handed
    to an open stream. *)
Inductive write_step : list bytes * Outbox → list bytes * Outbox → Prop :=
  | wr_client l o message : write_step (l, o) (l ++ [message], write message o)
  | wr_server l o is_open message :
      write_step (l, o) (if is_open : bool then l ++ [message] else l, ServerSession_write is_open message o)
  | wr_done l o ec : ob_locked o = true → write_step (l, o) (l, session_on_write ec o)
  | wr_wake l o i : ob_locked o = false → write_step (l, o) (l, wake i o).

(** ** Properties *)

(** Between writes the buffer is empty, and every message is exactly one
    frame, on the wire, lost, being written or waiting. *)
Definition outbox_inv (l : list bytes) (o : Outbox) : Prop :=
  (ob_locked o = false → ob_answerBuffer o = []) ∧
  ob_wire o ++ ob_lost o ++ (if ob_locked o then [ob_answerBuffer o] else []) ++ ob_blocked o ≡ₚ l.

Lemma outbox_write_inv l o message : outbox_inv l o → outbox_inv (l ++ [message]) (write message o).
Proof.
  intros [He Hp]. unfold write, outbox_inv, begin_write. destruct (ob_locked o) eqn:E; simpl.
  - split; [done|]. rewrite <-Hp. by rewrite <-!(assoc_L (++)).
  - split; [done|]. rewrite He, <-Hp by done. simpl. solve_Permutation.
Qed.

Lemma write_step_inv s s' : write_step s s' → outbox_inv s.1 s.2 → outbox_inv s'.1 s'.2.
Proof.
  intros Hs. destruct Hs as [l o msg|l o [] msg|l o ec Hlock|l o i Hlock]; simpl; intros Hi; try by apply outbox_write_inv.
  - done.
  - destruct Hi as [_ Hp]. rewrite Hlock in Hp. unfold outbox_inv, session_on_write. simpl. split; [done|].
    rewrite <-Hp. destruct ec; solve_Permutation.
  - unfold wake. destruct (ob_blocked o !! i) as [msg|] eqn:E; [|done]. destruct Hi as [He Hp].
    rewrite Hlock in Hp. unfold outbox_inv, begin_write. simpl. split; [done|].
    rewrite <-Hp, He by done. simpl. rewrite (delete_Permutation (ob_blocked o) i msg E) at 2. done.
Qed.

Lemma write_reach_inv s s' : rtc write_step s s' → outbox_inv s.1 s.2 → outbox_inv s'.1 s'.2.
Proof. induction 1 as [|x y z Hs _ IH]; [done|]. intros Hi. by eapply IH, write_step_inv. Qed.

(** C33: however the threads that write to a session interleave, every message
    goes out as exactly one frame: the frames written, the frames lost, the one
    being written and the messages that wait are together the messages that
    were handed to the session, and two are never merged. *)
Theorem session_frames (l : list bytes) (o : Outbox) :
  rtc write_step ([], Outbox_ctor) (l, o) →
  ob_wire o ++ ob_lost o ++ (if ob_locked o then [ob_answerBuffer o] else []) ++ ob_blocked o ≡ₚ l.
Proof.
  intros Hr. apply write_reach_inv in Hr as []; done.
Qed.

(** ** Decimal numbers *)

Lemma digits_value_app a b : digits_value (a ++ b) = digits_value a * 10 ^ zlen b + digits_value b.
Proof.
  unfold digits_value. rewrite foldl_app. generalize (foldl (λ n c, n * 10 + (c - 48)) 0 a) as x.
  assert (∀ x, foldl (λ n c, n * 10 + (c - 48)) x b = x * 10 ^ zlen b + foldl (λ n c, n * 10 + (c - 48)) 0 b) as E; [|done].
  induction b as [|c b IH]; intros x; [unfold zlen; simpl; lia|].
  cbn [foldl]. rewrite IH, (IH (0 * 10 + _)). unfold zlen. simpl length. rewrite Nat2Z.inj_succ, Z.pow_succ_r by lia. lia.
Qed.

Lemma pretty_digit x :
  (x < 10)%N → str (String (pretty_N_char x) "") = [48 + Z.of_N x] ∧ isdigit (48 + Z.of_N x) = true.
Proof.
  intros Hx. split; [|apply bool_decide_eq_true; lia].
  assert (x = 0 ∨ x = 1 ∨ x = 2 ∨ x = 3 ∨ x = 4 ∨ x = 5 ∨ x = 6 ∨ x = 7 ∨ x = 8 ∨ x = 9)%N
    as Hc by lia. by repeat destruct Hc as [->|Hc]; [..|subst].
Qed.

Lemma pretty_N_go_digits (x : N) s :
  ∃ d, str (pretty_N_go x s) = d ++ str s ∧ digits_value d = Z.of_N x ∧ forallb isdigit d = true.
Proof.
  revert s. induction (N.lt_wf_0 x) as [x _ IH]; intros s.
  assert (x = 0 ∨ 0 < x)%N as [->|Hx] by lia.
  { exists []. by rewrite pretty_N_go_0. }
  rewrite pretty_N_go_step by done.
  destruct (IH (x `div` 10)%N ltac:(by apply N.div_lt) (String (pretty_N_char (x `mod` 10)) s)) as (d & -> & Hd & Hall).
  destruct (pretty_digit (x `mod` 10)) as [Hc Hdig]; [by apply N.mod_lt|].
  exists (d ++ [48 + Z.of_N (x `mod` 10)]). split; [|split].
  - rewrite <-(assoc_L (++)), <-Hc. done.
  - rewrite digits_value_app, Hd. unfold zlen, digits_value. simpl.
    rewrite N2Z.inj_div, N2Z.inj_mod. pose proof (Z.div_mod (Z.of_N x) 10). lia.
  - rewrite forallb_app, Hall. simpl. by rewrite Hdig.
Qed.

(** [std::to_string] prints digits that [std::stoi] reads back. *)
Lemma pretty_digits (n : Z) :
  0 ≤ n → digits_value (str (pretty n)) = n ∧ forallb isdigit (str (pretty n)) = true ∧ 0 < zlen (str (pretty n)).
Proof.
  intros Hn. destruct n as [|p|p]; [done| |lia].
  change (pretty (Z.pos p)) with (pretty (N.pos p)). unfold pretty, pretty_N. rewrite decide_False by done.
  destruct (pretty_N_go_digits (N.pos p) "") as (d & E & Hd & Hall). change (str "") with (@nil Z) in E.
  rewrite app_nil_r in E. rewrite E, Hd. split; [done|]. split; [done|].
  destruct d; [done|]. unfold zlen. simpl. lia.
Qed.

(** ** Handshakes *)

Section Handshakes.
Context `{Keccak, Secp256k1Lib, HashMapOrder, BoostIp, !ChainNode}.

(** The three headers decide what is read. *)
Lemma read_handshake_headers (h : headers) nodeId type :
  try_catch (b ← toBytes (h "X-Node-Id"); Ok (FixedStr_ctor 32 b)) (λ _, Ok Hash_zero) = Ok nodeId →
  h "X-Node-Type" = str (match type with NORMAL_NODE => "0" | DISCOVERY_NODE => "1" end) →
  0 < zlen (h "X-Node-ServerPort") → forallb isdigit (h "X-Node-ServerPort") = true →
  read_handshake h =
    (port ← stoi (h "X-Node-ServerPort"); Ok (Some (nodeId, type, u16 port))).
Proof.
  intros Hid Ht Hl Hd. unfold read_handshake. rewrite Hid, Ht, Ok_bind, Hd, (proj2 (Z.ltb_lt _ _)) by done.
  by destruct type.
Qed.

Lemma node_headers_read nodeId type port :
  length nodeId = 32%nat → bytes_ok nodeId → is_uint 16 port →
  ∃ h, node_headers nodeId type port = Ok h ∧ read_handshake h = Ok (Some (nodeId, type, port)).
Proof.
  intros Hl Hb Hp. unfold node_headers, FixedStr_hex.
  rewrite (fromBytes_spec nodeId false) by done. eexists. split; [reflexivity|].
  destruct (pretty_digits port) as (Hv & Hd & Hz); [unfold is_uint in Hp; lia|].
  rewrite (read_handshake_headers _ nodeId type); [|simpl..]; [| |done|exact Hz|exact Hd].
  - simpl. unfold stoi. rewrite Hv. rewrite (proj2 (Z.ltb_lt _ _)) by (unfold is_uint in Hp; lia).
    rewrite Ok_bind. unfold wrap. by rewrite Z.mod_small.
  - pose proof (toBytes_spec nodeId false Hb) as E. simpl in E. rewrite E by (right; by destruct nodeId).
    simpl. f_equal. unfold FixedStr_ctor, resize_str. rewrite take_ge, Hl by lia. simpl. apply app_nil_r.
Qed.

(** A session that is registered and reads. *)
Definition established (c : Conn) (m : Manager) (op : ST (Conn * Manager) unit) (s : Session) : Prop :=
  ∃ c' m', op (c, m) = (Ok tt, (c', m')) ∧ cn_stage c' = Reading ∧ cn_session c' = s ∧
    m_sessions m' = <[s_hostNodeId s := s]> (m_sessions m).

(** Both handlers, given headers that are read. *)
Lemma handshake_established (h : headers) nodeId type port c m remote :
  read_handshake h = Ok (Some (nodeId, type, port)) →
  m_closed m = false → m_sessions m !! nodeId = None →
  let s := mkSession (cn_ptr c) (cn_connectionType c) nodeId type remote port in
  established c m (_ ← ServerSession_accept false h; ServerSession_on_accept false remote) s ∧
  established c m (ClientSession_handshake false h remote) s.
Proof.
  intros Hr Ho Hn s. unfold established.
  split; (eexists _, _; split;
    [unfold ServerSession_accept, ServerSession_on_accept, ClientSession_handshake, register_and_read, registerSession,
       on_manager, on_conn, mbind, ST_bind, lift, gets, modify;
     rewrite Hr; simpl; rewrite Ho, Hn, (bool_decide_false (is_Some None)) by (by intros []); reflexivity
    |done]).
Qed.

(** C32: a node that connects to another, or is connected to, registers the
    peer under the id, type and port that the peer sends, and starts to read
    from it. *)
Theorem session_handshake (nodeId : bytes) (type : NodeType) (port : Z) (c : Conn) (m : Manager) (remote : address) :
  length nodeId = 32%nat → bytes_ok nodeId → is_uint 16 port →
  m_closed m = false → m_sessions m !! nodeId = None →
  let s := mkSession (cn_ptr c) (cn_connectionType c) nodeId type remote port in
  ∃ h, node_headers nodeId type port = Ok h ∧
    established c m (_ ← ServerSession_accept false h; ServerSession_on_accept false remote) s ∧
    established c m (ClientSession_handshake false h remote) s.
Proof.
  intros Hl Hb Hp Ho Hn s. destruct (node_headers_read nodeId type port) as (h & Hh & Hr); [done..|].
  exists h. split; [done|]. by apply handshake_established.
Qed.

(** A port header of digits that do not fit in an int makes [std::stoi]
    throw, which neither handler catches: the exception leaves the I/O thread
    of the node, on both sides of a connection, and the session is neither
    registered nor closed. *)
Theorem handshake_port_escapes (h : headers) (type : NodeType) (c : Conn) (m : Manager) (remote : address) :
  toBytes (h "X-Node-Id") ≠ Undef →
  h "X-Node-Type" = str (match type with NORMAL_NODE => "0" | DISCOVERY_NODE => "1" end) →
  forallb isdigit (h "X-Node-ServerPort") = true → 2 ^ 31 ≤ digits_value (h "X-Node-ServerPort") →
  ServerSession_accept false h (c, m) = (Throw out_of_range, (c, m)) ∧
  ClientSession_handshake false h remote (c, m) = (Throw out_of_range, (c, m)).
Proof.
  intros Hid Ht Hd Hv.
  assert (read_handshake h = Throw out_of_range) as Hr.
  { destruct (try_catch (b ← toBytes (h "X-Node-Id"); Ok (FixedStr_ctor 32 b)) (λ _, Ok Hash_zero)) as [id| |] eqn:E.
    - rewrite (read_handshake_headers h id type); [|done..| |done].
      + unfold stoi. by rewrite (proj2 (Z.ltb_ge _ _)) by lia.
      + destruct (h "X-Node-ServerPort"); [unfold digits_value in Hv; simpl in Hv; lia|unfold zlen; simpl; lia].
    - by destruct (toBytes _).
    - by destruct (toBytes _). }
  unfold ServerSession_accept, ClientSession_handshake, mbind, ST_bind, lift. by rewrite Hr.
Qed.

(** A peer whose id header is not hexadecimal is not refused: it is
    registered under the zero id, and every other such peer is turned away as a
    duplicate. *)
Theorem handshake_bad_id (h : headers) (e : exn) (type : NodeType) (c : Conn) (m : Manager) (remote : address) :
  toBytes (h "X-Node-Id") = Throw e →
  h "X-Node-Type" = str (match type with NORMAL_NODE => "0" | DISCOVERY_NODE => "1" end) →
  0 < zlen (h "X-Node-ServerPort") → forallb isdigit (h "X-Node-ServerPort") = true →
  digits_value (h "X-Node-ServerPort") < 2 ^ 31 →
  m_closed m = false → m_sessions m !! Hash_zero = None →
  established c m (ClientSession_handshake false h remote)
    (mkSession (cn_ptr c) (cn_connectionType c) Hash_zero type remote (u16 (digits_value (h "X-Node-ServerPort")))).
Proof.
  intros Hid Ht Hl Hd Hv Ho Hn. apply handshake_established; [|done..].
  rewrite (read_handshake_headers h Hash_zero type); [|by rewrite Hid|done..].
  unfold stoi. by rewrite (proj2 (Z.ltb_lt _ _)) by lia.
Qed.

(** ** The life of a session *)

(** The handlers, each in the stages in which the library calls it, and
    anything the rest of the node does to the manager. *)
Inductive conn_step : Conn * Manager → Conn * Manager → Prop :=
  | cs_accept c m ec h : cn_stage c = Handshaking → conn_step (c, m) (ServerSession_accept ec h (c, m)).2
  | cs_on_accept c m ec remote : cn_stage c = Accepting → conn_step (c, m) (ServerSession_on_accept ec remote (c, m)).2
  | cs_handshake c m ec h remote :
      cn_stage c = Handshaking → conn_step (c, m) (ClientSession_handshake ec h remote (c, m)).2
  | cs_error c m ec : conn_step (c, m) (on_error_only ec (c, m)).2
  | cs_read c m ec frame : cn_stage c = Reading → conn_step (c, m) (session_on_read ec frame (c, m)).2
  | cs_others c m m' : conn_step (c, m) (c, m').

Definition tasks_ok (c : Conn) : Prop :=
  Forall (λ msg, 11 ≤ zlen msg) (cn_tasks c) ∧
  (cn_stage c = Handshaking ∨ cn_stage c = Accepting → cn_tasks c = []).

Lemma fail_session_tasks c m :
  cn_tasks (fail_session (c, m)).2.1 = cn_tasks c ∧ cn_stage (fail_session (c, m)).2.1 = Ended.
Proof.
  unfold fail_session, on_manager, on_conn, gets, modify, mbind, ST_bind. simpl.
  unfold handleError, gets, modify, mbind, ST_bind. case_bool_decide; simpl; [done|].
  unfold unregisterSession. by destruct (negb _).
Qed.

Lemma register_tasks c m remote :
  cn_tasks (register_and_read remote (c, m)).2.1 = cn_tasks c ∧
  (cn_stage (register_and_read remote (c, m)).2.1 = Reading ∨ cn_stage (register_and_read remote (c, m)).2.1 = Ended).
Proof.
  unfold register_and_read, on_manager, on_conn, gets, modify, mbind, ST_bind, registerSession. simpl.
  repeat case_match; simplify_eq; simpl; auto.
Qed.

Lemma conn_step_tasks x y : conn_step x y → tasks_ok x.1 → tasks_ok y.1.
Proof.
  intros Hs [Hf He]. unfold tasks_ok.
  destruct Hs as [c m [] h Hst|c m [] remote Hst|c m [] h remote Hst|c m []|c m [] frame Hst|c m m']; simpl in *; try done.
  all: try (destruct (fail_session_tasks c m) as [-> ->]; split; [done|by intros []]).
  - unfold ServerSession_accept, lift, on_conn, modify, mbind, ST_bind.
    destruct (read_handshake h) as [[host|]| |]; simpl; auto.
  - destruct (register_tasks c m remote) as [-> [-> | ->]]; split; try done; by intros [].
  - unfold ClientSession_handshake, lift, on_conn, modify, mbind, ST_bind.
    destruct (read_handshake h) as [[host|]| |]; simpl; auto.
    destruct (register_tasks (set_host c host) m remote) as [-> [-> | ->]]; split; try done; by intros [].
  - unfold session_on_read, Message_ctor, throw_if, catching, lift, on_conn, gets, modify, mbind, ST_bind, mret, ST_ret.
    destruct (11 <=? zlen frame) eqn:E; zify_bool; [|by split; [|intros []]].
    simpl. destruct (m_closed m); simpl; [by split; [|intros []]|].
    rewrite (proj2 (Z.ltb_ge _ _)) by lia. simpl. split; [|by intros []].
    apply Forall_app. split; [done|]. by apply Forall_singleton.
Qed.

(** Whatever frames a peer sends and whenever operations fail, a session
    hands to the manager only messages that have a type, an id of eight bytes
    and a command, and none before the handshake is over. *)
Theorem session_tasks (ptr : Z) (ctype : ConnectionType) (noType : NodeType) (noPort : Z) (m m' : Manager) (c : Conn) :
  rtc conn_step (Conn_ctor ptr ctype noType noPort, m) (c, m') →
  Forall (λ msg, ∃ id, Message_id msg = Ok id ∧ length id = 8%nat) (cn_tasks c) ∧
  (cn_stage c = Handshaking ∨ cn_stage c = Accepting → cn_tasks c = []).
Proof.
  intros Hr. assert (tasks_ok c) as [Hf He].
  { assert (∀ x y, rtc conn_step x y → tasks_ok x.1 → tasks_ok y.1) as Hinv.
    { induction 1 as [|x y z Hs _ IH]; [done|]. intros. by eapply IH, conn_step_tasks. }
    apply (Hinv _ _ Hr). by split. }
  split; [|done]. eapply Forall_impl; [exact Hf|]. intros msg Hm. simpl in Hm.
  unfold Message_id, substr. rewrite (proj2 (Z.leb_le _ _)) by lia. eexists. split; [reflexivity|].
  apply resize_str_length.
Qed.
End Handshakes.

(** ** The server *)

(** [runFuture] is valid, the acceptor waits for a connection, and the sockets
    that became sessions. *)
Record Server := mkServer { sr_valid : bool; sr_accepting : bool; sr_sockets : list Z }.

Definition Server_start (s : Server) : bool * Server :=
  if sr_valid s then (false, s) else (true, mkServer true true (sr_sockets s)).
Definition Server_stop (s : Server) : Server :=
  if negb (sr_valid s) then s else mkServer false false (sr_sockets s).
Definition isRunning (s : Server) : bool := sr_valid s.

(** [listener::on_accept]: an error ends the listener. *)
Definition listener_on_accept (ec : bool) (socket : Z) (s : Server) : Server :=
  if ec then mkServer (sr_valid s) false (sr_sockets s)
  else mkServer (sr_valid s) (sr_accepting s) (sr_sockets s ++ [socket]).

(** The handler is called only while the acceptor waits. *)
Inductive server_step : Server → Server → Prop :=
  | sv_start s : server_step s (Server_start s).2
  | sv_accept s ec socket : sr_accepting s = true → server_step s (listener_on_accept ec socket s).

(** After one failed accept the server takes no connection any more, while
    it counts as running and cannot be started again. *)
Theorem listener_error_final (s s' : Server) (socket : Z) :
  sr_valid s = true → rtc server_step (listener_on_accept true socket s) s' →
  sr_sockets s' = sr_sockets s ∧ isRunning s' = true ∧ Server_start s' = (false, s').
Proof.
  intros Hv Hr. cut (sr_valid s' = true ∧ sr_accepting s' = false ∧ sr_sockets s' = sr_sockets s).
  { intros (E1 & _ & E2). unfold Server_start. by rewrite E1. }
  remember (listener_on_accept true socket s) as s0 eqn:E.
  assert (sr_valid s0 = true ∧ sr_accepting s0 = false ∧ sr_sockets s0 = sr_sockets s) as Hi by (by subst).
  clear E. induction Hr as [|x y z Hs _ IH]; [done|]. apply IH. destruct Hi as (E1 & E2 & E3).
  destruct Hs as [x|x ec k Ha]; [|congruence]. unfold Server_start. by rewrite E1.
Qed.

(** ** Witnesses *)

#[local] Existing Instances toy_keccak toy_secp toy_order toy_boost toy_chain.

(** Two messages at the same time: the second waits, and goes out after the
    first. *)
Lemma session_frames_witness :
  ∃ o, rtc write_step ([], Outbox_ctor) ([str "first"; str "second"], o) ∧
    ob_wire o ++ ob_lost o ++ (if ob_locked o then [ob_answerBuffer o] else []) ++ ob_blocked o
      ≡ₚ [str "first"; str "second"] ∧
    ob_wire o = [str "first"] ∧ ob_locked o = true.
Proof.
  set (o := wake 0 (session_on_write false (write (str "second") (write (str "first") Outbox_ctor)))).
  assert (rtc write_step ([], Outbox_ctor) ([str "first"; str "second"], o)) as Hr.
  { eapply rtc_l; [apply (wr_client [] _ (str "first"))|]. eapply rtc_l; [apply (wr_client _ _ (str "second"))|].
    eapply rtc_l; [apply (wr_done _ _ false); reflexivity|]. apply rtc_once, (wr_wake _ _ 0). reflexivity. }
  exists o. split; [exact Hr|]. split; [exact (session_frames _ _ Hr)|]. by split.
Defined.

Definition sample_conn : Conn := Conn_ctor 5 CLIENT NORMAL_NODE 0.

Lemma session_handshake_witness :
  ∃ h, node_headers (node_id 7) DISCOVERY_NODE 8080 = Ok h ∧
    established sample_conn started (ClientSession_handshake false h (ip_v4 [10; 0; 0; 7]))
      (mkSession 5 CLIENT (node_id 7) DISCOVERY_NODE (ip_v4 [10; 0; 0; 7]) 8080).
Proof.
  destruct (session_handshake (node_id 7) DISCOVERY_NODE 8080 sample_conn started (ip_v4 [10; 0; 0; 7]))
    as (h & Hh & _ & Hc); [reflexivity|apply (bool_decide_unpack _); vm_compute; exact I|unfold is_uint; lia|reflexivity|reflexivity|].
  exists h. split; [exact Hh|exact Hc].
Defined.

Definition sample_headers (id port : string) : headers := λ name,
  if bool_decide (name = "X-Node-Id") then str id
  else if bool_decide (name = "X-Node-Type") then str "0"
  else if bool_decide (name = "X-Node-ServerPort") then str port else [].

Lemma handshake_port_escapes_witness :
  ServerSession_accept false (sample_headers "ff" "99999999999") (sample_conn, started) =
    (Throw out_of_range, (sample_conn, started)).
Proof.
  refine (proj1 (handshake_port_escapes (sample_headers "ff" "99999999999") NORMAL_NODE sample_conn started (ip_v4 []) _ _ _ _)).
  - apply (bool_decide_unpack _). vm_compute. exact I.
  - reflexivity.
  - reflexivity.
  - apply (bool_decide_unpack _). vm_compute. exact I.
Defined.

Lemma handshake_bad_id_witness :
  established sample_conn started (ClientSession_handshake false (sample_headers "node seven" "70000") (ip_v4 [10; 0; 0; 7]))
    (mkSession 5 CLIENT Hash_zero NORMAL_NODE (ip_v4 [10; 0; 0; 7]) 4464).
Proof.
  exact (handshake_bad_id (sample_headers "node seven" "70000") (runtime_error "toBytes: Invalid hex string")
    NORMAL_NODE sample_conn started (ip_v4 [10; 0; 0; 7]) eq_refl eq_refl eq_refl eq_refl eq_refl eq_refl eq_refl).
Defined.

(** The peer sends two bytes, and then a message. *)
Lemma session_tasks_witness :
  ∃ c m, rtc conn_step (sample_conn, started) (c, m) ∧ cn_tasks c = [pong] ∧
    Forall (λ msg, ∃ id, Message_id msg = Ok id ∧ length id = 8%nat) (cn_tasks c).
Proof.
  set (x1 := (ClientSession_handshake false (sample_headers "ff" "80") (ip_v4 []) (sample_conn, started)).2).
  set (x2 := (session_on_read false [1; 2] x1).2). set (x3 := (session_on_read false pong x2).2).
  assert (rtc conn_step (sample_conn, started) x3) as Hr.
  { eapply rtc_l; [by apply (cs_handshake sample_conn started false (sample_headers "ff" "80") (ip_v4 []))|].
    eapply rtc_l; [by apply (cs_read x1.1 x1.2 false [1; 2])|]. apply rtc_once. by apply (cs_read x2.1 x2.2 false pong). }
  exists x3.1, x3.2. split; [exact Hr|]. split; [vm_compute; reflexivity|].
  exact (proj1 (session_tasks 5 CLIENT NORMAL_NODE 0 started x3.2 x3.1 Hr)).
Defined.

Lemma listener_error_final_witness :
  sr_sockets (Server_start (listener_on_accept true 0 (mkServer true true [3]))).2 = [3].
Proof.
  refine (proj1 (listener_error_final (mkServer true true [3]) _ 0 eq_refl _)). apply rtc_once, sv_start.
Defined.
