(* ===== verification/Discovery.v ===== *)
(** * Discovery: the thread that looks for peers (src/net/p2p/p2pdiscoveryworker)

    [discoverLoop] is a program with a place for every point where another
    thread can run in between: its sleeps, the wait for an answer, and each
    iteration of its loops.  A step of the system is a step of the worker, a
    step of the manager (any operation of the other threads), the passage of
    time, or a call of [start] or [stop]. *)

From S2P Require Import Prelude Utils Strings SafeHash Ecdsa Tx Block State P2PEncoding P2PManager Json Options.

(** [minConnections_]. *)
Definition minConnections : Z := 11.

Inductive place : Type :=
  | Idle                                   (** no thread: [workerFuture] is not valid *)
  | Top                                    (** [while (!this->stopWorker)] *)
  | Limit                                  (** after the first sleep *)
  | Paused                                 (** the minimum is reached, asleep *)
  | Full                                   (** the maximum is reached, asleep *)
  | Survey                                 (** [refreshRequestedNodes(); listConnectedNodes()] *)
  | Ask (todo : list bytes)                (** the loop over the nodes to ask *)
  | Wait (node : bytes) (id : option bytes) (todo : list bytes)
  | Connecting (node : bytes) (nodes : list (bytes * peer)) (todo : list bytes)
  | Mark (node : bytes) (todo : list bytes)
  | Finished                               (** returned [true] *)
  | Failed (e : exn).                      (** the exception is in [workerFuture] *)

Record Worker := mkWorker {
  w_place : place;
  w_discoveryPass : bool;
  w_stopWorker : bool;
  w_requestedNodes : gmap bytes Z;
  w_asked : list (bytes * Z);      (** the nodes this thread asked, and when *)
}.

(** [DiscoveryWorker(manager)]. *)
Definition Worker_ctor : Worker := mkWorker Idle false false ∅ [].

Definition set_place (w : Worker) (p : place) : Worker :=
  mkWorker p (w_discoveryPass w) (w_stopWorker w) (w_requestedNodes w) (w_asked w).
Definition set_pass (w : Worker) (b : bool) : Worker :=
  mkWorker (w_place w) b (w_stopWorker w) (w_requestedNodes w) (w_asked w).
Definition set_requested (w : Worker) (r : gmap bytes Z) : Worker :=
  mkWorker (w_place w) (w_discoveryPass w) (w_stopWorker w) r (w_asked w).
Definition add_asked (w : Worker) (node : bytes) (now : Z) : Worker :=
  mkWorker (w_place w) (w_discoveryPass w) (w_stopWorker w) (w_requestedNodes w) (w_asked w ++ [(node, now)]).

(** The times are unsigned: one that is later than now counts as old. *)
Definition refreshRequestedNodes (now : Z) (r : gmap bytes Z) : gmap bytes Z :=
  filter (λ e, ¬ 60 < u64 (now - e.2)) r.

(** [start()]: a thread with new local variables, unless there is one. *)
Definition worker_start (w : Worker) : Worker :=
  match w_place w with
  | Idle => mkWorker Top false false (w_requestedNodes w) []
  | _ => w
  end.

(** [stop()] asks the thread to stop, and then waits for it. *)
Definition worker_stop_begin (w : Worker) : Worker :=
  match w_place w with
  | Idle => w
  | _ => mkWorker (w_place w) (w_discoveryPass w) true (w_requestedNodes w) (w_asked w)
  end.

(** [workerFuture.get()]: returns, or throws what the thread threw; [None]
    while the thread runs. *)
Definition worker_stop_end : Worker → option (outcome unit * Worker) := λ w,
  match w_place w with
  | Finished => Some (Ok tt, mkWorker Idle (w_discoveryPass w) (w_stopWorker w) ∅ (w_asked w))
  | Failed e => Some (Throw e, set_place w Idle)
  | _ => None
  end.

Section Discovery.
Context `{Keccak, Secp256k1Lib, HashMapOrder, BoostIp, !ChainNode, !BoostIpText}.
Context (hostIpText : bytes) (hostPort maxConnections : Z).

(** The order in which a loop visits an [unordered_set]. *)
Definition iter_set (X : gset bytes) : list bytes := (iter_map (gset_to_gmap tt X)).*1.

(** Discovery nodes and normal nodes that were not asked recently. *)
Definition listConnectedNodes (r : gmap bytes Z) (m : Manager) : gset bytes * gset bytes :=
  foldl (λ acc e,
    if bool_decide (is_Some (r !! e.1)) then acc
    else match s_hostType e.2 with
         | DISCOVERY_NODE => ({[ e.1 ]} ∪ acc.1, acc.2)
         | NORMAL_NODE => (acc.1, {[ e.1 ]} ∪ acc.2)
         end) (∅, ∅) (iter_map (m_sessions m)).

Definition connectToNode (nodeId : bytes) (nodeInfo : peer) : ST Manager unit := λ m,
  match nodeInfo.1.1 with
  | DISCOVERY_NODE => (Ok tt, m)
  | NORMAL_NODE =>
      if bool_decide (is_Some (m_sessions m !! nodeId)) then (Ok tt, m)
      else connectToServer hostIpText hostPort maxConnections (addr_to_string nodeInfo.1.2) nodeInfo.2 m
  end.

(** What [getConnectedNodes] returns for the request [id]; [None] while there
    is no answer and the two seconds are not over. *)
Definition getConnectedNodes_wait (timeout : bool) (id : option bytes) (m : Manager)
    : option (outcome (gmap bytes peer)) :=
  match id with
  | None => Some (Ok ∅)
  | Some id =>
      if timeout then Some (requestNodes_answer None)
      else match m_requests m !! id ≫= r_answer with
           | Some a => Some (requestNodes_answer (Some a))
           | None => None
           end
  end.

(** One step of the thread, from [place] to [place]; [None] where it waits.
    A [Throw] ends the thread. *)
Definition discoverLoop_step (now : Z) (randBytes : bytes) (timeout : bool) (w : Worker) (m : Manager)
    : option (outcome Worker * Manager) :=
  let go p := Some (Ok (set_place w p), m) in
  let go_unless_stopped p := go (if w_stopWorker w then Finished else p) in
  match w_place w with
  | Idle | Finished | Failed _ => None
  | Top => go_unless_stopped Limit
  | Limit =>
      if minConnections <=? Z.of_nat (size (m_sessions m)) then go Paused
      else if maxConnections <=? Z.of_nat (size (m_sessions m)) then go Full
      else go Survey
  | Paused => go Survey
  | Full => go Top
  | Survey =>
      let r := refreshRequestedNodes now (w_requestedNodes w) in
      let connectedNodes := listConnectedNodes r m in
      let w := set_requested w r in
      let todo := if w_discoveryPass w then connectedNodes.2 else connectedNodes.1 in
      Some (Ok (set_place w (if w_stopWorker w then Finished else Ask (iter_set todo))), m)
  | Ask [] => Some (Ok (set_place (set_pass w true) Top), m)
  | Ask (node :: todo) =>
      let w := add_asked w node now in
      match requestNodes_send randBytes node m with
      | (Ok id, m) => Some (Ok (set_place w (Wait node id todo)), m)
      | (Throw e, m) => Some (Throw e, m)
      | (Undef, m) => Some (Undef, m)
      end
  | Wait node id todo =>
      match getConnectedNodes_wait timeout id m with
      | None => None
      | Some (Ok nodes) => go_unless_stopped (Connecting node (iter_map nodes) todo)
      | Some (Throw e) => Some (Throw e, m)
      | Some Undef => Some (Undef, m)
      end
  | Connecting node [] todo => go_unless_stopped (Mark node todo)
  | Connecting node (e :: nodes) todo =>
      if w_stopWorker w then go Finished
      else match connectToNode e.1 e.2 m with
           | (Ok _, m) => Some (Ok (set_place w (Connecting node nodes todo)), m)
           | (Throw e, m) => Some (Throw e, m)
           | (Undef, m) => Some (Undef, m)
           end
  | Mark node todo => Some (Ok (set_place (set_requested w (<[node := u64 now]> (w_requestedNodes w))) (Ask todo)), m)
  end.

End Discovery.

(** ** The system *)

Section System.
Context `{Keccak, Secp256k1Lib, HashMapOrder, BoostIp, !ChainNode, !BoostIpText}.
Context (vers chain : Z) (thrNum : nat) (hostIpText : bytes) (hostPort maxConnections : Z).

Record Sys := mkSys { y_now : Z; y_worker : Worker; y_manager : Manager }.

Abbreviation loop_step := (discoverLoop_step hostIpText hostPort maxConnections).

(** The discovery thread. *)
Inductive thread_step : Sys → Sys → Prop :=
  | th_ok now rnd timeout w m w' m' :
      length rnd = 8%nat → loop_step now rnd timeout w m = Some (Ok w', m') →
      thread_step (mkSys now w m) (mkSys now w' m')
  | th_throw now rnd timeout w m e m' :
      length rnd = 8%nat → loop_step now rnd timeout w m = Some (Throw e, m') →
      thread_step (mkSys now w m) (mkSys now (set_place w (Failed e)) m').

(** The clock and the other threads. *)
Inductive other_step : Sys → Sys → Prop :=
  | ot_time now now' w m : now ≤ now' < 2 ^ 63 → other_step (mkSys now w m) (mkSys now' w m)
  | ot_manager now w m m' :
      manager_step vers chain thrNum hostIpText hostPort maxConnections m m' →
      other_step (mkSys now w m) (mkSys now w m').

(** [start] and [stop]. *)
Inductive control_step : Sys → Sys → Prop :=
  | ct_start now w m : control_step (mkSys now w m) (mkSys now (worker_start w) m)
  | ct_stop_begin now w m : control_step (mkSys now w m) (mkSys now (worker_stop_begin w) m)
  | ct_stop_end now w m r w' :
      worker_stop_end w = Some (r, w') → control_step (mkSys now w m) (mkSys now w' m).

Definition sys_step (s s' : Sys) : Prop := thread_step s s' ∨ other_step s s' ∨ control_step s s'.

(** ** A node is not asked twice within a minute *)

(** Two entries for the same node are more than a minute apart. *)
Definition spaced (l : list (bytes * Z)) : Prop :=
  ∀ i j n t t', (i < j)%nat → l !! i = Some (n, t) → l !! j = Some (n, t') → t + 60 < t'.

Lemma spaced_snoc l n t' :
  spaced l → (∀ t, (n, t) ∈ l → t + 60 < t') → spaced (l ++ [(n, t')]).
Proof.
  intros Hl Hn i j n' t1 t2 Hij Hi Hj.
  apply lookup_app_Some in Hj as [Hj|[? Hj]].
  - rewrite lookup_app_l in Hi by (apply lookup_lt_Some in Hj; lia). eauto.
  - apply list_lookup_singleton_Some in Hj as [Hj [= <- <-]].
    rewrite lookup_app_l in Hi by lia. apply Hn. by eapply list_elem_of_lookup_2.
Qed.

(** The node being asked, and those still to be asked in this pass. *)
Definition current (p : place) : option bytes :=
  match p with Wait n _ _ | Connecting n _ _ | Mark n _ => Some n | _ => None end.
Definition waiting (p : place) : list bytes :=
  match p with Ask l | Wait _ _ l | Connecting _ _ l | Mark _ l => l | _ => [] end.
Definition live (p : place) : bool :=
  match p with Idle | Finished | Failed _ => false | _ => true end.

Record Worker_inv (now : Z) (w : Worker) : Prop := {
  wi_now : 0 ≤ now < 2 ^ 63;
  wi_requested : ∀ n t, w_requestedNodes w !! n = Some t → 0 ≤ t ≤ now;
  wi_spaced : spaced (w_asked w);
  wi_asked : ∀ n t, (n, t) ∈ w_asked w → t ≤ now;
  wi_known : live (w_place w) = true → ∀ n t, (n, t) ∈ w_asked w →
    current (w_place w) = Some n ∨ (∃ t', w_requestedNodes w !! n = Some t' ∧ t ≤ t') ∨ t + 60 < now;
  wi_distinct : NoDup (waiting (w_place w));
  wi_current : ∀ n, current (w_place w) = Some n → n ∉ waiting (w_place w);
  wi_waiting : ∀ n t, n ∈ waiting (w_place w) → (n, t) ∈ w_asked w → t + 60 < now;
}.

(** Places that ask and remember the same nodes are alike; a thread that is
    over, or between two passes, has nothing to ask. *)
Lemma inv_place now w p :
  Worker_inv now w → (live p = true → live (w_place w) = true) →
  (live p = true → current p = current (w_place w)) →
  (waiting p = waiting (w_place w) ∧ current p = current (w_place w) ∨ waiting p = []) →
  Worker_inv now (set_place w p).
Proof.
  intros [] Hl Hc Hw. split; simpl; try done.
  - intros Hp n t Hn. rewrite Hc by done. auto.
  - destruct Hw as [[-> _]| ->]; [done|apply NoDup_nil_2].
  - intros n Hn. destruct Hw as [[-> Hcur]| ->]; [rewrite Hcur in Hn; auto|apply not_elem_of_nil].
  - intros n t Hn. destruct Hw as [[Hw _]|Hw]; rewrite Hw in Hn; [eauto|by apply not_elem_of_nil in Hn].
Qed.

Lemma inv_time now now' w : Worker_inv now w → now ≤ now' < 2 ^ 63 → Worker_inv now' w.
Proof.
  intros [Hn Hr ? Ha Hk ? ? Hw] Ht. split; try done; try lia.
  - intros n t Hin. specialize (Hr n t Hin). lia.
  - intros n t Hin. specialize (Ha n t Hin). lia.
  - intros Hl n t Hin. destruct (Hk Hl n t Hin) as [?|[?|?]]; auto. right; right. lia.
  - intros n t Hin Hin'. specialize (Hw n t Hin Hin'). lia.
Qed.

Lemma u64_elapsed now t : 0 ≤ t ≤ now → now < 2 ^ 63 → u64 (now - t) = now - t.
Proof. intros. unfold wrap. apply Z.mod_small. lia. Qed.

Lemma iter_set_NoDup X : NoDup (iter_set X).
Proof. apply iter_map_NoDup. Qed.

Lemma iter_set_elem X n : n ∈ iter_set X ↔ n ∈ X.
Proof.
  unfold iter_set. rewrite list_elem_of_fmap. split.
  - intros ([k u] & -> & Hin). apply iter_map_elem, lookup_gset_to_gmap_Some in Hin as [? _]. done.
  - intros Hn. exists (n, tt). split; [done|]. apply iter_map_elem, lookup_gset_to_gmap_Some. done.
Qed.

(** A node is listed if it is connected, of the right type and not remembered. *)
Lemma listConnectedNodes_spec r m n :
  (n ∈ (listConnectedNodes r m).1 ↔
    r !! n = None ∧ ∃ s, m_sessions m !! n = Some s ∧ s_hostType s = DISCOVERY_NODE) ∧
  (n ∈ (listConnectedNodes r m).2 ↔
    r !! n = None ∧ ∃ s, m_sessions m !! n = Some s ∧ s_hostType s = NORMAL_NODE).
Proof.
  unfold listConnectedNodes.
  assert (∀ s, m_sessions m !! n = Some s ↔ (n, s) ∈ iter_map (m_sessions m)) as E
    by (intros; by rewrite iter_map_elem).
  setoid_rewrite E. clear E. generalize (iter_map (m_sessions m)) as l. intros l.
  induction l as [|[k s] l IH] using rev_ind; simpl.
  { split; (split; [by intros ?%elem_of_empty|by intros (_ & ? & ?%not_elem_of_nil & _)]). }
  rewrite foldl_app. simpl. setoid_rewrite elem_of_app. setoid_rewrite list_elem_of_singleton.
  destruct IH as [IH1 IH2].
  case_bool_decide as Hk; [|apply eq_None_not_Some in Hk; destruct (s_hostType s) eqn:Ht; simpl;
    rewrite elem_of_union, elem_of_singleton].
  all: rewrite IH1, IH2. all: unfold is_Some in *. all: split; naive_solver congruence.
Qed.

(** What [Survey] leaves of the memory: a node that is forgotten was asked
    more than a minute ago. *)
Lemma refresh_known now r n t t' :
  r !! n = Some t' → t ≤ t' → 0 ≤ t' ≤ now → now < 2 ^ 63 →
  refreshRequestedNodes now r !! n = Some t' ∨ t + 60 < now.
Proof.
  intros Hr ? ? ?. destruct (decide (60 < u64 (now - t'))) as [Hold|Hnew].
  - right. rewrite u64_elapsed in Hold by lia. lia.
  - left. apply map_lookup_filter_Some. done.
Qed.

Lemma inv_survey now w X :
  Worker_inv now w → w_place w = Survey →
  (∀ n, n ∈ X → refreshRequestedNodes now (w_requestedNodes w) !! n = None) →
  Worker_inv now (set_place (set_requested w (refreshRequestedNodes now (w_requestedNodes w))) (Ask (iter_set X))).
Proof.
  intros [Hn Hr Hs Ha Hk _ _ _] Hp HX. rewrite Hp in Hk. specialize (Hk eq_refl).
  assert (∀ n t, (n, t) ∈ w_asked w →
    (∃ t', refreshRequestedNodes now (w_requestedNodes w) !! n = Some t' ∧ t ≤ t') ∨ t + 60 < now) as Hk'.
  { intros n t Hin. destruct (Hk n t Hin) as [?|[(t' & Ht & ?)|?]]; [done| |by right].
    edestruct refresh_known; [exact Ht|done|by eapply Hr|lia| |by right]. left. by eexists. }
  split; simpl; try done.
  - intros n t [Ht _]%map_lookup_filter_Some. by eapply Hr.
  - intros _ n t Hin. destruct (Hk' n t Hin) as [?|?]; auto.
  - apply iter_set_NoDup.
  - intros n t Hin%iter_set_elem Hin'. destruct (Hk' n t Hin') as [(t' & Ht & _)|?]; [|done].
    rewrite HX in Ht by done. done.
Qed.

Lemma inv_ask now w node todo id :
  Worker_inv now w → w_place w = Ask (node :: todo) →
  Worker_inv now (set_place (add_asked w node now) (Wait node id todo)).
Proof.
  intros [Hn Hr Hs Ha Hk Hd _ Hw] Hp. rewrite Hp in *. simpl in *. apply NoDup_cons in Hd as [Hnode Hd].
  split; simpl; try done.
  - apply spaced_snoc; [done|]. intros t Hin. eapply Hw; [apply list_elem_of_here|done].
  - intros n t [Hin|[= -> ->]%list_elem_of_singleton]%elem_of_app; [by eapply Ha|lia].
  - intros _ n t [Hin|[= -> ->]%list_elem_of_singleton]%elem_of_app; [|by left].
    destruct (Hk eq_refl n t Hin) as [?|?]; [done|by right].
  - by intros n [= <-].
  - intros n t Hin [Hin'|[= -> ->]%list_elem_of_singleton]%elem_of_app; [|done].
    eapply Hw; [by apply list_elem_of_further|done].
Qed.

Lemma inv_mark now w node todo :
  Worker_inv now w → w_place w = Mark node todo →
  Worker_inv now (set_place (set_requested w (<[node := u64 now]> (w_requestedNodes w))) (Ask todo)).
Proof.
  intros [Hn Hr Hs Ha Hk Hd _ Hw] Hp. rewrite Hp in *. simpl in *.
  assert (u64 now = now) as -> by (unfold wrap; apply Z.mod_small; lia).
  split; simpl; try done.
  - intros n t [[<- <-]|[_ Ht]]%lookup_insert_Some; [lia|by eapply Hr].
  - intros _ n t Hin. right. destruct (decide (n = node)) as [->|Hne].
    + left. exists now. rewrite lookup_insert_eq. split; [done|by eapply Ha].
    + destruct (Hk eq_refl n t Hin) as [[= <-]|[(t' & Ht & ?)|?]]; [done| |by right].
      left. exists t'. by rewrite lookup_insert_ne.
Qed.

Lemma inv_flags now w b c :
  Worker_inv now w → Worker_inv now (mkWorker (w_place w) b c (w_requestedNodes w) (w_asked w)).
Proof. by intros []. Qed.

Lemma inv_thread now rnd timeout w m w' m' :
  Worker_inv now w → loop_step now rnd timeout w m = Some (Ok w', m') → Worker_inv now w'.
Proof.
  intros Hi. unfold discoverLoop_step.
  assert (∀ p, live (w_place w) = true → (live p = true → current p = current (w_place w)) →
    (waiting p = waiting (w_place w) ∧ current p = current (w_place w) ∨ waiting p = []) →
    Worker_inv now (set_place w p)) as goto.
  { intros p ? ? ?. by apply inv_place. }
  destruct (w_place w) as [| | | | | |[|node todo]|node id todo|node [|e nodes] todo|node todo| |] eqn:Hp; try done.
  all: try (intros [= <- <-]; apply goto; repeat case_match; naive_solver).
  - repeat case_match; intros [= <- <-]; apply goto; naive_solver.
  - intros [= <- <-]. destruct (w_stopWorker w).
    + apply (inv_place _ (set_place (set_requested w (refreshRequestedNodes now (w_requestedNodes w)))
        (Ask (iter_set ∅)))); [|by auto..]. apply inv_survey; [done..|]. by intros n ?%elem_of_empty.
    + apply inv_survey; [done..|]. intros n Hn.
      destruct (listConnectedNodes_spec (refreshRequestedNodes now (w_requestedNodes w)) m n) as [H1' H2'].
      destruct (w_discoveryPass _); [by apply H2' in Hn as [? _]|by apply H1' in Hn as [? _]].
  - intros [= <- <-]. apply (inv_place now (set_pass w true)); simpl; rewrite ?Hp; auto. by apply inv_flags.
  - destruct (requestNodes_send rnd node m) as [[id| |] m2]; intros [= <- <-]. by apply inv_ask.
  - destruct (getConnectedNodes_wait timeout id m) as [[nodes| |]|]; intros [= <- <-].
    destruct (w_stopWorker w); apply goto; naive_solver.
  - case_match; [intros [= <- <-]; apply goto; naive_solver|].
    destruct (connectToNode _ _ _ _ _ _) as [[] ?]; intros [= <- <-]. apply goto; naive_solver.
  - intros [= <- <-]. by apply inv_mark.
Qed.

(** A thread that has asked nobody yet. *)
Lemma inv_fresh now w :
  0 ≤ now < 2 ^ 63 → (∀ n t, w_requestedNodes w !! n = Some t → 0 ≤ t ≤ now) →
  w_asked w = [] → current (w_place w) = None → waiting (w_place w) = [] → Worker_inv now w.
Proof.
  intros Hn Hr Ha Hc Hw. split; rewrite ?Ha, ?Hc, ?Hw; try done; try apply NoDup_nil_2.
  - by intros n t ?%not_elem_of_nil.
  - by intros _ n t ?%not_elem_of_nil.
  - by intros n t ?%not_elem_of_nil.
Qed.

Lemma inv_step s s' : sys_step s s' → Worker_inv (y_now s) (y_worker s) → Worker_inv (y_now s') (y_worker s').
Proof.
  intros [Hs|[Hs|Hs]] Hi; [destruct Hs as [now rnd to w m|now rnd to w m e m' ? Hstep]
    |destruct Hs as [now now' w m|now w m m']|destruct Hs as [now w m|now w m|now w m r w' Hend]]; simpl in *.
  - by eapply inv_thread.
  - apply inv_place; naive_solver.
  - by eapply inv_time.
  - done.
  - unfold worker_start. destruct (w_place w) eqn:Hp; try done.
    destruct Hi. by apply inv_fresh.
  - unfold worker_stop_begin. pose proof (inv_flags now w (w_discoveryPass w) true Hi) as Hi'.
    by destruct (w_place w).
  - unfold worker_stop_end in Hend. destruct (w_place w) eqn:Hp; simplify_eq.
    + destruct Hi. split; simpl; try done; try apply NoDup_nil_2; by intros ? ? ?%not_elem_of_nil.
    + apply inv_place; naive_solver.
Qed.

(** C35: however the other threads interleave with it, a discovery thread never
    asks the same node twice within a minute, as long as the clock does not run
    backwards. *)
Theorem discovery_spaced (now : Z) (m : Manager) (s : Sys) :
  0 ≤ now < 2 ^ 63 → rtc sys_step (mkSys now Worker_ctor m) s → spaced (w_asked (y_worker s)).
Proof.
  intros Hn Hr. assert (Worker_inv (y_now s) (y_worker s)) as []; [|done].
  assert (Worker_inv now Worker_ctor) as Hi
    by (apply inv_fresh; [done|by intros n t Ht|done..]).
  change (Worker_inv (y_now (mkSys now Worker_ctor m)) (y_worker (mkSys now Worker_ctor m))) in Hi.
  induction Hr as [|x y z Hs _ IH]; [done|]. by eapply IH, inv_step.
Qed.

(** ** Only the first pass asks discovery nodes *)

(** No peer but discovery nodes. *)
Definition only_discovery (m : Manager) : Prop :=
  map_Forall (λ _ s, s_hostType s = DISCOVERY_NODE) (m_sessions m).

(** The thread and the others run, and no normal node connects. *)
Definition isolated_step (s s' : Sys) : Prop :=
  (thread_step s s' ∨ other_step s s') ∧ only_discovery (y_manager s').

(** Between passes, with nobody to ask. *)
Definition quiet (w : Worker) : Prop :=
  w_discoveryPass w = true ∧ current (w_place w) = None ∧ waiting (w_place w) = [].

Lemma quiet_thread now rnd timeout w m r m' :
  quiet w → only_discovery m → loop_step now rnd timeout w m = Some (r, m') →
  ∃ w', r = Ok w' ∧ quiet w' ∧ w_asked w' = w_asked w.
Proof.
  intros (Hpass & Hc & Hw) Hm. unfold discoverLoop_step, quiet.
  destruct (w_place w) as [| | | | | |[|node todo]|? ? ?|? ? ?|? ?| |] eqn:Hp; simpl in *; try done.
  all: try (repeat case_match; intros [= <- <-]; by eexists).
  intros [= <- <-]. eexists. split; [done|]. rewrite Hpass. destruct (w_stopWorker w); [done|]. simpl.
  split; [|done]. split; [done|]. split; [done|].
  destruct (iter_set _) as [|n l] eqn:E; [done|].
  assert (n ∈ iter_set (listConnectedNodes (refreshRequestedNodes now (w_requestedNodes w)) m).2) as Hn
    by (rewrite E; apply list_elem_of_here).
  apply iter_set_elem, listConnectedNodes_spec in Hn as (_ & s & Hs & Ht).
  specialize (Hm _ _ Hs). simpl in Hm. congruence.
Qed.

Lemma quiet_step x y :
  isolated_step x y → only_discovery (y_manager x) → quiet (y_worker x) →
  quiet (y_worker y) ∧ w_asked (y_worker y) = w_asked (y_worker x).
Proof.
  intros [[Hs|Hs] _] Hm Hq; [destruct Hs as [now rnd to w m w' m' _ Hs|now rnd to w m e m' _ Hs]|by destruct Hs].
  all: destruct (quiet_thread _ _ _ _ _ _ _ Hq Hm Hs) as (w'' & E & ? & ?); by simplify_eq.
Qed.

(** Once a discovery thread has made its first pass, a node whose only
    peers are discovery nodes asks none of them for peers any more, however
    long it runs. *)
Theorem discovery_isolated (s s' : Sys) :
  w_discoveryPass (y_worker s) = true → w_place (y_worker s) = Top → only_discovery (y_manager s) →
  rtc isolated_step s s' → w_asked (y_worker s') = w_asked (y_worker s).
Proof.
  intros Hpass Hp Hm Hr.
  assert (quiet (y_worker s)) as Hq by (by unfold quiet; rewrite Hp).
  clear Hpass Hp. induction Hr as [|x y z [Hs Hy] _ IH]; [done|].
  destruct (quiet_step x y) as [? <-]; [by split|done..|]. apply IH; done.
Qed.

(** ** Connection limits *)

(** Where the minimum is not above the maximum, as in both managers, the
    branch of [discoverLoop] for the maximum is never taken. *)
Theorem discovery_maximum_unreached (now : Z) (m : Manager) (s : Sys) :
  minConnections ≤ maxConnections → rtc sys_step (mkSys now Worker_ctor m) s → w_place (y_worker s) ≠ Full.
Proof.
  intros Hmin Hr. assert (w_place (y_worker (mkSys now Worker_ctor m)) ≠ Full) as Hp by done.
  induction Hr as [|x y z Hs _ IH]; [done|]. apply IH. clear IH.
  destruct Hs as [Hs|[Hs|Hs]];
    [destruct Hs as [? ? ? w ? ? ? _ Hs|]|destruct Hs|destruct Hs as [? w|? w|? w ? ? ? Hs]]; simpl in *.
  - revert Hs Hp. unfold discoverLoop_step.
    repeat case_match; intros [= <- <-]; simpl; try done; zify_bool; lia.
  - done.
  - done.
  - done.
  - unfold worker_start. destruct (w_place w) eqn:E; simpl; congruence.
  - unfold worker_stop_begin. destruct (w_place w) eqn:E; simpl; congruence.
  - unfold worker_stop_end in Hs. by destruct (w_place w); simplify_eq.
Qed.

(** The connection that an entry of a peer list leads to. *)
Definition connect_event (m : Manager) (e : bytes * peer) : option event :=
  let '(nodeType, ip, port) := e.2 in
  if bool_decide (nodeType = NORMAL_NODE) && negb (bool_decide (is_Some (m_sessions m !! e.1))) &&
     negb (bool_decide (hostIpText = addr_to_string ip) && (hostPort =? port))
  then Some (Connect (addr_to_string ip) port) else None.

Lemma connectToNode_spec m e :
  m_closed m = false → m_clientSessionsCount m < maxConnections →
  connectToNode hostIpText hostPort maxConnections e.1 e.2 m =
    (Ok tt, add_events m (option_list (connect_event m e))).
Proof.
  intros Ho Hc. destruct e as [n [[t ip] port]]. unfold connectToNode, connect_event, connectToServer. simpl.
  rewrite Ho, (proj2 (Z.leb_gt _ _)) by lia.
  destruct t; simpl; [|by destruct m; unfold add_events; simpl; rewrite app_nil_r].
  repeat case_match; simpl in *; try done; by destruct m; unfold add_events; simpl; rewrite ?app_nil_r.
Qed.

Lemma add_events_app m es es' : add_events (add_events m es) es' = add_events m (es ++ es').
Proof. unfold add_events. simpl. by rewrite app_assoc. Qed.

Lemma connect_event_events m es : connect_event (add_events m es) = connect_event m.
Proof. done. Qed.

(** Given a list of peers while one more client is allowed, the thread
    opens a connection to every normal node of the list it is not connected to
    and that is not itself: the limit is compared with the connections that are
    established, and none is until the other end has answered. *)
Theorem discovery_connects_to_all (now : Z) (w : Worker) (m : Manager) (node : bytes)
    (nodes : list (bytes * peer)) (todo : list bytes) :
  w_place w = Connecting node nodes todo → w_stopWorker w = false →
  m_closed m = false → m_clientSessionsCount m < maxConnections →
  nsteps thread_step (length nodes) (mkSys now w m)
    (mkSys now (set_place w (Connecting node [] todo)) (add_events m (omap (connect_event m) nodes))).
Proof.
  intros Hp Hs Ho Hc. revert w m Hp Hs Ho Hc. induction nodes as [|e nodes IH]; intros w m Hp Hs Ho Hc; simpl.
  - unfold add_events. rewrite app_nil_r. destruct w, m; simpl in *; subst. constructor.
  - eapply nsteps_l.
    + apply (th_ok _ (replicate 8 0) true); [done|]. unfold discoverLoop_step.
      rewrite Hp, Hs, connectToNode_spec by done. reflexivity.
    + specialize (IH (set_place w (Connecting node nodes todo))
        (add_events m (option_list (connect_event m e))) eq_refl Hs Ho Hc).
      rewrite connect_event_events, add_events_app in IH.
      replace (option_list (connect_event m e) ++ omap (connect_event m) nodes)
        with (match connect_event m e with Some y => y :: omap (connect_event m) nodes
              | None => omap (connect_event m) nodes end) in IH by (by destruct (connect_event m e)).
      exact IH.
Qed.

(** ** Stopping *)

(** The steps a thread that is told to stop has left, and the requests. *)
Definition steps_left (p : place) : nat :=
  match p with
  | Idle | Finished | Failed _ => 0
  | Top | Survey | Wait _ _ _ | Connecting _ _ _ => 1
  | Ask _ | Paused | Full => 2
  | Limit | Mark _ _ => 3
  end.
Definition asks_left (p : place) : nat :=
  match p with Ask (_ :: _) | Mark _ _ => 1 | _ => 0 end.

(** [n] steps of the thread, with steps of the others in between. *)
Inductive runs : nat → Sys → Sys → Prop :=
  | runs_end s : runs 0 s s
  | runs_thread n s s1 s2 : thread_step s s1 → runs n s1 s2 → runs (S n) s s2
  | runs_other n s s1 s2 : other_step s s1 → runs n s1 s2 → runs n s s2.

Lemma stopping_thread s s' :
  thread_step s s' → w_stopWorker (y_worker s) = true →
  w_stopWorker (y_worker s') = true ∧
  (S (steps_left (w_place (y_worker s'))) ≤ steps_left (w_place (y_worker s)))%nat ∧
  (length (w_asked (y_worker s')) + asks_left (w_place (y_worker s')) ≤
   length (w_asked (y_worker s)) + asks_left (w_place (y_worker s)))%nat.
Proof.
  intros Hs Hstop. destruct Hs as [now rnd to w m w' m' _ Hs|now rnd to w m e m' _ Hs]; simpl in *;
    revert Hs; unfold discoverLoop_step.
  - destruct (w_place w) as [| | | | | |[|node todo]|node id todo|node [|e nodes] todo|node todo| |];
      rewrite ?Hstop; repeat case_match; intros; simplify_eq/=; rewrite ?length_app; simpl;
      repeat split; try lia; try congruence; destruct todo; lia.
  - destruct (w_place w) as [| | | | | |[|node todo]|node id todo|node [|e' nodes] todo|node todo| |];
      rewrite ?Hstop; repeat case_match; intros; simplify_eq/=; repeat split; try lia; done.
Qed.

Lemma live_thread_steps s : live (w_place (y_worker s)) = true → ∃ s', thread_step s s'.
Proof.
  destruct s as [now w m]. simpl. intros Hl.
  assert (∃ r m', loop_step now (replicate 8 0) true w m = Some (r, m') ∧ r ≠ Undef) as ([w'|e|] & m' & Hs & Hr); [|..|done].
  - unfold discoverLoop_step.
    destruct (w_place w) as [| | | | | |[|node todo]|node [id|] todo|node [|e nodes] todo|node todo| |]; try done.
    all: cbn [getConnectedNodes_wait requestNodes_answer].
    all: try (repeat case_match; (eexists _, _; split; [reflexivity|done])).
    + destruct (request_returns (replicate 8 0) RequestNodes node m eq_refl eq_refl) as (id & m' & E & _).
      unfold requestNodes_send, RequestEncoder_requestNodes. rewrite E. (eexists _, _; split; [reflexivity|done]).
    + case_match; [(eexists _, _; split; [reflexivity|done])|]. unfold connectToNode, connectToServer.
      repeat case_match; simplify_eq; (eexists _, _; split; [reflexivity|done]).
  - eexists. by apply (th_ok now (replicate 8 0) true w m w' m').
  - eexists. by apply (th_throw now (replicate 8 0) true w m e m').
Qed.

(** A discovery thread that is told to stop ends: whatever the other
    threads do, it makes at most three more steps and one more request, it is
    never stuck before it has ended (a peer that does not answer is given up
    after two seconds), and after its last step [stop] returns. *)
Theorem discovery_stops (n : nat) (s s' : Sys) :
  w_stopWorker (y_worker s) = true → runs n s s' →
  (n ≤ 3)%nat ∧ (length (w_asked (y_worker s')) ≤ length (w_asked (y_worker s)) + 1)%nat ∧
  (w_place (y_worker s') = Idle ∨ is_Some (worker_stop_end (y_worker s')) ∨ ∃ s'', thread_step s' s'').
Proof.
  intros Hstop Hr.
  assert ((n + steps_left (w_place (y_worker s')) ≤ steps_left (w_place (y_worker s)))%nat ∧
    (length (w_asked (y_worker s')) + asks_left (w_place (y_worker s')) ≤
     length (w_asked (y_worker s)) + asks_left (w_place (y_worker s)))%nat) as [Hn Ha].
  { induction Hr as [s|n s s1 s2 Hs _ IH|n s s1 s2 Hs _ IH]; [lia|..].
    - apply stopping_thread in Hs as (? & ? & ?); [|done]. destruct IH; [done|]. lia.
    - destruct Hs; by apply IH. }
  split; [destruct (w_place (y_worker s)); simpl in Hn; lia|].
  split; [destruct (w_place (y_worker s)) as [| | | | | |[]| | | | |]; simpl in Ha; lia|].
  destruct (live (w_place (y_worker s'))) eqn:Hl; [right; right; by apply live_thread_steps|].
  unfold worker_stop_end. destruct (w_place (y_worker s')); try done; [by left|right; left..]; by eexists.
Qed.

(** At most [n] steps of the thread alone, with peers that do not answer. *)
Fixpoint drive (n : nat) (now : Z) (w : Worker) (m : Manager) : Worker * Manager :=
  match n with
  | O => (w, m)
  | S n => match loop_step now (replicate 8 0) true w m with
           | Some (Ok w', m') => drive n now w' m'
           | _ => (w, m)
           end
  end.

Lemma drive_steps n now w m : rtc sys_step (mkSys now w m) (mkSys now (drive n now w m).1 (drive n now w m).2).
Proof.
  revert w m. induction n as [|n IH]; intros w m; simpl; [apply rtc_refl|].
  destruct (loop_step _ _ _ _ _) as [[[w'| |] m']|] eqn:E; try apply rtc_refl.
  eapply rtc_l; [left; by eapply th_ok, E|]. apply IH.
Qed.
End System.

(** ** Witnesses *)

#[local] Existing Instances toy_keccak toy_secp toy_order toy_boost6 toy_chain toy_ip_text.

Abbreviation sample_drive := (drive (str "10.0.0.1") 8080 50).
Abbreviation sample_sys := (sys_step 1 8080 4 (str "10.0.0.1") 8080 50).

(** Two passes at the time 100: the discovery node, then the normal node; and
    a third one at 161, when the normal node is asked again. *)
Definition passes_100 : Worker * Manager := sample_drive 20 100 (worker_start Worker_ctor) (toy_manager []).
Definition passes_161 : Worker * Manager := sample_drive 8 161 passes_100.1 passes_100.2.

Lemma passes_reached : rtc sample_sys (mkSys 100 Worker_ctor (toy_manager [])) (mkSys 161 passes_161.1 passes_161.2).
Proof.
  eapply rtc_l; [right; right; apply ct_start|].
  etransitivity; [apply (drive_steps 1 8080 4 _ _ _ 20)|].
  eapply rtc_l; [right; left; apply ot_time with (now' := 161); lia|].
  apply (drive_steps 1 8080 4 _ _ _ 8).
Qed.

Lemma discovery_spaced_witness :
  spaced (w_asked passes_161.1) ∧ w_asked passes_161.1 = [(node_id 2, 100); (node_id 1, 100); (node_id 1, 161)].
Proof.
  split; [|vm_compute; reflexivity].
  exact (discovery_spaced 1 8080 4 (str "10.0.0.1") 8080 50 100 (toy_manager []) _ ltac:(lia) passes_reached).
Defined.

Lemma discovery_maximum_unreached_witness :
  minConnections ≤ 50 ∧ w_place passes_161.1 ≠ Full.
Proof.
  assert (minConnections ≤ 50) as Hmin by (unfold minConnections; lia). split; [done|].
  exact (discovery_maximum_unreached 1 8080 4 (str "10.0.0.1") 8080 50 100 (toy_manager []) _ Hmin passes_reached).
Defined.

(** The first pass is over before the discovery node is connected; two seconds
    later it is. *)
Definition too_early : Worker := (sample_drive 4 100 (worker_start Worker_ctor) started).1.
Definition late_peer : Manager := (registerSession peer_b started).2.

Lemma discovery_isolated_witness :
  w_discoveryPass too_early = true ∧ w_place too_early = Top ∧ only_discovery late_peer ∧
  size (m_sessions late_peer) = 1%nat ∧
  w_asked (y_worker (mkSys 102 (set_place too_early Limit) late_peer)) = w_asked (y_worker (mkSys 102 too_early late_peer)).
Proof.
  assert (w_discoveryPass too_early = true) as Hpass by reflexivity.
  assert (w_place too_early = Top) as Hp by reflexivity.
  assert (only_discovery late_peer) as Hm by (apply (bool_decide_unpack _); vm_compute; exact I).
  split; [done|]. split; [done|]. split; [done|]. split; [vm_compute; reflexivity|].
  apply (discovery_isolated 1 8080 4 (str "10.0.0.1") 8080 50); [done..|].
  apply rtc_once. split; [left|done]. by apply (th_ok _ _ _ 102 (replicate 8 0) true).
Defined.

Definition sample_peers : list (bytes * peer) :=
  [(node_id 5, (NORMAL_NODE, ip_v4 [10; 0; 0; 5], 8080)); (node_id 6, (NORMAL_NODE, ip_v4 [10; 0; 0; 6], 8080));
   (node_id 7, (DISCOVERY_NODE, ip_v4 [10; 0; 0; 7], 8080)); (node_id 8, (NORMAL_NODE, ip_v4 [10; 0; 0; 8], 8080));
   (node_id 1, (NORMAL_NODE, ip_v4 [10; 0; 0; 1], 8080))].
Definition connecting_worker : Worker := mkWorker (Connecting (node_id 2) sample_peers []) false false ∅ [].

(** One client of at most two, and three more connections. *)
Lemma discovery_connects_to_all_witness :
  m_clientSessionsCount (toy_manager []) = 1 ∧
  nsteps (thread_step (str "10.0.0.9") 8080 2) 5 (mkSys 100 connecting_worker (toy_manager []))
    (mkSys 100 (set_place connecting_worker (Connecting (node_id 2) [] []))
      (add_events (toy_manager []) (omap (connect_event (str "10.0.0.9") 8080 (toy_manager [])) sample_peers))) ∧
  omap (connect_event (str "10.0.0.9") 8080 (toy_manager [])) sample_peers =
    [Connect (str "10.0.0.5") 8080; Connect (str "10.0.0.6") 8080; Connect (str "10.0.0.8") 8080].
Proof.
  split; [done|]. split; [|vm_compute; reflexivity].
  exact (discovery_connects_to_all (str "10.0.0.9") 8080 2 100 connecting_worker (toy_manager []) (node_id 2)
    sample_peers [] eq_refl eq_refl eq_refl ltac:(simpl; lia)).
Defined.

(** Told to stop while it marks a node, with one more node to ask. *)
Definition stopping_worker : Worker := mkWorker (Mark (node_id 1) [node_id 2]) false true ∅ [(node_id 1, 100)].

Lemma discovery_stops_witness :
  ∃ s', runs 1 8080 4 (str "10.0.0.1") 8080 50 3 (mkSys 100 stopping_worker (toy_manager [])) s' ∧
    (length (w_asked (y_worker s')) ≤ 1 + 1)%nat ∧ is_Some (worker_stop_end (y_worker s')).
Proof.
  eexists. split.
  - eapply runs_thread; [apply (th_ok _ _ _ 100 (replicate 8 0) true); reflexivity|].
    eapply runs_thread; [apply (th_ok _ _ _ 100 (replicate 8 0) true); reflexivity|].
    eapply runs_thread; [apply (th_ok _ _ _ 100 (replicate 8 0) true); reflexivity|]. apply runs_end.
  - split; [|by eexists].
    refine (proj1 (proj2 (discovery_stops 1 8080 4 (str "10.0.0.1") 8080 50 3
      (mkSys 100 stopping_worker (toy_manager [])) _ eq_refl _))).
    eapply runs_thread; [apply (th_ok _ _ _ 100 (replicate 8 0) true); reflexivity|].
    eapply runs_thread; [apply (th_ok _ _ _ 100 (replicate 8 0) true); reflexivity|].
    eapply runs_thread; [apply (th_ok _ _ _ 100 (replicate 8 0) true); reflexivity|]. apply runs_end.
Defined.
