(* ===== verification/RpcEncoding.v ===== *)
(** * RpcEncoding: the answers of the JSON-RPC methods (src/net/http/jsonrpc/encoding.{h,cpp})

    Each function computes the answer of one method from the objects of the
    node: the [Manager] of P2PManager.v, whose ledger is the State, rdPoS and
    Storage.  A lookup may fill the caches of the Storage, a call may change the
    contracts and a new transaction the mempool, so the functions that touch
    those are state passing. *)

From S2P Require Import Prelude Utils Hex Strings SafeHash Ecdsa Tx Block DB Storage RdPoS State.
From stdpp Require Import pretty.
From S2P Require Import P2PEncoding P2PManager P2PNode Json Options.

(** [2.0], a double. *)
Definition two : json := JFloat 1 1.
Definition jstr (s : string) : json := JString (str s).

(** [Hex::fromBytes(b, true)] as text, and with [forRPC]. *)
Definition hex_text (b : bytes) : outcome bytes := h ← fromBytes b true; Ok (hex h).
Definition rpc_text (b : bytes) : outcome bytes := h ← fromBytes b true; forRPC h.
(** [Hex::fromBytes(Utils::uintToBytes(n), true).forRPC()]. *)
Definition quantity (n : Z) : outcome bytes := rpc_text (uintToBytes n).

(** The same as JSON strings; [h.hex(true)] of a fixed-size string is [jhex]. *)
Definition jhex (b : bytes) : outcome json := s ← hex_text b; Ok (JString s).
Definition jdata (b : bytes) : outcome json := s ← rpc_text b; Ok (JString s).
Definition jquantity (n : Z) : outcome json := s ← quantity n; Ok (JString s).

(** [for (...) ret.push_back(f(x))]. *)
Definition jlist {A} (f : A → outcome json) (l : list A) : outcome json :=
  r ← foldM (λ r x, j ← f x; Ok (r ++ [j])) [] l; Ok (JArray r).

Definition error_fields (code : Z) (message : bytes) : list (list string * outcome json) :=
  [ (["error"; "code"], Ok (JInt code)); (["error"; "message"], Ok (JString message)) ].
(** ["Internal error: " + std::string(e.what())]. *)
Definition internal (e : exn) : bytes := str ("Internal error: " +:+ what e).

(** An answer whose only computed field is [result]. *)
Definition answer (version : json) (result : outcome json) : outcome json :=
  build JNull [ (["jsonrpc"], Ok version); (["result"], result) ].

Section Encoding.
Context `{Keccak} `{Secp256k1Lib} `{RocksDB} `{!ContractHost} `{!CheckedLeft} `{!HashMapOrder}.
(** Hardware threads of the host, and the options. *)
Context (thrNum : nat) (options : Options).

(** ** The objects of the node *)

Definition on_storage {A} (op : Storage → rstore → outcome A * Storage) : ST Manager A := λ m,
  let '(st, rd, storage) := m_ledger m in
  let '(r, storage) := op storage (st_db st) in (r, set_m_ledger m (st, rd, storage)).

Definition on_state {A} (op : ST State A) : ST Manager A := λ m,
  let '(st, rd, storage) := m_ledger m in
  let '(r, st) := op st in (r, set_m_ledger m (st, rd, storage)).

Definition node_state (m : Manager) : State := (m_ledger m).1.1.
Definition node_storage (m : Manager) : Storage := (m_ledger m).2.

Definition storage_getBlock (hash : bytes) : ST Manager (option Block) :=
  on_storage (λ s db, with_state s (getBlock_hash thrNum (chainID options) s db hash)).
Definition storage_getBlockByHeight (height : Z) : ST Manager (option Block) :=
  on_storage (λ s db, with_state s (getBlock_height thrNum (chainID options) s db height)).
Definition storage_getTx (hash : bytes) : ST Manager tx_info :=
  on_storage (λ s db, with_state s (getTx (chainID options) s db hash)).

(** ** Blocks *)

(** A transaction within a block. *)
Definition block_tx_json (tx : TxBlock) : outcome json :=
  build (JObject []) [
    (["type"], Ok (jstr "0x0"));
    (["nonce"], jquantity (tb_nonce tx));
    (["to"], jhex (tb_to tx));
    (["gas"], jquantity (tb_gasLimit tx));
    (["value"], jquantity (tb_value tx));
    (["input"], jdata (tb_data tx));
    (["gasPrice"], jquantity (tb_maxFeePerGas tx));
    (["chainId"], jquantity (tb_chainId tx));
    (["v"], jquantity (tb_v tx));
    (["r"], jquantity (tb_r tx));
    (["s"], jquantity (tb_s tx)) ].

Definition block_fields (block : Block) (includeTransactions : bool) : list (list string * outcome json) :=
  [ (["jsonrpc"], Ok two);
    (["result"; "hash"], jhex (Block_hash block));
    (["result"; "parentHash"], jhex (b_prevBlockHash block));
    (["result"; "sha3Uncles"], jhex Hash_zero);
    (["result"; "miner"], a ← toAddress (b_validatorPubKey block); jhex a);
    (["result"; "stateRoot"], jhex Hash_zero);
    (["result"; "transactionsRoot"], jhex (b_txMerkleRoot block));
    (["result"; "receiptsRoot"], jhex Hash_zero);
    (["result"; "logsBloom"], jhex Hash_zero);
    (["result"; "difficulty"], Ok (jstr "0x1"));
    (["result"; "number"], jquantity (b_nHeight block));
    (["result"; "gasLimit"], jquantity (2 ^ 64 - 1));
    (["result"; "gasUsed"], jquantity 1000000000);
    (["result"; "timestamp"], jquantity (b_timestamp block));
    (["result"; "extraData"], Ok (jstr "0x0"));
    (["result"; "mixHash"], jhex Hash_zero);
    (["result"; "nonce"], Ok (jstr "0x0"));
    (["result"; "totalDifficulty"], Ok (jstr "0x1"));
    (["result"; "baseFeePerGas"], Ok (jstr "0x9502f900"));
    (["result"; "withdrawRoot"], jhex Hash_zero);
    (["result"; "size"], jquantity (zlen (serializeBlock block)));
    (["result"; "transactions"],
      if includeTransactions then jlist block_tx_json (b_txs block)
      else jlist (λ tx, jhex (TxBlock_hash tx true)) (b_txs block));
    (["result"; "withdrawls"], Ok (JArray []));
    (["result"; "uncles"], Ok (JArray [])) ].

Definition getBlockJson (block : option Block) (includeTransactions : bool) : outcome json :=
  try_catch
    match block with
    | None => answer two (Ok JNull)
    | Some block => build JNull (block_fields block includeTransactions)
    end
    (λ e, build JNull ((["jsonrpc"], Ok two) :: error_fields (-32603) (internal e))).

Definition eth_getBlockByHash (info : bytes * bool) : ST Manager json :=
  block ← storage_getBlock info.1; lift (getBlockJson block info.2).

Definition eth_getBlockByNumber (info : Z * bool) : ST Manager json :=
  block ← storage_getBlockByHeight info.1; lift (getBlockJson block info.2).

(** [block->getTxs().size()], also when [block] is null. *)
Definition tx_count_json (block : option Block) : outcome json :=
  match block with
  | None => Undef
  | Some block => answer (jstr "2.0") (jquantity (zlen (b_txs block)))
  end.

Definition eth_getBlockTransactionCountByHash (blockHash : bytes) : ST Manager json :=
  block ← storage_getBlock blockHash; lift (tx_count_json block).

Definition eth_getBlockTransactionCountByNumber (blockNumber : Z) : ST Manager json :=
  block ← storage_getBlockByHeight blockNumber; lift (tx_count_json block).

(** ** Constants and counters *)

Definition web3_clientVersion : outcome json := answer (jstr "2.0") (Ok (JString (web3clientVersion options))).
Definition web3_sha3 (data : bytes) : outcome json := answer (jstr "2.0") (jhex (sha3 data)).
Definition net_version : outcome json := answer two (Ok (jstr (pretty (version options)))).
Definition net_listening : outcome json := answer two (Ok (JBool true)).
Definition net_peerCount (m : Manager) : outcome json :=
  answer two (jquantity (Z.of_nat (size (m_sessions m)))).
Definition eth_protocolVersion : outcome json := answer two (Ok (jstr (pretty (SDKVersion options)))).
Definition eth_chainId : outcome json := answer (jstr "2.0") (jquantity (chainID options)).
Definition eth_syncing : outcome json := answer (jstr "2.0") (Ok (JBool false)).
Definition eth_coinbase : outcome json := answer (jstr "2.0") (jhex (coinbase options)).
Definition eth_blockNumber (m : Manager) : outcome json :=
  b ← latest (node_storage m); answer (jstr "2.0") (jquantity (b_nHeight b)).
Definition eth_gasPrice : outcome json := answer (jstr "2.0") (Ok (jstr "0x9502f900")).
Definition eth_getCode (address : bytes) : outcome json := answer (jstr "2.0") (Ok (jstr "0x")).

(** ** Accounts and calls *)

Definition eth_getBalance (address : bytes) (m : Manager) : outcome json :=
  answer (jstr "2.0") (jquantity (getNativeBalance (node_state m) address)).
Definition eth_getTransactionCount (address : bytes) (m : Manager) : outcome json :=
  answer (jstr "2.0") (jquantity (getNativeNonce (node_state m) address)).

Definition call_error (e : exn) : outcome json :=
  build JNull ((["jsonrpc"], Ok (jstr "2.0")) :: error_fields (-32000) (internal e)).

Definition eth_call (callInfo : ethCallInfo) : ST Manager json :=
  catching (
    r ← on_state (State_ethCall callInfo);
    lift (answer (jstr "2.0") (jhex r)))
    (λ e, lift (call_error e)).

(** The result of [estimateGas] is not looked at. *)
Definition eth_estimateGas (callInfo : ethCallInfo) : ST Manager json :=
  catching (
    _ ← on_state (estimateGas callInfo);
    lift (answer (jstr "2.0") (Ok (jstr "0x5208"))))
    (λ e, lift (call_error e)).

(** ** Transactions *)

Definition invalid_message (r : TxInvalid) : list (list string * outcome json) :=
  match r with
  | InvalidNonce => [(["error"; "message"], Ok (jstr "Invalid nonce"))]
  | InvalidBalance => [(["error"; "message"], Ok (jstr "Invalid balance"))]
  | NotInvalid => []
  end.

Definition eth_sendRawTransaction (tx : TxBlock) : ST Manager json :=
  let txHash := TxBlock_hash tx true in
  TxInvalid ← on_state (addTx tx);
  if bool_decide (TxInvalid = NotInvalid) then
    ret ← lift (answer (jstr "2.0") (jhex txHash));
    _ ← broadcastTxBlock tx;
    mret ret
  else
    lift (build JNull ([ (["jsonrpc"], Ok (jstr "2.0")); (["error"; "code"], Ok (JInt (-32000))) ] ++
                       invalid_message TxInvalid)).

(** The fields of a transaction after those of its block. *)
Definition tx_fields (tx : TxBlock) (transactionIndex : outcome json) : list (list string * outcome json) :=
  [ (["result"; "from"], jhex (tb_from tx));
    (["result"; "gas"], jquantity (tb_gasLimit tx));
    (["result"; "gasPrice"], jquantity (tb_maxFeePerGas tx));
    (["result"; "hash"], jhex (TxBlock_hash tx true));
    (["result"; "input"], jdata (tb_data tx));
    (["result"; "nonce"], jquantity (tb_nonce tx));
    (["result"; "to"], jhex (tb_to tx));
    (["result"; "transactionIndex"], transactionIndex);
    (["result"; "value"], jquantity (tb_value tx));
    (["result"; "v"], jquantity (tb_v tx));
    (["result"; "r"], jquantity (tb_r tx));
    (["result"; "s"], jquantity (tb_s tx)) ].

(** A transaction on the chain, or null. *)
Definition tx_json (info : tx_info) : outcome json :=
  let '(tx, blockHash, blockIndex, blockHeight) := info in
  match tx with
  | Some tx =>
      build JNull ([ (["jsonrpc"], Ok (jstr "2.0"));
                     (["result"; "blockHash"], jhex blockHash);
                     (["result"; "blockNumber"], jquantity blockHeight) ] ++
                   tx_fields tx (jquantity blockIndex))
  | None => answer (jstr "2.0") (Ok JNull)
  end.

Definition eth_getTransactionByHash (txHash : bytes) : ST Manager json :=
  txOnMempool ← gets (λ m : Manager, getTxFromMempool (node_state m) txHash);
  match txOnMempool with
  | Some tx =>
      lift (build JNull ([ (["jsonrpc"], Ok (jstr "2.0"));
                           (["result"; "blockHash"], Ok JNull);
                           (["result"; "blockIndex"], Ok JNull) ] ++ tx_fields tx (Ok JNull)))
  | None => info ← storage_getTx txHash; lift (tx_json info)
  end.

Definition eth_getTransactionByBlockHashAndIndex (info : bytes * Z) : ST Manager json :=
  r ← on_storage (λ s db, getTxByBlockHashAndIndex (chainID options) s db info.1 info.2);
  lift (tx_json r).

Definition eth_getTransactionByBlockNumberAndIndex (info : Z * Z) : ST Manager json :=
  r ← on_storage (λ s db, with_state s (getTxByBlockNumberAndIndex (chainID options) s db info.1 info.2));
  lift (tx_json r).

Definition receipt_json (info : tx_info) : outcome json :=
  let '(tx, blockHash, blockIndex, blockHeight) := info in
  match tx with
  | Some tx => build JNull [
      (["jsonrpc"], Ok (jstr "2.0"));
      (["result"; "transactionHash"], jhex (TxBlock_hash tx true));
      (["result"; "transactionIndex"], jquantity blockIndex);
      (["result"; "blockHash"], jhex blockHash);
      (["result"; "blockNumber"], jquantity blockHeight);
      (["result"; "from"], jhex (tb_from tx));
      (["result"; "to"], jhex (tb_to tx));
      (["result"; "cumulativeGasUsed"], jquantity (tb_gasLimit tx));
      (["result"; "effectiveGasUsed"], jquantity (tb_gasLimit tx));
      (["result"; "effectiveGasPrice"], jquantity (tb_maxFeePerGas tx));
      (["result"; "gasUsed"], jquantity (tb_gasLimit tx));
      (["result"; "contractAddress"], Ok JNull);
      (["result"; "logs"], Ok (JArray []));
      (["result"; "logsBloom"], jhex Hash_zero);
      (["result"; "type"], Ok (jstr "0x00"));
      (["result"; "root"], jhex Hash_zero);
      (["result"; "status"], Ok (jstr "0x1")) ]
  | None => answer (jstr "2.0") (Ok JNull)
  end.

Definition eth_getTransactionReceipt (txHash : bytes) : ST Manager json :=
  info ← storage_getTx txHash; lift (receipt_json info).

End Encoding.
