(* ===== verification/Rpc.v ===== *)
(** * Rpc: requests of the HTTP server (src/net/http/httpparser.{h,cpp}, httpsession.{h,cpp})

    [parseJsonRpcRequest] turns the body of a request into the body of the
    answer: it checks the request, decodes the parameters (RpcDecoding.v), runs
    the method (RpcEncoding.v) and puts the id back.  [handle_request] wraps it
    in HTTP, and [HttpSession] is the pipeline of one connection. *)

From S2P Require Import Prelude Utils Hex Strings SafeHash Ecdsa Tx Block DB Storage RdPoS State.
From S2P Require Import P2PEncoding P2PManager P2PNode Json Options.
From S2P Require Import RpcDecoding RpcEncoding.

Section Rpc.
Context `{Keccak} `{Secp256k1Lib} `{RocksDB} `{!ContractHost} `{!CheckedLeft} `{!HashMapOrder}.
Context `{!LexicalCast} `{!JsonText}.
Context (thrNum : nat) (options : Options).

Definition method_not_found : outcome json := build JNull (error_fields (-32601) (str "Method not found")).
Definition invalid_request : outcome json :=
  build JNull (error_fields (-32600) (str "Invalid Request, does not conform to JSON-RPC 2.0 spec")).
(** The [catch] block; [id] is the constant 0. *)
Definition internal_error (e : exn) : outcome json :=
  build JNull ((["id"], Ok (JUint 0)) :: (["jsonrpc"], Ok two) :: error_fields (-32603) (internal e)).

(** [JsonRPC::Decoding::f(request); ret = JsonRPC::Encoding::f(...);] *)
Definition after_check (check : outcome unit) (ret : ST Manager json) : ST Manager json :=
  _ ← lift check; ret.
Definition after_decode {A} (decoded : outcome A) (ret : A → ST Manager json) : ST Manager json :=
  a ← lift decoded; ret a.
(** An answer read off the objects. *)
Definition reading (f : Manager → outcome json) : ST Manager json := λ m, (f m, m).

(** The [switch] over the methods. *)
Definition dispatch (request : json) : ST Manager json :=
  RequestMethod ← lift (getMethod request);
  storage ← gets node_storage;
  match RequestMethod with
  | m_web3_clientVersion =>
      after_check (RpcDecoding.web3_clientVersion request) (lift (RpcEncoding.web3_clientVersion options))
  | m_web3_sha3 =>
      after_decode (RpcDecoding.web3_sha3 request) (λ data, lift (RpcEncoding.web3_sha3 data))
  | m_net_version =>
      after_check (RpcDecoding.net_version request) (lift (RpcEncoding.net_version options))
  | m_net_listening =>
      after_check (RpcDecoding.net_listening request) (lift RpcEncoding.net_listening)
  | m_net_peerCount =>
      after_check (RpcDecoding.net_peerCount request) (reading RpcEncoding.net_peerCount)
  | m_eth_protocolVersion =>
      after_check (RpcDecoding.eth_protocolVersion request) (lift (RpcEncoding.eth_protocolVersion options))
  | m_eth_getBlockByHash =>
      after_decode (RpcDecoding.eth_getBlockByHash request) (RpcEncoding.eth_getBlockByHash thrNum options)
  | m_eth_getBlockByNumber =>
      after_decode (RpcDecoding.eth_getBlockByNumber storage request) (RpcEncoding.eth_getBlockByNumber thrNum options)
  | m_eth_getBlockTransactionCountByHash =>
      after_decode (RpcDecoding.eth_getBlockTransactionCountByHash request)
        (RpcEncoding.eth_getBlockTransactionCountByHash thrNum options)
  | m_eth_getBlockTransactionCountByNumber =>
      after_decode (RpcDecoding.eth_getBlockTransactionCountByNumber storage request)
        (RpcEncoding.eth_getBlockTransactionCountByNumber thrNum options)
  | m_eth_chainId =>
      after_check (RpcDecoding.eth_chainId request) (lift (RpcEncoding.eth_chainId options))
  | m_eth_syncing =>
      after_check (RpcDecoding.eth_syncing request) (lift RpcEncoding.eth_syncing)
  | m_eth_coinbase =>
      after_check (RpcDecoding.eth_coinbase request) (lift (RpcEncoding.eth_coinbase options))
  | m_eth_blockNumber =>
      after_check (RpcDecoding.eth_blockNumber request) (reading RpcEncoding.eth_blockNumber)
  | m_eth_call =>
      after_decode (RpcDecoding.eth_call storage request) RpcEncoding.eth_call
  | m_eth_estimateGas =>
      after_decode (RpcDecoding.eth_estimateGas storage request) RpcEncoding.eth_estimateGas
  | m_eth_gasPrice =>
      after_check (RpcDecoding.eth_gasPrice request) (lift RpcEncoding.eth_gasPrice)
  | m_eth_getBalance =>
      after_decode (RpcDecoding.eth_getBalance storage request) (λ a, reading (RpcEncoding.eth_getBalance a))
  | m_eth_getTransactionCount =>
      after_decode (RpcDecoding.eth_getTransactionCount storage request)
        (λ a, reading (RpcEncoding.eth_getTransactionCount a))
  | m_eth_getCode =>
      after_decode (RpcDecoding.eth_getCode storage request) (λ a, lift (RpcEncoding.eth_getCode a))
  | m_eth_sendRawTransaction =>
      after_decode (RpcDecoding.eth_sendRawTransaction (chainID options) request) RpcEncoding.eth_sendRawTransaction
  | m_eth_getTransactionByHash =>
      after_decode (RpcDecoding.eth_getTransactionByHash request) (RpcEncoding.eth_getTransactionByHash options)
  | m_eth_getTransactionByBlockHashAndIndex =>
      after_decode (RpcDecoding.eth_getTransactionByBlockHashAndIndex request)
        (RpcEncoding.eth_getTransactionByBlockHashAndIndex options)
  | m_eth_getTransactionByBlockNumberAndIndex =>
      after_decode (RpcDecoding.eth_getTransactionByBlockNumberAndIndex storage request)
        (RpcEncoding.eth_getTransactionByBlockNumberAndIndex options)
  | m_eth_getTransactionReceipt =>
      after_decode (RpcDecoding.eth_getTransactionReceipt request) (RpcEncoding.eth_getTransactionReceipt options)
  | _ => lift method_not_found
  end.

(** The id of the request, which is a variable here. *)
Definition with_id (request ret : json) : outcome json :=
  '(id, _) ← index request (str "id");
  if is_string id then s ← get_string id; set_at ret ["id"] (JString s)
  else if is_number id then n ← get_uint64 id; set_at ret ["id"] (JUint n)
  else if is_null id then set_at ret ["id"] JNull
  else Throw (runtime_error "Invalid id type").

Definition serve (request : json) : ST Manager json :=
  ret ← dispatch request; lift (with_id request ret).

(** The [try] block gives the text it returns, or the value that is dumped
    after it. *)
Definition parseJsonRpcRequest (body : bytes) : ST Manager bytes :=
  r ← catching (
    request ← lift (json_parse body);
    conforms ← lift (checkJsonRPCSpec request);
    if negb conforms then
      s ← lift (ret ← invalid_request; json_dump ret); mret (inl s)
    else ret ← serve request; mret (inr ret))
    (λ e, s ← lift (error ← internal_error e; json_dump error); mret (inl s));
  match r with
  | inl s => mret s
  | inr ret => lift (json_dump ret)
  end.

(** ** HTTP *)

Inductive verb := POST | OPTIONS | OTHER.

Record HttpRequest := mkHttpRequest { q_method : verb; q_target : bytes; q_version : Z; q_keep_alive : bool; q_body : bytes }.
Record HttpResponse := mkHttpResponse {
  p_status : Z; p_version : Z; p_fields : list (string * string); p_keep_alive : bool; p_body : bytes;
}.

(** [BOOST_BEAST_VERSION_STRING]. *)
Context (beast_version : string).

Definition bad_request (req : HttpRequest) (why : string) : HttpResponse :=
  mkHttpResponse 400 (q_version req) [("Server", beast_version); ("Content-Type", "text/html")]
    (q_keep_alive req) (str why).

Definition cors_fields : list (string * string) :=
  [ ("Server", beast_version); ("Access-Control-Allow-Origin", "*");
    ("Access-Control-Allow-Methods", "POST, GET"); ("Access-Control-Allow-Headers", "content-type") ].

(** [target.find("..") != npos]. *)
Fixpoint has_dots (s : bytes) : bool :=
  match s with
  | 46 :: 46 :: _ => true
  | _ :: s => has_dots s
  | [] => false
  end.

Definition handle_request (req : HttpRequest) : ST Manager HttpResponse :=
  match q_method req with
  | OTHER => mret (bad_request req "Unknown HTTP-method")
  | method =>
      if bool_decide (head (q_target req) ≠ Some 47) || has_dots (q_target req)
      then mret (bad_request req "Illegal request-target")
      else match method with
      | OPTIONS =>
          mret (mkHttpResponse 200 (q_version req)
            (cors_fields ++ [("Accept-Encoding", "deflate"); ("Accept-Language", "en-US")]) (q_keep_alive req) [])
      | _ =>
          answer ← parseJsonRpcRequest (q_body req);
          mret (mkHttpResponse 200 (q_version req)
            (cors_fields ++ [ ("Content-Type", "application/json"); ("Connection", "keep-alive");
              ("Strict-Transport-Security", "max-age=0"); ("Vary", "Origin");
              ("Access-Control-Allow-Credentials", "true") ]) (q_keep_alive req) answer)
      end
  end.

(** ** The pipeline of a connection *)

(** [HTTPQueue] and [HTTPSession]: the responses that wait, the asynchronous
    reads and writes under way, and, to speak about order, the requests' responses
    and the writes started so far. *)
Record HttpSession := mkHttpSession {
  items : list HttpResponse;
  reads : nat;
  writes : nat;
  handled : list HttpResponse;
  started : list HttpResponse;
}.

Definition limit : nat := 8.
Definition full (s : HttpSession) : bool := (limit <=? length (items s))%nat.

Definition do_read (s : HttpSession) : HttpSession :=
  mkHttpSession (items s) (S (reads s)) (writes s) (handled s) (started s).
(** [( *items.front())()]: the write of the first response starts. *)
Definition write_front (s : HttpSession) : HttpSession :=
  mkHttpSession (items s) (reads s) (S (writes s)) (handled s) (started s ++ take 1 (items s)).

Definition queue_push (msg : HttpResponse) (s : HttpSession) : HttpSession :=
  let s := mkHttpSession (items s ++ [msg]) (reads s) (writes s) (handled s ++ [msg]) (started s) in
  if (length (items s) =? 1)%nat then write_front s else s.

(** [HTTPQueue::on_write]: the assertion holds, or the function is undefined. *)
Definition queue_on_write (s : HttpSession) : outcome (bool * HttpSession) :=
  match items s with
  | [] => Undef
  | _ :: rest =>
      let wasFull := full s in
      let s := mkHttpSession rest (reads s) (writes s) (handled s) (started s) in
      Ok (wasFull, if bool_decide (rest = []) then s else write_front s)
  end.

Definition read_done (s : HttpSession) : HttpSession :=
  mkHttpSession (items s) (pred (reads s)) (writes s) (handled s) (started s).
Definition write_done (s : HttpSession) : HttpSession :=
  mkHttpSession (items s) (reads s) (pred (writes s)) (handled s) (started s).

(** [HTTPSession::on_read] with a request. *)
Definition on_read (req : HttpRequest) : ST (HttpSession * Manager) unit := λ '(s, m),
  match handle_request req m with
  | (Ok res, m) =>
      let s := queue_push res s in
      (Ok tt, (if full s then s else do_read s, m))
  | (Throw e, m) => (Throw e, (s, m))
  | (Undef, m) => (Undef, (s, m))
  end.

(** [HTTPSession::on_write]. *)
Definition on_write (close : bool) (s : HttpSession) : outcome HttpSession :=
  if close then Ok s
  else '(wasFull, s) ← queue_on_write s; Ok (if (wasFull : bool) then do_read s else s).

Definition session_start : HttpSession := do_read (mkHttpSession [] 0 0 [] []).

(** What can happen: a read or a write that is under way completes, or ends
    with an error or with the connection, which is [false]. *)
Inductive http_step : bool → HttpSession * Manager → HttpSession * Manager → Prop :=
  | hs_request s m req s' m' : (0 < reads s)%nat → on_read req (read_done s, m) = (Ok tt, (s', m')) →
      http_step true (s, m) (s', m')
  | hs_read_end s m : (0 < reads s)%nat → http_step false (s, m) (read_done s, m)
  | hs_written s m close s' : (0 < writes s)%nat → on_write close (write_done s) = Ok s' →
      http_step (negb close) (s, m) (s', m)
  | hs_write_end s m : (0 < writes s)%nat → http_step false (s, m) (write_done s, m)
  (** The node goes on meanwhile. *)
  | hs_other s m m' : http_step true (s, m) (s, m').

(** ** Lemmas *)

Record http_inv (s : HttpSession) : Prop := {
  hi_bound : (length (items s) ≤ limit)%nat;
  hi_reads : (reads s + (if full s then 1 else 0) ≤ 1)%nat;
  hi_writes : (writes s ≤ 1)%nat;
  hi_pending : items s = [] → writes s = 0%nat;
  hi_order : ∃ sent, handled s = sent ++ items s ∧ started s = sent ++ take 1 (items s);
}.

(** While nothing fails, a read is under way unless the queue is full, and a
    write unless it is empty. *)
Definition http_live (s : HttpSession) : Prop :=
  (reads s + (if full s then 1 else 0) = 1)%nat ∧ writes s = (if bool_decide (items s = []) then 0 else 1)%nat.

Lemma on_read_spec req s m s' m' :
  on_read req (s, m) = (Ok tt, (s', m')) →
  ∃ res, handle_request req m = (Ok res, m') ∧
    s' = if full (queue_push res s) then queue_push res s else do_read (queue_push res s).
Proof. unfold on_read. destruct (handle_request req m) as [[res| |] m1]; intros Hr; simplify_eq. by exists res. Qed.

Lemma push_items res s : items (queue_push res s) = items s ++ [res].
Proof. unfold queue_push. by case_match. Qed.
Lemma push_reads res s : reads (queue_push res s) = reads s.
Proof. unfold queue_push. by case_match. Qed.
Lemma push_writes res s : writes (queue_push res s) = (writes s + if bool_decide (items s = []) then 1 else 0)%nat.
Proof.
  unfold queue_push. cbn [items]. destruct (items s) as [|x l]; cbn; [lia|]. rewrite length_app. cbn.
  rewrite Nat.add_1_r. cbn. lia.
Qed.

Lemma push_order res s :
  (∃ sent, handled s = sent ++ items s ∧ started s = sent ++ take 1 (items s)) →
  ∃ sent, handled (queue_push res s) = sent ++ items (queue_push res s) ∧
    started (queue_push res s) = sent ++ take 1 (items (queue_push res s)).
Proof.
  destruct s as [l r w h st]. cbn. intros (sent & -> & ->). exists sent. unfold queue_push. cbn.
  destruct l as [|x l]; cbn; [by rewrite !app_nil_r|]. rewrite length_app, Nat.add_1_r. cbn. by rewrite <-app_assoc.
Qed.

Lemma push_full res s : full s = false → (length (items (queue_push res s)) ≤ limit)%nat.
Proof. unfold full. intros Hf%Nat.leb_gt. rewrite push_items, length_app. cbn. lia. Qed.

(** A request that is read. *)
Lemma read_inv res s :
  http_inv s → (0 < reads s)%nat →
  let q := queue_push res (read_done s) in http_inv (if full q then q else do_read q).
Proof.
  intros [Hb Hr Hw Hp Ho] Hpos q. assert (full s = false) as Hf by (destruct (full s); [lia|done]).
  assert (items q = items s ++ [res]) as Hi by apply (push_items res (read_done s)).
  assert (reads q = 0%nat) as Hq by (unfold q; rewrite push_reads; cbn; lia).
  assert (writes q ≤ 1)%nat as Hwq.
  { unfold q. rewrite push_writes. cbn. case_bool_decide as E; [rewrite (Hp E)|]; lia. }
  assert (length (items q) ≤ limit)%nat as Hbq by (by apply push_full).
  assert (items q ≠ []) as Hne by (rewrite Hi; by destruct (items s)).
  pose proof (push_order res (read_done s) Ho) as Hoq. fold q in Hoq.
  destruct (full q) eqn:Hfq; (split; [done| |done|done|done]);
    cbn [do_read reads]; change (full (do_read q)) with (full q); rewrite Hq, Hfq; lia.
Qed.

Lemma read_live res s :
  http_live s → (0 < reads s)%nat →
  let q := queue_push res (read_done s) in http_live (if full q then q else do_read q).
Proof.
  intros [Hr Hw] Hpos q. assert (items q = items s ++ [res]) as Hi by apply (push_items res (read_done s)).
  assert (reads q = 0%nat) as Hq by (unfold q; rewrite push_reads; cbn; lia).
  assert (items q ≠ []) as Hne by (rewrite Hi; by destruct (items s)).
  assert (writes q = 1%nat) as Hwq by (unfold q; rewrite push_writes; cbn; rewrite Hw; by case_bool_decide).
  destruct (full q) eqn:Hfq; (split; [|cbn; by rewrite bool_decide_false]);
    cbn [do_read reads]; change (full (do_read q)) with (full q); rewrite Hq, Hfq; lia.
Qed.

(** A write that completes: the assertion holds. *)
Lemma write_inv close s :
  http_inv s → (0 < writes s)%nat →
  ∃ s', on_write close (write_done s) = Ok s' ∧ http_inv s' ∧ (close = false → http_live s → http_live s').
Proof.
  destruct s as [l r w h st]. intros [Hb Hr Hw Hp Ho] Hpos. cbn in *. destruct close.
  - eexists. split; [done|]. split; [|done]. split; cbn; [done..| | |done]; intros; lia.
  - destruct l as [|x l]; [specialize (Hp eq_refl); lia|]. assert (w = 1%nat) as -> by lia.
    destruct Ho as (sent & -> & ->). eexists. split; [done|].
    assert (∃ sent', sent ++ x :: l = sent' ++ l ∧ sent ++ [x] = sent') as (sent' & Hs1 & Hs2).
    { exists (sent ++ [x]). by rewrite <-app_assoc. }
    unfold full, limit in *. cbn [items reads length] in *.
    split.
    + destruct l as [|y l]; cbn in *; [split; cbn; unfold full; cbn; try lia; exists sent'; by rewrite app_nil_r in *|].
      case_match; (split; cbn; unfold full, limit; cbn; [lia| |lia|done|exists sent'; by rewrite Hs1, <-Hs2]); repeat case_match; zify_bool; lia.
    + intros _ [Hlr _]. split.
      * destruct l as [|y l]; cbn in *; [lia|]. case_match; cbn; unfold full, limit; cbn; repeat case_match; zify_bool; lia.
      * destruct l as [|y l]; cbn in *; [done|]. by case_match.
Qed.

Lemma http_step_inv ok x y : http_step ok x y → http_inv x.1 → http_inv y.1.
Proof.
  destruct 1 as [s m req s' m' Hr Hs|s m Hr|s m close s' Hw Hs|s m Hw|]; cbn; intros Hi; [| | | |done].
  - apply on_read_spec in Hs as (res & _ & ->). by apply read_inv.
  - destruct Hi as [? Hrd ? ? ?]. split; try done. change (full (read_done s)) with (full s). cbn [read_done reads]. lia.
  - destruct (write_inv close s Hi Hw) as (s2 & Hs2 & Hi2 & _).
    rewrite Hs in Hs2. by apply Ok_inj in Hs2 as <-.
  - destruct Hi as [? ? ? Hp ?]. split; cbn; try done; [lia|]. intros E. by rewrite (Hp E).
Qed.

Lemma http_step_live x y : http_step true x y → http_inv x.1 → http_live x.1 → http_live y.1.
Proof.
  inversion 1 as [s m req s' m' Hr Hs| |s m close s' Hw Hs Hc| |]; subst; cbn; intros Hi Hl; [| |done].
  - apply on_read_spec in Hs as (res & _ & ->). by apply read_live.
  - destruct close; [done|]. destruct (write_inv false s Hi Hw) as (s2 & Hs2 & _ & Hl2).
    rewrite Hs in Hs2. apply Ok_inj in Hs2 as <-. auto.
Qed.

(** C23: the pipeline of a connection, whatever the order in which reads and
    writes complete: at most eight responses wait, at most one read and one
    write are under way, the writes start in the order of the requests, and the
    queue is never empty when a write completes; and as long as nothing fails,
    something is under way, a read if the queue has room. *)
Theorem http_pipeline m0 s m :
  (rtc (λ x y, ∃ ok, http_step ok x y) (session_start, m0) (s, m) →
     (length (items s) ≤ 8)%nat ∧ (reads s ≤ 1)%nat ∧ (writes s ≤ 1)%nat ∧ started s `prefix_of` handled s ∧
     ((0 < writes s)%nat → ∀ close, ∃ s', on_write close (write_done s) = Ok s')) ∧
  (rtc (http_step true) (session_start, m0) (s, m) →
     (0 < reads s + writes s)%nat ∧ ((length (items s) < 8)%nat → reads s = 1%nat) ∧
     (items s ≠ [] → writes s = 1%nat)).
Proof.
  assert (http_inv session_start) as H0' by (split; cbn; try lia; by exists []).
  assert (http_live session_start) as H1' by done.
  split; intros Hrtc.
  - assert (http_inv (s, m).1) as Hi.
    { refine (rtc_ind_r (λ x, http_inv x.1) (session_start, m0) H0' _ _ Hrtc). intros x y _ [ok Hs] Hx. by apply (http_step_inv ok x y). }
    cbn in Hi. pose proof Hi as [Hb Hr Hw Hp (sent & Hh & Hst)]. split_and!; [done|lia|done| |].
    + rewrite Hh, Hst. apply prefix_app, prefix_take.
    + intros Hpos close. destruct (write_inv close s Hi Hpos) as (s' & Hs & _). by exists s'.
  - assert (http_inv (s, m).1 ∧ http_live (s, m).1) as [_ [Hr Hw]].
    { refine (rtc_ind_r (λ x, http_inv x.1 ∧ http_live x.1) (session_start, m0) (conj H0' H1') _ _ Hrtc).
      intros x y _ Hs [Hx Hl]. split; [by apply (http_step_inv true x y)|by apply (http_step_live x y)]. }
    cbn [fst] in Hr, Hw. unfold full, limit in Hr. split_and!.
    + destruct (items s); cbn in *; lia.
    + intros Hlt. rewrite (proj2 (Nat.leb_gt 8 (length (items s)))) in Hr by lia. lia.
    + intros Hne. by rewrite bool_decide_false in Hw.
Qed.

End Rpc.
