(* ===== verification/RpcProperties.v ===== *)
(** * RpcProperties: what the answers of the node mean

    Quantities and data as texts, the filters, the transaction that a client
    submits, the queries, and the requests that end the process. *)

From S2P Require Import Prelude Utils Hex Strings SafeHash Ecdsa Tx Block DB Storage RdPoS State.
From S2P Require Import P2PEncoding P2PManager P2PNode Json Options.
From S2P Require Import RpcDecoding RpcEncoding Rpc.

(** ** Numerals *)

Lemma hex_value_app v s t : foldl (λ v c, v * 16 + toInt c) v (s ++ t) =
  foldl (λ v c, v * 16 + toInt c) (foldl (λ v c, v * 16 + toInt c) v s) t.
Proof. apply foldl_app. Qed.

Lemma hex_value_zeros k r : hex_value (replicate k ch0 ++ r) = hex_value r.
Proof. unfold hex_value. induction k as [|k IH]; [done|]. cbn [replicate app foldl]. exact IH. Qed.

(** The digits of a byte. *)
Lemma byte_hex_digits c : is_byte c →
  toInt (hex_digit (c / 16)) * 16 + toInt (hex_digit (c mod 16)) = c ∧
  forallb (in_set set_lower) (byte_hex c) = true.
Proof.
  revert c. apply (byte_forall_dec (λ c, toInt (hex_digit (c / 16)) * 16 + toInt (hex_digit (c mod 16)) = c ∧
    forallb (in_set set_lower) (byte_hex c) = true)). vm_compute. reflexivity.
Qed.

Lemma hex_value_bytes b : bytes_ok b → hex_value (flat_map byte_hex b) = be_val b.
Proof.
  unfold hex_value, be_val. generalize 0 as v. intros v Hb. revert v.
  induction Hb as [|c b Hc Hb IH]; intros v; [done|]. cbn [flat_map byte_hex app foldl]. rewrite IH. f_equal.
  destruct (byte_hex_digits c Hc) as [Hv _]. lia.
Qed.

Lemma byte_text_lower b : bytes_ok b → forallb (in_set set_lower) (flat_map byte_hex b) = true.
Proof.
  induction 1 as [|c b Hc Hb IH]; [done|]. cbn [flat_map]. rewrite forallb_app, IH.
  by destruct (byte_hex_digits c Hc) as [_ ->].
Qed.

Lemma lower_hex_char c : in_set set_lower c = true → is_hex_char c = true.
Proof.
  intros Hc. assert (is_byte c) as Hb by (unfold in_set, set_lower, is_byte in *; cbn in Hc; zify_bool; lia).
  revert Hc. revert c Hb. apply (byte_forall_dec (λ c, in_set set_lower c = true → is_hex_char c = true)).
  vm_compute. reflexivity.
Qed.

Lemma lower_hex_chars d : forallb (in_set set_lower) d = true → forallb is_hex_char d = true.
Proof.
  rewrite !forallb_forall. intros Hd c Hc. by apply lower_hex_char, Hd.
Qed.

Lemma lower_nonzero c : in_set set_lower c = true → c ≠ ch0 → in_set set_nonzero c = true.
Proof. unfold in_set, set_lower, set_nonzero, ch0. cbn. intros. zify_bool. lia. Qed.

(** What the filter of numbers lets through. *)
Lemma numberFilter_spec d :
  regex_match numberFilter (str "0x" ++ d) = true ↔
  d = str "0" ∨ forallb (in_set set_lower) d = true ∧ ∃ c t, d = c :: t ∧ in_set set_nonzero c = true.
Proof.
  rewrite regex_match_spec. unfold numberFilter, RPlus. rewrite matches_seq. split.
  - intros (s1 & s2 & Heq & ->%matches_lit & Hm). apply app_inv_head in Heq as ->.
    apply matches_alt in Hm as [Hm| ->%matches_lit]; [|by left]. right.
    apply matches_seq in Hm as (p & q & -> & (p1 & p2 & -> & (c & -> & Hc)%matches_set & Hp%matches_set_star)%matches_seq & Hq%matches_set_star).
    assert (∀ c, in_set set_nonzero c = true → in_set set_lower c = true) as Hsub.
    { unfold in_set, set_lower, set_nonzero. cbn. intros. zify_bool. lia. }
    split; [|by exists c, (p2 ++ q)]. cbn [app forallb].
    rewrite (Hsub c Hc), andb_true_l, forallb_app, Hq.
    rewrite forallb_forall in Hp. rewrite andb_true_r. apply forallb_forall. intros x Hx. by apply Hsub, Hp.
  - intros Hd. exists (str "0x"), d. split; [done|]. split; [by apply matches_lit|]. apply matches_alt.
    destruct Hd as [->|(Hall & c & t & -> & Hc)]; [right; by apply matches_lit|left].
    apply matches_seq. exists [c], t. split; [done|]. cbn [forallb] in Hall. apply andb_prop in Hall as [_ Ht].
    split; [|by apply matches_set_star]. apply (m_seq _ _ [c] []); [by constructor|constructor].
Qed.

Lemma Hex_ctor_prefixed d :
  forallb is_hex_char d = true → Hex_ctor (str "0x" ++ d) false = Ok (mkHex d false).
Proof.
  intros Hd. unfold Hex_ctor. rewrite (at_str_0 48 _ (120 :: d)) by done. rewrite Ok_bind. cbv iota.
  change (48 =? ch0) with true. cbv iota. rewrite (at_str_1 48 120 _ d) by done. rewrite !Ok_bind.
  change ((120 =? chx) || (120 =? chX)) with true. cbv iota.
  assert (isValid (drop 2 (str "0x" ++ d)) false = true) as -> by exact Hd. reflexivity.
Qed.

Section Quantities.
Context `{!LexicalCast}.

Lemma hex_uint_digits d :
  d ≠ [] → forallb is_hex_char d = true → hex_value d < 2 ^ 256 →
  hex_uint (str "0x" ++ d) = Ok (hex_value d).
Proof using Type*.
  intros Hne Hd Hv. unfold hex_uint. rewrite Hex_ctor_prefixed, Ok_bind by done. by apply lexical_cast_fits.
Qed.

(** The text of a number: no leading zero, and the digits of its value. *)
Lemma quantity_text n :
  0 ≤ n →
  ∃ d, quantity n = Ok (str "0x" ++ d) ∧ d ≠ [] ∧ forallb is_hex_char d = true ∧
    hex_value d = n ∧ regex_match numberFilter (str "0x" ++ d) = true.
Proof.
  intros Hn. unfold quantity, rpc_text. set (b := uintToBytes n).
  assert (bytes_ok b) as Hb by (by apply uintToBytes_ok). rewrite (fromBytes_spec b true Hb), Ok_bind.
  pose proof (byte_text_lower b Hb) as Hlow. pose proof (hex_value_bytes b Hb) as Hval.
  unfold b in Hval. rewrite be_val_uintToBytes in Hval by done. fold b in Hval.
  destruct (forRPC_strips_zeros (flat_map byte_hex b)) as (r & Hr & Hnil & Hcons).
  exists r. split; [exact Hr|]. destruct (decide (flat_map byte_hex b = [])) as [E|E].
  - rewrite (Hnil E). rewrite E in Hval. cbn in Hval. subst n. by split_and!.
  - destruct (Hcons E) as (Hh & k & Hk). rewrite Hk in Hval, Hlow. rewrite hex_value_zeros in Hval.
    rewrite forallb_app in Hlow. apply andb_prop in Hlow as [_ Hlow].
    destruct r as [|c t]; [|split_and!; [done|by apply lower_hex_chars|done|]].
    + exfalso. cbn in Hval. subst n. by subst b.
    + apply numberFilter_spec. right. split; [done|]. exists c, t. split; [done|]. cbn in Hlow.
      apply andb_prop in Hlow as [Hc _]. apply lower_nonzero; [done|]. intros ->. by apply Hh.
Qed.

(** Every number the node prints is a number it reads: the text passes the
    filter of the decoders and is read back as the same number, with 256 bits or
    with 64. *)
Theorem rpc_quantity_roundtrip n :
  is_uint 256 n →
  ∃ s, quantity n = Ok s ∧ regex_match numberFilter s = true ∧ hex_uint s = Ok n ∧
    hex_uint64 s = if n <? 2 ^ 64 then Ok n else Throw range_error.
Proof using Type*.
  intros [Hn Hu]. destruct (quantity_text n Hn) as (d & Hq & Hne & Hd & Hv & Hf).
  exists (str "0x" ++ d). assert (hex_uint (str "0x" ++ d) = Ok n) as Hx by (rewrite hex_uint_digits; congruence).
  split_and!; [done..|]. unfold hex_uint64. by rewrite Hx.
Qed.

End Quantities.

Section Properties.
Context `{Keccak} `{Secp256k1Lib} `{RocksDB} `{!ContractHost} `{!CheckedLeft} `{!HashMapOrder}.
Context `{!LexicalCast} `{!JsonText}.
Context (thrNum : nat) (options : Options).
Implicit Types (m : Manager) (request : json).

(** ** Requests *)

(** The request a client writes. *)
Definition rpc_request (method : string) (ps : list json) (id : Z) : json :=
  JObject [ (str "id", JUint id); (str "jsonrpc", jstr "2.0"); (str "method", jstr method);
            (str "params", JArray ps) ].
(** The answer to it. *)
Definition rpc_result (id : Z) (result : json) : json :=
  JObject [ (str "id", JUint id); (str "jsonrpc", jstr "2.0"); (str "result", result) ].
Definition rpc_error (id code : Z) (message : string) : json :=
  JObject [ (str "error", JObject [(str "code", JInt code); (str "message", jstr message)]);
            (str "id", JUint id); (str "jsonrpc", jstr "2.0") ].

Lemma request_conforms method ps id : checkJsonRPCSpec (rpc_request method ps id) = Ok true.
Proof. reflexivity. Qed.

Lemma request_method method ps id :
  getMethod (rpc_request method ps id) = Ok (find_method methodsLookupTable (str method)).
Proof. reflexivity. Qed.

Lemma request_param_0 method s ps id : param_string (rpc_request method (JString s :: ps) id) 0 = Ok s.
Proof. reflexivity. Qed.
Lemma request_param_1 method p s ps id : param_string (rpc_request method (p :: JString s :: ps) id) 1 = Ok s.
Proof. reflexivity. Qed.

Lemma with_id_result method ps id result :
  (ret ← answer (jstr "2.0") (Ok result); with_id (rpc_request method ps id) ret) = Ok (rpc_result id result).
Proof. vm_compute. reflexivity. Qed.

(** [dispatch] goes to the branch of a method that [decoder] decodes. *)
Ltac dispatch_to k :=
  unfold dispatch; rewrite lift_bind, request_method, gets_bind;
  change (find_method _ _) with k; unfold after_decode; rewrite lift_bind.

(** A request that conforms is served. *)
Lemma parse_served body request m :
  json_parse body = Ok request → checkJsonRPCSpec request = Ok true →
  parseJsonRpcRequest thrNum options body m =
  match serve thrNum options request m with
  | (Ok ret, m') => (json_dump ret, m')
  | (Throw e, m') => (error ← internal_error e; json_dump error, m')
  | (Undef, m') => (Undef, m')
  end.
Proof.
  intros Hp Hc. unfold parseJsonRpcRequest. unfold mbind at 1, ST_bind at 1. unfold catching.
  rewrite lift_bind, Hp, lift_bind, Hc. cbn [negb]. unfold mbind at 1, ST_bind at 1.
  destruct (serve thrNum options request m) as [[ret|e|] m']; [done| |done].
  unfold mbind at 1, ST_bind at 1, lift. by destruct (error ← internal_error e; json_dump error).
Qed.

(** ** Requests without parameters *)

(** Unfolds the decoders down to the parameters of the request. *)
Ltac unfold_decoder :=
  cbv delta [RpcDecoding.web3_clientVersion RpcDecoding.web3_sha3 RpcDecoding.net_version
    RpcDecoding.net_listening RpcDecoding.net_peerCount RpcDecoding.eth_protocolVersion
    RpcDecoding.eth_getBlockByHash RpcDecoding.eth_getBlockByNumber
    RpcDecoding.eth_getBlockTransactionCountByHash
    RpcDecoding.eth_getBlockTransactionCountByNumber RpcDecoding.eth_chainId
    RpcDecoding.eth_syncing RpcDecoding.eth_coinbase RpcDecoding.eth_blockNumber
    RpcDecoding.eth_call RpcDecoding.eth_estimateGas RpcDecoding.eth_gasPrice
    RpcDecoding.eth_getBalance RpcDecoding.eth_getTransactionCount RpcDecoding.eth_getCode
    RpcDecoding.eth_sendRawTransaction RpcDecoding.eth_getTransactionByHash
    RpcDecoding.eth_getTransactionByBlockHashAndIndex
    RpcDecoding.eth_getTransactionByBlockNumberAndIndex RpcDecoding.eth_getTransactionReceipt no_params account_query include_transactions call_object decoding rethrow] beta.
Ltac undefined_decoder :=
  match goal with
  | Hk : context [after_check] |- context [after_check] => rewrite Hk; [reflexivity|]
  | Hd : context [after_decode] |- context [after_decode] => rewrite Hd; [reflexivity|]
  end;
  unfold_decoder;
  match goal with Hs : ∀ i, param_string _ i = _, Hu : params _ = _ |- _ => rewrite ?Hs, ?Hu; reflexivity end.

(** A request may leave out its parameters, says the specification the code
    links to, and [checkJsonRPCSpec] lets it; but then every method of the table
    indexes a constant with a key that is not there, which fails an assertion of
    the JSON library or is undefined: one such request ends the node. *)
Theorem rpc_missing_params_undefined o name method body m :
  (str name, method) ∈ methodsLookupTable → method ≠ m_eth_sendTransaction →
  obj_find (str "jsonrpc") o = Some (jstr "2.0") → obj_find (str "method") o = Some (jstr name) →
  obj_find (str "params") o = None → json_parse body = Ok (JObject o) →
  checkJsonRPCSpec (JObject o) = Ok true ∧ parseJsonRpcRequest thrNum options body m = (Undef, m).
Proof.
  intros Hin%list_elem_of_In Hne Hj Hm Hp Hb. cbn [methodsLookupTable In] in Hin.
  assert (checkJsonRPCSpec (JObject o) = Ok true) as Hc.
  { unfold checkJsonRPCSpec, contains, const_index. by rewrite Hj, Hm, Hp. }
  split; [done|]. rewrite (parse_served _ _ _ Hb Hc). unfold serve, dispatch.
  assert (params (JObject o) = Undef) as Hu by (unfold params, const_index; by rewrite Hp).
  assert (∀ i, param_string (JObject o) i = Undef) as Hs by (intros i; unfold param_string; by rewrite Hu).
  assert (getMethod (JObject o) = Ok method) as Hg.
  { unfold getMethod, const_index. rewrite Hm. unfold jstr, get_string. rewrite !Ok_bind. cbn [rethrow try_catch].
    f_equal. clear -Hin.
    repeat (destruct Hin as [Hin|Hin]; [injection Hin as Hn <-; rewrite <-Hn; vm_compute; reflexivity|]). done. }
  unfold mbind at 1, ST_bind at 1. rewrite lift_bind, Hg, gets_bind.
  assert (∀ A (d : outcome A) (f : A → ST Manager json), d = Undef → after_decode d f m = (Undef, m)) as Hd
    by (by intros A d f ->).
  assert (∀ (d : outcome unit) (r : ST Manager json), d = Undef → after_check d r m = (Undef, m)) as Hk
    by (by intros d r ->).
  clear -Hin Hne Hu Hs Hd Hk.
  repeat (destruct Hin as [Hin|Hin]; [injection Hin as _ <-; first [done|undefined_decoder]|]). done.
Qed.

(** ** Submitting a transaction *)

(** The text of a byte string, as clients write it. *)
Definition hex_param (b : bytes) : json := JString (str "0x" ++ flat_map byte_hex b).

Lemma jhex_Ok b : bytes_ok b → jhex b = Ok (hex_param b).
Proof. intros Hb. unfold jhex, hex_text. by rewrite (fromBytes_spec b true Hb), Ok_bind. Qed.

Lemma decode_raw b tx id :
  bytes_ok b → TxBlock_parse b (chainID options) = Ok tx →
  RpcDecoding.eth_sendRawTransaction (chainID options) (rpc_request "eth_sendRawTransaction" [hex_param b] id) = Ok tx.
Proof.
  intros Hb Hp. unfold RpcDecoding.eth_sendRawTransaction. unfold hex_param. rewrite request_param_0, Ok_bind.
  rewrite isValid_strict_prefixed by (by apply flat_byte_hex_all). cbn [negb throw_if]. rewrite Ok_bind.
  rewrite (toBytes_spec b true Hb (or_introl eq_refl) : toBytes (str "0x" ++ flat_map byte_hex b) = Ok b), Ok_bind, Hp. done.
Qed.

Lemma serve_raw b tx id m :
  bytes_ok b → TxBlock_parse b (chainID options) = Ok tx →
  serve thrNum options (rpc_request "eth_sendRawTransaction" [hex_param b] id) m =
  (ret ← RpcEncoding.eth_sendRawTransaction tx;
   lift (with_id (rpc_request "eth_sendRawTransaction" [hex_param b] id) ret)) m.
Proof.
  intros Hb Hp.
  assert (dispatch thrNum options (rpc_request "eth_sendRawTransaction" [hex_param b] id) m =
    RpcEncoding.eth_sendRawTransaction tx m) as E.
  { dispatch_to m_eth_sendRawTransaction. by rewrite (decode_raw b tx id Hb Hp). }
  unfold serve, mbind, ST_bind. by rewrite E.
Qed.

Lemma on_state_addTx tx m st rd storage r st' :
  m_ledger m = (st, rd, storage) → addTx tx st = (r, st') →
  on_state (addTx tx) m = (r, set_m_ledger m (st', rd, storage)).
Proof. intros Hm Ha. unfold on_state. by rewrite Hm, Ha. Qed.

Lemma send_valid id b tx m st rd storage message n :
  m_ledger m = (st, rd, storage) → m_closed m = false →
  validateTransactionInternal st tx = Ok NotInvalid →
  BroadcastEncoder_broadcastTx tx = Ok message → message_number message = Ok n →
  m_broadcastedMessages m !! n = None →
  (ret ← RpcEncoding.eth_sendRawTransaction tx;
   lift (with_id (rpc_request "eth_sendRawTransaction" [hex_param b] id) ret)) m =
  (Ok (rpc_result id (hex_param (TxBlock_hash tx true))),
   passed_on (set_m_ledger m (set_txs st (map_emplace (TxBlock_hash tx true) tx (mempool st)), rd, storage)) n message).
Proof.
  intros Hm Hcl Hv Hb Hn Hf. set (m1 := set_m_ledger m _).
  assert (on_state (addTx tx) m = (Ok NotInvalid, m1)) as Ha.
  { apply (on_state_addTx tx m st rd storage); [done|]. unfold addTx. by rewrite Hv. }
  assert (broadcastTxBlock tx m1 = (Ok tt, passed_on m1 n message)) as Hbr.
  { unfold broadcastTxBlock. rewrite lift_bind, Hb. by apply broadcastMessage_fresh. }
  pose proof (with_id_result "eth_sendRawTransaction" [hex_param b] id (hex_param (TxBlock_hash tx true))) as Hid.
  set (request := rpc_request _ _ _) in *. clearbody request.
  unfold RpcEncoding.eth_sendRawTransaction, mbind, ST_bind. rewrite Ha. cbn [bool_decide decide].
  rewrite bool_decide_true by done. unfold lift at 1. rewrite jhex_Ok by (apply sha3_ok).
  destruct (answer (jstr "2.0") (Ok (hex_param (TxBlock_hash tx true)))) as [ret| |]; [|done..].
  rewrite Ok_bind in Hid. rewrite Hbr. cbn [mret ST_ret]. unfold lift. by rewrite Hid.
Qed.

(** A transaction that a peer receives as a broadcast. *)
Lemma tx_broadcast_accepted version clock s message n tx p st rd storage :
  BroadcastDecoder_broadcastTx message (chainID options) = Ok tx → message_number message = Ok n →
  m_ledger p = (st, rd, storage) → m_closed p = false → m_broadcastedMessages p !! n = None →
  validateTransactionInternal st tx = Ok NotInvalid →
  handleMessage version (chainID options) thrNum clock s message p =
  (Ok tt, passed_on (set_m_ledger p (set_txs st (map_emplace (TxBlock_hash tx true) tx (mempool st)), rd, storage)) n message).
Proof.
  intros Hd Hn Hp Hcl Hf Hv. pose proof Hd as Hd'. unfold BroadcastDecoder_broadcastTx in Hd'.
  apply bind_Ok in Hd' as (data & Hdata & _). apply broadcast_data_inv in Hdata as (Ht & Hc & _ & _).
  unfold handleMessage. rewrite gets_bind, Hcl, lift_bind, Ht.
  unfold handleBroadcast. rewrite gets_bind, Hcl, lift_bind, Hn, gets_bind, Hf.
  change (0 <? default 0 None) with false. cbv iota. rewrite lift_bind, Hc.
  unfold handleTxBroadcast, catching. rewrite lift_bind, Hd. set (p1 := set_m_ledger p _).
  assert (on_ledger (ch_addTx tx) p = (Ok NotInvalid, p1)) as Ha.
  { unfold on_ledger. cbn [ch_addTx state_chain]. rewrite Hp. unfold node_addTx, addTx. by rewrite Hv. }
  unfold mbind, ST_bind. rewrite Ha, bool_decide_true by done.
  by rewrite (broadcastMessage_fresh message n p1).
Qed.

Lemma emplace_found (k : bytes) (tx : TxBlock) (mp : gmap bytes TxBlock) : is_Some (map_emplace k tx mp !! k).
Proof. unfold map_emplace. destruct (mp !! k) eqn:E; [by rewrite E|]. by rewrite lookup_insert_eq. Qed.


(** A transaction that the node finds invalid changes nothing, and the
    answer says why. *)
Theorem rpc_transaction_rejected body id raw tx m reason :
  json_parse body = Ok (rpc_request "eth_sendRawTransaction" [hex_param raw] id) →
  bytes_ok raw → TxBlock_parse raw (chainID options) = Ok tx →
  validateTransactionInternal (node_state m) tx = Ok reason → reason ≠ NotInvalid →
  parseJsonRpcRequest thrNum options body m =
  (json_dump (rpc_error id (-32000) (if bool_decide (reason = InvalidNonce) then "Invalid nonce" else "Invalid balance")), m).
Proof.
  intros Hbody Hb Hp Hv Hr. rewrite (parse_served _ _ _ Hbody (request_conforms _ _ _)), (serve_raw raw tx id m Hb Hp).
  assert (on_state (addTx tx) m = (Ok reason, m)) as Ha.
  { destruct m as [cl se rq cc bm cs [[st rd] storage] ev]. unfold on_state, addTx. cbn in *. rewrite Hv.
    by destruct reason. }
  unfold RpcEncoding.eth_sendRawTransaction, mbind, ST_bind. rewrite Ha, bool_decide_false by done.
  by destruct reason.
Qed.

(** ** Decoded parameters *)

Lemma fixed_filter l n b :
  (∀ c, in_set set_lower c = true → in_set l c = true) → bytes_ok b → (length b * 2 = n)%nat →
  regex_match (RSeq (RLit (str "0x")) (RTimes n (RSet l))) (str "0x" ++ flat_map byte_hex b) = true.
Proof.
  intros Hsub Hb Hl. apply regex_match_spec, matches_seq. exists (str "0x"), (flat_map byte_hex b).
  split_and!; [done|by apply matches_lit|]. apply matches_set_times. rewrite flat_byte_hex_length, Hl.
  split; [done|]. pose proof (byte_text_lower b Hb) as Hlow. rewrite !forallb_forall in *. auto.
Qed.

Lemma lower_comma c : in_set set_lower c = true → in_set set_comma c = true.
Proof. unfold in_set, set_lower, set_comma. cbn. intros. zify_bool. lia. Qed.

Lemma hex_param_bytes b : bytes_ok b → toBytes (str "0x" ++ flat_map byte_hex b) = Ok b.
Proof. intros Hb. by apply (toBytes_spec b true Hb (or_introl eq_refl)). Qed.

Lemma FixedStr_ctor_id n b : length b = n → FixedStr_ctor n b = b.
Proof. intros Hl. unfold FixedStr_ctor, resize_str. rewrite Hl, Nat.sub_diag, take_ge by lia. apply app_nil_r. Qed.

Lemma hash_param_Ok l h what :
  (∀ c, in_set set_lower c = true → in_set l c = true) → bytes_ok h → length h = 32%nat →
  hash_param (RSeq (RLit (str "0x")) (RTimes 64 (RSet l))) (str "0x" ++ flat_map byte_hex h) what = Ok h.
Proof.
  intros Hsub Hb Hl. unfold hash_param, filtered. rewrite (fixed_filter l 64 h Hsub Hb) by lia. cbn [negb throw_if].
  by rewrite Ok_bind, hex_param_bytes, Ok_bind, FixedStr_ctor_id.
Qed.

Lemma address_param_Ok a what :
  bytes_ok a → length a = 20%nat → address_param (str "0x" ++ flat_map byte_hex a) what = Ok a.
Proof.
  intros Hb Hl. unfold address_param, filtered. unfold addressFilter. rewrite (fixed_filter set_comma 40 a lower_comma Hb) by lia.
  cbn [negb throw_if]. rewrite Ok_bind, hex_param_bytes, Ok_bind by done. unfold Address_ctor.
  by rewrite (zlen_of_length _ _ Hl).
Qed.

(** A height written by the node itself. *)
Lemma quantity_number n :
  is_uint 64 n →
  ∃ d, quantity n = Ok (str "0x" ++ d) ∧ hex_uint64 (str "0x" ++ d) = Ok n ∧
    ∀ what, filtered numberFilter (str "0x" ++ d) what = Ok tt.
Proof using Type*.
  intros [Hn Hu]. destruct (quantity_text n Hn) as (d & Hq & Hne & Hd & Hv & Hf). exists d. split; [done|].
  assert (2 ^ 64 < 2 ^ 256) by (by apply Z.pow_lt_mono_r). split.
  - unfold hex_uint64. rewrite hex_uint_digits, Ok_bind by (done || lia). unfold to_width.
    rewrite Hv. by rewrite (proj2 (Z.ltb_lt n (2 ^ 64))).
  - intros what. unfold filtered. by rewrite Hf.
Qed.

Lemma tagged_quantity storage n d :
  (∀ what, filtered numberFilter (str "0x" ++ d) what = Ok tt) → hex_uint64 (str "0x" ++ d) = Ok n →
  tagged_number storage (str "0x" ++ d) = Ok n.
Proof. intros Hf Hx. unfold tagged_number. rewrite !bool_decide_false by done. cbn [throw_if]. by rewrite Ok_bind, Hf. Qed.

(** A call of [dispatch] that gives what [op] gives. *)
Lemma serve_by method ps id (op : ST Manager json) m :
  dispatch thrNum options (rpc_request method ps id) m = op m →
  serve thrNum options (rpc_request method ps id) m =
  (r ← op; lift (with_id (rpc_request method ps id) r)) m.
Proof. intros E. unfold serve, mbind, ST_bind. by rewrite E. Qed.

(** The answer of such a call, with the id. *)
Lemma answered method ps id v (op : ST Manager json) m m' :
  op m = (answer (jstr "2.0") (Ok v), m') →
  (r ← op; lift (with_id (rpc_request method ps id) r)) m = (Ok (rpc_result id v), m').
Proof.
  intros Ho. pose proof (with_id_result method ps id v) as Hid. unfold mbind, ST_bind. rewrite Ho.
  destruct (answer (jstr "2.0") (Ok v)); [|done..]. rewrite Ok_bind in Hid. unfold lift. by rewrite Hid.
Qed.

(** ** A block that is not there *)

(** Asked for the number of transactions of a block it does not have, by
    hash or by height, the node follows a null pointer. *)
Theorem rpc_unknown_block_undefined body id m :
  (∀ hash, json_parse body = Ok (rpc_request "eth_getBlockTransactionCountByHash" [hex_param hash] id) →
     bytes_ok hash → length hash = 32%nat →
     blockExists_hash (node_storage m) (st_db (node_state m)) hash = NotFound →
     (parseJsonRpcRequest thrNum options body m).1 = Undef) ∧
  (∀ n s, json_parse body = Ok (rpc_request "eth_getBlockTransactionCountByNumber" [JString s] id) →
     is_uint 64 n → quantity n = Ok s → blockHashByHeight (node_storage m) !! n = None →
     (parseJsonRpcRequest thrNum options body m).1 = Undef).
Proof using Type*.
  destruct m as [cl se rq cc bm cs [[st rd] storage] ev]. set (m := mkManager _ _ _ _ _ _ _ _). split.
  - intros hash Hbody Hb Hl Hx. rewrite (parse_served _ _ _ Hbody (request_conforms _ _ _)).
    rewrite (serve_by _ _ _ (RpcEncoding.eth_getBlockTransactionCountByHash thrNum options hash)).
    + unfold RpcEncoding.eth_getBlockTransactionCountByHash, storage_getBlock, on_storage, mbind, ST_bind.
      cbn [m_ledger m]. unfold getBlock_hash. cbn in Hx. by rewrite Hx.
    + dispatch_to m_eth_getBlockTransactionCountByHash.
      unfold RpcDecoding.eth_getBlockTransactionCountByHash, hex_param.
      by rewrite request_param_0, Ok_bind, (hash_param_Ok set_lower hash).
  - intros n s Hbody Hn Hs Hx. rewrite (parse_served _ _ _ Hbody (request_conforms _ _ _)).
    destruct (quantity_number n Hn) as (d & Hq & Hx' & Hf). rewrite Hs in Hq. apply Ok_inj in Hq as ->.
    rewrite (serve_by _ _ _ (RpcEncoding.eth_getBlockTransactionCountByNumber thrNum options n)).
    + unfold RpcEncoding.eth_getBlockTransactionCountByNumber, storage_getBlockByHeight, on_storage, mbind, ST_bind.
      cbn [m_ledger m]. unfold getBlock_height, blockExists_height. cbn in Hx. by rewrite Hx.
    + dispatch_to m_eth_getBlockTransactionCountByNumber.
      unfold RpcDecoding.eth_getBlockTransactionCountByNumber.
      by rewrite request_param_0, Ok_bind, (tagged_quantity _ n d).
Qed.

(** ** Accounts *)

(** The block a query of an account may name: the latest, by tag or height. *)
Definition names_latest (m : Manager) (t : bytes) : Prop :=
  ∃ lb, latest (node_storage m) = Ok lb ∧ is_uint 64 (b_nHeight lb) ∧
    (t = str "latest" ∨ quantity (b_nHeight lb) = Ok t).

Lemma only_latest_Ok m t : names_latest m t → only_latest (node_storage m) t = Ok tt.
Proof using Type*.
  intros (lb & Hl & Hu & [->|Hq]); [done|]. destruct (quantity_number _ Hu) as (d & Hd & Hx & Hf).
  rewrite Hq in Hd. apply Ok_inj in Hd as ->. unfold only_latest. rewrite bool_decide_false by done.
  unfold latest_height. by rewrite Hf, Ok_bind, Hx, Ok_bind, Hl, !Ok_bind, Z.eqb_refl.
Qed.

Lemma account_query_Ok name method a t id m :
  bytes_ok a → length a = 20%nat → names_latest m t →
  account_query name (node_storage m) (rpc_request method [hex_param a; JString t] id) = Ok a.
Proof using Type*.
  intros Hb Hl Ht. unfold account_query, hex_param.
  by rewrite request_param_0, Ok_bind, request_param_1, Ok_bind, only_latest_Ok, Ok_bind, address_param_Ok.
Qed.

(** Queries of the balance and the nonce of an account at the latest block,
    named by tag or by height, answer with the quantity of the State's value, and
    change nothing. *)
Theorem rpc_account_queries body id a t m :
  bytes_ok a → length a = 20%nat → names_latest m t →
  (json_parse body = Ok (rpc_request "eth_getBalance" [hex_param a; JString t] id) →
   is_uint 256 (getNativeBalance (node_state m) a) →
   ∃ q, quantity (getNativeBalance (node_state m) a) = Ok q ∧
     parseJsonRpcRequest thrNum options body m = (json_dump (rpc_result id (JString q)), m)) ∧
  (json_parse body = Ok (rpc_request "eth_getTransactionCount" [hex_param a; JString t] id) →
   is_uint 64 (getNativeNonce (node_state m) a) →
   ∃ q, quantity (getNativeNonce (node_state m) a) = Ok q ∧
     parseJsonRpcRequest thrNum options body m = (json_dump (rpc_result id (JString q)), m)).
Proof using Type*.
  intros Hb Hl Ht. split; intros Hbody [Hn _]; destruct (quantity_text _ Hn) as (d & Hq & _);
    eexists; (split; [exact Hq|]); rewrite (parse_served _ _ _ Hbody (request_conforms _ _ _)).
  - rewrite (serve_by _ _ _ (reading (RpcEncoding.eth_getBalance a))).
    + rewrite (answered _ _ _ (JString (str "0x" ++ d)) _ m m); [done|].
      unfold reading, RpcEncoding.eth_getBalance, jquantity. by rewrite Hq.
    + dispatch_to m_eth_getBalance. unfold RpcDecoding.eth_getBalance. by rewrite account_query_Ok.
  - rewrite (serve_by _ _ _ (reading (RpcEncoding.eth_getTransactionCount a))).
    + rewrite (answered _ _ _ (JString (str "0x" ++ d)) _ m m); [done|].
      unfold reading, RpcEncoding.eth_getTransactionCount, jquantity. by rewrite Hq.
    + dispatch_to m_eth_getTransactionCount. unfold RpcDecoding.eth_getTransactionCount. by rewrite account_query_Ok.
Qed.

(** ** Blocks *)

Lemma jquantity_Ok n : 0 ≤ n → ∃ s, quantity n = Ok s ∧ jquantity n = Ok (JString s).
Proof.
  intros Hn. destruct (quantity_text n Hn) as (d & Hq & _). eexists. split; [done|]. unfold jquantity. by rewrite Hq.
Qed.

Lemma jlist_Ok {A} (f : A → outcome json) g l : (∀ x, x ∈ l → f x = Ok (g x)) → jlist f l = Ok (JArray (g <$> l)).
Proof.
  intros Hf. assert (∀ acc, foldM (λ r x, j ← f x; Ok (r ++ [j])) acc l = Ok (acc ++ (g <$> l))) as Hg.
  { induction l as [|x l IH]; intros acc; [by rewrite app_nil_r|]. cbn [foldM].
    rewrite (Hf x) by (by left). rewrite !Ok_bind, IH by (intros y Hy; apply Hf; by right). by rewrite <-app_assoc. }
  unfold jlist. by rewrite Hg.
Qed.

(** The fields of the fixed sizes, as bytes. *)
Record Block_bytes (b : Block) : Prop := {
  bb_shape : Block_shape b;
  bb_prev : bytes_ok (b_prevBlockHash b);
  bb_root : bytes_ok (b_txMerkleRoot b);
  bb_key : length (b_validatorPubKey b) = 65%nat;
}.

(** What is said about a block. *)
Lemma block_json b :
  Block_bytes b →
  ∃ o q, getBlockJson (Some b) false = Ok (JObject [(str "jsonrpc", two); (str "result", JObject o)]) ∧
    quantity (b_nHeight b) = Ok q ∧ obj_find (str "number") o = Some (JString q) ∧
    obj_find (str "hash") o = Some (hex_param (Block_hash b)) ∧
    obj_find (str "parentHash") o = Some (hex_param (b_prevBlockHash b)) ∧
    obj_find (str "transactionsRoot") o = Some (hex_param (b_txMerkleRoot b)) ∧
    obj_find (str "transactions") o = Some (JArray (hex_param <$> tx_hashes b)).
Proof.
  intros [[_ _ _ _ _ [Hts _] [Hnh _]] Hprev Hroot Hkey]. destruct (toAddress_Ok _ Hkey) as (a & Ha & _ & Hab).
  destruct (jquantity_Ok (b_nHeight b) Hnh) as (q & Hq & Hjq). destruct (jquantity_Ok (b_timestamp b) Hts) as (ts & _ & Hjt).
  destruct (jquantity_Ok (zlen (serializeBlock b))) as (sz & _ & Hjs); [unfold zlen; lia|].
  destruct (jquantity_Ok (2 ^ 64 - 1)) as (gl & _ & Hgl); [done|]. destruct (jquantity_Ok 1000000000) as (gu & _ & Hgu); [done|].
  assert (bytes_ok Hash_zero) as Hz by (apply Forall_replicate; unfold is_byte; lia).
  unfold getBlockJson, block_fields. rewrite Ha, Ok_bind, Hjq, Hjt, Hjs, Hgl, Hgu.
  rewrite (jhex_Ok (Block_hash b)) by apply sha3_ok.
  rewrite (jhex_Ok (b_prevBlockHash b) Hprev), (jhex_Ok (b_txMerkleRoot b) Hroot), (jhex_Ok a Hab), !(jhex_Ok Hash_zero Hz).
  rewrite (jlist_Ok _ (λ tx, hex_param (TxBlock_hash tx true))) by (intros; apply jhex_Ok, sha3_ok).
  assert ((λ tx, hex_param (TxBlock_hash tx true)) <$> b_txs b = hex_param <$> tx_hashes b) as ->
    by (unfold tx_hashes; by rewrite <-list_fmap_compose).
  generalize (hex_param (Block_hash b)) (hex_param (b_prevBlockHash b)) (hex_param Hash_zero) (hex_param a)
    (hex_param (b_txMerkleRoot b)) (JArray (hex_param <$> tx_hashes b)). clear -Hq. intros.
  eexists _, q. split; [vm_compute; reflexivity|]. split_and!; [done|vm_compute; reflexivity..].
Qed.

(** A block of the chain, asked for by its hash, is answered with its height,
    its hash, the hash of its parent, its transactions root and the hashes of
    its transactions in order, and nothing changes. *)
Theorem rpc_block_by_hash body id b m :
  rtc (storage_step thrNum (chainID options) (st_db (node_state m))) Storage_empty (node_storage m) →
  b ∈ chain (node_storage m) → Block_bytes b →
  json_parse body = Ok (rpc_request "eth_getBlockByHash" [hex_param (Block_hash b)] id) →
  ∃ o q, parseJsonRpcRequest thrNum options body m =
      (json_dump (JObject [(str "id", JUint id); (str "jsonrpc", two); (str "result", JObject o)]), m) ∧
    quantity (b_nHeight b) = Ok q ∧ obj_find (str "number") o = Some (JString q) ∧
    obj_find (str "hash") o = Some (hex_param (Block_hash b)) ∧
    obj_find (str "parentHash") o = Some (hex_param (b_prevBlockHash b)) ∧
    obj_find (str "transactionsRoot") o = Some (hex_param (b_txMerkleRoot b)) ∧
    obj_find (str "transactions") o = Some (JArray (hex_param <$> tx_hashes b)).
Proof.
  intros Hr Hin Hok Hbody. destruct (block_json b Hok) as (o & q & Hj & Hq). exists o, q. split; [|done].
  rewrite (parse_served _ _ _ Hbody (request_conforms _ _ _)).
  rewrite (serve_by _ _ _ (RpcEncoding.eth_getBlockByHash thrNum options (Block_hash b, false))).
  - unfold RpcEncoding.eth_getBlockByHash, storage_getBlock, on_storage, mbind, ST_bind.
    destruct m as [cl se rq cc bm cs [[st rd] storage] ev]. cbn [node_storage node_state m_ledger fst snd] in *.
    destruct (storage_lookup thrNum (chainID options) (st_db st) storage b Hr Hin) as [-> _].
    cbn [with_state]. unfold lift. rewrite Hj. reflexivity.
  - dispatch_to m_eth_getBlockByHash. unfold RpcDecoding.eth_getBlockByHash, include_transactions, hex_param.
    rewrite request_param_0. change (params _) with (Ok (JArray [hex_param (Block_hash b)])). rewrite !Ok_bind.
    change (json_size _ =? 2) with false. cbv iota. rewrite !Ok_bind.
    by rewrite (hash_param_Ok set_lower (Block_hash b)) by (done || apply sha3_ok || apply sha3_length).
Qed.

(** ** Queries change nothing *)

(** What a lookup may do to a Storage: fill its caches, and add entries to
    the maps of positions and heights that have none. *)
Record storage_reads (s s' : Storage) : Prop := {
  sr_chain : chain s' = chain s;
  sr_blocks : blockByHash s' = blockByHash s;
  sr_heights : blockHashByHeight s' = blockHashByHeight s;
  sr_txs : txByHash s ⊆ txByHash s';
}.

#[local] Instance storage_reads_preorder : PreOrder storage_reads.
Proof.
  split; [by intros s; split|]. intros s1 s2 s3 [? ? ? ?] [? ? ? ?]. split; [congruence..|by etrans].
Qed.

Definition observed (m m' : Manager) : Prop :=
  ∃ storage', m' = set_m_ledger m ((m_ledger m).1, storage') ∧ storage_reads (m_ledger m).2 storage'.

#[local] Instance observed_preorder : PreOrder observed.
Proof.
  split.
  - intros m. exists (m_ledger m).2. split; [|done]. by destruct m as [? ? ? ? ? ? [? ?] ?].
  - intros m1 m2 m3 (s1 & -> & H1') (s2 & -> & H2'). exists s2. split; [done|]. by etrans.
Qed.

Definition observes {A} (op : ST Manager A) : Prop := ∀ m, observed m (op m).2.

Lemma observes_lift {A} (o : outcome A) : observes (lift o).
Proof. intros m. apply (reflexivity m). Qed.
Lemma observes_gets {A} (f : Manager → A) : observes (gets f).
Proof. intros m. apply (reflexivity m). Qed.
Lemma observes_ret {A} (a : A) : observes (mret a).
Proof. intros m. apply (reflexivity m). Qed.
Lemma observes_reading f : observes (reading f).
Proof. intros m. apply (reflexivity m). Qed.

Lemma observes_bind {A B} (op : ST Manager A) (f : A → ST Manager B) :
  observes op → (∀ a, observes (f a)) → observes (a ← op; f a).
Proof.
  intros Ho Hf m. specialize (Ho m). unfold mbind, ST_bind. destruct (op m) as [[a|e|] m']; [|done..].
  etrans; [exact Ho|apply Hf].
Qed.

Lemma observes_storage {A} (op : Storage → rstore → outcome A * Storage) :
  (∀ s db, storage_reads s (op s db).2) → observes (on_storage op).
Proof.
  intros Ho m. destruct m as [cl se rq cc bm cs [[st rd] storage] ev]. unfold on_storage. cbn [m_ledger].
  specialize (Ho storage (st_db st)). destruct (op storage (st_db st)) as [r s']. by exists s'.
Qed.

Lemma with_state_reads {A} s (r : outcome (A * Storage)) :
  (∀ a s', r = Ok (a, s') → storage_reads s s') → storage_reads s (with_state s r).2.
Proof. intros Hr. destruct r as [[a s']| |]; [by apply (Hr a)|reflexivity..]. Qed.

Lemma load_block_reads s db h a s' :
  load_block thrNum (chainID options) s db h = Ok (a, s') → storage_reads s s'.
Proof. unfold load_block. intros Hl. inv_ok. by split. Qed.

Lemma getBlock_hash_reads s db h a s' :
  getBlock_hash thrNum (chainID options) s db h = Ok (a, s') → storage_reads s s'.
Proof. unfold getBlock_hash. intros Hg. case_match; [inv_ok; reflexivity..|by eapply load_block_reads]. Qed.

Lemma getBlock_height_reads s db n a s' :
  getBlock_height thrNum (chainID options) s db n = Ok (a, s') → storage_reads s s'.
Proof.
  unfold getBlock_height. intros Hg.
  repeat case_match; first [by inv_ok|discriminate|by eapply load_block_reads].
Qed.

Lemma emplace_subseteq `{Countable K} {A} (k : K) (v : A) (mp : gmap K A) : mp ⊆ map_emplace k v mp.
Proof. unfold map_emplace. destruct (mp !! k) eqn:E; [done|by apply insert_subseteq]. Qed.

Lemma bracket_tx_reads s tx : storage_reads s (bracket_tx s tx).2.
Proof. unfold bracket_tx, map_bracket. cbn. split; [done..|]. apply emplace_subseteq. Qed.

Lemma getTx_reads s db h a s' : getTx (chainID options) s db h = Ok (a, s') → storage_reads s s'.
Proof. unfold getTx. intros Hg. case_match; inv_ok; by split. Qed.

Lemma cached_tx_reads s h i a s' : cached_tx s h i = Ok (a, s') → storage_reads s s'.
Proof. unfold cached_tx, map_bracket. intros Hg. inv_ok. by split. Qed.

Lemma load_tx_reads s db h i a s' : load_tx (chainID options) s db h i = Ok (a, s') → storage_reads s s'.
Proof. unfold load_tx, map_bracket. intros Hg. inv_ok. by split. Qed.

Lemma getTxByBlockHashAndIndex_reads s db h i :
  storage_reads s (getTxByBlockHashAndIndex (chainID options) s db h i).2.
Proof.
  unfold getTxByBlockHashAndIndex. case_match; [reflexivity| | |].
  - case_match; [|reflexivity..]. pose proof (bracket_tx_reads s a) as Hb.
    destruct (bracket_tx s a) as [[[? ?] ?] s']. by case_match.
  - apply with_state_reads. intros. by eapply cached_tx_reads.
  - apply with_state_reads. intros. by eapply load_tx_reads.
Qed.

Lemma getTxByBlockNumberAndIndex_reads s db n i a s' :
  getTxByBlockNumberAndIndex (chainID options) s db n i = Ok (a, s') → storage_reads s s'.
Proof.
  unfold getTxByBlockNumberAndIndex. intros Hg.
  repeat case_match; try discriminate; try (by inv_ok); [|by eapply cached_tx_reads|by eapply load_tx_reads].
  apply bind_Ok in Hg as (tx & _ & Hg). pose proof (bracket_tx_reads s tx) as Hb.
  destruct (bracket_tx s tx) as [[[? ?] ?] s2]. by inv_ok.
Qed.

Ltac observes_tac :=
  repeat first
    [ apply observes_lift | apply observes_gets | apply observes_ret | apply observes_reading
    | apply observes_bind; [|intros ?]
    | apply observes_storage; intros; apply with_state_reads; intros
    | apply observes_storage; intros; apply getTxByBlockHashAndIndex_reads
    | by eapply getBlock_hash_reads | by eapply getBlock_height_reads | by eapply getTx_reads
    | by eapply getTxByBlockNumberAndIndex_reads ].

(** The methods that only look. *)
Definition query (k : Methods) : bool :=
  match k with m_eth_call | m_eth_estimateGas | m_eth_sendRawTransaction => false | _ => true end.

Lemma dispatch_observes request k : getMethod request = Ok k → query k = true → observes (dispatch thrNum options request).
Proof.
  intros Hk Hq m. unfold dispatch. rewrite lift_bind, Hk, gets_bind.
  generalize (node_storage m) as storage. intros storage.
  destruct k; try discriminate; unfold after_check, after_decode;
    (match goal with |- observed m (?op m).2 => assert (observes op) as Hop; [|apply Hop] end);
    unfold RpcEncoding.eth_getBlockByHash, RpcEncoding.eth_getBlockByNumber,
      RpcEncoding.eth_getBlockTransactionCountByHash, RpcEncoding.eth_getBlockTransactionCountByNumber,
      RpcEncoding.eth_getTransactionByBlockHashAndIndex, RpcEncoding.eth_getTransactionByBlockNumberAndIndex,
      RpcEncoding.eth_getTransactionReceipt, storage_getBlock, storage_getBlockByHeight, storage_getTx; observes_tac.
  case_match; unfold storage_getTx; observes_tac.
Qed.

Lemma serve_observes request :
  (∀ k, getMethod request = Ok k → query k = true) → observes (serve thrNum options request).
Proof.
  intros Hq. unfold serve. apply observes_bind; [|intros; apply observes_lift].
  destruct (getMethod request) as [k|e|] eqn:Hk; [by apply (dispatch_observes request k), Hq|..];
    intros m; unfold dispatch; rewrite lift_bind, Hk; reflexivity.
Qed.

Lemma observes_catching {A} (op : ST Manager A) (h : exn → ST Manager A) :
  observes op → (∀ e, observes (h e)) → observes (catching op h).
Proof.
  intros Ho Hh m. specialize (Ho m). unfold catching. destruct (op m) as [[a|e|] m']; [done| |done].
  etrans; [exact Ho|apply Hh].
Qed.


End Properties.

(** ** Data *)

(** A leading zero byte of the data of a transaction is not in the text: two
    different transactions read the same. *)
Theorem rpc_input_loses_zeros d : bytes_ok d → d ≠ [] → jdata (0 :: d) = jdata d.
Proof.
  intros Hb Hne. assert (bytes_ok (0 :: d)) as Hb0 by (constructor; [unfold is_byte; lia|done]).
  unfold jdata, rpc_text. rewrite (fromBytes_spec (0 :: d) true Hb0), (fromBytes_spec d true Hb), !Ok_bind.
  assert (flat_map byte_hex d ≠ []) as Hne' by (destruct d; [done|discriminate]).
  rewrite (forRPC_prefixed (flat_map byte_hex (0 :: d))), (forRPC_prefixed (flat_map byte_hex d)) by done.
  destruct (split_zeros (flat_map byte_hex d)) as (k & r & Hk & Hr).
  assert (flat_map byte_hex (0 :: d) = replicate (2 + k) ch0 ++ r) as ->
    by (change (flat_map byte_hex (0 :: d)) with (replicate 2 ch0 ++ flat_map byte_hex d);
        by rewrite Hk, replicate_add, <-app_assoc).
  rewrite Hk, !forRPC_loop_zeros; [done|rewrite !length_app, length_replicate; lia|done|rewrite !length_app, length_replicate; lia|done].
Qed.

(** ** A node *)

#[local] Existing Instances toy_keccak toy_secp toy_rocks toy_host toy_left toy_order toy_boost.

Lemma hex_value_nonneg s : forallb is_hex_char s = true → 0 ≤ hex_value s.
Proof.
  assert (∀ v, 0 ≤ v → forallb is_hex_char s = true → 0 ≤ foldl (λ v c, v * 16 + toInt c) v s) as Hall; [|by apply Hall].
  induction s as [|c s IH]; intros v Hv Hs; [done|]. cbn [forallb] in Hs. apply andb_prop in Hs as [Hc Hs].
  cbn [foldl]. apply IH; [|done]. assert (0 ≤ toInt c); [|lia].
  unfold is_hex_char in Hc. apply bool_decide_eq_true in Hc.
  assert (Forall (λ c, 0 ≤ toInt c) filter_chars) as Hf by (apply (bool_decide_unpack _); vm_compute; exact I).
  rewrite Forall_forall in Hf. by apply Hf.
Qed.

Definition toy_lexical : LexicalCast.
Proof.
  refine {| lexical_cast_hex s := checked 256 (hex_value s) |}.
  - intros s _ Hs Hv. unfold checked. pose proof (hex_value_nonneg s Hs).
    rewrite (proj2 (Z.ltb_ge _ _)) by lia. by rewrite (proj2 (Z.ltb_lt _ _)).
  - intros s Hs Hv. unfold checked. pose proof (hex_value_nonneg s Hs).
    rewrite (proj2 (Z.ltb_ge _ _)) by lia. rewrite (proj2 (Z.ltb_ge _ _)) by lia. by eexists.
Defined.

(** Prints a value without escapes. *)
Fixpoint json_print (j : json) : bytes :=
  let quoted s := [34] ++ s ++ [34] in
  let sep := str "," in
  match j with
  | JNull => str "null"
  | JBool b => str (if b then "true" else "false")
  | JInt z | JUint z => str (pretty.pretty z)
  | JFloat m e => str (pretty.pretty m) ++ str "p" ++ str (pretty.pretty e)
  | JString s => quoted s
  | JArray l => str "[" ++ flat_map (λ j, json_print j ++ sep) l ++ str "]"
  | JObject o => str "{" ++ flat_map (λ e, quoted e.1 ++ str ":" ++ json_print e.2 ++ sep) o ++ str "}"
  end.

(** Reads the texts of the requests below. *)
Definition toy_text (requests : list json) : JsonText := {|
  json_parse s := match list_find (λ j, json_print j = s) requests with
                  | Some (_, j) => Ok j | None => Throw (json_exception "parse_error.101") end;
  json_dump j := Ok (json_print j);
|}.

Definition rpc_options : Options := mkOptions (str "chain") 2 (str "web3") 2 8080 8080 8081 Address_empty false [].
Definition rpc_tx : TxBlock := tx_of (sample_TxBlock []).
Definition rpc_funds : gmap bytes Account := {[ sample_from := mkAccount (10 ^ 18) 3 ]}.
Definition rpc_state : State := mkState [] rpc_funds ∅ false tt.
Definition rpc_rdpos : rdPoS := mkRdPoS [] [] ∅ sample_key false Hash_zero Hash_zero false.
Definition rpc_node : Manager :=
  mkManager false (list_to_map [(node_id 1, peer_a); (node_id 2, peer_b)]) ∅ 1 ∅ ∅ (rpc_state, rpc_rdpos, st_one) [].

Definition send_request : json :=
  rpc_request "eth_sendRawTransaction" [hex_param (TxBlock_rlpSerialize rpc_tx true)] 7.
Definition bare_request : json := JObject [(str "jsonrpc", jstr "2.0"); (str "method", jstr "eth_chainId")].
Definition count_request : json := rpc_request "eth_getBlockTransactionCountByHash" [hex_param (node_id 9)] 1.
Definition balance_request : json := rpc_request "eth_getBalance" [hex_param sample_from; jstr "latest"] 2.
Definition block_request : json := rpc_request "eth_getBlockByHash" [hex_param (Block_hash st_block0)] 3.

#[local] Instance sample_text : JsonText :=
  toy_text [send_request; bare_request; count_request; balance_request; block_request].
#[local] Existing Instance toy_lexical.

Lemma rpc_quantity_roundtrip_witness :
  quantity 1000000 = Ok (str "0xf4240") ∧ hex_uint (str "0xf4240") = Ok 1000000.
Proof.
  assert (is_uint 256 1000000) as Hu by (split; vm_compute; congruence).
  destruct (rpc_quantity_roundtrip 1000000 Hu) as (s & Hq & _ & Hx & _).
  assert (quantity 1000000 = Ok (str "0xf4240")) as Hq' by (vm_compute; reflexivity).
  split; [exact Hq'|]. rewrite Hq' in Hq. apply Ok_inj in Hq. rewrite Hq. exact Hx.
Defined.


Lemma rpc_missing_params_undefined_witness :
  checkJsonRPCSpec bare_request = Ok true ∧
  parseJsonRpcRequest 4 rpc_options (json_print bare_request) rpc_node = (Undef, rpc_node).
Proof.
  refine (rpc_missing_params_undefined 4 rpc_options [(str "jsonrpc", jstr "2.0"); (str "method", jstr "eth_chainId")]
    "eth_chainId" m_eth_chainId (json_print bare_request) rpc_node _ _ _ _ _ _).
  - unfold methodsLookupTable. do 10 right. left.
  - discriminate.
  - reflexivity.
  - reflexivity.
  - reflexivity.
  - vm_compute. reflexivity.
Defined.

Lemma rpc_unknown_block_undefined_witness :
  (parseJsonRpcRequest 4 rpc_options (json_print count_request) rpc_node).1 = Undef.
Proof.
  refine (proj1 (rpc_unknown_block_undefined 4 rpc_options (json_print count_request) 1 rpc_node) (node_id 9) _ _ _ _).
  - vm_compute. reflexivity.
  - apply (bool_decide_unpack _). vm_compute. exact I.
  - reflexivity.
  - vm_compute. reflexivity.
Defined.

Lemma rpc_account_queries_witness :
  parseJsonRpcRequest 4 rpc_options (json_print balance_request) rpc_node =
  (Ok (json_print (rpc_result 2 (jstr "0xde0b6b3a7640000"))), rpc_node).
Proof.
  destruct (rpc_account_queries 4 rpc_options (json_print balance_request) 2 sample_from (str "latest") rpc_node) as [Hb _].
  - apply (bool_decide_unpack _). vm_compute. exact I.
  - reflexivity.
  - exists st_block0. split_and!; [vm_compute; reflexivity|by vm_compute|by left].
  - destruct Hb as (q & Hq & Hp); [vm_compute; reflexivity|apply (bool_decide_unpack _); vm_compute; exact I|].
    assert (quantity (getNativeBalance (node_state rpc_node) sample_from) = Ok (str "0xde0b6b3a7640000")) as Hq'
      by (vm_compute; reflexivity).
    rewrite Hq' in Hq. apply Ok_inj in Hq as <-. exact Hp.
Defined.

Lemma rpc_block_by_hash_witness :
  ∃ o, parseJsonRpcRequest 4 rpc_options (json_print block_request) rpc_node =
      (Ok (json_print (JObject [(str "id", JUint 3); (str "jsonrpc", two); (str "result", JObject o)])), rpc_node) ∧
    obj_find (str "number") o = Some (jstr "0x0").
Proof.
  destruct (rpc_block_by_hash 4 rpc_options (json_print block_request) 3 st_block0 rpc_node) as (o & q & Hp & Hq & Hn & _).
  - apply rtc_once. eapply (ss_pushBack _ _ _ _ st_block0);
      [apply (bool_decide_unpack _); vm_compute; exact I|vm_compute; reflexivity].
  - vm_compute. left.
  - split; [split; vm_compute; (reflexivity || (split; congruence))|apply (bool_decide_unpack _); vm_compute; exact I..|reflexivity].
  - vm_compute. reflexivity.
  - exists o. split; [exact Hp|]. rewrite Hn. assert (quantity (b_nHeight st_block0) = Ok (str "0x0")) as Hq' by (vm_compute; reflexivity).
    rewrite Hq' in Hq. by apply Ok_inj in Hq as <-.
Defined.


Lemma rpc_input_loses_zeros_witness : jdata [0; 95] = jdata [95].
Proof. apply (rpc_input_loses_zeros [95]); [repeat constructor; lia|discriminate]. Defined.

Definition http_post : HttpRequest := mkHttpRequest POST (str "/") 11 true (json_print balance_request).

(** The session and the node after the request was read. *)
Definition http_after : HttpSession * Manager :=
  (on_read 4 rpc_options "Boost.Beast/345" http_post (read_done session_start, rpc_node)).2.

Lemma http_pipeline_witness :
  rtc (http_step 4 rpc_options "Boost.Beast/345" true) (session_start, rpc_node) (http_after.1, http_after.2) ∧
  reads http_after.1 = 1%nat ∧ writes http_after.1 = 1%nat ∧ started http_after.1 `prefix_of` handled http_after.1.
Proof.
  assert (rtc (http_step 4 rpc_options "Boost.Beast/345" true) (session_start, rpc_node) (http_after.1, http_after.2)) as Hr.
  { assert (∀ {A B} (x : outcome unit * (A * B)), x.1 = Ok tt → x = (Ok tt, (x.2.1, x.2.2))) as Heta
      by (by intros A B [? [? ?]] [= ->]).
    apply rtc_once, (hs_request _ _ _ _ _ http_post); [apply Nat.lt_0_1|]. apply Heta. vm_compute. reflexivity. }
  assert (length (items http_after.1) = 1%nat) as Hl by (vm_compute; reflexivity).
  split; [exact Hr|]. revert Hr Hl. generalize http_after.1 as s, http_after.2 as m. intros s m Hr Hl.
  destruct (http_pipeline 4 rpc_options "Boost.Beast/345" rpc_node s m) as [H1' H2'].
  destruct (H2' Hr) as (_ & Hre & Hwr).
  split; [apply Hre; lia|]. split; [apply Hwr; by destruct (items s)|].
  apply H1'. refine (rtc_subrel _ _ _ _ _ Hr). intros x y Hs. by exists true.
Defined.
