(* ===== verification/HttpServer.v ===== *)
(** * HttpServer: the listener and the threads of the HTTP server
      (src/net/http/httpserver.{h,cpp}, httplistener.{h,cpp})

    [HTTPServer::run] runs in the thread of [runFuture]; its four threads serve
    one I/O context. Connections that are accepted become the sessions of
    Rpc.v. What Boost.Asio documents and the server relies on: [run()] of a
    context returns once the context is stopped, and at once while it has not
    been restarted; an acceptor that does not listen completes with an
    error. *)
From stdpp Require Import relations.
From S2P Require Import Prelude.

(** The thread of [runFuture]: none, before and in [ioc.run()], returned. *)
Inductive run_place := H_none | H_starting | H_serving | H_ended.

#[export] Instance run_place_eq_dec : EqDecision run_place.
Proof. solve_decision. Defined.

(** [HTTPListener]: the acceptor listens, an [async_accept] is outstanding,
    the sockets that became sessions, the failures logged. *)
Record HTTPListener := mkListener {
  li_listening : bool;
  li_pending : bool;
  li_sockets : list Z;
  li_failures : nat;
}.

(** The constructor logs the first step that fails and returns. *)
Definition HTTPListener_ctor (opened reuse bound listens : bool) : HTTPListener :=
  let ok := opened && reuse && bound && listens in
  mkListener ok false [] (if ok then 0 else 1).

Definition HTTPListener_do_accept (l : HTTPListener) : HTTPListener :=
  mkListener (li_listening l) true (li_sockets l) (li_failures l).

(** [on_accept]: another connection is accepted, whatever came of this one. *)
Definition HTTPListener_on_accept (ec : bool) (sock : Z) (l : HTTPListener) : HTTPListener :=
  HTTPListener_do_accept
    (if ec then mkListener (li_listening l) false (li_sockets l) (S (li_failures l))
     else mkListener (li_listening l) false (li_sockets l ++ [sock]) (li_failures l)).

(** [stopping]: a thread is in [stop()], after [ioc.stop()]. *)
Record HTTPServer := mkHTTPServer {
  ht_run : run_place;
  ht_stopped : bool;
  ht_stopping : bool;
  ht_listener : option HTTPListener;
}.

Definition HTTPServer_ctor : HTTPServer := mkHTTPServer H_none false false None.

Definition ht_running (s : HTTPServer) : bool := negb (bool_decide (ht_run s = H_none)).

Definition HTTPServer_start (s : HTTPServer) : HTTPServer :=
  if ht_running s then s else mkHTTPServer H_starting (ht_stopped s) (ht_stopping s) (ht_listener s).

(** [run()]: a new listener; [do_accept] runs inside [ioc.run()]. *)
Definition HTTPServer_run (opened reuse bound listens : bool) (s : HTTPServer) : HTTPServer :=
  let l := HTTPListener_ctor opened reuse bound listens in
  if ht_stopped s then mkHTTPServer H_ended true (ht_stopping s) (Some l)
  else mkHTTPServer H_serving false (ht_stopping s) (Some (HTTPListener_do_accept l)).

(** [stop()], up to [runFuture.get()], and its return. *)
Definition HTTPServer_stop_begin (s : HTTPServer) : HTTPServer :=
  if negb (ht_running s) then s else mkHTTPServer (ht_run s) true true (ht_listener s).
Definition HTTPServer_stop_end (s : HTTPServer) : option HTTPServer :=
  match ht_run s with
  | H_ended => Some (mkHTTPServer H_none (ht_stopped s) false (ht_listener s))
  | _ => None
  end.

Definition with_listener (s : HTTPServer) (l : HTTPListener) : HTTPServer :=
  mkHTTPServer (ht_run s) (ht_stopped s) (ht_stopping s) (Some l).

(** The threads of the server. *)
Inductive http_thread : HTTPServer → HTTPServer → Prop :=
  | ht_enter s o r b l : ht_run s = H_starting → http_thread s (HTTPServer_run o r b l s)
  | ht_accept s l ec sock :
      ht_run s = H_serving → ht_stopped s = false → ht_listener s = Some l → li_pending l = true →
      (ec = false → li_listening l = true) →
      http_thread s (with_listener s (HTTPListener_on_accept ec sock l))
  | ht_return s :
      ht_run s = H_serving → ht_stopped s = true →
      http_thread s (mkHTTPServer H_ended true (ht_stopping s) (ht_listener s)).

(** Calls of [start()] and [stop()]. *)
Inductive http_control : HTTPServer → HTTPServer → Prop :=
  | hc_start s : http_control s (HTTPServer_start s)
  | hc_stop s : http_control s (HTTPServer_stop_begin s)
  | hc_stopped s s' : ht_stopping s = true → HTTPServer_stop_end s = Some s' → http_control s s'.

Definition http_server_step (s s' : HTTPServer) : Prop := http_thread s s' ∨ http_control s s'.

(** ** Lemmas *)

Definition served (s : HTTPServer) : list Z := from_option li_sockets [] (ht_listener s).

(** While it serves, an accept is outstanding. *)
Definition serving_inv (s : HTTPServer) : Prop :=
  ht_run s = H_serving → ∃ l, ht_listener s = Some l ∧ li_pending l = true.

Lemma serving_inv_step s s' : http_server_step s s' → serving_inv s → serving_inv s'.
Proof.
  intros [Hs|Hs] Hi.
  - destruct Hs as [s o r b l Hr|s l ec sock Hr Hst Hl Hp Hec|s Hr Hst]; unfold serving_inv in *; cbn.
    + unfold HTTPServer_run. destruct (ht_stopped s); [done|]. eauto.
    + eauto.
    + done.
  - destruct Hs as [s|s|s s' Hst He].
    + unfold HTTPServer_start. destruct (ht_running s); [done|]. intros [=].
    + unfold HTTPServer_stop_begin. by destruct (negb (ht_running s)).
    + unfold HTTPServer_stop_end in He. destruct (ht_run s); try done. injection He as <-. by intros [=].
Qed.

Lemma rtc_serving s s' : rtc http_server_step s s' → serving_inv s → serving_inv s'.
Proof. induction 1; eauto using serving_inv_step. Qed.

(** A server that serves takes connections: a failed accept does not end the
    listener, and stopping ends the thread so that [stop()] returns. *)
Theorem http_server_accepts s :
  rtc http_server_step HTTPServer_ctor s → ht_run s = H_serving →
  (ht_stopped s = false → ∃ l, ht_listener s = Some l ∧
     ∀ ec sock, (ec = false → li_listening l = true) →
     ∃ s', http_thread s s' ∧ ht_run s' = H_serving ∧ served s' = served s ++ (if ec then [] else [sock])) ∧
  (ht_stopped s = true → ∃ s' s'', http_thread s s' ∧ HTTPServer_stop_end s' = Some s'' ∧ ht_running s'' = false).
Proof.
  intros Hr Hserve. assert (serving_inv s) as Hi by (apply (rtc_serving _ _ Hr); by intros [=]).
  destruct (Hi Hserve) as (l & Hl & Hp). split.
  - intros Hst. exists l. split; [done|]. intros ec sock Hec. eexists. split; [by eapply ht_accept|]. split; [done|].
    unfold served. rewrite Hl. destruct ec; cbn; by rewrite ?app_nil_r.
  - intros Hst. eexists _, _. split; [by apply ht_return|]. done.
Qed.

(** The context is not restarted: once it has been stopped it stays stopped. *)
Lemma stopped_step s s' : http_server_step s s' → ht_stopped s = true → ht_run s ≠ H_serving →
  ht_stopped s' = true ∧ ht_run s' ≠ H_serving ∧ (served s' = served s ∨ served s' = []).
Proof.
  intros [Hs|Hs] Hst Hns.
  - destruct Hs as [s o r b l Hr|s l ec sock Hr _ _ _ _|s Hr _]; [|done|done].
    unfold HTTPServer_run. rewrite Hst. split_and!; [done|done|by right].
  - destruct Hs as [s|s|s s' Hsg He].
    + unfold HTTPServer_start. destruct (ht_running s); [by split_and!; [done|done|left]|]. split_and!; [done|done|by left].
    + unfold HTTPServer_stop_begin. destruct (negb (ht_running s)); split_and!; try done; by left.
    + unfold HTTPServer_stop_end in He. destruct (ht_run s); try done. injection He as <-.
      split_and!; [done|done|by left].
Qed.

(** A server that was stopped and is started again counts as running, but
    serves nobody: [run()] does not restart the I/O context, so [ioc.run()]
    returns at once. *)
Theorem http_restart_serves_nobody s s' :
  ht_stopped s = true → ht_run s = H_none → rtc http_server_step (HTTPServer_start s) s' →
  ht_running (HTTPServer_start s) = true ∧ ht_run s' ≠ H_serving ∧ ∀ sock, sock ∈ served s' → sock ∈ served s.
Proof.
  intros Hst Hr Hs. assert (HTTPServer_start s = mkHTTPServer H_starting true (ht_stopping s) (ht_listener s)) as E.
  { unfold HTTPServer_start, ht_running. by rewrite Hr, Hst. }
  rewrite E in Hs |- *. split; [done|].
  assert (∀ x y, rtc http_server_step x y → ht_stopped x = true → ht_run x ≠ H_serving →
            ht_run y ≠ H_serving ∧ ∀ sock, sock ∈ served y → sock ∈ served x) as Hall.
  { induction 1 as [|x y z Hxy _ IH]; [done|]. intros Hx1 Hx2.
    destruct (stopped_step x y Hxy Hx1 Hx2) as (Hy1 & Hy2 & Hy3). destruct (IH Hy1 Hy2) as [Hz1 Hz2].
    split; [done|]. intros sock Hin. apply Hz2 in Hin. destruct Hy3 as [Ey|Ey]; rewrite Ey in Hin; [done|by apply elem_of_nil in Hin]. }
  by destruct (Hall _ _ Hs).
Qed.

Definition once_stopped : HTTPServer := mkHTTPServer H_none true false (Some (mkListener true true [7] 0)).

Lemma http_restart_serves_nobody_witness :
  ht_running (HTTPServer_start once_stopped) = true ∧ ht_run (HTTPServer_start once_stopped) ≠ H_serving.
Proof.
  destruct (http_restart_serves_nobody once_stopped (HTTPServer_start once_stopped)) as (H1 & H2 & _);
    [reflexivity|reflexivity|apply rtc_refl|].
  split; [exact H1|exact H2].
Defined.

(** A listener whose port could not be bound accepts and fails for ever. *)
Theorem http_unbound_spins n s l :
  ht_run s = H_serving → ht_stopped s = false → ht_listener s = Some l → li_pending l = true →
  li_listening l = false →
  ∃ s' l', nsteps http_thread n s s' ∧ ht_listener s' = Some l' ∧ li_failures l' = (n + li_failures l)%nat ∧
    li_sockets l' = li_sockets l ∧ ht_run s' = H_serving.
Proof.
  revert s l. induction n as [|n IH]; intros s l Hr Hst Hl Hp Hli.
  { exists s, l. split_and!; try done. constructor. }
  destruct (IH (with_listener s (HTTPListener_on_accept true 0 l)) (HTTPListener_on_accept true 0 l))
    as (s' & l' & Hn & Hl' & Hf & Hs & Hr'); [done..|].
  exists s', l'. split_and!; [|done| |done|done].
  - eapply nsteps_l; [|exact Hn]. by eapply ht_accept.
  - rewrite Hf. cbn. lia.
Qed.

Definition unbound : HTTPServer :=
  HTTPServer_run true true false true (HTTPServer_start HTTPServer_ctor).

Lemma http_unbound_spins_witness :
  ∃ s' l', nsteps http_thread 3 unbound s' ∧ ht_listener s' = Some l' ∧ li_failures l' = 4%nat.
Proof.
  destruct (http_unbound_spins 3 unbound (HTTPListener_do_accept (HTTPListener_ctor true true false true)))
    as (s' & l' & H1 & H2 & H3 & _); [reflexivity|reflexivity|reflexivity|reflexivity|reflexivity|].
  exists s', l'. split; [exact H1|]. split; [exact H2|]. rewrite H3. reflexivity.
Defined.
