(* ===== verification/Blockchain.v ===== *)
(** * Blockchain: starting and stopping a node (src/core/blockchain.{h,cpp})

    The whole node: [Blockchain] with its P2P manager and server, its HTTP
    server, its syncer thread, the discovery worker and the worker of rdPoS.
    [start] and [stop] are the calls of the main thread, [syncer_step] is the
    thread of the syncer, from the connections to the seed nodes to the
    validator loop (whose parts are in Syncer.v), and the other threads change
    the manager and their own places in any way they may. *)
From stdpp Require Import relations.
From S2P Require Import Prelude Utils Hex Strings SafeHash Ecdsa Tx Block DB Storage RdPoS State.
From S2P Require Import P2PEncoding P2PManager P2PNode Syncer RdPoSWorker Discovery P2PSession HttpServer.

(** Where the syncer thread is. *)
Inductive sync_place :=
  | Y_none                                  (** [syncerLoopFuture] is not valid *)
  | Y_seeds (todo : list (bytes * Z))       (** connecting to the discovery nodes *)
  | Y_discover                              (** [startDiscovery] *)
  | Y_sync                                  (** [doSync] *)
  | Y_synced                                (** [if (this->stopSyncer) return false;] *)
  | Y_validator                             (** [validatorLoop] is entered *)
  | Y_round                                 (** [while (!this->stopSyncer)] *)
  | Y_create                                (** in [doValidatorBlock] *)
  | Y_hung                                  (** in its second ordering loop, for ever *)
  | Y_wait                                  (** waiting for the next block *)
  | Y_other                                 (** [nonValidatorLoop] *)
  | Y_finished (r : bool)                   (** returned *)
  | Y_failed (e : exn)                      (** the exception is in the future *)
  | Y_undef.

(** The thread has returned or thrown. *)
Definition sync_over (p : sync_place) : bool :=
  match p with Y_finished _ | Y_failed _ => true | _ => false end.

(** Where the main thread is: between calls, or in [stop]. *)
Inductive main_place := M_ready | M_syncer | M_http | M_discovery | M_failed (e : exn).

(** A call that returns: both parts of a sequence return. *)
Lemma ST_bind_Ok {S A B} (op : ST S A) (f : A → ST S B) s b s' :
  (op ≫= f) s = (Ok b, s') → ∃ a s1, op s = (Ok a, s1) ∧ f a s1 = (Ok b, s').
Proof. unfold mbind, ST_bind. destruct (op s) as [[a| |] s1]; [|done..]. eauto. Qed.

Section Blockchain.
Context `{Keccak} `{Secp256k1Lib} `{RocksDB} `{!ContractHost} `{!CheckedLeft} `{!HashMapOrder} `{!BoostIp}.

(** Constants of the process: the options, and the limits of the manager. *)
Context (version : Z) (hostIpText : bytes) (hostPort maxConnections : Z).
Context (seeds : list (bytes * Z)) (getIsValidator : bool) (me : bytes).

Record Blockchain := mkBlockchain {
  bc_syncer : Syncer;
  bc_sync : sync_place;
  bc_stopSyncer : bool;
  bc_discovery : Discovery.Worker;
  bc_worker : RWorker;
  bc_server : Server;
  bc_http : HTTPServer;
  bc_main : main_place;
  bc_peers : option Z;         (** the sessions when the wait of [doSync] ended *)
}.

Definition bc_manager (b : Blockchain) : Manager := sy_manager (bc_syncer b).

(** The members after the constructors. *)
Definition Blockchain_ctor (n : node) : Blockchain :=
  mkBlockchain (mkSyncer (Manager_ctor n) ∅ None false) Y_none false Worker_ctor RWorker_ctor
    (mkServer false false []) HTTPServer_ctor M_ready None.

Definition set_manager (b : Blockchain) (m : Manager) : Blockchain :=
  mkBlockchain (mkSyncer m (sy_currentlyConnectedNodes (bc_syncer b)) (sy_latestBlock (bc_syncer b)) (sy_synced (bc_syncer b)))
    (bc_sync b) (bc_stopSyncer b) (bc_discovery b) (bc_worker b) (bc_server b) (bc_http b) (bc_main b) (bc_peers b).
Definition set_sync (b : Blockchain) (p : sync_place) : Blockchain :=
  mkBlockchain (bc_syncer b) p (bc_stopSyncer b) (bc_discovery b) (bc_worker b) (bc_server b) (bc_http b) (bc_main b) (bc_peers b).
Definition set_syncer (b : Blockchain) (s : Syncer) (peers : option Z) : Blockchain :=
  mkBlockchain s (bc_sync b) (bc_stopSyncer b) (bc_discovery b) (bc_worker b) (bc_server b) (bc_http b) (bc_main b) peers.
Definition set_discovery (b : Blockchain) (w : Discovery.Worker) : Blockchain :=
  mkBlockchain (bc_syncer b) (bc_sync b) (bc_stopSyncer b) w (bc_worker b) (bc_server b) (bc_http b) (bc_main b) (bc_peers b).
Definition set_worker (b : Blockchain) (w : RWorker) : Blockchain :=
  mkBlockchain (bc_syncer b) (bc_sync b) (bc_stopSyncer b) (bc_discovery b) w (bc_server b) (bc_http b) (bc_main b) (bc_peers b).
Definition set_servers (b : Blockchain) (sv : Server) (h : HTTPServer) : Blockchain :=
  mkBlockchain (bc_syncer b) (bc_sync b) (bc_stopSyncer b) (bc_discovery b) (bc_worker b) sv h (bc_main b) (bc_peers b).
Definition set_main (b : Blockchain) (p : main_place) : Blockchain :=
  mkBlockchain (bc_syncer b) (bc_sync b) (bc_stopSyncer b) (bc_discovery b) (bc_worker b) (bc_server b) (bc_http b) p (bc_peers b).

(** ** start and stop *)

(** [Syncer::start()] and the flag of [Syncer::stop()]. *)
Definition Syncer_start (b : Blockchain) : Blockchain :=
  match bc_sync b with Y_none => set_sync b (Y_seeds seeds) | _ => b end.
Definition Syncer_stop (b : Blockchain) : Blockchain :=
  mkBlockchain (bc_syncer b) (bc_sync b) true (bc_discovery b) (bc_worker b) (bc_server b) (bc_http b) (bc_main b) (bc_peers b).

(** [p2p->startServer(); http->start(); syncer->start();] *)
Definition Blockchain_start (b : Blockchain) : Blockchain :=
  let b := set_manager b (startServer (bc_manager b)).2 in
  let b := set_servers b (Server_start (bc_server b)).2 (bc_http b) in
  let b := set_servers b (bc_server b) (HTTPServer_start (bc_http b)) in
  Syncer_start b.

(** [syncer->stop(); http->stop(); p2p->stop();]: each call waits for its
    thread. [syncerLoopFuture.wait()] leaves the future valid. *)
Inductive main_step : Blockchain → Blockchain → Prop :=
  | mn_start b : bc_main b = M_ready → main_step b (Blockchain_start b)
  | mn_stop b : bc_main b = M_ready → main_step b (set_main (Syncer_stop b) M_syncer)
  | mn_syncer b :
      bc_main b = M_syncer → bc_sync b = Y_none ∨ sync_over (bc_sync b) = true →
      main_step b (set_main (set_servers b (bc_server b) (HTTPServer_stop_begin (bc_http b))) M_http)
  | mn_http b h :
      bc_main b = M_http →
      (ht_run (bc_http b) = H_none ∧ h = bc_http b) ∨ HTTPServer_stop_end (bc_http b) = Some h →
      main_step b
        (set_main (set_discovery (set_manager (set_servers b (bc_server b) h) (set_m_closed (bc_manager b) true))
                     (worker_stop_begin (bc_discovery b))) M_discovery)
  | mn_p2p b w alive :
      bc_main b = M_discovery →
      (w_place (bc_discovery b) = Idle ∧ w = bc_discovery b) ∨ worker_stop_end (bc_discovery b) = Some (Ok tt, w) →
      main_step b
        (set_main (set_servers (set_manager (set_discovery b w) (P2PManager.stop alive (bc_manager b)).2)
                     (Server_stop (bc_server b)) (bc_http b)) M_ready)
  | mn_throw b w e :
      bc_main b = M_discovery → worker_stop_end (bc_discovery b) = Some (Throw e, w) →
      main_step b (set_main (set_discovery b w) (M_failed e)).

(** ** The thread of the syncer *)

(** Where the thread goes with the result of a function. *)
Definition after {A} (r : outcome A) (k : A → sync_place) : sync_place :=
  match r with Ok a => k a | Throw e => Y_failed e | Undef => Y_undef end.

(** The end of [doValidatorBlock], and the check after it. *)
Definition created (stop : bool) (p : progress) : sync_place :=
  match p with
  | Waiting => Y_create
  | Stopped => Y_finished true
  | Created => if stop then Y_finished true else Y_wait
  end.

(** What [doValidatorBlock] may read of the flag: nothing else while it is
    not set; and [false] before some point when it was set meanwhile. *)
Definition reads_stop (b : Blockchain) (stopped : checkpoint → bool) : Prop :=
  bc_stopSyncer b = false → ∀ c, stopped c = false.

Inductive syncer_step : Blockchain → Blockchain → Prop :=
  | sy_seed b host port todo :
      bc_sync b = Y_seeds ((host, port) :: todo) →
      syncer_step b
        (set_sync (set_manager b (connectToServer hostIpText hostPort maxConnections host port (bc_manager b)).2)
           (Y_seeds todo))
  | sy_seeded b : bc_sync b = Y_seeds [] → syncer_step b (set_sync b Y_discover)
  | sy_discover b :
      bc_sync b = Y_discover → syncer_step b (set_sync (set_discovery b (worker_start (bc_discovery b))) Y_sync)
  | sy_sync b rnd clock answers :
      let ids := getSessionsIDs (bc_manager b) in
      let r := doSync (Syncer.requestNodeInfo version rnd clock answers) ids (bc_syncer b) in
      bc_sync b = Y_sync → minConnections ≤ zlen ids ∨ bc_stopSyncer b = true →
      syncer_step b (set_sync (set_syncer b r.2 (Some (zlen ids))) (after r.1 (λ _, Y_synced)))
  | sy_synced_stop b :
      bc_sync b = Y_synced → bc_stopSyncer b = true → syncer_step b (set_sync b (Y_finished false))
  | sy_synced_go b :
      bc_sync b = Y_synced → bc_stopSyncer b = false →
      syncer_step b (set_sync b (if getIsValidator then Y_validator else Y_other))
  | sy_validator b :
      bc_sync b = Y_validator →
      syncer_step b (set_sync (set_worker b (rworker_start (isValidator (rdpos_of (bc_manager b))) (bc_worker b))) Y_round)
  | sy_round_stop b :
      bc_sync b = Y_round → bc_stopSyncer b = true → syncer_step b (set_sync b (Y_finished true))
  | sy_round b :
      let n := m_ledger (bc_manager b) in
      let r := (lb ← node_latest n; first ← at_view (randomList n.1.2) 0; Ok (lb, first)) in
      bc_sync b = Y_round → bc_stopSyncer b = false →
      syncer_step b
        (set_sync (match r with Ok (lb, _) => set_syncer b (set_latest (bc_syncer b) lb) (bc_peers b) | _ => b end)
           (after r (λ '(_, first), if bool_decide (first = me) then Y_create else Y_wait)))
  | sy_create b fuel stopped clock r m :
      bc_sync b = Y_create → reads_stop b stopped →
      doValidatorBlock fuel stopped clock (bc_manager b) = Some (r, m) →
      (r = Ok Waiting → bc_stopSyncer b = false) →
      syncer_step b (set_sync (set_manager b m) (after r (created (bc_stopSyncer b))))
  | sy_hang b stopped clock :
      bc_sync b = Y_create → reads_stop b stopped →
      (∀ fuel, doValidatorBlock fuel stopped clock (bc_manager b) = None) →
      syncer_step b (set_sync b Y_hung)
  | sy_wait b :
      let r := (c ← checkLatestBlock (bc_syncer b); Ok (c || bc_stopSyncer b)) in
      bc_sync b = Y_wait → r ≠ Ok false → syncer_step b (set_sync b (after r (λ _, Y_round)))
  | sy_other b :
      bc_sync b = Y_other → bc_stopSyncer b = true → syncer_step b (set_sync b (Y_finished true)).

(** ** The other threads *)

(** The peers, the RPC server and the workers change the manager; the workers
    move while they have been started, the HTTP threads as in HttpServer.v. *)
Inductive other_step : Blockchain → Blockchain → Prop :=
  | ob_manager b m : other_step b (set_manager b m)
  | ob_discovery b w :
      w_place (bc_discovery b) ≠ Idle → w_place w ≠ Idle → other_step b (set_discovery b w)
  | ob_worker b w :
      rw_place (bc_worker b) ≠ P_idle → rw_place w ≠ P_idle → rw_stopWorker w = rw_stopWorker (bc_worker b) →
      other_step b (set_worker b w)
  | ob_http b h : http_thread (bc_http b) h → other_step b (set_servers b (bc_server b) h).

Definition node_step (b b' : Blockchain) : Prop := main_step b b' ∨ syncer_step b b' ∨ other_step b b'.

(** ** Invariants *)

(** The places before and after [doSync], and those of a validator. *)
Definition before_sync (p : sync_place) : bool :=
  match p with Y_none | Y_seeds _ | Y_discover | Y_sync => true | _ => false end.
Definition after_sync (p : sync_place) : bool :=
  match p with Y_synced | Y_validator | Y_round | Y_create | Y_hung | Y_wait | Y_other => true | _ => false end.
Definition in_validatorLoop (p : sync_place) : bool :=
  match p with Y_validator | Y_round | Y_create | Y_hung | Y_wait => true | _ => false end.

(** Who may run when: discovery begins after the seed nodes, blocks and the
    transactions of rdPoS after the sync, the validator loop on validators;
    a node is synced with enough peers unless it was stopped. *)
Record node_inv (b : Blockchain) : Prop := {
  ni_discovery : w_place (bc_discovery b) ≠ Idle →
    match bc_sync b with Y_none | Y_seeds _ | Y_discover => False | _ => True end;
  ni_synced : after_sync (bc_sync b) = true → sy_synced (bc_syncer b) = true;
  ni_peers : sy_synced (bc_syncer b) = true →
    ∃ n, bc_peers b = Some n ∧ (minConnections ≤ n ∨ bc_stopSyncer b = true);
  ni_worker : rw_place (bc_worker b) ≠ P_idle → sy_synced (bc_syncer b) = true ∧ getIsValidator = true;
  ni_validator : in_validatorLoop (bc_sync b) = true → getIsValidator = true;
  ni_nodes : before_sync (bc_sync b) = true →
    sy_currentlyConnectedNodes (bc_syncer b) = ∅ ∧ sy_synced (bc_syncer b) = false;
}.

Lemma ctor_inv n : node_inv (Blockchain_ctor n).
Proof. by constructor. Qed.

(** [doSync] that returns has set the flag. *)
Lemma doSync_synced ask ids s r s' : doSync ask ids s = (Ok r, s') → sy_synced s' = true.
Proof.
  unfold doSync. do 7 (intros Hd; apply ST_bind_Ok in Hd as (? & ? & _ & Hd); revert Hd).
  intros Hd. apply ST_bind_Ok in Hd as (? & s1 & Hm & Hd). injection Hd as <- <-. by injection Hm as <- <-.
Qed.

(** The flag that stops the syncer is not reset. *)
Lemma stop_kept b b' : node_step b b' → bc_stopSyncer b = true → bc_stopSyncer b' = true.
Proof.
  intros [Hs|[Hs|Hs]] Hst.
  - destruct Hs; cbn; try done. unfold Blockchain_start, Syncer_start. by case_match.
  - destruct Hs; cbn; try done. by destruct r as [[]| |].
  - by destruct Hs.
Qed.

Lemma main_step_inv b b' : main_step b b' → node_inv b → node_inv b'.
Proof.
  intros Hs [I1 I2 I3 I4 I5 I6].
  assert (∀ n, bc_peers b = Some n ∧ (minConnections ≤ n ∨ bc_stopSyncer b = true) →
    bc_peers b = Some n ∧ (minConnections ≤ n ∨ true = true)) as Hp by (intros n [? _]; split; [done|by right]).
  destruct Hs as [b Hm|b Hm|b Hm Ho|b h Hm Ho|b w alive Hm Ho|b w e Hm Ho].
  - unfold Blockchain_start, Syncer_start. cbn. destruct (bc_sync b) eqn:E; constructor; cbn; rewrite ?E; try done.
  - constructor; cbn; try done. intros Hsy. destruct (I3 Hsy) as (n & Hn). exists n. by apply Hp.
  - by constructor.
  - constructor; cbn; try done. unfold worker_stop_begin. by destruct (w_place (bc_discovery b)) eqn:E; cbn; rewrite ?E in *; auto.
  - constructor; cbn; try done. destruct Ho as [[Hi ->]|Ho]; [by rewrite Hi|]. unfold worker_stop_end in Ho.
    destruct (w_place (bc_discovery b)); try done. by injection Ho as <-.
  - constructor; cbn; try done. unfold worker_stop_end in Ho. destruct (w_place (bc_discovery b)); try done. by injection Ho as _ <-.
Qed.

Lemma other_step_inv b b' : other_step b b' → node_inv b → node_inv b'.
Proof.
  intros Hs [I1 I2 I3 I4 I5 I6]. destruct Hs as [b m|b w H1' H2'|b w H1' H2' H3'|b h Hh]; constructor; cbn; try done.
  - intros _. by apply I1.
  - intros _. by apply I4.
Qed.

Lemma after_places {A} (r : outcome A) (k : A → sync_place) (P : sync_place → Prop) :
  (∀ a, r = Ok a → P (k a)) → (∀ e, P (Y_failed e)) → P Y_undef → P (after r k).
Proof. intros Hk Hf Hu. destruct r; cbn; auto. Qed.

Lemma syncer_step_inv b b' : syncer_step b b' → node_inv b → node_inv b'.
Proof.
  intros Hs [I1 I2 I3 I4 I5 I6].
  destruct Hs as [b host port todo E|b E|b E|b rnd clock answers ids r E Hn|b E Hst|b E Hst|b E|b E Hst|b n r E Hst
    |b fuel stopped clock r m E Hrs Hd Hw|b stopped clock E Hrs Hd|b r E Hr|b E Hst]; rewrite E in *.
  - by constructor.
  - by constructor.
  - by constructor.
  - destruct I6 as [In Is]; [done|].
    constructor; cbn.
    + intros _. by apply after_places.
    + apply (after_places r.1 _ (λ p, after_sync p = true → sy_synced r.2 = true)); [|done|done].
      intros best Hr _. apply (doSync_synced (Syncer.requestNodeInfo version rnd clock answers) ids (bc_syncer b) best).
      rewrite <-Hr. apply surjective_pairing.
    + intros _. by exists (zlen ids).
    + intros Hne. destruct (I4 Hne) as [? _]. congruence.
    + apply (after_places r.1 _ (λ p, in_validatorLoop p = true → _)); done.
    + apply (after_places r.1 _ (λ p, before_sync p = true → _)); done.
  - by constructor.
  - constructor; cbn; try done; destruct getIsValidator; try done; intros _; try done; by apply I2.
  - constructor; cbn; try done. intros _. split; [by apply I2|by apply I5].
  - by constructor.
  - assert (sy_synced (bc_syncer b) = true ∧ getIsValidator = true) as [Hsy Hv] by (split; [by apply I2|by apply I5]).
    destruct r as [[lb first]|e|]; constructor; cbn; try done; try (by case_bool_decide).
  - assert (sy_synced (bc_syncer b) = true ∧ getIsValidator = true) as [Hsy Hv] by (split; [by apply I2|by apply I5]).
    constructor; cbn; try done.
    + intros _. apply after_places; try done. intros p _. destruct p, (bc_stopSyncer b); done.
    + apply (after_places r _ (λ p, before_sync p = true → _)); try done. intros p _. destruct p, (bc_stopSyncer b); done.
  - by constructor.
  - assert (sy_synced (bc_syncer b) = true ∧ getIsValidator = true) as [Hsy Hv] by (split; [by apply I2|by apply I5]).
    constructor; cbn; try done.
    + intros _. by apply after_places.
    + apply (after_places r _ (λ p, before_sync p = true → _)); done.
  - by constructor.
Qed.

Lemma node_step_inv b b' : node_step b b' → node_inv b → node_inv b'.
Proof. intros [Hs|[Hs|Hs]]; eauto using main_step_inv, syncer_step_inv, other_step_inv. Qed.

(** ** Stopping *)

(** The steps the thread has left once the flag is set. *)
Definition sync_rank (p : sync_place) : nat :=
  match p with
  | Y_seeds todo => 7 + length todo
  | Y_discover => 6
  | Y_sync => 5
  | Y_synced => 4
  | Y_validator => 3
  | Y_wait => 2
  | Y_round | Y_create | Y_other => 1
  | _ => 0
  end.

Lemma stopped_rank b b' :
  syncer_step b b' → bc_stopSyncer b = true → (sync_rank (bc_sync b') < sync_rank (bc_sync b))%nat.
Proof.
  intros Hs Hst.
  destruct Hs as [b host port todo E|b E|b E|b rnd clock answers ids r E Hn|b E Hst'|b E Hst'|b E|b E Hst'|b n r E Hst'
    |b fuel stopped clock r m E Hrs Hd Hw|b stopped clock E Hrs Hd|b r E Hr|b E Hst']; cbn; rewrite E; cbn; try congruence; try lia.
  - apply (after_places r.1 _ (λ p, (sync_rank p < 5)%nat)); cbn; intros; lia.
  - destruct r as [p|e|]; cbn; try lia. rewrite Hst in *. destruct p; cbn; try lia. by specialize (Hw eq_refl).
  - apply (after_places r _ (λ p, (sync_rank p < 2)%nat)); cbn; intros; lia.
Qed.

(** A thread that has not ended can go on. *)
Lemma stopped_moves b :
  bc_stopSyncer b = true → (0 < sync_rank (bc_sync b))%nat → ∃ b', syncer_step b b'.
Proof.
  intros Hst Hr. destruct (bc_sync b) as [ |[|[host port] todo]| | | | | | | | | | | | ] eqn:E; cbn in Hr; try lia.
  - eexists. by apply sy_seeded.
  - eexists. by eapply sy_seed.
  - eexists. by apply sy_discover.
  - eexists. apply (sy_sync b (λ x, x) 0 (λ _, None)); [done|by right].
  - eexists. by apply sy_synced_stop.
  - eexists. by apply sy_validator.
  - eexists. by apply sy_round_stop.
  - eexists. apply (sy_create b 0 (λ _, true) 0 (Ok Stopped) (bc_manager b)); [done| | |done].
    + unfold reads_stop. by rewrite Hst.
    + unfold doValidatorBlock. destruct (m_ledger (bc_manager b)) as [[st rd] storage]. by repeat case_match.
  - eexists. apply sy_wait; [done|]. rewrite Hst. by destruct (checkLatestBlock (bc_syncer b)) as [[]| |].
  - eexists. by apply sy_other.
Qed.

Lemma other_place b b' :
  main_step b b' ∨ other_step b b' → bc_sync b ≠ Y_none → bc_sync b' = bc_sync b.
Proof.
  intros [Hs|Hs] Hne; destruct Hs; cbn; try done. unfold Blockchain_start, Syncer_start. cbn. by destruct (bc_sync b) eqn:E.
Qed.

Lemma syncer_started b b' : syncer_step b b' → bc_sync b' ≠ Y_none.
Proof.
  intros Hs. destruct Hs as [| | |b rnd clock answers ids r E Hn| |b E Hst| | |b n r E Hst|b fuel stopped clock r m E Hrs Hd Hw
    | |b r E Hr|]; cbn; try done.
  - by apply (after_places r.1 _ (λ p, p ≠ Y_none)).
  - by destruct getIsValidator.
  - apply (after_places r _ (λ p, p ≠ Y_none)); try done. intros [lb first] _. by case_bool_decide.
  - apply (after_places r _ (λ p, p ≠ Y_none)); try done. intros p _. by destruct p, (bc_stopSyncer b).
  - by apply (after_places r _ (λ p, p ≠ Y_none)).
Qed.

(** A thread that has returned or thrown stays so. *)
Lemma over_kept b b' : node_step b b' → sync_over (bc_sync b) = true → bc_sync b' = bc_sync b.
Proof.
  intros Hs Ho. destruct Hs as [Hs|[Hs|Hs]].
  - apply other_place; [by left|]. intros E. by rewrite E in Ho.
  - by destruct Hs as [? ? ? ? E|? E|? E|? ? ? ? ? ? E|? E|? E|? E|? E|? ? ? E|? ? ? ? ? ? E|? ? ? E|? ? E|? E]; rewrite E in Ho.
  - apply other_place; [by right|]. intros E. by rewrite E in Ho.
Qed.

(** The worker of rdPoS is not stopped by any of these threads. *)
Lemma worker_kept b b' :
  node_step b b' → rw_place (bc_worker b) ≠ P_idle →
  rw_place (bc_worker b') ≠ P_idle ∧ rw_stopWorker (bc_worker b') = rw_stopWorker (bc_worker b).
Proof.
  intros [Hs|[Hs|Hs]] Hw.
  - destruct Hs; cbn; try done. unfold Blockchain_start, Syncer_start. by case_match.
  - destruct Hs as [| | | | | |b E| |b n r E Hst| | | |]; cbn; try done.
    + unfold rworker_start. destruct (rw_place (bc_worker b)) eqn:Ew; cbn; by rewrite ?Ew.
    + by destruct r as [[]| |].
  - destruct Hs; cbn; done.
Qed.

End Blockchain.

(** ** Theorems *)

Section Lifecycle.
Context `{Keccak} `{Secp256k1Lib} `{RocksDB} `{!ContractHost} `{!CheckedLeft} `{!HashMapOrder} `{!BoostIp}.
Context (version : Z) (hostIpText : bytes) (hostPort maxConnections : Z).
Context (seeds : list (bytes * Z)) (getIsValidator : bool) (me : bytes).

Notation step := (node_step version hostIpText hostPort maxConnections seeds getIsValidator me).
Notation thread := (syncer_step version hostIpText hostPort maxConnections getIsValidator me).

(** C4: in every state of a node, whatever its peers do: discovery runs only after
    the seed nodes were contacted; the worker of rdPoS runs, and blocks are
    created, only on a validator that has synced; a node that counts as
    synced had its eleven connections, or was being stopped; and the list of
    nodes that [doSync] refreshes is empty, so that its loop never erases. *)
Theorem node_lifecycle n b :
  rtc step (Blockchain_ctor n) b →
  (w_place (bc_discovery b) ≠ Idle → match bc_sync b with Y_none | Y_seeds _ | Y_discover => False | _ => True end) ∧
  (rw_place (bc_worker b) ≠ P_idle ∨ in_validatorLoop (bc_sync b) = true →
     sy_synced (bc_syncer b) = true ∧ getIsValidator = true) ∧
  (sy_synced (bc_syncer b) = true → ∃ k, bc_peers b = Some k ∧ (11 ≤ k ∨ bc_stopSyncer b = true)) ∧
  (bc_sync b = Y_sync → sy_currentlyConnectedNodes (bc_syncer b) = ∅).
Proof.
  intros Hr. assert (node_inv getIsValidator b) as [I1 I2 I3 I4 I5 I6].
  { assert (∀ x y, rtc step x y → node_inv getIsValidator x → node_inv getIsValidator y) as Hall.
    { induction 1 as [|x y z Hxy _ IH]; [done|]. intros Hx. by eapply IH, node_step_inv. }
    by apply (Hall _ _ Hr), ctor_inv. }
  split_and!; [done| |done|].
  - intros [Hw|Hv]; [by apply I4|]. split; [|by apply I5]. apply I2. by destruct (bc_sync b).
  - intros E. apply I6. by rewrite E.
Qed.


(** A node whose syncer has ended cannot be started again: the future stays
    valid and the flag stays set, so that [start] does not run the thread;
    and [stop] leaves the worker of rdPoS running. *)
Theorem node_never_restarts b b' :
  rtc step b b' → bc_stopSyncer b = true → sync_over (bc_sync b) = true →
  bc_sync b' = bc_sync b ∧ bc_stopSyncer b' = true ∧
  (rw_place (bc_worker b) ≠ P_idle →
   rw_place (bc_worker b') ≠ P_idle ∧ rw_stopWorker (bc_worker b') = rw_stopWorker (bc_worker b)).
Proof.
  induction 1 as [|x y z Hxy _ IH]; [done|]. intros Hst Ho.
  assert (bc_sync y = bc_sync x) as E by (by eapply over_kept).
  destruct IH as (E1 & E2 & E3); [by eapply stop_kept|by rewrite E|]. split_and!; [congruence|done|].
  intros Hw. destruct (worker_kept _ _ _ _ _ _ _ _ _ Hxy Hw) as [Hw1 Hw2]. destruct (E3 Hw1) as [? ?]. split; [done|congruence].
Qed.

End Lifecycle.

(** ** Witnesses *)

#[local] Existing Instances toy_keccak toy_secp toy_rocks toy_host toy_left toy_order toy_boost.

Definition sample_node : node := (state_pay, rd_full, st_one).
Notation sample_step := (node_step 2 [] 8080 2 [] true (round_address 0)).

(** A node that was started and is told to stop at once. *)
Definition node_started : Blockchain := Blockchain_start [] (Blockchain_ctor sample_node).
Definition node_stopping : Blockchain := set_main (Syncer_stop node_started) M_syncer.
Definition node_over : Blockchain := set_sync node_stopping (Y_finished false).

Lemma node_lifecycle_witness :
  rtc sample_step (Blockchain_ctor sample_node) node_started ∧
  (w_place (bc_discovery node_started) ≠ Idle → False) ∧
  sy_synced (bc_syncer node_started) = false.
Proof.
  assert (rtc sample_step (Blockchain_ctor sample_node) node_started) as Hr
    by (apply rtc_once; left; apply mn_start; reflexivity).
  split; [exact Hr|]. pose proof (node_lifecycle 2 [] 8080 2 [] true (round_address 0) sample_node node_started Hr) as (H1 & _).
  split; [exact H1|reflexivity].
Defined.


Lemma node_never_restarts_witness : bc_sync (Blockchain_start [] (set_main node_over M_ready)) = Y_finished false.
Proof.
  apply (node_never_restarts 2 [] 8080 2 [] true (round_address 0) (set_main node_over M_ready)
           (Blockchain_start [] (set_main node_over M_ready))).
  - apply rtc_once. left. apply mn_start. reflexivity.
  - reflexivity.
  - reflexivity.
Defined.
