(* ===== verification/Locks.v ===== *)
(** * Locks: threads, mutexes and the order in which they are taken

    The mutexes of the program, the commands of its threads as far as locking
    goes, and their interleavings. Locks are [std::mutex] (always taken
    exclusively) and [std::shared_mutex]. A command over-approximates a
    function: the mutexes it takes and releases, in the order of the source,
    with every early return and exception as a choice, and its accesses to the
    data the mutexes protect. A typing of commands by a rank of the mutexes
    and a guard of each datum is sound: threads that are typed never deadlock
    and never race. LockOrder.v holds the commands of the program. *)
From stdpp Require Import base list sorting relations.
From S2P Require Import Prelude.

(** ** Mutexes and commands *)

Inductive lock :=
  | blockBroadcastMutex          (** [P2P::ManagerNormal] *)
  | stateMutex                   (** [State] *)
  | contractsMutex               (** [ContractManager] *)
  | rdposMutex                   (** [rdPoS::mutex] *)
  | seedLock                     (** [RandomGen] *)
  | chainLock                    (** [Storage] *)
  | cacheLock                    (** [Storage] *)
  | batchLock                    (** [DB] *)
  | broadcastMutex               (** [P2P::ManagerNormal] *)
  | sessionsMutex                (** [P2P::ManagerBase] *)
  | requestsMutex                (** [P2P::ManagerBase] *)
  | writeLock (session : nat)    (** [writeLock_] of a session *)
  | log_lock                     (** utils.cpp *)
  | debug_mutex
  | cout_mutex.

#[export] Instance lock_eq_dec : EqDecision lock.
Proof. solve_decision. Defined.

(** [std::shared_lock], or [std::unique_lock] and [std::lock_guard]. *)
Inductive mode := Shared | Unique.

#[export] Instance mode_eq_dec : EqDecision mode.
Proof. solve_decision. Defined.

(** The data that threads share. *)
Inductive var :=
  | v_accounts                   (** [State::accounts] *)
  | v_mempool                    (** [State::mempool] *)
  | v_contracts                  (** [ContractManager::contracts] *)
  | v_locals                     (** [caller], [origin], [value], [commit] of the contracts, and [balances] *)
  | v_validatorMempool           (** [rdPoS] *)
  | v_randomList                 (** [rdPoS]: the list, the validators and the best seed *)
  | v_seed                       (** [RandomGen::seed] *)
  | v_chain                      (** [Storage]: the chain and its four indexes *)
  | v_cachedBlocks               (** [Storage] *)
  | v_cachedTxs                  (** [Storage] *)
  | v_broadcastedMessages        (** [P2P::ManagerNormal] *)
  | v_sessions                   (** [P2P::ManagerBase] *)
  | v_requests.                  (** [P2P::ManagerBase] *)

#[export] Instance var_eq_dec : EqDecision var.
Proof. solve_decision. Defined.

Inductive cmd :=
  | CSkip
  | CRead (x : var)
  | CWrite (x : var)
  | CLock (l : lock) (m : mode)
  | CUnlock (l : lock)
  | CSeq (c1 c2 : cmd)
  | COr (c1 c2 : cmd)
  | CStar (c : cmd)
  | CPost (t : nat) (c : cmd)     (** a handler queued for another thread *)
  | CJoin (ts : list nat).        (** wait until the queues of [ts] are empty *)

Declare Scope lock_scope.
Delimit Scope lock_scope with lock.
Bind Scope lock_scope with cmd.
Open Scope lock_scope.
Notation "c1 ;; c2" := (CSeq c1 c2) (at level 100, c2 at level 200, right associativity) : lock_scope.

(** [c1], and then [c2] unless the function returns or throws after [c1]. *)
Notation "c1 ;? c2" := (CSeq c1 (COr CSkip c2)) (at level 100, c2 at level 200, right associativity) : lock_scope.

(** A lock object whose scope is [c]. *)
Definition scoped (l : lock) (m : mode) (c : cmd) : cmd := CLock l m ;; c ;; CUnlock l.
Definition section (l : lock) (m : mode) : cmd := scoped l m CSkip.
Definition either (cs : list cmd) : cmd := foldr COr CSkip cs.

(** ** Interleavings *)

(** The locks that are held, and what each thread has left to do. *)
Record config := mkConfig { holders : list (lock * mode); threads : list (list cmd) }.

(** Whether a lock can be taken. *)
Definition free (h : list (lock * mode)) (l : lock) (m : mode) : Prop :=
  match m with Unique => ∀ m', (l, m') ∉ h | Shared => (l, Unique) ∉ h end.

#[export] Instance free_dec h l m : Decision (free h l m).
Proof.
  destruct m; cbn; [apply _|].
  refine (cast_if (decide (l ∉ h.*1))).
  - intros m' Hin. match goal with Hn : l ∉ _ |- _ => apply Hn end. apply list_elem_of_fmap. by exists (l, m').
  - intros Hn. match goal with Hi : ¬ _ |- _ => apply Hi end. intros [[l' m'] [-> Hin]]%list_elem_of_fmap. by apply (Hn m').
Defined.

(** Steps of a thread that only change the locks. *)
Inductive tstep : list (lock * mode) → list cmd → list (lock * mode) → list cmd → Prop :=
  | t_skip h k : tstep h (CSkip :: k) h k
  | t_read h x k : tstep h (CRead x :: k) h k
  | t_write h x k : tstep h (CWrite x :: k) h k
  | t_lock h l m k : free h l m → tstep h (CLock l m :: k) ((l, m) :: h) k
  | t_unlock h h1 h2 l m k : h = h1 ++ (l, m) :: h2 → tstep h (CUnlock l :: k) (h1 ++ h2) k
  | t_seq h c1 c2 k : tstep h (CSeq c1 c2 :: k) h (c1 :: c2 :: k)
  | t_left h c1 c2 k : tstep h (COr c1 c2 :: k) h (c1 :: k)
  | t_right h c1 c2 k : tstep h (COr c1 c2 :: k) h (c2 :: k)
  | t_done h c k : tstep h (CStar c :: k) h k
  | t_again h c k : tstep h (CStar c :: k) h (c :: CStar c :: k).

Inductive step : config → config → Prop :=
  | s_thread h ts i k h' k' :
      ts !! i = Some k → tstep h k h' k' → step (mkConfig h ts) (mkConfig h' (<[i := k']> ts))
  | s_post h ts i t c k kt :
      ts !! i = Some (CPost t c :: k) → <[i := k]> ts !! t = Some kt →
      step (mkConfig h ts) (mkConfig h (<[t := kt ++ [c]]> (<[i := k]> ts)))
  | s_join h ts i js k :
      ts !! i = Some (CJoin js :: k) → (∀ j, j ∈ js → ts !! j = Some []) →
      step (mkConfig h ts) (mkConfig h (<[i := k]> ts)).

Definition finished (σ : config) : Prop := Forall (λ k, k = []) (threads σ).

(** Some thread has not finished, and none can move. *)
Definition deadlocked (σ : config) : Prop := ¬ finished σ ∧ ∀ σ', ¬ step σ σ'.

(** The access a thread is about to make; two threads race when both access a
    datum and one of them writes. *)
Definition access (k : list cmd) : option (var * bool) :=
  match k with CRead x :: _ => Some (x, false) | CWrite x :: _ => Some (x, true) | _ => None end.

Definition race (x : var) (σ : config) : Prop :=
  ∃ i j ki kj w, i ≠ j ∧ threads σ !! i = Some ki ∧ threads σ !! j = Some kj ∧
    access ki = Some (x, true) ∧ access kj = Some (x, w).

(** Nobody holds anything yet. *)
Definition start (ts : list (list cmd)) : config := mkConfig [] ts.

Lemma filter_absent (l : lock) (held : list (lock * mode)) : l ∉ held.*1 → filter (λ e, e.1 ≠ l) held = held.
Proof.
  induction held as [|e held IH]; [done|]. rewrite fmap_cons. intros [Hne Hn]%not_elem_of_cons.
  rewrite filter_cons_True by congruence. by rewrite IH.
Qed.

Lemma filter_delete_one (held1 held2 : list (lock * mode)) l m :
  NoDup (held1 ++ (l, m) :: held2).*1 →
  filter (λ e, e.1 ≠ l) (held1 ++ (l, m) :: held2) = held1 ++ held2.
Proof.
  rewrite !fmap_app, fmap_cons. intros Hnd. rewrite filter_app, filter_cons_False by naive_solver.
  apply NoDup_app in Hnd as (_ & Hd1 & Hd2). apply NoDup_cons in Hd2 as [Hd2 _].
  rewrite !filter_absent; [done|done|]. intros Hin. apply (Hd1 l Hin). left.
Qed.

(** ** Invariants *)

(** A lock that is held exclusively is held once. *)
Definition exclusive (h : list (lock * mode)) : Prop :=
  ∀ l h', h ≡ₚ (l, Unique) :: h' → ∀ m, (l, m) ∉ h'.

Lemma exclusive_unique h l m : exclusive h → (l, Unique) ∈ h → (l, m) ∈ h → m = Unique.
Proof.
  intros He [h' Hh]%elem_of_Permutation Hm. rewrite Hh in Hm.
  apply elem_of_cons in Hm as [[=]|Hm]; [done|]. by destruct (He l h' Hh m).
Qed.

Lemma exclusive_mode h l m m' : exclusive h → (l, m) ∈ h → (l, m') ∈ h → m = m'.
Proof.
  intros He Hm Hm'. destruct m, m'; try done; [|symmetry]; eapply exclusive_unique; done.
Qed.

Lemma exclusive_lock h l m : exclusive h → free h l m → exclusive ((l, m) :: h).
Proof.
  intros He Hf l' h' Hp m'. destruct (decide ((l, m) = (l', Unique))) as [[= -> ->]|Hne].
  - apply Permutation_cons_inv in Hp. rewrite <-Hp. apply Hf.
  - assert ((l', Unique) ∈ h) as Hin.
    { assert ((l', Unique) ∈ (l, m) :: h) as Hi by (rewrite Hp; left). apply elem_of_cons in Hi as [|]; congruence. }
    apply elem_of_Permutation in Hin as [h2 Hh2].
    assert (h' ≡ₚ (l, m) :: h2) as ->.
    { apply (Permutation_cons_inv (a := (l', Unique))). rewrite <-Hp, Hh2. apply Permutation_swap. }
    intros [[= -> ->]|Hi]%elem_of_cons; [|by apply (He l' h2 Hh2 m')].
    assert ((l, Unique) ∈ h) as Hu by (rewrite Hh2; left). destruct m; [by apply Hf|by apply (Hf Unique)].
Qed.

Lemma exclusive_unlock h1 h2 e : exclusive (h1 ++ e :: h2) → exclusive (h1 ++ h2).
Proof.
  intros He l h' Hp m Hm. apply (He l (e :: h')) with m; [|by right].
  rewrite <-Permutation_middle, Hp. apply Permutation_swap.
Qed.

Lemma concat_focus {A} (hs : list (list A)) i h :
  hs !! i = Some h → ∃ rest, concat hs ≡ₚ h ++ rest ∧ ∀ h', concat (<[i := h']> hs) ≡ₚ h' ++ rest.
Proof.
  revert i. induction hs as [|h0 hs IH]; intros i Hi; [done|]. destruct i as [|i]; cbn in *.
  - injection Hi as ->. by exists (concat hs).
  - destruct (IH i Hi) as (rest & Hr & Hr'). exists (h0 ++ rest). split; [|intros h']; rewrite ?Hr, ?Hr';
      by rewrite !(assoc (++)), (comm (++) h0).
Qed.

Lemma concat_focus2 {A} (hs : list (list A)) i j h h2 :
  i ≠ j → hs !! i = Some h → hs !! j = Some h2 → ∃ rest, concat hs ≡ₚ h ++ h2 ++ rest.
Proof.
  intros Hne Hi Hj. destruct (concat_focus hs i h Hi) as (rest & Hr & Hr'). specialize (Hr' []).
  destruct (concat_focus (<[i := []]> hs) j h2) as (rest2 & Hr2 & _); [by rewrite list_lookup_insert_ne|].
  exists rest2. rewrite Hr. f_equiv. rewrite <-Hr2. by rewrite Hr'.
Qed.

(** ** The length of what is left, without repetitions *)

Fixpoint csize (c : cmd) : nat :=
  match c with
  | CSeq c1 c2 | COr c1 c2 => 1 + csize c1 + csize c2
  | CStar c => 1 + csize c
  | _ => 1
  end.

Definition ksize (k : list cmd) : nat := sum_list (csize <$> k).
Definition tsize (ts : list (list cmd)) : nat := sum_list (ksize <$> ts).

Lemma ksize_cons c k : ksize (c :: k) = (csize c + ksize k)%nat.
Proof. done. Qed.

Lemma tsize_insert ts i k k' : ts !! i = Some k → (ksize k' < ksize k)%nat → (tsize (<[i := k']> ts) < tsize ts)%nat.
Proof.
  unfold tsize. revert i. induction ts as [|k0 ts IH]; intros i; [done|]. destruct i as [|i]; cbn.
  - intros [= ->]. lia.
  - intros Hi Hlt. by apply Nat.add_lt_mono_l, (IH i).
Qed.

Lemma step_shorter h ts i k h' k' :
  ts !! i = Some k → tstep h k h' k' → (ksize k' < ksize k)%nat →
  ∃ σ', step (mkConfig h ts) σ' ∧ (tsize (threads σ') < tsize ts)%nat.
Proof. intros Hi Hs Hlt. eexists. split; [by eapply s_thread|]. by eapply tsize_insert. Qed.

(** ** The typing *)

Section Typing.
Context (rank : lock → nat) (guard : var → option lock).

(** The mutex of a datum is held, exclusively for a write. *)
Definition may_read (held : list (lock * mode)) (x : var) : bool :=
  match guard x with None => true | Some l => bool_decide (l ∈ held.*1) end.
Definition may_write (held : list (lock * mode)) (x : var) : bool :=
  match guard x with None => true | Some l => bool_decide ((l, Unique) ∈ held) end.

(** The locks held after a command, if it takes them in the order of their
    ranks, releases what it took, and accesses data under their mutexes. *)
Fixpoint held_after (held : list (lock * mode)) (c : cmd) : option (list (lock * mode)) :=
  match c with
  | CSkip => Some held
  | CRead x => if may_read held x then Some held else None
  | CWrite x => if may_write held x then Some held else None
  | CLock l m => if forallb (λ e, bool_decide (rank e.1 < rank l)%nat) held then Some ((l, m) :: held) else None
  | CUnlock l => if bool_decide (l ∈ held.*1) then Some (filter (λ e, e.1 ≠ l) held) else None
  | CSeq c1 c2 => held_after held c1 ≫= λ held, held_after held c2
  | COr c1 c2 =>
      match held_after held c1, held_after held c2 with
      | Some h1, Some h2 => if bool_decide (h1 = h2) then Some h1 else None
      | _, _ => None
      end
  | CStar c =>
      match held_after held c with Some h => if bool_decide (h = held) then Some held else None | None => None end
  | CPost _ _ | CJoin _ => None
  end.

Fixpoint held_after_all (held : list (lock * mode)) (k : list cmd) : option (list (lock * mode)) :=
  match k with [] => Some held | c :: k => held_after held c ≫= λ held, held_after_all held k end.

(** A command that a thread without locks can run. *)
Definition ranked (c : cmd) : bool := bool_decide (held_after [] c = Some []).

Lemma ranked_all k : forallb ranked k → held_after_all [] k = Some [].
Proof.
  induction k as [|c k IH]; [done|]. cbn. intros [Hc Hk]%andb_prop_elim. apply bool_decide_unpack in Hc.
  rewrite Hc. cbn. by apply IH.
Qed.

(** ** Soundness *)

(** A thread with the locks [held] can run [k] to its end. *)
Definition typed (held : list (lock * mode)) (k : list cmd) : Prop :=
  NoDup held.*1 ∧ held_after_all held k = Some [].

Lemma typed_done held : typed held [] → held = [].
Proof. by intros [_ [= Hh]]. Qed.

Lemma typed_read held x k :
  typed held (CRead x :: k) → typed held k ∧ ∀ l, guard x = Some l → ∃ m, (l, m) ∈ held.
Proof.
  intros [Hnd Hk]. cbn in Hk. destruct (may_read held x) eqn:E; [|done]. split; [done|].
  intros l Hl. unfold may_read in E. rewrite Hl in E. apply bool_decide_eq_true in E.
  apply list_elem_of_fmap in E as [[l' m] [-> Hin]]. by exists m.
Qed.

Lemma typed_write held x k :
  typed held (CWrite x :: k) → typed held k ∧ ∀ l, guard x = Some l → (l, Unique) ∈ held.
Proof.
  intros [Hnd Hk]. cbn in Hk. destruct (may_write held x) eqn:E; [|done]. split; [done|].
  intros l Hl. unfold may_write in E. rewrite Hl in E. by apply bool_decide_eq_true in E.
Qed.

Lemma held_after_lock held l m k :
  typed held (CLock l m :: k) →
  (∀ e, e ∈ held → (rank e.1 < rank l)%nat) ∧ typed ((l, m) :: held) k.
Proof.
  intros [Hnd Hk]. cbn in Hk. destruct (forallb _ held) eqn:E; [|done]. cbn in Hk.
  assert (∀ e, e ∈ held → (rank e.1 < rank l)%nat) as Hr.
  { intros e Hl. apply Is_true_eq_left in E. rewrite forallb_True, Forall_forall in E.
    apply E in Hl. by apply bool_decide_unpack in Hl. }
  split; [done|]. split; [|done]. cbn. constructor; [|done].
  intros [e [-> Hin]]%list_elem_of_fmap. apply Hr in Hin. lia.
Qed.

(** What a release does to the locks of the thread. *)
Lemma held_after_unlock held l k :
  typed held (CUnlock l :: k) →
  ∃ held1 m held2, held = held1 ++ (l, m) :: held2 ∧ typed (held1 ++ held2) k.
Proof.
  intros [Hnd Hk]. cbn in Hk. case_bool_decide as Hin; [|done]. cbn in Hk.
  apply list_elem_of_fmap in Hin as [[l' m] [-> Hin]]. apply list_elem_of_split in Hin as (h1 & h2 & ->). cbn [fst] in *.
  exists h1, m, h2. split; [done|]. rewrite filter_delete_one in Hk by done. split; [|done].
  rewrite fmap_app in *. cbn in Hnd. apply NoDup_app in Hnd as (H1 & H2 & H3). apply NoDup_cons in H3 as [H3 H4].
  apply NoDup_app. split_and!; [done| |done]. intros x Hx Hx2. apply (H2 x Hx). by right.
Qed.

Lemma typed_choice held c1 c2 k :
  typed held (COr c1 c2 :: k) → typed held (c1 :: k) ∧ typed held (c2 :: k).
Proof.
  intros [Hnd Hk]. unfold typed. cbn in *. destruct (held_after held c1), (held_after held c2); try done.
  case_bool_decide; [|done]. by subst.
Qed.

Lemma typed_star held c k :
  typed held (CStar c :: k) → typed held k ∧ typed held (c :: CStar c :: k).
Proof.
  intros [Hnd Hk]. unfold typed. cbn in *. destruct (held_after held c) as [h|] eqn:E; [|done].
  case_bool_decide; [|done]. subst h. cbn in *. rewrite E, bool_decide_true by done. done.
Qed.

Lemma typed_seq held c1 c2 k : typed held (CSeq c1 c2 :: k) → typed held (c1 :: c2 :: k).
Proof. intros [Hnd Hk]. split; [done|]. cbn in *. by destruct (held_after held c1). Qed.

(** Every thread can run to its end with the locks it holds. *)
Definition well_typed (σ : config) : Prop :=
  exclusive (holders σ) ∧ ∃ hs, Forall2 typed hs (threads σ) ∧ holders σ ≡ₚ concat hs.

(** A step of one thread. *)
Lemma tstep_typed h k h' k' own rest :
  tstep h k h' k' → exclusive h → typed own k → h ≡ₚ own ++ rest →
  ∃ own', typed own' k' ∧ h' ≡ₚ own' ++ rest ∧ exclusive h'.
Proof.
  intros Hs He Ht Hh. destruct Hs as [h k|h x k|h x k|h l m k Hf|h h1 h2 l m k ->|h c1 c2 k|h c1 c2 k|h c1 c2 k|h c k|h c k].
  - exists own. destruct Ht as [? ?]. by split.
  - exists own. apply typed_read in Ht as [? _]. by split.
  - exists own. apply typed_write in Ht as [? _]. by split.
  - exists ((l, m) :: own). apply held_after_lock in Ht as [_ Ht].
    split_and!; [done|by rewrite Hh|by apply exclusive_lock].
  - apply held_after_unlock in Ht as (o1 & m' & o2 & -> & Ht). exists (o1 ++ o2).
    assert (m' = m) as ->.
    { apply (exclusive_mode _ l m' m He); [rewrite Hh; set_solver|set_solver]. }
    split_and!; [done| |by eapply exclusive_unlock].
    apply (Permutation_cons_inv (a := (l, m))). rewrite Permutation_middle, Hh.
    rewrite <-Permutation_middle. done.
  - exists own. split_and!; [by apply typed_seq|done|done].
  - exists own. split_and!; [by apply (typed_choice _ c1 c2)|done|done].
  - exists own. split_and!; [by apply (typed_choice _ c1 c2)|done|done].
  - exists own. split_and!; [by apply (typed_star _ c)|done|done].
  - exists own. split_and!; [by apply (typed_star _ c)|done|done].
Qed.

Lemma step_well_typed σ σ' : step σ σ' → well_typed σ → well_typed σ'.
Proof.
  intros Hs (He & hs & Hts & Hh). destruct Hs as [h ts i k h' k' Hi Hs|h ts i t c k kt Hi _|h ts i js k Hi _]; cbn [holders threads] in *;
    destruct (Forall2_lookup_r _ _ _ _ _ Hts Hi) as (own & Hown & Ht);
    [|destruct Ht as [_ [=]]..].
  destruct (concat_focus hs i own Hown) as (rest & Hr & Hr'). rewrite Hr in Hh.
  destruct (tstep_typed _ _ _ _ own rest Hs He Ht Hh) as (own' & Ht' & Hh' & He').
  split; [done|]. exists (<[i := own']> hs). split; [by apply Forall2_insert|]. cbn. by rewrite Hr'.
Qed.

Lemma start_well_typed ts : Forall (λ k, forallb (ranked) k) ts → well_typed (start ts).
Proof.
  intros Hts. split; [intros l h' Hp; by apply Permutation_nil_cons in Hp|].
  exists (replicate (length ts) []). cbn. split.
  - induction Hts as [|k ts Hk _ IH]; cbn; [constructor|]. constructor; [|done].
    split; [constructor|]. by apply ranked_all.
  - induction ts as [|k ts IH]; [done|]. cbn. apply IH. by inversion Hts.
Qed.

(** The lock with the highest rank among those held. *)
Lemma max_rank (h : list (lock * mode)) :
  h ≠ [] → ∃ e, e ∈ h ∧ ∀ e', e' ∈ h → (rank e'.1 ≤ rank e.1)%nat.
Proof.
  induction h as [|e h IH]; [done|]. intros _. destruct h as [|e2 h].
  { exists e. split; [left|]. intros e' [->|[]%elem_of_nil]%elem_of_cons. done. }
  destruct IH as (em & Hin & Hmax); [done|]. destruct (decide (rank em.1 ≤ rank e.1)%nat) as [Hle|Hgt].
  - exists e. split; [left|]. intros e' [->|He']%elem_of_cons; [done|]. apply Hmax in He'. lia.
  - exists em. split; [by right|]. intros e' [->|He']%elem_of_cons; [lia|by apply Hmax].
Qed.

(** A thread whose next command is not the acquisition of a held lock moves,
    and has less left to do. *)
Lemma typed_moves h ts i own k rest :
  ts !! i = Some k → k ≠ [] → typed own k → h ≡ₚ own ++ rest →
  (∀ l m k', k = CLock l m :: k' → ∀ m', (l, m') ∉ h) →
  ∃ σ', step (mkConfig h ts) σ' ∧ (tsize (threads σ') < tsize ts)%nat.
Proof.
  intros Hi Hne Ht Hh Hfree. destruct k as [|c k]; [done|].
  destruct c as [|x|x|l m|l|c1 c2|c1 c2|c|t c|js].
  - eapply step_shorter; [done|apply t_skip|rewrite !ksize_cons; cbn [csize]; lia].
  - eapply step_shorter; [done|apply t_read|rewrite !ksize_cons; cbn [csize]; lia].
  - eapply step_shorter; [done|apply t_write|rewrite !ksize_cons; cbn [csize]; lia].
  - eapply step_shorter; [done|apply t_lock; destruct m; [intros Hin|intros m' Hin]; by eapply Hfree|rewrite !ksize_cons; cbn [csize]; lia].
  - apply held_after_unlock in Ht as (o1 & m & o2 & -> & _).
    assert ((l, m) ∈ h) as Hin by (rewrite Hh; set_solver). apply list_elem_of_split in Hin as (h1 & h2 & ->).
    eapply step_shorter; [done|by eapply t_unlock|rewrite !ksize_cons; cbn [csize]; lia].
  - eapply step_shorter; [done|apply t_seq|rewrite !ksize_cons; cbn [csize]; lia].
  - eapply step_shorter; [done|apply t_left|rewrite !ksize_cons; cbn [csize]; lia].
  - eapply step_shorter; [done|apply t_done|rewrite !ksize_cons; cbn [csize]; lia].
  - by destruct Ht as [_ [=]].
  - by destruct Ht as [_ [=]].
Qed.

Lemma well_typed_progress σ :
  well_typed σ → finished σ ∨ ∃ σ', step σ σ' ∧ (tsize (threads σ') < tsize (threads σ))%nat.
Proof.
  destruct σ as [h ts]. intros (He & hs & Hts & Hh). cbn [holders threads] in *.
  destruct (decide (h = [])) as [->|Hne].
  - destruct (decide (Forall (λ k, k = []) ts)) as [Hf|Hf]; [by left|right].
    apply not_Forall_Exists in Hf; [|apply _]. apply Exists_exists in Hf as (k & Hk & Hkne).
    apply list_elem_of_lookup in Hk as [i Hi]. destruct (Forall2_lookup_r _ _ _ _ _ Hts Hi) as (own & Hown & Ht).
    destruct (concat_focus hs i own Hown) as (rest & Hr & _). rewrite Hr in Hh.
    eapply typed_moves; [done|done|done|done|]. intros l m k' _ m' Hin. by apply elem_of_nil in Hin.
  - right. destruct (max_rank h Hne) as ([l m] & Hin & Hmax). pose proof Hin as Hin'. rewrite Hh in Hin'.
    apply list_elem_of_In, in_concat in Hin' as (own & Hown & Ho).
    apply list_elem_of_In in Hown, Ho. apply list_elem_of_lookup in Hown as [i Hown].
    destruct (Forall2_lookup_l _ _ _ _ _ Hts Hown) as (k & Hi & Ht).
    destruct (concat_focus hs i own Hown) as (rest & Hr & _). rewrite Hr in Hh.
    eapply typed_moves; [done| |done|done|].
    + intros ->. apply typed_done in Ht as ->. by apply elem_of_nil in Ho.
    + intros l' m' k' -> m'' Hin''. apply held_after_lock in Ht as [Hrk _].
      apply Hrk in Ho. cbn in Ho.
      apply Hmax in Hin''. cbn in Hin''. lia.
Qed.

Lemma well_typed_finishes σ : well_typed σ → ∃ σ', rtc step σ σ' ∧ finished σ'.
Proof.
  remember (tsize (threads σ)) as n eqn:Hn. revert σ Hn.
  induction (lt_wf n) as [n _ IH]. intros σ -> Hw.
  destruct (well_typed_progress σ Hw) as [Hf|(σ1 & Hs & Hlt)]; [by exists σ|].
  destruct (IH _ Hlt σ1 eq_refl) as (σ' & Hr & Hf); [by eapply step_well_typed|].
  exists σ'. split; [by eapply rtc_l|done].
Qed.

Lemma well_typed_no_race σ x l : guard x = Some l → well_typed σ → ¬ race x σ.
Proof.
  intros Hg (He & hs & Hts & Hh) (i & j & ki & kj & w & Hne & Hi & Hj & Ai & Aj).
  destruct (Forall2_lookup_r _ _ _ _ _ Hts Hi) as (oi & Hoi & Ti), (Forall2_lookup_r _ _ _ _ _ Hts Hj) as (oj & Hoj & Tj).
  destruct ki as [|[] ki]; try done. injection Ai as ->. apply typed_write in Ti as [_ Ti]. specialize (Ti l Hg).
  assert (∃ m, (l, m) ∈ oj) as [m Hm].
  { destruct kj as [|[] kj]; try done; injection Aj as -> <-.
    - apply typed_read in Tj as [_ Tj]. by apply Tj.
    - apply typed_write in Tj as [_ Tj]. exists Unique. by apply Tj. }
  destruct (concat_focus2 hs i j oi oj Hne Hoi Hoj) as (rest & Hc).
  apply elem_of_Permutation in Ti as [oi' Hoi']. rewrite Hc, Hoi' in Hh. cbn in Hh.
  apply (He l _ Hh m). set_solver.
Qed.

(** Threads that take their locks in the order of the ranks never deadlock:
    from every reachable state all can run to their ends; a lock held
    exclusively has one holder; and data with a guard are not raced for. *)
Lemma ranked_never_deadlocks ts σ :
  Forall (λ k, forallb ranked k) ts → rtc step (start ts) σ →
  (∃ σ', rtc step σ σ' ∧ finished σ') ∧ exclusive (holders σ) ∧ ∀ x l, guard x = Some l → ¬ race x σ.
Proof.
  intros Hts%start_well_typed Hr. assert (well_typed σ) as Hw.
  { clear -Hts Hr. induction Hr as [|σ1 σ2 σ3 Hs _ IH]; [done|]. eauto using step_well_typed. }
  split_and!; [by apply well_typed_finishes|apply Hw|]. intros x l Hg. by apply (well_typed_no_race _ _ l).
Qed.

End Typing.

(** ** Executing schedules *)

(** Takes one holding of [l] out. *)
Fixpoint remove_lock (l : lock) (h : list (lock * mode)) : option (list (lock * mode)) :=
  match h with
  | [] => None
  | (l', m) :: h => if bool_decide (l = l') then Some h else cons (l', m) <$> remove_lock l h
  end.

(** The step of thread [i]; [b] decides its choices. *)
Definition exec (i : nat) (b : bool) (σ : config) : option config :=
  let '(mkConfig h ts) := σ in
  match ts !! i with
  | None | Some [] => None
  | Some (c :: k) =>
      let next h k := Some (mkConfig h (<[i := k]> ts)) in
      match c with
      | CSkip | CRead _ | CWrite _ => next h k
      | CLock l m => if bool_decide (free h l m) then next ((l, m) :: h) k else None
      | CUnlock l => h ← remove_lock l h; next h k
      | CSeq c1 c2 => next h (c1 :: c2 :: k)
      | COr c1 c2 => next h ((if b then c1 else c2) :: k)
      | CStar c => next h (if b then c :: CStar c :: k else k)
      | CPost t c => kt ← <[i := k]> ts !! t; Some (mkConfig h (<[t := kt ++ [c]]> (<[i := k]> ts)))
      | CJoin js => if forallb (λ j, match ts !! j with Some [] => true | _ => false end) js then next h k else None
      end
  end.

Lemma remove_lock_spec l h h' : remove_lock l h = Some h' → ∃ h1 m h2, h = h1 ++ (l, m) :: h2 ∧ h' = h1 ++ h2.
Proof.
  revert h'. induction h as [|[l' m] h IH]; intros h'; [done|]. cbn. case_bool_decide as E.
  - intros [= <-]. subst l'. by exists [], m, h.
  - destruct (remove_lock l h) as [h0|]; [|done]. intros [= <-]. destruct (IH h0 eq_refl) as (h1 & m1 & h2 & -> & ->).
    by exists ((l', m) :: h1), m1, h2.
Qed.

Lemma remove_lock_some l m h1 h2 : is_Some (remove_lock l (h1 ++ (l, m) :: h2)).
Proof.
  induction h1 as [|[l' m'] h1 IH]; cbn.
  - rewrite bool_decide_true by done. by eexists.
  - case_bool_decide; [by eexists|]. destruct IH as [h' ->]. by eexists.
Qed.

Lemma exec_sound i b σ σ' : exec i b σ = Some σ' → step σ σ'.
Proof.
  destruct σ as [h ts]. cbn. destruct (ts !! i) as [[|c k]|] eqn:Hi; try done.
  destruct c as [|x|x|l m|l|c1 c2|c1 c2|c|t c|js].
  - intros [= <-]. by eapply s_thread, t_skip.
  - intros [= <-]. by eapply s_thread, t_read.
  - intros [= <-]. by eapply s_thread, t_write.
  - case_bool_decide as Hf; [|done]. intros [= <-]. by eapply s_thread, t_lock.
  - destruct (remove_lock l h) as [h'|] eqn:E; [|done]. intros [= <-].
    apply remove_lock_spec in E as (h1 & m & h2 & -> & ->). by eapply s_thread, t_unlock.
  - intros [= <-]. by eapply s_thread, t_seq.
  - intros [= <-]. destruct b; [by eapply s_thread, t_left|by eapply s_thread, t_right].
  - intros [= <-]. destruct b; [by eapply s_thread, t_again|by eapply s_thread, t_done].
  - destruct (<[i := k]> ts !! t) as [kt|] eqn:Et; [|done]. intros [= <-]. by eapply s_post.
  - destruct (forallb _ js) eqn:E; [|done]. intros [= <-]. eapply s_join; [done|].
    apply Is_true_eq_left in E. rewrite forallb_True, Forall_forall in E.
    intros j Hj. apply E in Hj. by destruct (ts !! j) as [[|]|].
Qed.

(** A thread that can move is found. *)
Lemma exec_complete σ σ' : step σ σ' → ∃ i, (i < length (threads σ))%nat ∧ is_Some (exec i true σ).
Proof.
  intros [h ts i k h' k' Hi Hs|h ts i t c k kt Hi Ht|h ts i js k Hi Hj]; exists i; cbn [threads exec];
    (split; [by eapply lookup_lt_Some|]); rewrite Hi.
  - destruct Hs as [h k|h x k|h x k|h l m k Hf|h h1 h2 l m k ->|h c1 c2 k|h c1 c2 k|h c1 c2 k|h c k|h c k]; try by eexists.
    + rewrite bool_decide_true by done. by eexists.
    + destruct (remove_lock_some l m h1 h2) as [h' ->]. by eexists.
  - rewrite Ht. by eexists.
  - replace (forallb _ js) with true; [by eexists|]. symmetry. apply Is_true_eq_true, forallb_True, Forall_forall.
    intros j Hin. by rewrite (Hj j Hin).
Qed.

(** Whether no thread can move and some is not done. *)
Definition stuck (σ : config) : bool :=
  forallb (λ i, if exec i true σ then false else true) (seq 0 (length (threads σ))) &&
  existsb (λ k, match k with [] => false | _ => true end) (threads σ).

Lemma stuck_deadlocked σ : stuck σ = true → deadlocked σ.
Proof.
  intros [Hs Hu]%andb_prop. split.
  - intros Hf. apply existsb_exists in Hu as (k & Hk & Hne). apply list_elem_of_In in Hk.
    unfold finished in Hf. rewrite Forall_forall in Hf. rewrite (Hf k Hk) in Hne. done.
  - intros σ' (i & Hlt & [σ1 He])%exec_complete. rewrite forallb_forall in Hs.
    assert (In i (seq 0 (length (threads σ)))) as Hi by (apply in_seq; lia). apply Hs in Hi. by rewrite He in Hi.
Qed.

(** Thread [i] runs alone until [p] holds of what it has left. *)
Fixpoint seek (fuel : nat) (i : nat) (p : list cmd → bool) (σ : config) : option config :=
  match threads σ !! i with
  | None => None
  | Some k =>
      if p k then Some σ
      else match fuel with
      | O => None
      | S fuel =>
          match exec i false σ ≫= seek fuel i p with
          | Some σ' => Some σ'
          | None => exec i true σ ≫= seek fuel i p
          end
      end
  end.

Lemma seek_sound fuel i p σ σ' : seek fuel i p σ = Some σ' → rtc step σ σ'.
Proof.
  revert σ. induction fuel as [|fuel IH]; intros σ; cbn; (destruct (threads σ !! i) as [k|]; [|done]);
    (destruct (p k); [by intros [= ->]|]); [done|].
  destruct (exec i false σ) as [σ1|] eqn:E1; cbn; [destruct (seek fuel i p σ1) as [σ2|] eqn:E2|].
  - intros [= <-]. eapply rtc_l; [by eapply exec_sound|by apply IH].
  - destruct (exec i true σ) as [σ3|] eqn:E3; cbn; [|done]. intros Hs. eapply rtc_l; [by eapply exec_sound|by apply IH].
  - destruct (exec i true σ) as [σ3|] eqn:E3; cbn; [|done]. intros Hs. eapply rtc_l; [by eapply exec_sound|by apply IH].
Qed.

(** Threads run in turn, each until it is about to take a lock or to wait for
    threads (which may block it), or to its end. *)
Inductive goal := Takes (l : lock) (m : mode) | AtJoin | Ends.

Definition at_goal (g : goal) (k : list cmd) : bool :=
  match g, k with
  | Takes l m, CLock l' m' :: _ => bool_decide (l = l') && bool_decide (m = m')
  | AtJoin, CJoin _ :: _ => true
  | Ends, [] => true
  | _, _ => false
  end.

Definition drive (fuel : nat) (turns : list (nat * goal)) (σ : config) : option config :=
  foldl (λ σ t, σ ≫= seek fuel t.1 (at_goal t.2)) (Some σ) turns.

Lemma drive_sound fuel turns σ σ' : drive fuel turns σ = Some σ' → rtc step σ σ'.
Proof.
  assert (∀ l : list (nat * goal), foldl (λ σ t, σ ≫= seek fuel t.1 (at_goal t.2)) None l = None) as Hnone
    by (by induction l).
  unfold drive. revert σ. induction turns as [|[i g] turns IH]; intros σ; cbn; [by intros [= ->]|].
  destruct (seek fuel i _ σ) as [σ1|] eqn:E; [|by rewrite Hnone].
  intros Hs. etrans; [by eapply seek_sound|by apply IH].
Qed.

Definition accesses (x : var) (w : bool) (k : list cmd) : bool := bool_decide (access k = Some (x, w)).

(** Two threads race when the second can be run to an access (one after which
    [p] holds of the rest), and then the first to a write. *)
Definition finds_race (fuel : nat) (x : var) (w : bool) (p : list cmd → bool) (c1 c2 : list cmd) : bool :=
  match seek fuel 1 (λ k, accesses x w k && p (tail k)) (start [c1; c2]) ≫= seek fuel 0 (accesses x true) with
  | Some σ => match threads σ !! 0%nat, threads σ !! 1%nat with
              | Some k1, Some k2 => accesses x true k1 && accesses x w k2
              | _, _ => false
              end
  | None => false
  end.

Lemma finds_race_sound fuel x w p c1 c2 :
  finds_race fuel x w p c1 c2 = true → ∃ σ, rtc step (start [c1; c2]) σ ∧ race x σ.
Proof.
  unfold finds_race. destruct (seek fuel 1 _ _) as [σ1|] eqn:E1; [|done]. cbn.
  destruct (seek fuel 0 _ σ1) as [σ|] eqn:E2; [|done].
  destruct (threads σ !! 0%nat) as [k1|] eqn:K1; [|done]. destruct (threads σ !! 1%nat) as [k2|] eqn:K2; [|done].
  intros [A1%bool_decide_eq_true A2%bool_decide_eq_true]%andb_prop. exists σ. split.
  - etrans; eapply seek_sound; done.
  - exists 0%nat, 1%nat, k1, k2, w. done.
Qed.
