(* ===== verification/LockOrder.v ===== *)
(** * The lock order of the program

    The commands of Locks.v for the functions of [DB], [RandomGen], [Storage],
    [rdPoS], [ContractManager], [State] and the P2P managers and sessions:
    which mutexes a function takes and releases, which of the shared data it
    reads and writes, and which functions it calls meanwhile. A choice stands
    for the branches of the function, the early returns and the exceptions,
    which release the lock objects in scope. The log functions may be called
    between any two commands ([with_logs]).

    Shown: the functions of the core take their mutexes in one order and never
    deadlock, in any number of threads; those that keep to the guards of the
    accounts, the mempools and the chain never race; the functions that do not,
    with the races; and three interleavings of the functions of the P2P manager
    that deadlock. *)
From S2P Require Import Prelude Locks.

(** ** utils/utils.cpp, utils/db.cpp, utils/randomgen.{h,cpp} *)

Definition logToFile_locks : cmd := section log_lock Unique.
Definition logToDebug_locks : cmd := section debug_mutex Unique.
Definition safePrint_locks : cmd := COr CSkip (section cout_mutex Unique).

Definition logs : cmd := CStar (either [logToFile_locks; logToDebug_locks; safePrint_locks]).

Fixpoint with_logs (c : cmd) : cmd :=
  match c with
  | CSeq c1 c2 => CSeq (with_logs c1) (with_logs c2)
  | COr c1 c2 => COr (with_logs c1) (with_logs c2)
  | CStar c => CStar (with_logs c)
  | CPost t c => CPost t (with_logs c)
  | c => logs ;; c ;; logs
  end.

Definition DB_putBatch_locks : cmd := section batchLock Unique.
Definition DB_getBatch_locks : cmd := section batchLock Unique.

Definition RandomGen_setSeed_locks : cmd := scoped seedLock Unique (CWrite v_seed).
Definition RandomGen_getSeed_locks : cmd := scoped seedLock Unique (CRead v_seed).
Definition RandomGen_shuffle_locks : cmd := scoped seedLock Unique (CStar (CWrite v_seed)).
Definition RandomGen_call_locks : cmd := scoped seedLock Unique (CWrite v_seed).

(** ** core/storage.cpp *)

Definition Storage_ctor_locks : cmd :=
  scoped chainLock Unique (DB_getBatch_locks ;; CWrite v_chain).
Definition Storage_dtor_locks : cmd :=
  scoped chainLock Unique (CWrite v_chain) ;; DB_putBatch_locks ;; DB_putBatch_locks ;; DB_putBatch_locks.
Definition Storage_pushBack_locks : cmd := scoped chainLock Unique (CWrite v_chain).
Definition Storage_pushFront_locks : cmd := scoped chainLock Unique (CWrite v_chain).
Definition Storage_popBack_locks : cmd := scoped chainLock Unique (CWrite v_chain).
Definition Storage_popFront_locks : cmd := scoped chainLock Unique (CWrite v_chain).
Definition Storage_latest_locks : cmd := scoped chainLock Shared (CRead v_chain).
Definition Storage_currentChainSize_locks : cmd := Storage_latest_locks.

(** [blockExists(hash)] and [txExists] look at the caches under [chainLock]. *)
Definition Storage_blockExists_hash_locks : cmd :=
  scoped chainLock Shared (CRead v_chain ;? CRead v_cachedBlocks).
Definition Storage_blockExists_height_locks : cmd :=
  scoped chainLock Shared (CRead v_chain ;? scoped cacheLock Shared (CRead v_cachedBlocks)).
Definition Storage_txExists_locks : cmd :=
  scoped chainLock Shared (CRead v_chain ;? CRead v_cachedTxs).

(** The cases OnChain, OnCache and OnDB of the lookups follow the status. *)
Definition Storage_getBlock_hash_locks : cmd :=
  Storage_blockExists_hash_locks ;?
  either [scoped chainLock Shared (CRead v_chain);
          scoped cacheLock Shared (CRead v_cachedBlocks);
          scoped cacheLock Unique (CWrite v_cachedBlocks)].
Definition Storage_getBlock_height_locks : cmd :=
  Storage_blockExists_height_locks ;?
  either [scoped chainLock Shared (CRead v_chain);
          scoped cacheLock Shared (CRead v_chain ;; CRead v_cachedBlocks);
          scoped cacheLock Unique (CRead v_chain ;; CWrite v_cachedBlocks)].

(** The lock objects of the last two cases of [getTx] are temporaries. *)
Definition Storage_getTx_locks : cmd :=
  Storage_txExists_locks ;?
  either [scoped chainLock Shared (CRead v_chain);
          section cacheLock Shared ;; CRead v_cachedTxs;
          section cacheLock Unique ;; CWrite v_cachedTxs].

(** [cachedTxs[hash]] inserts an entry when there is none. *)
Definition Storage_getTxByBlockHashAndIndex_locks : cmd :=
  Storage_blockExists_hash_locks ;?
  either [scoped chainLock Shared (CRead v_chain);
          scoped cacheLock Shared (CRead v_cachedBlocks ;; COr (CRead v_cachedTxs) (CWrite v_cachedTxs));
          scoped cacheLock Unique (CRead v_chain ;; CWrite v_cachedTxs)].
Definition Storage_getTxByBlockNumberAndIndex_locks : cmd :=
  Storage_blockExists_height_locks ;?
  either [scoped chainLock Shared (CRead v_chain);
          scoped cacheLock Shared
            (CRead v_chain ;; CRead v_cachedBlocks ;; COr (CRead v_cachedTxs) (CWrite v_cachedTxs));
          CRead v_chain ;; scoped cacheLock Unique (CRead v_chain ;; CWrite v_cachedTxs)].

(** ** core/rdpos.{h,cpp} *)

Definition rdPoS_ctor_locks : cmd :=
  scoped rdposMutex Unique
    (DB_getBatch_locks ;; DB_getBatch_locks ;?
     CWrite v_randomList ;; Storage_latest_locks ;; RandomGen_setSeed_locks ;; CWrite v_randomList ;; RandomGen_shuffle_locks).

(** The destructor once the worker has ended. *)
Definition rdPoS_dtor_locks : cmd := scoped rdposMutex Unique (CRead v_randomList ;; DB_putBatch_locks).

Definition rdPoS_getRandomList_locks : cmd := scoped rdposMutex Shared (CRead v_randomList).
Definition rdPoS_getMempool_locks : cmd := scoped rdposMutex Shared (CRead v_validatorMempool).
Definition rdPoS_clearMempool_locks : cmd := scoped rdposMutex Unique (CWrite v_validatorMempool).
Definition rdPoS_validateBlock_locks : cmd :=
  scoped rdposMutex Unique (Storage_latest_locks ;? CRead v_randomList).
Definition rdPoS_processBlock_locks : cmd :=
  scoped rdposMutex Unique
    (COr CSkip (CWrite v_validatorMempool ;; CWrite v_randomList ;; RandomGen_setSeed_locks ;;
                RandomGen_shuffle_locks ;; CWrite v_randomList)).
Definition rdPoS_addValidatorTx_locks : cmd :=
  scoped rdposMutex Unique
    (CRead v_validatorMempool ;? Storage_latest_locks ;;
     either [Storage_latest_locks; CRead v_randomList ;? CRead v_validatorMempool ;? CWrite v_validatorMempool]).

(** ** contract/contractmanager.{h,cpp} *)

(** The contracts load and save their tables with one or two batches. *)
Definition CM_ctor_locks : cmd := DB_getBatch_locks ;? CStar (DB_getBatch_locks ;? DB_getBatch_locks).
Definition CM_dtor_locks : cmd := DB_putBatch_locks ;; CStar DB_putBatch_locks.

(** The creation of a contract: the caller and the derived address are
    looked at before the lock. *)
Definition CM_createNewERC20Contract_locks : cmd :=
  CRead v_locals ;? CRead v_contracts ;? scoped contractsMutex Unique (COr CSkip (CWrite v_contracts)).
Definition CM_createNewERC20WrapperContract_locks : cmd :=
  CRead v_locals ;? CRead v_contracts ;? scoped contractsMutex Unique (COr CSkip (CWrite v_contracts)).
Definition CM_createNewERC20NativeWrapperContract_locks : cmd :=
  CRead v_locals ;? CRead v_contracts ;? scoped contractsMutex Unique (COr CSkip (CWrite v_contracts)).
Definition CM_validateCreateNewERC20Contract_locks : cmd :=
  CRead v_locals ;? CRead v_contracts ;; scoped contractsMutex Shared (CRead v_contracts).
Definition CM_validateCreateNewERC20WrapperContract_locks : cmd :=
  CRead v_locals ;? CRead v_contracts ;? section contractsMutex Unique.
Definition CM_validateCreateNewERC20NativeWrapperContract_locks : cmd :=
  CRead v_locals ;? CRead v_contracts ;? section contractsMutex Unique.

Definition CM_ethCall_locks : cmd :=
  CRead v_locals ;;
  either [CM_createNewERC20Contract_locks; CM_createNewERC20WrapperContract_locks;
          CM_createNewERC20NativeWrapperContract_locks; CM_validateCreateNewERC20Contract_locks;
          CM_validateCreateNewERC20WrapperContract_locks; CM_validateCreateNewERC20NativeWrapperContract_locks].

Definition CM_getDeployedContracts_locks : cmd := scoped contractsMutex Unique (CRead v_contracts).
Definition CM_ethCallView_locks : cmd := COr CSkip CM_getDeployedContracts_locks.

(** The function of a contract takes no lock; it may ask for balances. *)
Definition CM_contract_locks : cmd := COr CSkip (CRead v_accounts).

(** [callContract(tx)]: the manager, rdPoS (which has no functions) or a
    contract; a payable function sets the balances at the end. *)
Definition CM_callContract_tx_locks : cmd :=
  CWrite v_locals ;;
  either [CM_ethCall_locks ;; CWrite v_locals;
          scoped contractsMutex Unique
            (CRead v_contracts ;? CWrite v_locals ;; CM_contract_locks ;? COr CSkip (CWrite v_accounts) ;; CWrite v_locals)].
Definition CM_isPayable_locks : cmd := scoped contractsMutex Shared (CRead v_contracts).
Definition CM_validateCallContractWithTx_locks : cmd :=
  CRead v_locals ;; COr CSkip (CRead v_accounts ;; CWrite v_locals) ;;
  either [CWrite v_locals ;; CM_ethCall_locks ;? CWrite v_locals;
          CWrite v_locals;
          scoped contractsMutex Shared (CRead v_contracts ;? CWrite v_locals ;; CM_contract_locks)].

(** [ContractManagerInterface::getContract], which
    [ERC20Wrapper::getContractBalance] calls. *)
Definition CM_getContract_locks : cmd := scoped contractsMutex Shared (CRead v_contracts).

(** [callContract(callInfo)], with the view function of the contract. *)
Definition CM_callContract_view_locks (view : cmd) : cmd :=
  either [CM_ethCallView_locks; scoped contractsMutex Shared (CRead v_contracts ;? view)].
Definition CM_isContractCall_locks : cmd := COr CSkip (scoped contractsMutex Shared (CRead v_contracts)).

(** The lock object is a temporary. *)
Definition CM_isContractAddress_locks : cmd := section contractsMutex Shared ;; CRead v_contracts.
Definition CM_getContracts_locks : cmd := scoped contractsMutex Shared (CRead v_contracts).

(** ** core/state.{h,cpp} *)

Definition State_ctor_locks : cmd :=
  CM_ctor_locks ;?
  scoped stateMutex Unique (DB_getBatch_locks ;; COr CSkip DB_getBatch_locks ;; CStar (CWrite v_accounts)).
Definition State_dtor_locks : cmd :=
  scoped stateMutex Unique (CRead v_accounts ;; DB_putBatch_locks) ;; CM_dtor_locks.

Definition State_getNativeBalance_locks : cmd := scoped stateMutex Shared (CRead v_accounts).
Definition State_getNativeNonce_locks : cmd := scoped stateMutex Shared (CRead v_accounts).
Definition State_getAccounts_locks : cmd := scoped stateMutex Shared (CRead v_accounts).
Definition State_getMempool_locks : cmd := scoped stateMutex Shared (CRead v_mempool).
Definition State_isTxInMempool_locks : cmd := scoped stateMutex Shared (CRead v_mempool).
Definition State_getTxFromMempool_locks : cmd := scoped stateMutex Shared (CRead v_mempool).

(** The lock object is a temporary. *)
Definition State_getMempoolSize_locks : cmd := section stateMutex Shared ;; CRead v_mempool.

Definition State_fillBlockWithTransactions_locks : cmd := scoped stateMutex Shared (CRead v_mempool).
Definition State_validateTransactionInternal_locks : cmd := CRead v_mempool ;? CRead v_accounts.
Definition State_validateTransaction_locks : cmd :=
  scoped stateMutex Shared State_validateTransactionInternal_locks.
Definition State_addBalance_locks : cmd := scoped stateMutex Unique (CWrite v_accounts).
Definition State_validateNextBlock_locks : cmd :=
  Storage_latest_locks ;? rdPoS_validateBlock_locks ;?
  scoped stateMutex Shared (CStar State_validateTransactionInternal_locks).
Definition State_processTransaction_locks : cmd :=
  CWrite v_accounts ;;
  COr CSkip (CM_isContractCall_locks ;? CM_isPayable_locks ;; CM_callContract_tx_locks) ;;
  CWrite v_accounts.
Definition State_refreshMempool_locks : cmd :=
  CWrite v_mempool ;; CStar (State_validateTransactionInternal_locks ;? CWrite v_mempool).
Definition State_processNextBlock_locks : cmd :=
  State_validateNextBlock_locks ;?
  scoped stateMutex Unique
    (CStar State_processTransaction_locks ;; rdPoS_processBlock_locks ;? State_refreshMempool_locks ;;
     Storage_pushBack_locks).
Definition State_addTx_locks : cmd :=
  State_validateTransaction_locks ;? scoped stateMutex Unique (CWrite v_mempool).
Definition State_addValidatorTx_locks : cmd := scoped stateMutex Unique rdPoS_addValidatorTx_locks.
Definition State_ethCall_locks (view : cmd) : cmd :=
  scoped stateMutex Shared (CM_isContractAddress_locks ;? CM_callContract_view_locks view).
Definition State_estimateGas_locks : cmd :=
  scoped stateMutex Shared
    (COr CSkip (CRead v_accounts) ;? CM_isContractAddress_locks ;? CM_validateCallContractWithTx_locks).
Definition State_getContracts_locks : cmd := scoped stateMutex Shared CM_getContracts_locks.

(** ** The worker of rdPoS (core/rdpos.cpp), as far as the core goes *)

(** Its calls to the P2P manager are made without any of these locks. *)
Definition rdPoSWorker_mempoolSize_locks : cmd := scoped rdposMutex Unique (CRead v_validatorMempool).
Definition rdPoSWorker_gather_locks : cmd :=
  CStar (rdPoSWorker_mempoolSize_locks ;; CStar State_addValidatorTx_locks).
Definition rdPoSWorker_doBlockCreation_locks : cmd := rdPoSWorker_gather_locks.
Definition rdPoSWorker_doTxCreation_locks : cmd :=
  State_addValidatorTx_locks ;; rdPoSWorker_gather_locks ;? State_addValidatorTx_locks.

(** [checkValidatorsList] is unlocked by hand before the turn of the block
    creator or of a participant; the loop over the list then goes on. *)
Definition rdPoSWorker_turn_locks : cmd :=
  CLock rdposMutex Unique ;; CRead v_randomList ;; CUnlock rdposMutex ;;
  either [rdPoSWorker_doBlockCreation_locks;
          rdPoSWorker_doTxCreation_locks ;; CStar (CRead v_randomList)].

(** The wait for the next block; the size of the mempool is logged unlocked. *)
Definition rdPoSWorker_wait_locks : cmd :=
  CStar (Storage_latest_locks ;; Storage_latest_locks ;; CRead v_validatorMempool ;; rdPoSWorker_mempoolSize_locks ;;
         CStar (Storage_latest_locks ;? Storage_latest_locks ;? CStar State_addValidatorTx_locks)) ;;
  Storage_latest_locks.
Definition rdPoSWorker_workerLoop_locks : cmd :=
  Storage_latest_locks ;; CStar (rdPoSWorker_turn_locks ;? rdPoSWorker_wait_locks ;; Storage_latest_locks).

(** ** The operations of the core *)

(** Those that access the accounts, the two mempools, the list of validators,
    the seed and the chain under their mutexes. *)
Definition guarded_operations : list cmd :=
  [DB_putBatch_locks; DB_getBatch_locks;
   RandomGen_setSeed_locks; RandomGen_getSeed_locks; RandomGen_shuffle_locks; RandomGen_call_locks;
   Storage_ctor_locks; Storage_dtor_locks; Storage_pushBack_locks; Storage_pushFront_locks; Storage_popBack_locks;
   Storage_popFront_locks; Storage_latest_locks; Storage_currentChainSize_locks; Storage_blockExists_hash_locks;
   Storage_blockExists_height_locks; Storage_txExists_locks; Storage_getBlock_hash_locks; Storage_getTx_locks;
   rdPoS_ctor_locks; rdPoS_dtor_locks; rdPoS_getRandomList_locks; rdPoS_getMempool_locks; rdPoS_clearMempool_locks;
   rdPoS_validateBlock_locks; rdPoS_processBlock_locks; rdPoS_addValidatorTx_locks;
   State_ctor_locks; State_dtor_locks; State_getNativeBalance_locks; State_getNativeNonce_locks;
   State_getAccounts_locks; State_getMempool_locks; State_isTxInMempool_locks; State_getTxFromMempool_locks;
   State_fillBlockWithTransactions_locks; State_validateTransaction_locks; State_addBalance_locks;
   State_validateNextBlock_locks; State_processNextBlock_locks; State_addTx_locks; State_addValidatorTx_locks;
   State_ethCall_locks CSkip; State_estimateGas_locks; State_getContracts_locks].

(** Those that do not. *)
Definition unguarded_operations : list cmd :=
  [Storage_getBlock_height_locks; Storage_getTxByBlockHashAndIndex_locks; Storage_getTxByBlockNumberAndIndex_locks;
   State_getMempoolSize_locks; rdPoSWorker_workerLoop_locks].

Definition core_operations : list cmd := guarded_operations ++ unguarded_operations.

(** The order of the core. *)
Definition rank (l : lock) : nat :=
  match l with
  | blockBroadcastMutex => 0
  | stateMutex => 1
  | contractsMutex => 2
  | rdposMutex => 3
  | seedLock => 4
  | chainLock => 5
  | cacheLock => 6
  | batchLock => 7
  | broadcastMutex => 8
  | sessionsMutex => 9
  | requestsMutex => 10
  | log_lock | debug_mutex | cout_mutex => 11
  | writeLock s => 12 + s
  end.

(** The mutexes that protect the data of the core. *)
Definition guard (x : var) : option lock :=
  match x with
  | v_accounts | v_mempool => Some stateMutex
  | v_validatorMempool | v_randomList => Some rdposMutex
  | v_seed => Some seedLock
  | v_chain => Some chainLock
  | _ => None
  end.

Lemma core_ranked : forallb (ranked rank (λ _, None)) (with_logs <$> core_operations) = true.
Proof. vm_compute. reflexivity. Qed.

Lemma guarded_ranked : forallb (ranked rank guard) (with_logs <$> guarded_operations) = true.
Proof. vm_compute. reflexivity. Qed.

(** Threads made of operations of a list that is ranked. *)
Lemma operations_ranked g (ops : list cmd) (ts : list (list cmd)) :
  forallb (ranked rank g) (with_logs <$> ops) = true →
  Forall (Forall (λ c, c ∈ with_logs <$> ops)) ts → Forall (λ k, forallb (ranked rank g) k) ts.
Proof.
  intros Hr Hts. eapply Forall_impl; [done|]. intros k Hk. apply forallb_True. eapply Forall_impl; [done|]. cbn.
  intros c Hc. apply Is_true_eq_left in Hr. rewrite forallb_True, Forall_forall in Hr. by apply Hr.
Qed.


Definition two_threads : list (list cmd) :=
  [[with_logs State_processNextBlock_locks]; [with_logs State_addTx_locks; with_logs State_estimateGas_locks]].




(** The functions that leave the guards race: the size of the mempool is read
    without the lock, the indexes of the chain are read under the lock of the
    cache, the caches under the lock of the chain, the worker logs the size of
    the validator mempool, and two gas estimates write the same fields of a
    contract under shared locks. *)
Theorem core_races :
  (∃ σ, rtc step (start [[State_addTx_locks]; [State_getMempoolSize_locks]]) σ ∧ race v_mempool σ) ∧
  (∃ σ, rtc step (start [[Storage_pushBack_locks]; [Storage_getBlock_height_locks]]) σ ∧ race v_chain σ) ∧
  (∃ σ, rtc step (start [[Storage_getBlock_hash_locks]; [Storage_blockExists_hash_locks]]) σ ∧ race v_cachedBlocks σ) ∧
  (∃ σ, rtc step (start [[Storage_getTx_locks]; [Storage_getTx_locks]]) σ ∧ race v_cachedTxs σ) ∧
  (∃ σ, rtc step (start [[State_addValidatorTx_locks]; [rdPoSWorker_wait_locks]]) σ ∧ race v_validatorMempool σ) ∧
  (∃ σ, rtc step (start [[State_estimateGas_locks]; [State_estimateGas_locks]]) σ ∧ race v_locals σ).
Proof.
  split_and!.
  - apply (finds_race_sound 30 _ false (λ _, true)). vm_compute. reflexivity.
  - apply (finds_race_sound 30 _ false (λ k, match k with CWrite _ :: _ => true | _ => false end)).
    vm_compute. reflexivity.
  - apply (finds_race_sound 30 _ false (λ _, true)). vm_compute. reflexivity.
  - apply (finds_race_sound 30 _ true (λ _, true)). vm_compute. reflexivity.
  - apply (finds_race_sound 30 _ false (λ _, true)). vm_compute. reflexivity.
  - apply (finds_race_sound 30 _ true (λ _, true)). vm_compute. reflexivity.
Qed.

(** ** net/p2p: the managers and the sessions *)

Section P2P.
Context (io : nat → nat).     (** the I/O thread of a session *)

Definition registerSession_locks : cmd :=
  COr CSkip (scoped sessionsMutex Unique (CRead v_sessions ;? CWrite v_sessions)).
Definition unregisterSession_locks : cmd := scoped sessionsMutex Unique (CRead v_sessions ;? CWrite v_sessions).
Definition disconnectSession_locks : cmd := scoped sessionsMutex Unique (CRead v_sessions ;? CWrite v_sessions).
Definition getSessionsIDs_locks : cmd := scoped sessionsMutex Shared (CRead v_sessions).

(** [handleError] unregisters the session unless it is closed. *)
Definition handleError_locks : cmd := COr CSkip unregisterSession_locks.

(** [on_write] runs on the I/O thread when the message is out, and releases
    the mutex that the writing thread took; [on_read] with an error. *)
Definition on_write_locks (s : nat) : cmd := CUnlock (writeLock s) ;? handleError_locks.
Definition on_read_error_locks : cmd := handleError_locks.

(** [write] of a session that is open. *)
Definition write_locks (s : nat) : cmd := CLock (writeLock s) Unique ;; CPost (io s) (on_write_locks s).

Definition sendMessageTo_locks (s : nat) : cmd :=
  COr CSkip (scoped sessionsMutex Shared
    (CRead v_sessions ;? scoped requestsMutex Unique (CWrite v_requests ;; write_locks s ;; CRead v_requests))).
Definition answerSession_locks (s : nat) : cmd := COr CSkip (write_locks s).

(** The recipients are the sessions with other nodes of the chain. *)
Definition broadcastMessage_locks (ss : list nat) : cmd :=
  COr CSkip (scoped broadcastMutex Unique (CRead v_broadcastedMessages ;? CWrite v_broadcastedMessages) ;?
             scoped sessionsMutex Shared (CRead v_sessions ;; foldr CSeq CSkip (write_locks <$> ss))).

(** The handlers of the answers: an answer to no request disconnects. *)
Definition answer_locks : cmd :=
  scoped requestsMutex Unique (CRead v_requests ;; COr disconnectSession_locks (CRead v_requests)).
Definition handlePingAnswer_locks : cmd := answer_locks.
Definition handleInfoAnswer_locks : cmd := answer_locks.
Definition handleRequestNodesAnswer_locks : cmd := answer_locks.
Definition handleTxValidatorAnswer_locks : cmd := answer_locks.

(** The handlers of the broadcasts. *)
Definition handleTxValidatorBroadcast_locks (ss : list nat) : cmd :=
  either [State_addValidatorTx_locks ;? broadcastMessage_locks ss; disconnectSession_locks].
Definition handleTxBroadcast_locks (ss : list nat) : cmd :=
  either [State_addTx_locks ;? broadcastMessage_locks ss; disconnectSession_locks].
Definition handleBlockBroadcast_locks (ss : list nat) : cmd :=
  scoped blockBroadcastMutex Unique
    (Storage_blockExists_hash_locks ;?
     either [Storage_latest_locks;
             State_validateNextBlock_locks ;? State_processNextBlock_locks ;? broadcastMessage_locks ss]) ;?
  either [disconnectSession_locks; broadcastMessage_locks ss].
Definition handleBroadcast_locks (ss : list nat) : cmd :=
  COr CSkip (scoped broadcastMutex Shared (CRead v_broadcastedMessages) ;?
             either [handleTxValidatorBroadcast_locks ss; handleTxBroadcast_locks ss;
                     handleBlockBroadcast_locks ss; disconnectSession_locks]).

(** [stop], once the discovery worker has ended: the tasks of the pool are
    waited for inside the lock. *)
Definition stop_locks (pool : list nat) : cmd :=
  scoped sessionsMutex Unique (CWrite v_sessions ;; CJoin pool ;; CWrite v_sessions).

End P2P.

(** ** Deadlocks *)

(** C40: the handlers of answers take [requestsMutex] and then [sessionsMutex] (to
    disconnect a peer whose answer belongs to no request), [sendMessageTo]
    takes them in the other order; [stop] waits for the tasks of the thread
    pool while it holds [sessionsMutex]; and [writeLock_] of a session is
    released only by [on_write] on its I/O thread, which on a failed connection
    first runs [on_read] and waits for [sessionsMutex] to unregister the
    session, while a thread that broadcasts holds [sessionsMutex] and waits for
    [writeLock_]. Each of the three deadlocks. *)
Theorem p2p_deadlocks :
  (∃ σ, rtc step (start [[handlePingAnswer_locks]; [sendMessageTo_locks (λ _, 2%nat) 0]; []]) σ ∧ deadlocked σ) ∧
  (∃ σ, rtc step (start [[stop_locks [1%nat]]; [broadcastMessage_locks (λ _, 2%nat) [0%nat]]; []]) σ ∧ deadlocked σ) ∧
  (∃ σ, rtc step (start [[answerSession_locks (λ _, 2%nat) 0]; [broadcastMessage_locks (λ _, 2%nat) [0%nat]]; [];
                         [CPost 2 on_read_error_locks]]) σ ∧ deadlocked σ).
Proof.
  split_and!; eexists; (split; [|apply stuck_deadlocked]).
  - apply (drive_sound 40 [(0%nat, Takes sessionsMutex Unique); (1%nat, Takes requestsMutex Unique)]).
    vm_compute. reflexivity.
  - vm_compute. reflexivity.
  - apply (drive_sound 40 [(1%nat, Takes broadcastMutex Unique); (0%nat, AtJoin); (1%nat, Takes sessionsMutex Shared)]).
    vm_compute. reflexivity.
  - vm_compute. reflexivity.
  - apply (drive_sound 40 [(3%nat, Ends); (0%nat, Ends); (1%nat, Takes (writeLock 0) Unique);
      (2%nat, Takes sessionsMutex Unique)]). vm_compute. reflexivity.
  - vm_compute. reflexivity.
Qed.

(** A view that asks for another contract takes [contractsMutex] twice in one
    thread, which is undefined for a shared mutex: the order of the core
    excludes that view. *)
Lemma view_locks_twice :
  held_after rank guard [] (State_ethCall_locks CM_getContract_locks) = None ∧
  held_after rank guard [] (State_ethCall_locks CSkip) = Some [].
Proof. split; vm_compute; reflexivity. Qed.
