(* ===== verification/SnowmanVM.v ===== *)
(** * SnowmanVM: the interface to AvalancheGo (src/core/snowmanVM.{h,cpp})

    The virtual machine that AvalancheGo calls over gRPC: a mempool of blocks
    with their status, the preferred block, the nodes connected to, and the
    answers from the storage. The build leaves the file out, and the block and
    storage classes have changed since it was written; what it uses of them is
    the class [SnowChain]. The generated messages are records of their
    fields. *)
From stdpp Require Import base list gmap relations.
From S2P Require Import Prelude Utils Strings Json.

Inductive BlockStatus := Unknown | Processing | Rejected | Accepted.

#[export] Instance BlockStatus_eq_dec : EqDecision BlockStatus.
Proof. solve_decision. Defined.

(** A block and the storage as the file uses them. *)
Class SnowChain := {
  sblock : Type;
  sb_parse : bytes → outcome sblock;       (** [Block(bytes, false)] *)
  sb_hash : sblock → bytes;
  sb_prev : sblock → bytes;
  sb_height : sblock → Z;
  sb_timestamp : sblock → Z;
  sb_bytes : sblock → bytes;
}.

Section SnowmanVM.
Context `{SnowChain}.

(** [Storage]: [latest()], [exists(hash)], [getBlock(hash)], [getBlock(height)]. *)
Record SnowStorage := mkSnowStorage {
  sn_latest : sblock;
  sn_block : bytes → option sblock;
  sn_byHeight : Z → option sblock;
}.

(** The parameters of [initialize]; of a database server, address and version. *)
Record InitializeRequest := mkInit {
  ip_networkId : Z;
  ip_subnetId : bytes;
  ip_chainId : bytes;
  ip_nodeId : bytes;
  ip_xChainId : bytes;
  ip_avaxAssetId : bytes;
  ip_genesisBytes : bytes;
  ip_upgradeBytes : bytes;
  ip_configBytes : bytes;
  ip_dbServers : list (bytes * bytes);
  ip_gRPCServerAddress : bytes;
}.

Record SnowmanVM := mkVM {
  vm_initParams : InitializeRequest;
  vm_connectedNodes : list bytes;
  vm_preferredBlockHash : bytes;
  vm_mempool : gmap bytes sblock;
  vm_cachedBlockStatus : gmap bytes BlockStatus;
}.

(** [junk] is the network id before [initialize] sets it. *)
Definition SnowmanVM_ctor (junk : Z) : SnowmanVM :=
  mkVM (mkInit junk [] [] [] [] [] [] [] [] [] []) [] (FixedStr_empty 32) ∅ ∅.

(** The fields of the replies that are set; a field that is left out is empty
    in the message, and [None] here. *)
Record reply := mkReply {
  rp_id : option bytes;
  rp_parent : bytes;
  rp_status : option BlockStatus;
  rp_height : Z;
  rp_bytes : option bytes;
  rp_seconds : Z;
  rp_nanos : Z;
}.

Definition reply_of (id raw : bool) (status : option BlockStatus) (b : sblock) : reply :=
  mkReply (if id then Some (sb_hash b) else None) (sb_prev b) status (sb_height b)
    (if raw then Some (sb_bytes b) else None)
    (sb_timestamp b / 1000000000) (sb_timestamp b mod 1000000000).

(** ** The mempool and the statuses *)

Definition vm_getBlockStatus (v : SnowmanVM) (hash : bytes) : BlockStatus :=
  default Unknown (vm_cachedBlockStatus v !! hash).
Definition vm_setBlockStatus (hash : bytes) (status : BlockStatus) (v : SnowmanVM) : SnowmanVM :=
  mkVM (vm_initParams v) (vm_connectedNodes v) (vm_preferredBlockHash v) (vm_mempool v) (<[hash := status]> (vm_cachedBlockStatus v)).
Definition vm_blockExists (v : SnowmanVM) (hash : bytes) : bool := bool_decide (is_Some (vm_mempool v !! hash)).
Definition vm_blockIsProcessing (v : SnowmanVM) (hash : bytes) : bool :=
  bool_decide (vm_cachedBlockStatus v !! hash = Some Processing).
Definition vm_getBlock (v : SnowmanVM) (hash : bytes) : option sblock := vm_mempool v !! hash.

(** [acceptBlock]: a block that is only in the mempool leaves it. *)
Definition vm_acceptBlock (unique : bool) (hash : bytes) (v : SnowmanVM) : bool * SnowmanVM :=
  match vm_mempool v !! hash with
  | None => (false, v)
  | Some _ =>
      (true, mkVM (vm_initParams v) (vm_connectedNodes v) (vm_preferredBlockHash v)
               (if unique then delete hash (vm_mempool v) else vm_mempool v)
               (<[hash := Accepted]> (vm_cachedBlockStatus v)))
  end.

Definition vm_rejectBlock (hash : bytes) (v : SnowmanVM) : SnowmanVM :=
  mkVM (vm_initParams v) (vm_connectedNodes v) (vm_preferredBlockHash v) (delete hash (vm_mempool v))
    (<[hash := Rejected]> (vm_cachedBlockStatus v)).

(** [verifyBlock]: the block is parsed and looked up. *)
Definition vm_verifyBlock (v : SnowmanVM) (raw : bytes) : outcome (option sblock) :=
  b ← sb_parse raw; Ok (vm_getBlock v (sb_hash b)).

Definition vm_setPreference (id : bytes) (v : SnowmanVM) : SnowmanVM :=
  mkVM (vm_initParams v) (vm_connectedNodes v) (FixedStr_ctor 32 id) (vm_mempool v) (vm_cachedBlockStatus v).

(** ** Nodes *)

Definition vm_connectNode (id : bytes) (v : SnowmanVM) : SnowmanVM :=
  mkVM (vm_initParams v) (vm_connectedNodes v ++ [id]) (vm_preferredBlockHash v) (vm_mempool v) (vm_cachedBlockStatus v).

(** The first entry with the id is erased. *)
Fixpoint erase_first (id : bytes) (l : list bytes) : list bytes :=
  match l with [] => [] | x :: l => if bool_decide (x = id) then l else x :: erase_first id l end.
Definition vm_disconnectNode (id : bytes) (v : SnowmanVM) : SnowmanVM :=
  mkVM (vm_initParams v) (erase_first id (vm_connectedNodes v)) (vm_preferredBlockHash v) (vm_mempool v) (vm_cachedBlockStatus v).

(** ** Requests *)

(** The elements a [for] loop over a value visits. *)
Definition json_elements (j : json) : list json :=
  match j with JNull => [] | JArray l => l | JObject o => o.*2 | _ => [j] end.

(** [initialize]: [config] is what [readConfigFile] returns. The seed nodes are
    read and not used. *)
Definition vm_initialize (st : SnowStorage) (request : InitializeRequest) (config : outcome json) : ST SnowmanVM reply :=
  _ ← modify (λ v, mkVM request (vm_connectedNodes v) (vm_preferredBlockHash v) (vm_mempool v) (vm_cachedBlockStatus v));
  config ← lift config;
  '(seeds, _) ← lift (index config (str "seedNodes"));
  _ ← each (λ i, lift (_ ← get_string i; Ok tt)) (json_elements seeds);
  mret (reply_of true true None (sn_latest st)).

(** [parseBlock]: an exception is logged and answered with [false]. *)
Definition vm_parseBlock (st : SnowStorage) (v : SnowmanVM) (raw : bytes) : outcome (option reply) :=
  try_catch
    (b ← sb_parse raw;
     match sn_block st (sb_hash b), vm_getBlock v (sb_hash b) with
     | Some known, _ | None, Some known => Ok (Some (reply_of true false (Some Accepted) known))
     | None, None =>
         let status := if sb_height b <=? sb_height (sn_latest st) then Rejected else Processing in
         Ok (Some (reply_of true false (Some status) b))
     end)
    (λ _, Ok None).

(** [setState]. *)
Definition vm_setState (st : SnowStorage) : reply := reply_of true true None (sn_latest st).

(** [blockRequest]: the new block is always [nullptr]. *)
Definition vm_blockRequest : bool := false.

(** [getBlock(request)]: [None] is the answer with [err] 2 and [Unknown]. *)
Definition vm_getBlock_request (st : SnowStorage) (v : SnowmanVM) (id : bytes) : option reply :=
  let hash := FixedStr_ctor 32 id in
  match sn_block st hash with
  | Some b => Some (reply_of false true (Some Accepted) b)
  | None => reply_of false true (Some (vm_getBlockStatus v hash)) <$> vm_getBlock v hash
  end.

(** The loop of [getAncestors]; [index] and the bound wrap around. [late] is
    whether the time is over after a block; the limit in bytes is compared
    with the number of blocks. [None] when the fuel is used up. *)
Fixpoint ancestors_loop (fuel : nat) (st : SnowStorage) (late : nat → bool) (maxSize head low index : Z)
    (blks : list bytes) : option (outcome bool * list bytes) :=
  if (low <=? index) && (index <=? head) then
    match fuel with
    | O => None
    | S fuel =>
        match sn_byHeight st index with
        | None => Some (Undef, blks)
        | Some b =>
            let blks := blks ++ [sb_bytes b] in
            if (maxSize <? zlen blks) || late (length blks) then Some (Ok false, blks)
            else ancestors_loop fuel st late maxSize head low (u64 (index - 1)) blks
        end
    end
  else Some (Ok true, blks).

Definition vm_getAncestors (fuel : nat) (st : SnowStorage) (late : nat → bool) (maxNum maxSize : Z) (id : bytes)
    : option (outcome bool * list bytes) :=
  match sn_block st (FixedStr_ctor 32 id) with
  | None => Some (Ok false, [])
  | Some head =>
      let depth := if sb_height (sn_latest st) <? maxNum then sb_height (sn_latest st) else maxNum in
      ancestors_loop fuel st late maxSize (sb_height head) (u64 (sb_height head - depth)) (sb_height head) []
  end.

(** ** Runs *)

Inductive vm_step (v : SnowmanVM) : SnowmanVM → Prop :=
  | vs_initialize st request config : vm_step v (vm_initialize st request config v).2
  | vs_status hash status : vm_step v (vm_setBlockStatus hash status v)
  | vs_accept unique hash : vm_step v (vm_acceptBlock unique hash v).2
  | vs_reject hash : vm_step v (vm_rejectBlock hash v)
  | vs_prefer id : vm_step v (vm_setPreference id v)
  | vs_connect id : vm_step v (vm_connectNode id v)
  | vs_disconnect id : vm_step v (vm_disconnectNode id v).

Lemma each_lift {S A} (f : A → outcome unit) (l : list A) (s : S) :
  (each (λ a, lift (f a)) l s).2 = s.
Proof using Type.
  induction l as [|a l IH]; [done|]. cbn. unfold mbind, ST_bind, lift. by destruct (f a).
Qed.

(** [initialize] sets the parameters and nothing else, whether it throws or not. *)
Lemma vm_initialize_params st request config v :
  (vm_initialize st request config v).2 =
  mkVM request (vm_connectedNodes v) (vm_preferredBlockHash v) (vm_mempool v) (vm_cachedBlockStatus v).
Proof.
  unfold vm_initialize, modify, lift. unfold mbind at 1, ST_bind at 1. cbv beta iota.
  destruct config as [c| |]; [|done..]. unfold mbind at 1, ST_bind at 1. cbv beta iota.
  unfold mbind at 1, ST_bind at 1. destruct (index c _) as [[seeds c']| |]; [|done..].
  unfold mbind at 1, ST_bind at 1.
  pose proof (each_lift (λ i, _ ← get_string i; Ok tt) (json_elements seeds)
    (mkVM request (vm_connectedNodes v) (vm_preferredBlockHash v) (vm_mempool v) (vm_cachedBlockStatus v))) as He.
  unfold lift in He. destruct (each _ _ _) as [[[]| |] v'] eqn:E; cbn in He; by subst v'.
Qed.

Lemma vm_step_mempool v v' : vm_step v v' → vm_mempool v = ∅ → vm_mempool v' = ∅.
Proof.
  intros [] Hv; try done.
  - by rewrite vm_initialize_params.
  - unfold vm_acceptBlock. by rewrite Hv, lookup_empty.
  - cbn. rewrite Hv. apply delete_empty.
Qed.

(** Nothing ever enters the mempool: whatever is called, no block is found
    there, none can be verified or accepted, and a block that is not on the
    chain is answered as unknown. *)
Theorem snowman_mempool_empty junk v :
  rtc vm_step (SnowmanVM_ctor junk) v →
  (∀ unique hash, vm_acceptBlock unique hash v = (false, v)) ∧
  (∀ raw b, sb_parse raw = Ok b → vm_verifyBlock v raw = Ok None) ∧
  (∀ st id, sn_block st (FixedStr_ctor 32 id) = None → vm_getBlock_request st v id = None).
Proof.
  intros Hr. assert (vm_mempool v = ∅) as Hm.
  { refine (rtc_ind_r (λ v, vm_mempool v = ∅) _ _ _ _ Hr); [done|]. eauto using vm_step_mempool. }
  unfold vm_acceptBlock, vm_verifyBlock, vm_getBlock_request, vm_getBlock. rewrite Hm.
  split_and!; [done| |].
  - intros raw b Hb. by rewrite Hb, Ok_bind, lookup_empty.
  - intros st id Hid. by rewrite Hid, lookup_empty.
Qed.

(** ** Ancestors *)

(** The blocks from one height down by [d]. *)
Fixpoint down (st : SnowStorage) (h : Z) (d : nat) : option (list bytes) :=
  match sn_byHeight st h with
  | None => None
  | Some b => match d with O => Some [sb_bytes b] | S d => cons (sb_bytes b) <$> down st (h - 1) d end
  end.

Lemma down_length st h d l : down st h d = Some l → length l = S d.
Proof.
  revert h l. induction d as [|d IH]; intros h l; cbn; destruct (sn_byHeight st h); try done.
  - by intros [= <-].
  - destruct (down st (h - 1) d) as [l'|] eqn:E; [|done]. intros [= <-]. cbn. by rewrite (IH _ _ E).
Qed.

(** The loop stops below its lower end, and below 0, where the index wraps. *)
Lemma ancestors_loop_end st late maxSize head low index fuel blks :
  0 ≤ low ≤ head → head < 2 ^ 64 - 1 → low = index →
  ancestors_loop fuel st late maxSize head low (u64 (index - 1)) blks = Some (Ok true, blks).
Proof.
  intros Hlow Hhead <-.
  assert ((low <=? u64 (low - 1)) && (u64 (low - 1) <=? head) = false) as E.
  { destruct (decide (low = 0)) as [->|Hne].
    - change (u64 (0 - 1)) with (2 ^ 64 - 1). rewrite (proj2 (Z.leb_gt _ head)) by lia. apply andb_false_r.
    - unfold u64, wrap. rewrite Z.mod_small by lia. by rewrite (proj2 (Z.leb_gt low _)) by lia. }
  destruct fuel; cbn [ancestors_loop]; by rewrite E.
Qed.

Lemma ancestors_loop_down st late maxSize head d : ∀ index l fuel blks,
  0 ≤ index - Z.of_nat d → index ≤ head → head < 2 ^ 64 - 1 →
  down st index d = Some l → (d < fuel)%nat →
  zlen blks + zlen l ≤ maxSize → (∀ n, late n = false) →
  ancestors_loop fuel st late maxSize head (index - Z.of_nat d) index blks = Some (Ok true, blks ++ l).
Proof.
  induction d as [|d IH]; intros index l [|fuel] blks Hlo Hhi Hhead Hd Hf Hsz Hlate; try lia; cbn [down] in Hd;
    (destruct (sn_byHeight st index) as [b|] eqn:Eb; [|done]); cbn [ancestors_loop];
    rewrite (proj2 (Z.leb_le _ index)), (proj2 (Z.leb_le index head)) by lia; cbn [andb]; rewrite Eb, Hlate, orb_false_r.
  - injection Hd as <-. rewrite (proj2 (Z.ltb_ge _ _)) by (rewrite zlen_app; lia).
    apply ancestors_loop_end; lia.
  - destruct (down st (index - 1) d) as [l'|] eqn:El; [|done]. injection Hd as <-.
    assert (zlen (sb_bytes b :: l') = 1 + zlen l') as Hz by (unfold zlen; cbn [length]; lia).
    assert (0 ≤ zlen l') by (unfold zlen; lia).
    assert (zlen (blks ++ [sb_bytes b]) = zlen blks + 1) as Hb by by rewrite zlen_app.
    rewrite (proj2 (Z.ltb_ge _ _)) by lia.
    replace (u64 (index - 1)) with (index - 1) by (unfold u64, wrap; rewrite Z.mod_small; lia).
    replace (index - Z.of_nat (S d)) with (index - 1 - Z.of_nat d) by lia.
    rewrite (IH (index - 1) l' fuel (blks ++ [sb_bytes b])); [by rewrite <-app_assoc|lia|lia|done|done|lia|lia|done].
Qed.

(** [getAncestors] with enough time and room: asked for [d] blocks of a chain
    of that height or more it returns [d + 1], from the head down, in at most
    [d + 1] rounds of its loop. When the depth, cut to the height of the chain,
    is above the head, the lower end of the loop wraps around: the block's
    ancestors are all there and none is returned. *)
Theorem snowman_ancestors st late fuel maxNum maxSize id head :
  sn_block st (FixedStr_ctor 32 id) = Some head →
  let depth := Z.min maxNum (sb_height (sn_latest st)) in
  0 ≤ depth < 2 ^ 64 - 1 → 0 ≤ sb_height head < 2 ^ 64 - 1 → (∀ n, late n = false) →
  (∀ l, depth ≤ sb_height head → down st (sb_height head) (Z.to_nat depth) = Some l →
     depth < maxSize → (Z.to_nat depth < fuel)%nat →
     vm_getAncestors fuel st late maxNum maxSize id = Some (Ok true, l) ∧ zlen l = depth + 1) ∧
  (sb_height head < depth → vm_getAncestors fuel st late maxNum maxSize id = Some (Ok true, [])).
Proof.
  intros Hid depth Hd Hh Hlate. unfold vm_getAncestors. rewrite Hid.
  replace (if sb_height (sn_latest st) <? maxNum then _ else _) with depth
    by (unfold depth; destruct (Z.ltb_spec (sb_height (sn_latest st)) maxNum); lia).
  split.
  - intros l Hle Hl Hsz Hf. pose proof (down_length _ _ _ _ Hl) as Hlen.
    assert (zlen l = depth + 1) as Hz by (unfold zlen; lia). split; [|done].
    replace (u64 _) with (sb_height head - Z.of_nat (Z.to_nat depth)) by (unfold u64, wrap; rewrite Z.mod_small; lia).
    apply (ancestors_loop_down st late maxSize (sb_height head) (Z.to_nat depth) _ l fuel []); try done; try lia.
    unfold zlen at 1. cbn. lia.
  - intros Hlt. assert (u64 (sb_height head - depth) = sb_height head - depth + 2 ^ 64) as ->.
    { unfold u64, wrap. symmetry. apply (Z.mod_unique _ _ (-1)); lia. }
    destruct fuel; cbn [ancestors_loop]; by rewrite (proj2 (Z.leb_gt _ (sb_height head))) by lia.
Qed.

End SnowmanVM.

(** ** A chain of three blocks *)

(** The toy block is its height and its bytes. *)
Definition toy_snow : SnowChain := {|
  sblock := Z;
  sb_parse raw := match raw with [h] => Ok h | _ => Throw (runtime_error "Invalid block") end;
  sb_hash h := FixedStr_ctor 32 [h];
  sb_prev h := FixedStr_ctor 32 [h - 1];
  sb_height h := h;
  sb_timestamp h := h * 1500000000;
  sb_bytes h := [h];
|}.

Definition toy_snow_storage : @SnowStorage toy_snow :=
  @mkSnowStorage toy_snow 2
    (λ hash, if bool_decide (hash ∈ [FixedStr_ctor 32 [0]; FixedStr_ctor 32 [1]; FixedStr_ctor 32 [2]]) then head hash else None)
    (λ h, if (0 <=? h) && (h <=? 2) then Some h else None).

Lemma snowman_mempool_empty_witness :
  @vm_acceptBlock toy_snow true [1] (@vm_setBlockStatus toy_snow [1] Processing (@SnowmanVM_ctor toy_snow 0)) =
  (false, @vm_setBlockStatus toy_snow [1] Processing (@SnowmanVM_ctor toy_snow 0)).
Proof.
  refine (proj1 (@snowman_mempool_empty toy_snow 0 _ _) true [1]).
  eapply rtc_l; [apply vs_status|reflexivity].
Defined.

Lemma snowman_ancestors_witness :
  @vm_getAncestors toy_snow 5 toy_snow_storage (λ _, false) 1 100 [2] = Some (Ok true, [[2]; [1]]) ∧
  @vm_getAncestors toy_snow 5 toy_snow_storage (λ _, false) 7 100 [1] = Some (Ok true, []).
Proof.
  split.
  - refine (proj1 (proj1 (@snowman_ancestors toy_snow toy_snow_storage (λ _, false) 5 1 100 [2] 2 eq_refl _ _ _) _ _ _ _ _));
      vm_compute; first [reflexivity | split; [discriminate | reflexivity] | discriminate | repeat constructor].
  - refine (proj2 (@snowman_ancestors toy_snow toy_snow_storage (λ _, false) 5 7 100 [1] 1 eq_refl _ _ _) _);
      vm_compute; first [reflexivity | split; [discriminate | reflexivity]].
Defined.
